(* ===== verification/_CoqProject ===== *)
-Q . S2P
Prelude.v
GoStd.v
LocalSock.v
Json.v
Protocol.v
Outbox.v
Breaker.v
GoHeap.v
Libs.v
Auth.v
State.v
Deadline.v
Dedup.v
Contract.v
Objects.v
Printing.v
Balance.v
Management.v
OpenApi.v
Router.v
SdkNames.v
SdkRuntime.v
SdkClient.v
SdkServer.v
SdkLink.v
SdkFlow.v
SdkStream.v
SdkRetry.v
SdkServe.v
SdkSessions.v
Connection.v
Http.v
Streams.v
Calls.v
Registry.v
Invariants.v
Membership.v
Reachable.v
Scenario.v
Tokens.v
Endings.v
Authorization.v
Exposure.v
Guarantees.v
Idempotency.v
Selection.v
GoText.v
PyLiteral.v
Literals.v
TypeNames.v
PyClient.v
TsClient.v
GoClient.v
Packages.v
Codegen.v
Golden.v
SdkSchema.v
SdkValidate.v
SdkTypes.v
SdkMarshal.v
SdkEncoding.v
SdkInject.v
Injection.v
SdkService.v
SdkContract.v
SdkConnections.v
Connecting.v
SdkCalls.v
SdkReflect.v
Reflecting.v
