(* ===== verification/Prelude.v ===== *)
(** * MeshCall: a verified model of the Router, its code generators and the Go SDK

    MeshCall connects clients to service instances through a Router: peers
    speak JSON frames over WebSockets (or plain HTTP), instances register
    services with portable contracts, and the Router authenticates, balances,
    forwards, limits, expires, deduplicates and drains calls.  This development
    models the Go packages meshcall-router/internal/router, internal/contract,
    internal/localsock and internal/codegen with the command [meshcall generate]
    (internal/cli/generate.go), and from the Go SDK, meshcall-go, the calls of
    clients and servers, service declarations and their contracts, the schemas of
    Go types with their validation, and dependency injection.  File names below are of src/meshcall-router/internal/ unless they
    are said to be of the SDK.

    ** Reading the model

    State is explicit: an operation under [Router.mu] is a function on the record
    [Router] (State.v), and the mutex makes it one atomic step.  Go objects that
    are shared by pointer (peers, routes, deduplication entries) live in three
    stores of the Router, indexed by number; a pointer is its number, so aliasing
    is as in the code.  Time is an argument (nanoseconds).  What a step cannot
    determine comes from an environment [Env]: the clock, [rand.IntN], random bytes
    and the order in which a Go map is visited; [env_ok] states what Go promises of
    them.  SHA-256, PBKDF2 and float formatting are the classes [Crypto] and
    [Floats]; what the operating system answers to [Start] is a [Platform].  The
    tables of package unicode are the class [Unicode], the kinds of floats
    [FloatKinds]; loading a contract, go/format and writing files are a [Tools].
    For the SDK, package reflect is a table of types (class [Types] of SdkSchema), and
    what encoding/json makes of a number is [AnyValues] and [Truncation].

    ** Files

    - Prelude, GoStd, Json: notations, record update, generic lemmas; strings,
      integers and sorting of Go's library; encoding/json (scanner, decoder with
      case-insensitive fields, Marshal, Compact).
    - LocalSock: internal/localsock.  Protocol: router/protocol.go.
    - Outbox: router/queue.go.  Breaker: router/breaker.go.
    - GoHeap: container/heap as written and its refinement to a heap order.
    - Libs: hex, base64url and the parameters.  Auth: router/auth.go.
    - State: the records of router.go, dedup.go, balance.go and metrics.go.
    - Deadline, Dedup, Balance, Management: the files of those names.
    - Contract: internal/contract (contract.go and json.go).  Printing: what
      its Encode writes, DecodeOrdered reads back.  Objects: lemmas on ordered
      objects and the size of values.
    - OpenApi: router/openapi.go.
    - Router: Start, registration, forwarding, drain, removal, Close, Snapshot.
    - Connection: [handle] as a state machine; [System] is the Router with the
      phases of its connections.
    - Http: router/httpapi.go; Streams: runs of its stream handlers.
    - Calls, Registry, Invariants, Membership: the invariant of the Router's
      state, in two halves (calls and deadlines and deduplication; instances and
      pools), and its preservation by every operation.
    - Reachable: the steps of a running Router as an inductive relation and the
      theorem that every reachable state satisfies the invariant.
    - Scenario: a concrete run (connect, register, call, answer, replay, cancel)
      whose states are proved reachable; the witnesses evaluate on it.
    - Tokens: temporary tokens from issue to check.  Authorization: the permission
      invariant of calls and registrations.  Exposure: what the OpenAPI document
      shows.
    - Endings, Guarantees, Idempotency, Selection: the theorems about the Router.
    - SdkNames (service.go of the SDK): service names.  SdkRuntime (errors.go,
      frame.go, runtime.go): errors, frames, credit windows.  SdkClient (client.go)
      and SdkServer (server.go): one call at either end.  Here several goroutines
      work on one object: a goroutine is a list of actions, an action is one
      section under a mutex, and [cexec] and [sexec] run one and answer with what
      the goroutine does next and what it sends.
    - SdkLink: a client call, the Router's route (with [credit] and [allowedFrame]
      of the Router files) and a server call, joined by FIFO lines; every
      interleaving is a path of [link_step].  SdkFlow: the invariant and its
      preservation by each section.  SdkStream: the guarantees, and schedules that
      show where they end.
    - SdkRetry: [Client.retry].  SdkServe: the sessions of a server and all their
      calls, with [session.open] in its sections and [server.inflight] shared by
      the sessions; SdkSessions: the invariant and what follows for callers.
    - GoText: strings, regexp, strconv and unicode as the generators use them.
      PyLiteral (pyliteral.go), TypeNames (registry.go), PyClient (python.go),
      TsClient (typescript.go), GoClient (golang.go): the generators, functions
      that return a text or panic ([gen]).  Packages: packages.go and [Generate].
    - Literals: readers of Python and JSON literals, and the round trips.  Codegen:
      the theorems about the generators.  Golden: a contract of testdata and the
      files that the repository's tests expect for it.
    - SdkSchema: schema.go of the SDK.  SdkValidate: what a schema means, the relation
      [conforms], and that [check] decides it.  SdkTypes: which schema a type has, and
      that schemas are well-formed.  SdkMarshal and SdkEncoding join them: the schema
      of a type, validation, and the texts that encoding/json writes.
    - SdkInject: the injection of di.go; Injection: its theorems.
    - SdkService: service.go.  SdkContract: its contracts against internal/contract
      and its registrations against the Router.
    - SdkConnections: the connection manager of client.go (connecting, failover, the
      reader, [Close]), again as goroutines made of sections; Connecting: its invariant.
    - SdkCalls: call options, deadlines, typed calls (client.go) and endpoints
      (transport.go), joined with the handlers of SdkService.

    ** What is proved

    - Guarantees: in every state reachable from a configuration [Start] accepts,
      the counters are exact, the limits hold, pools, deadline heap, drain signal
      and deduplication table agree with the routes and peers; expiry ends exactly
      the overdue calls; a departing peer leaves nothing; [Close] ends every call; every
      call in flight and every registration is permitted to its owner.
    - Tokens: an issued token grants no more than its issuer has, and a request
      that bears it is authenticated with exactly that until it expires.
    - Exposure: the document has exactly the operations its reader may call, and
      component names never clash.
    - Printing: decoding a printed value gives the value, strings, numbers and
      member order included.
    - Outbox and Breaker: refinement of abstract specifications (a FIFO queue per
      call; the breaker as a function of the history), fairness and bounds.
    - Selection: the chosen instance is eligible; each policy does what it says;
      sticky keys do not depend on member order.
    - Idempotency: a keyed call is executed once and replayed; keys are injective.
    - Streams: the credit discipline of HTTP streams.
    - SdkStream: with one sender of input, a stream never violates flow control,
      arrives in order and complete, and neither end buffers more than it granted.
      SdkRuntime: no waiter for credit sleeps through its wake-up.  SdkNames: the
      SDK and the Router agree on service names.
    - SdkRetry: retries are bounded, keep to the timeout and repeat only what may
      be repeated.  SdkSessions: [server.inflight] is exact, a call is answered
      once, and the capacity holds up to one call per further connection.
    - Literals: a generated Python string or JSON default denotes the value of the
      contract.  TypeNames: every type is one root, each definition has a name that
      denotes it, and where names are unique.  Codegen: every schema is rendered by a
      terminating recursion, generated names are identifiers and no keywords, a
      docstring denotes the description, and [Generate] writes all files or reports
      an error.  Golden: the model yields single.py and single.ts byte for byte.
    - SdkMarshal: validation ends and decides [conforms]; the recursion on types ends
      for ranked types.  SdkEncoding: what a Go client sends passes validation.
    - Injection: providers are accepted iff their dependencies are acyclic; a call
      acquires each dependency once, before what needs it, and releases all in reverse.
    - SdkContract: a contract that is written is read back, and the Router accepts
      what a declared service registers.
    - Connecting: one goroutine connects at a time, a pass tries every endpoint once,
      no call is left hanging when a connection is lost or the client closed.  SdkCalls:
      a typed call returns what the handler returned; the deadlines of a call are nested.
    - Theorems about defects of the code, stated as the code behaves:
      [cancel_strands_entry], [rebuildMethods_mixes_services],
      [probe_lost_in_selection], [client_credit_wraps], [two_senders_out_of_order],
      [idle_race_protocol_error], [oversized_output_gap],
      [retry_deadline_drops_attempts], [capacity_race], [docstring_trailing_quote],
      [type_name_clash], [generate_hides_errors], [nil_slice_rejected],
      [optional_enum_unchecked], [schemaOf_diverges], [nested_header_late],
      [cleanup_panic_leaks], [unnamed_struct_unreadable], [close_undone],
      [endless_timeout_expires], [unencodable_item_lost].

    ** Fuel

    Recursions on strings carry the length of the string as fuel and consume a
    byte per step; [parse_value] also counts the 10000 levels of nesting that
    encoding/json allows.  Heap loops and the expiry loop carry the length of the
    heap; the eviction loop the length of the order; each removes an element.  The
    generators recurse on schemas with the size of the schema as fuel;
    [types_rendered] shows that more fuel gives the same text and that the
    recursion equations hold.  [schemaOf] carries fuel for the recursion on types;
    [schemaOf_terminates] gives an amount that is enough, and [schemaOf_diverges] a type
    for which none is.  [check] carries the size of schema and value, which
    [validate_decides] shows enough; the depth-first search and the resolution of
    dependencies carry the number of types mentioned.

    ** Not modelled

    Goroutine scheduling below the granularity of [Router.mu], WebSocket framing
    and TLS (libraries), listening and serving, timers (the expiry loop's wake-up
    is a step), read deadlines and flushing of HTTP responses; the command line
    apart from [generate]'s work, skill files and the conformance suite.  Of the
    Go SDK: backoff delays and pings, the reading of Go method signatures and comments
    by [ReflectService], the HTTP caller, the mesh of router.go (processes, files and
    sockets) and the WebSocket library.  In SdkLink every frame is sent: a connection
    that is lost ends the call with it.  The Python and TypeScript SDKs. *)
From Stdlib Require Export ZArith Lia.
From Stdlib Require Export Ascii.
From stdpp Require Export base gmap strings list functions pretty sorting.
From coqutil Require Export Datatypes.RecordSetters.
Export DoubleBraceUpdate.

#[global] Set Warnings "-register-all,-abstract-large-number,-clear-no-such-hyp".

(** A scope for the notations of this development. *)
Declare Scope go_scope.
Delimit Scope go_scope with go.

(** [r |> f] threads a state through an operation, so that a sequence of Go
    statements reads from top to bottom. *)
Notation "r |> f" := (f r)
  (at level 61, left associativity, only parsing) : go_scope.
#[global] Open Scope go_scope.

(** ** Record update

    [r {{ field := v }}] and [r {{ field ::= f }}] update one field of a record
    (the notation is coqutil's).  A record declares its [Eta] expansion, from
    which the setters are built, so that a projection of an updated record
    reduces to a projection of the original one. *)
Class Eta (R : Type) : Type := eta : R -> R.

Ltac eta_setter R E get :=
  let t := constr:(fun (setter_fn : E -> E) (setter_rec : R) =>
    ltac:(let b := eval hnf in (@eta R _) in
          let b := eval cbv beta in (b setter_rec) in
          match (eval pattern (get setter_rec) in b) with
          | ?c _ => let r := eval cbv beta in (c (setter_fn (get setter_rec))) in exact r
          end)) in
  exact t.
#[global] Hint Extern 0 (@Setter ?R ?E ?get) =>
  eta_setter R E get : typeclass_instances.

#[global] Arguments gmap_lookup : simpl never.
#[global] Arguments RecordSetters.constant {_} _ /.

(** The ASCII double quote, which JSON text needs everywhere. *)
Definition dq : ascii := "034"%char.
Definition dqs : string := String dq EmptyString.

(** A JSON text with ['] for the quotation mark. *)
Fixpoint text (s : string) : string :=
  match s with
  | EmptyString => EmptyString
  | String c s => String (if Ascii.eqb c "'" then dq else c) (text s)
  end.
(** NUL, the separator of composite map keys. *)
Definition nul : ascii := "000"%char.
Definition nuls : string := String nul EmptyString.

(** Hint databases: [go] for the generic lemmas on lists, maps and integers
    that close routine side conditions, [go_rw] for unfolding equations. *)
Create HintDb go.

(** ** Tactics *)

(** Splits every conditional and match of the goal, in order. *)
Ltac case_all := repeat (case_match; simplify_eq/=).

(** Turns boolean hypotheses into propositions. *)
Ltac unbool :=
  repeat match goal with
  | H : (_ && _)%bool = true |- _ => apply andb_true_iff in H; destruct H
  | H : (_ || _)%bool = false |- _ => apply orb_false_iff in H; destruct H
  | H : negb _ = true |- _ => apply negb_true_iff in H
  | H : negb _ = false |- _ => apply negb_false_iff in H
  | H : (_ =? _)%Z = true |- _ => apply Z.eqb_eq in H
  | H : (_ =? _)%Z = false |- _ => apply Z.eqb_neq in H
  | H : (_ <? _)%Z = true |- _ => apply Z.ltb_lt in H
  | H : (_ <? _)%Z = false |- _ => apply Z.ltb_ge in H
  | H : (_ <=? _)%Z = true |- _ => apply Z.leb_le in H
  | H : (_ <=? _)%Z = false |- _ => apply Z.leb_gt in H
  | H : String.eqb _ _ = true |- _ => apply String.eqb_eq in H
  | H : String.eqb _ _ = false |- _ => apply String.eqb_neq in H
  | H : bool_decide _ = true |- _ => apply bool_decide_eq_true_1 in H
  | H : bool_decide _ = false |- _ => apply bool_decide_eq_false_1 in H
  end.

(** ** Functions used as stores of objects *)

(** A Go heap of objects of type [A], addressed by pointers: dereferencing a
    non-nil pointer always succeeds, so the store is a total function. *)
Abbreviation heap_of A := (nat -> A) (only parsing).

Definition update {A : Type} (p : nat) (f : A -> A) (h : nat -> A) : nat -> A :=
  fun q => if decide (q = p) then f (h q) else h q.

Lemma update_eq {A} p (f : A -> A) h : update p f h p = f (h p).
Proof. unfold update. by rewrite decide_True. Qed.

Lemma update_ne {A} p q (f : A -> A) h : q <> p -> update p f h q = h q.
Proof. intros. unfold update. by rewrite decide_False. Qed.

Lemma update_field {A B} (g : A -> B) p (f : A -> A) h q :
  (forall x, g (f x) = g x) -> g (update p f h q) = g (h q).
Proof. intros Hg. unfold update. case_decide; auto. Qed.

(** ** Lists *)

Lemma Forall_remove {A} (P : A -> Prop) l i :
  Forall P l -> Forall P (delete i l).
Proof.
  rewrite !list.Forall_forall. intros H x Hx. apply H.
  apply list_elem_of_lookup in Hx as [j Hj]. rewrite list_elem_of_lookup.
  destruct (decide (j < i)).
  - exists j. by rewrite list_lookup_delete_lt in Hj.
  - exists (S j). rewrite list_lookup_delete_ge in Hj; [done|lia].
Qed.

Lemma Forall_last {A} (P : A -> Prop) l x :
  Forall P (l ++ [x]) <-> Forall P l /\ P x.
Proof. rewrite Forall_app, Forall_singleton. done. Qed.

(** ** Sums *)

Definition sum_with {A} (f : A -> Z) (l : list A) : Z :=
  foldr (fun x acc => (f x + acc)%Z) 0%Z l.

Lemma sum_with_cons {A} (f : A -> Z) x l : sum_with f (x :: l) = (f x + sum_with f l)%Z.
Proof. done. Qed.

Lemma sum_with_app {A} (f : A -> Z) l k :
  sum_with f (l ++ k) = (sum_with f l + sum_with f k)%Z.
Proof. induction l as [|x l IH]; simpl; [done|]. rewrite IH. lia. Qed.

Lemma sum_with_perm {A} (f : A -> Z) l k : l ≡ₚ k -> sum_with f l = sum_with f k.
Proof. induction 1; simpl; lia. Qed.

Lemma sum_with_ext {A} (f g : A -> Z) l :
  (forall x, x ∈ l -> f x = g x) -> sum_with f l = sum_with g l.
Proof.
  induction l as [|x l IH]; simpl; intros H; [done|].
  rewrite H, IH; [done| |]; set_solver.
Qed.

Lemma sum_with_nonneg {A} (f : A -> Z) l :
  (forall x, x ∈ l -> (0 <= f x)%Z) -> (0 <= sum_with f l)%Z.
Proof.
  induction l as [|x l IH]; simpl; intros H; [done|].
  assert (0 <= f x)%Z by (apply H; set_solver).
  assert (0 <= sum_with f l)%Z by (apply IH; set_solver). lia.
Qed.

Lemma sum_with_delete {A} (f : A -> Z) l i x :
  l !! i = Some x -> sum_with f (delete i l) = (sum_with f l - f x)%Z.
Proof.
  revert i. induction l as [|y l IH]; intros [|i] H; simplify_eq/=; [lia|].
  rewrite (IH i H). lia.
Qed.

(** A list among others: what surrounds its first element. *)
Lemma concat_at {A} (l : list (list A)) i a acts : l !! i = Some (a :: acts) ->
  exists X Y, concat l = X ++ a :: Y /\
    forall next, concat (<[i := next ++ acts]> l) = X ++ next ++ Y.
Proof.
  revert i. induction l as [|b l IH]; intros [|i] H; simplify_eq/=.
  - exists [], (acts ++ concat l). split; [done|]. intros next. by rewrite <- app_assoc.
  - destruct (IH i H) as (X & Y & -> & Hn). exists (b ++ X), Y. split; [by rewrite <- app_assoc|].
    intros next. by rewrite Hn, <- app_assoc.
Qed.

(** ** Sets *)

(** Among one more different names than are taken one is free. *)
Lemma one_is_free {A} `{Countable A} (f : nat -> A) (taken : gset A) :
  (forall i j, f i = f j -> i = j) -> exists i, (i <= size taken)%nat /\ f i ∉ taken.
Proof.
  intros Hf. destruct (decide (Forall (fun x => x ∈ taken) (f <$> seq 0 (S (size taken))))) as [Hall|Hn].
  - exfalso. assert (NoDup (f <$> seq 0 (S (size taken)))) as Hnd.
    { apply NoDup_fmap_2; [intros ??; apply Hf|apply NoDup_seq]. }
    assert (size (list_to_set (C := gset A) (f <$> seq 0 (S (size taken)))) <= size taken)%nat as Hle.
    { apply subseteq_size. intros x. rewrite elem_of_list_to_set. revert x. by apply list.Forall_forall. }
    rewrite size_list_to_set, length_fmap, length_seq in Hle by done. lia.
  - apply not_Forall_Exists, Exists_exists in Hn as (x & Hx & Hfree); [|apply _].
    apply list_elem_of_fmap in Hx as (i & -> & Hi%elem_of_seq). exists i. split; [lia|done].
Qed.

#[export] Hint Resolve Forall_remove sum_with_nonneg : go.
#[export] Hint Extern 1 (_ <= _)%Z => lia : go.
#[export] Hint Extern 1 (_ < _)%Z => lia : go.
