(* ===== verification/GoStd.v ===== *)
(** * The Go standard library, as far as the modelled code uses it

    Go strings are byte strings, [string] here (a sequence of 8-bit [ascii]).
    A Go [int] or [int64] is a [Z]; the places where the code can overflow use
    [int64] below.  [strings], [slices] and [sort] functions carry their Go
    names. *)
From S2P Require Import Prelude.

#[local] Arguments String.append !_ _ / : simpl nomatch.

(** ** Machine integers *)

Definition MaxInt64 : Z := 9223372036854775807.
Definition MinInt64 : Z := -9223372036854775808.

(** Two's complement wrap-around of a 64-bit signed result. *)
Definition int64 (z : Z) : Z := (z + 2 ^ 63) `mod` 2 ^ 64 - 2 ^ 63.

(** ** Package time: durations in nanoseconds *)

Definition Nanosecond : Z := 1.
Definition Microsecond : Z := 1000.
Definition Millisecond : Z := 1000000.
Definition Second : Z := 1000000000.
Definition Minute : Z := 60 * Second.

(** ** Package strings *)

Definition HasPrefix (s p : string) : bool := String.prefix p s.

Fixpoint drop_bytes (n : nat) (s : string) : string :=
  match n, s with
  | S n, String _ s => drop_bytes n s
  | _, _ => s
  end.

Fixpoint take_bytes (n : nat) (s : string) : string :=
  match n, s with
  | S n, String c s => String c (take_bytes n s)
  | _, _ => EmptyString
  end.

Definition HasSuffix (s p : string) : bool :=
  (String.length p <=? String.length s)%nat
  && String.eqb (drop_bytes (String.length s - String.length p) s) p.

Definition TrimPrefix (s p : string) : string :=
  if HasPrefix s p then drop_bytes (String.length p) s else s.

Fixpoint ContainsByte (s : string) (c : ascii) : bool :=
  match s with
  | EmptyString => false
  | String d s => Ascii.eqb c d || ContainsByte s c
  end.

(** [ContainsAny s chars]: some byte of [chars] occurs in [s] (the code only
    passes ASCII sets). *)
Fixpoint ContainsAny (s chars : string) : bool :=
  match chars with
  | EmptyString => false
  | String c chars => ContainsByte s c || ContainsAny s chars
  end.

(** [Split sep s] for a one-byte separator: never empty. *)
Fixpoint Split (sep : ascii) (s : string) : list string :=
  match s with
  | EmptyString => [EmptyString]
  | String c s =>
      if Ascii.eqb c sep then EmptyString :: Split sep s
      else match Split sep s with
           | [] => [String c EmptyString]
           | w :: ws => String c w :: ws
           end
  end.

(** [Cut s sep] for a one-byte separator: text before, text after, found. *)
Fixpoint Cut (sep : ascii) (s : string) : string * string * bool :=
  match s with
  | EmptyString => (EmptyString, EmptyString, false)
  | String c s =>
      if Ascii.eqb c sep then (EmptyString, s, true)
      else let '(before, after, ok) := Cut sep s in
           (String c before, after, ok)
  end.

Fixpoint Join (sep : string) (l : list string) : string :=
  match l with
  | [] => EmptyString
  | [s] => s
  | s :: l => s +:+ sep +:+ Join sep l
  end.

(** Position of the last occurrence of a byte, or -1. *)
Fixpoint LastIndexByte_from (i last : Z) (s : string) (c : ascii) : Z :=
  match s with
  | EmptyString => last
  | String d s =>
      LastIndexByte_from (i + 1) (if Ascii.eqb c d then i else last) s c
  end.
Definition LastIndexByte (s : string) (c : ascii) : Z :=
  LastIndexByte_from 0 (-1) s c.

Definition lower_byte (c : ascii) : ascii :=
  let n := nat_of_ascii c in
  if (65 <=? n)%nat && (n <=? 90)%nat then ascii_of_nat (n + 32) else c.
Fixpoint lower_ascii (s : string) : string :=
  match s with
  | EmptyString => EmptyString
  | String c s => String (lower_byte c) (lower_ascii s)
  end.

Definition is_space_byte (c : ascii) : bool :=
  let n := nat_of_ascii c in
  ((9 <=? n)%nat && (n <=? 13)%nat) || (n =? 32)%nat.
Fixpoint trim_left (s : string) : string :=
  match s with
  | String c s' => if is_space_byte c then trim_left s' else s
  | EmptyString => EmptyString
  end.
Fixpoint string_rev_onto (s acc : string) : string :=
  match s with
  | EmptyString => acc
  | String c s => string_rev_onto s (String c acc)
  end.
Definition string_rev (s : string) : string := string_rev_onto s EmptyString.
(** [bytes.TrimSpace] on ASCII space. *)
Definition TrimSpace (s : string) : string :=
  string_rev (trim_left (string_rev (trim_left s))).

Definition slen (s : string) : Z := Z.of_nat (String.length s).

Definition is_empty (s : string) : bool := String.eqb s EmptyString.

(** ** Package slices *)

Definition Contains (l : list string) (s : string) : bool :=
  existsb (String.eqb s) l.

Definition ContainsFunc {A} (l : list A) (f : A -> bool) : bool := existsb f l.

Fixpoint DeleteFunc {A} (l : list A) (f : A -> bool) : list A :=
  match l with
  | [] => []
  | x :: l => if f x then DeleteFunc l f else x :: DeleteFunc l f
  end.

(** [strings.Compare] orders byte-wise; [string_le] is the order it sorts by. *)
Definition string_le (a b : string) : Prop := String.leb a b = true.
#[global] Instance string_le_dec : RelDecision string_le.
Proof. intros a b. unfold string_le. apply _. Defined.

(** [slices.SortFunc] by a string key and [slices.Sort]. *)
Definition le_by {A} (key : A -> string) (a b : A) : Prop :=
  string_le (key a) (key b).
#[global] Instance le_by_dec {A} (key : A -> string) : RelDecision (le_by key).
Proof. intros a b. unfold le_by. apply _. Defined.
Definition SortBy {A} (key : A -> string) (l : list A) : list A :=
  merge_sort (le_by key) l.
Definition Sort (l : list string) : list string := merge_sort string_le l.

(** ** Lemmas: integers *)

Lemma int64_range z : (MinInt64 <= int64 z <= MaxInt64)%Z.
Proof.
  unfold int64, MinInt64, MaxInt64.
  pose proof (Z.mod_pos_bound (z + 2 ^ 63) (2 ^ 64) ltac:(lia)). lia.
Qed.

Lemma int64_id z : (MinInt64 <= z <= MaxInt64)%Z -> int64 z = z.
Proof.
  unfold int64, MinInt64, MaxInt64. intros.
  rewrite Z.mod_small; lia.
Qed.
Lemma int64_plus (n k : Z) : (int64 (int64 n + k) = int64 (n + k))%Z.
Proof.
  unfold int64. f_equal.
  replace ((n + 2 ^ 63) `mod` 2 ^ 64 - 2 ^ 63 + k + 2 ^ 63)%Z with ((n + 2 ^ 63) `mod` 2 ^ 64 + k)%Z by lia.
  rewrite Z.add_mod_idemp_l by lia. f_equal. lia.
Qed.

(** ** Lemmas: strings *)

Lemma append_nil_r s : s +:+ EmptyString = s.
Proof. induction s; simpl; congruence. Qed.

Lemma append_assoc s t u : (s +:+ t) +:+ u = s +:+ (t +:+ u).
Proof. induction s; simpl; congruence. Qed.

Lemma append_inj_l s t u : s +:+ t = s +:+ u -> t = u.
Proof. induction s; simpl; [done|]. intros [=]. auto. Qed.

Lemma length_append s t : String.length (s +:+ t) = (String.length s + String.length t)%nat.
Proof. induction s; simpl; lia. Qed.

Lemma append_cons c s t : String c s +:+ t = String c (s +:+ t).
Proof. done. Qed.

Lemma ContainsByte_app s t c :
  ContainsByte (s +:+ t) c = ContainsByte s c || ContainsByte t c.
Proof. induction s as [|d s IH]; simpl; [done|]. rewrite IH. by destruct (Ascii.eqb c d). Qed.

(** A separator that occurs in neither prefix splits a concatenation in one
    way only. *)
Lemma append_sep_inj (c : ascii) a b x y :
  ContainsByte a c = false -> ContainsByte b c = false ->
  a +:+ String c x = b +:+ String c y -> a = b /\ x = y.
Proof.
  revert b. induction a as [|d a IH]; intros [|e b]; simpl; intros Ha Hb Heq.
  - by simplify_eq.
  - simplify_eq. by rewrite Ascii.eqb_refl in Hb.
  - simplify_eq. by rewrite Ascii.eqb_refl in Ha.
  - simplify_eq. apply orb_false_iff in Ha as [_ Ha].
    apply orb_false_iff in Hb as [_ Hb].
    destruct (IH b Ha Hb) as [-> ->]; done.
Qed.

Lemma Split_nonempty c s : Split c s <> [].
Proof. destruct s; simpl; [done|]. case_all; done. Qed.

Lemma prefix_app p s : String.prefix p (p +:+ s) = true.
Proof. induction p; simpl; [by destruct s|]. case_match; congruence. Qed.

Lemma prefix_spec p s : String.prefix p s = true <-> exists t, s = p +:+ t.
Proof.
  split; [|intros [t ->]; apply prefix_app].
  revert s. induction p as [|c p IH]; intros s H; [by exists s|].
  destruct s as [|d s]; simpl in H; [done|].
  case_match; [|done]. subst. destruct (IH s H) as [t ->]. by exists t.
Qed.

Lemma HasPrefix_app p s : HasPrefix (p +:+ s) p = true.
Proof. apply prefix_app. Qed.

Lemma drop_bytes_app p s : drop_bytes (String.length p) (p +:+ s) = s.
Proof. induction p; simpl; auto. Qed.

Lemma TrimPrefix_app p s : TrimPrefix (p +:+ s) p = s.
Proof. unfold TrimPrefix. rewrite HasPrefix_app. apply drop_bytes_app. Qed.

(** ** Lemmas: slices *)

Lemma Contains_spec l s : Contains l s = true <-> s ∈ l.
Proof.
  unfold Contains. rewrite existsb_exists, list_elem_of_In. split.
  - intros (x & Hx & ->%String.eqb_eq). done.
  - intros Hs. exists s. by rewrite String.eqb_refl.
Qed.

Lemma elem_of_DeleteFunc {A} (l : list A) f x :
  x ∈ DeleteFunc l f <-> x ∈ l /\ f x = false.
Proof.
  induction l as [|y l IH]; simpl; [set_solver|].
  destruct (f y) eqn:E; rewrite ?elem_of_cons, IH; split.
  - intros [? ?]; auto.
  - intros [[->|?] ?]; [congruence|auto].
  - intros [->|[? ?]]; auto.
  - intros [[->|?] ?]; auto.
Qed.

Lemma DeleteFunc_sublist {A} (l : list A) f : DeleteFunc l f `sublist_of` l.
Proof. induction l; simpl; [constructor|]. case_match; by constructor. Qed.

Lemma DeleteFunc_none {A} (l : list A) f :
  (forall x, x ∈ l -> f x = false) -> DeleteFunc l f = l.
Proof.
  induction l as [|y l IH]; simpl; intros H; [done|].
  rewrite (H y) by set_solver. rewrite IH; [done|]. intros x Hx. apply H. set_solver.
Qed.

(** ** Lemmas: the order of [strings.Compare] *)

#[global] Instance string_le_total : Total string_le.
Proof.
  intros a b. unfold string_le, String.leb.
  rewrite (String.compare_antisym a b). by destruct (String.compare b a); auto.
Qed.

#[global] Instance string_le_antisymm : AntiSymm (=) string_le.
Proof.
  intros a b. unfold string_le, String.leb.
  rewrite (String.compare_antisym a b).
  destruct (String.compare b a) eqn:E; simpl; try done.
  by apply String.compare_eq_iff in E as ->.
Qed.

Lemma ascii_compare_lt_trans a b c :
  Ascii.compare a b = Lt -> Ascii.compare b c = Lt -> Ascii.compare a c = Lt.
Proof. unfold Ascii.compare. rewrite !N.compare_lt_iff. lia. Qed.

Lemma ascii_compare_eq a b : Ascii.compare a b = Eq -> a = b.
Proof.
  unfold Ascii.compare. intros H%N.compare_eq_iff.
  rewrite <- (ascii_N_embedding a), <- (ascii_N_embedding b). congruence.
Qed.

#[global] Instance string_le_trans : Transitive string_le.
Proof.
  intros a b c. unfold string_le, String.leb. revert b c.
  induction a as [|x a IH]; intros [|y b] [|z c]; simpl; try done.
  destruct (Ascii.compare x y) eqn:E1, (Ascii.compare y z) eqn:E2; try done.
  - apply ascii_compare_eq in E1 as ->. rewrite E2. apply IH.
  - apply ascii_compare_eq in E1 as ->. by rewrite E2.
  - apply ascii_compare_eq in E2 as ->. by rewrite E1.
  - by rewrite (ascii_compare_lt_trans x y z).
Qed.

#[global] Instance le_by_total {A} (key : A -> string) : Total (le_by key).
Proof. intros a b. apply (total string_le). Qed.
#[global] Instance le_by_trans {A} (key : A -> string) : Transitive (le_by key).
Proof. intros a b c. apply (transitivity (R := string_le)). Qed.

Lemma SortBy_Permutation {A} (key : A -> string) l : SortBy key l ≡ₚ l.
Proof. apply merge_sort_Permutation. Qed.
Lemma Sort_Permutation l : Sort l ≡ₚ l.
Proof. apply merge_sort_Permutation. Qed.
Lemma SortBy_sorted {A} (key : A -> string) l :
  StronglySorted (le_by key) (SortBy key l).
Proof. apply StronglySorted_merge_sort; apply _. Qed.
Lemma Sort_sorted l : StronglySorted string_le (Sort l).
Proof. apply StronglySorted_merge_sort; apply _. Qed.

(** Sorting does not depend on the order a Go map was iterated in. *)
Lemma Sort_unique l k : l ≡ₚ k -> Sort l = Sort k.
Proof.
  intros H. apply (StronglySorted_unique string_le);
    [apply Sort_sorted..|]. by rewrite !Sort_Permutation.
Qed.

#[export] Hint Resolve Sort_sorted SortBy_sorted int64_range : go.
