(* ===== verification/LocalSock.v ===== *)
(** * Local transports: internal/localsock

    Pipe names, the platform's choice between Unix sockets and named pipes, and
    the Router URLs tools accept.  What the operating system answers to [Start]
    is a [Platform]. *)
From S2P Require Import Prelude GoStd.
#[local] Open Scope Z_scope.

(** ** Definitions *)

(** [\\.\pipe\]. *)
Definition PipePrefix : string := "\\.\pipe\".

Definition ErrUnixOnWindows : string :=
  "Unix sockets are not supported on Windows; use a named pipe (--pipe NAME, pipe://NAME)".
Definition ErrPipeOffWindows : string :=
  "named pipes are Windows-only; use a Unix socket (--unix-socket PATH, unix:///path)".

(** The build's platform and the operating system's answers; an error is its text. *)
Record Platform := MkPlatform {
  pf_windows : bool;
  pf_quote : string -> string;              (* %q *)
  pf_abs : string -> string + string;       (* filepath.Abs *)
  pf_exists : string -> bool;               (* Lstat gave anything but ErrNotExist *)
  pf_mkdir : string -> option string;       (* MkdirAll of the path's directory *)
  pf_listen : string -> string -> option string;   (* network, address *)
  pf_metrics : string -> option string      (* startMetrics *) }.

Definition UnixSupported (pf : Platform) : bool := negb (pf_windows pf).
Definition pipesSupported (pf : Platform) : bool := pf_windows pf.

(** [ListenPipe]: off Windows it fails. *)
Definition ListenPipe (pf : Platform) (name : string) : option string :=
  if pf_windows pf then pf_listen pf "pipe" name else Some ErrPipeOffWindows.

Definition PipeName (pf : Platform) (name : string) : string + string :=
  let name := TrimPrefix name PipePrefix in
  if is_empty name || (256 <? slen name) || ContainsByte name "\"
  then inl ("invalid pipe name " +:+ pf_quote pf name +:+ ": 1-256 characters, no backslash")
  else inr name.

(** What a parsed Router URL dials. *)
Inductive Dial := DialTCP | DialNamedPipe (name : string) | DialUnix (path : string).
Record Endpoint := MkEndpoint { ep_URL : string; ep_Dial : Dial; ep_Display : string }.

Definition Parse_endpoint (pf : Platform) (raw : string) : string + Endpoint :=
  if HasPrefix raw "pipe://" then
    if negb (pipesSupported pf) then inl ErrPipeOffWindows
    else match PipeName pf (TrimPrefix raw "pipe://") with
    | inl err => inl err
    | inr name => inr (MkEndpoint "ws://localhost/" (DialNamedPipe name) raw)
    end
  else if HasPrefix raw "unix://" then
    if negb (UnixSupported pf) then inl ErrUnixOnWindows
    else
      let path := TrimPrefix raw "unix://" in
      if is_empty path then inl "unix:// needs a socket path, e.g. unix:///run/meshcall.sock"%string
      else inr (MkEndpoint "ws://localhost/" (DialUnix path) raw)
  else inr (MkEndpoint raw DialTCP raw).
