(* ===== verification/Json.v ===== *)
(** * Package encoding/json and unicode/utf8, as far as the code uses them

    - [runes] / [encode_rune]: ranging over a Go string and [WriteRune];
    - [json]: a decoded JSON value, numbers kept as their literal text
      ([json.Number]) and objects as their members in source order;
    - [parse_value]: the grammar of [encoding/json]'s scanner, string
      unquoting included (escapes, surrogate pairs, invalid UTF-8 becoming
      U+FFFD, at most 10000 levels of nesting);
    - [quote], [compact]: the text [json.Marshal] prints for a string and for
      a [json.RawMessage]. *)
From S2P Require Import Prelude GoStd.
#[local] Open Scope Z_scope.
#[local] Arguments String.append !_ _ / : simpl nomatch.

(** ** Bytes and runes *)

Definition byte (c : ascii) : Z := Z.of_N (N_of_ascii c).
Definition of_byte (z : Z) : ascii := ascii_of_N (Z.to_N z).
Definition chr (z : Z) : string := String (of_byte z) EmptyString.

Definition RuneError : Z := 65533.

Definition in_range (lo hi z : Z) : bool := (lo <=? z) && (z <=? hi).

(** Bounds of the second byte of a multi-byte sequence that starts with [b],
    and the length of the sequence; [None] for a byte that starts none. *)
Definition utf8_first (b : Z) : option (nat * Z * Z) :=
  if in_range 194 223 b then Some (2%nat, 128, 191)
  else if b =? 224 then Some (3%nat, 160, 191)
  else if b =? 237 then Some (3%nat, 128, 159)
  else if in_range 225 239 b then Some (3%nat, 128, 191)
  else if b =? 240 then Some (4%nat, 144, 191)
  else if in_range 241 243 b then Some (4%nat, 128, 191)
  else if b =? 244 then Some (4%nat, 128, 143)
  else None.

(** [utf8.DecodeRuneInString] on a non-empty string: the rune and its width,
    [(RuneError, 1)] for an invalid sequence. *)
Definition decode_rune (c : ascii) (s : string) : Z * nat :=
  let b0 := byte c in
  if b0 <? 128 then (b0, 1%nat)
  else match utf8_first b0, s with
  | Some (2%nat, lo, hi), String c1 _ =>
      if in_range lo hi (byte c1)
      then (Z.land b0 31 * 64 + Z.land (byte c1) 63, 2%nat)
      else (RuneError, 1%nat)
  | Some (3%nat, lo, hi), String c1 (String c2 _) =>
      if in_range lo hi (byte c1) && in_range 128 191 (byte c2)
      then (Z.land b0 15 * 4096 + Z.land (byte c1) 63 * 64
            + Z.land (byte c2) 63, 3%nat)
      else (RuneError, 1%nat)
  | Some (4%nat, lo, hi), String c1 (String c2 (String c3 _)) =>
      if in_range lo hi (byte c1) && in_range 128 191 (byte c2)
         && in_range 128 191 (byte c3)
      then (Z.land b0 7 * 262144 + Z.land (byte c1) 63 * 4096
            + Z.land (byte c2) 63 * 64 + Z.land (byte c3) 63, 4%nat)
      else (RuneError, 1%nat)
  | _, _ => (RuneError, 1%nat)
  end.

(** The runes of a string with their source bytes, as [range] yields them. *)
Fixpoint runes_fuel (n : nat) (s : string) : list (Z * string) :=
  match n, s with
  | S n, String c s' =>
      let '(r, w) := decode_rune c s' in
      (r, take_bytes w s) :: runes_fuel n (drop_bytes w s)
  | _, _ => []
  end.
Definition runes (s : string) : list (Z * string) :=
  runes_fuel (String.length s) s.

(** [utf8.AppendRune]. *)
Definition encode_rune (r : Z) : string :=
  if in_range 0 127 r then chr r
  else if in_range 128 2047 r then
    chr (192 + Z.shiftr r 6) +:+ chr (128 + Z.land r 63)
  else if in_range 55296 57343 r || negb (in_range 0 1114111 r) then
    chr 239 +:+ chr 191 +:+ chr 189
  else if in_range 0 65535 r then
    chr (224 + Z.shiftr r 12) +:+ chr (128 + Z.land (Z.shiftr r 6) 63)
    +:+ chr (128 + Z.land r 63)
  else
    chr (240 + Z.shiftr r 18) +:+ chr (128 + Z.land (Z.shiftr r 12) 63)
    +:+ chr (128 + Z.land (Z.shiftr r 6) 63) +:+ chr (128 + Z.land r 63).

(** [utf16.EncodeRune] for a rune above U+FFFF. *)
Definition utf16_encode (r : Z) : Z * Z :=
  let r := r - 65536 in
  (55296 + Z.land (Z.shiftr r 10) 1023, 56320 + Z.land r 1023).
(** [utf16.DecodeRune]: [RuneError] when the pair is not a surrogate pair. *)
Definition utf16_decode (r1 r2 : Z) : Z :=
  if in_range 55296 56319 r1 && in_range 56320 57343 r2
  then (r1 - 55296) * 1024 + (r2 - 56320) + 65536 else RuneError.

Definition hex_digit (z : Z) : ascii :=
  if z <? 10 then of_byte (48 + z) else of_byte (87 + z).
(** [%04x] of a value below 65536. *)
Definition hex4 (z : Z) : string :=
  String (hex_digit (Z.land (Z.shiftr z 12) 15))
  (String (hex_digit (Z.land (Z.shiftr z 8) 15))
  (String (hex_digit (Z.land (Z.shiftr z 4) 15))
  (String (hex_digit (Z.land z 15)) EmptyString))).
Definition hex_val (c : ascii) : option Z :=
  let b := byte c in
  if in_range 48 57 b then Some (b - 48)
  else if in_range 97 102 b then Some (b - 87)
  else if in_range 65 70 b then Some (b - 55)
  else None.

(** ** JSON values *)

Inductive json :=
  | JNull
  | JBool (b : bool)
  | JNumber (n : string)
  | JString (s : string)
  | JArray (l : list json)
  | JObject (kvs : list (string * json)).

(** ** Parsing *)

Definition is_ws (c : ascii) : bool :=
  let b := byte c in (b =? 32) || (b =? 9) || (b =? 10) || (b =? 13).
Fixpoint skip_ws (s : string) : string :=
  match s with
  | String c s' => if is_ws c then skip_ws s' else s
  | EmptyString => EmptyString
  end.

Definition is_digit (c : ascii) : bool := in_range 48 57 (byte c).

(** The longest run of digits and the rest. *)
Fixpoint span_digits (s : string) : string * string :=
  match s with
  | String c s' =>
      if is_digit c
      then let '(d, r) := span_digits s' in (String c d, r)
      else (EmptyString, s)
  | EmptyString => (EmptyString, EmptyString)
  end.

Definition parse_int_part (s : string) : option (string * string) :=
  match s with
  | String c s' =>
      if Ascii.eqb c "0" then Some ("0", s')
      else if is_digit c then Some (span_digits s) else None
  | EmptyString => None
  end.

Definition parse_frac (s : string) : option (string * string) :=
  match s with
  | String c s' =>
      if Ascii.eqb c "." then
        let '(d, r) := span_digits s' in
        if is_empty d then None else Some (String c d, r)
      else Some (EmptyString, s)
  | EmptyString => Some (EmptyString, s)
  end.

Definition parse_exp (s : string) : option (string * string) :=
  match s with
  | String c s' =>
      if Ascii.eqb c "e" || Ascii.eqb c "E" then
        let '(sign, s'') :=
          match s' with
          | String g r =>
              if Ascii.eqb g "+" || Ascii.eqb g "-"
              then (String g EmptyString, r) else (EmptyString, s')
          | EmptyString => (EmptyString, s')
          end in
        let '(d, r) := span_digits s'' in
        if is_empty d then None else Some (String c (sign +:+ d), r)
      else Some (EmptyString, s)
  | EmptyString => Some (EmptyString, s)
  end.

(** A number literal, as [json.Number] keeps it. *)
Definition parse_number (s : string) : option (string * string) :=
  let '(sign, s) :=
    match s with
    | String c s' =>
        if Ascii.eqb c "-" then ("-"%string, s') else (EmptyString, s)
    | EmptyString => (EmptyString, s)
    end in
  '(i, s) ← parse_int_part s;
  '(f, s) ← parse_frac s;
  '(e, s) ← parse_exp s;
  Some (sign +:+ i +:+ f +:+ e, s).

(** Four hexadecimal digits of a [\uXXXX] escape. *)
Definition parse_hex4 (s : string) : option (Z * string) :=
  match s with
  | String a (String b (String c (String d s))) =>
      a ← hex_val a; b ← hex_val b; c ← hex_val c; d ← hex_val d;
      Some (a * 4096 + b * 256 + c * 16 + d, s)
  | _ => None
  end.

(** The low half of a surrogate pair that follows, if it does. *)
Definition parse_low_surrogate (r : Z) (s : string) : Z * string :=
  match s with
  | String b (String u s') =>
      if Ascii.eqb b "092" && Ascii.eqb u "u" then
        match parse_hex4 s' with
        | Some (r2, s'') =>
            if utf16_decode r r2 =? RuneError then (RuneError, s)
            else (utf16_decode r r2, s'')
        | None => (RuneError, s)
        end
      else (RuneError, s)
  | _ => (RuneError, s)
  end.

(** The unquoted text of the character behind a backslash. *)
Definition parse_escape (s : string) : option (string * string) :=
  match s with
  | EmptyString => None
  | String c s =>
      let b := byte c in
      if (b =? 34) || (b =? 92) || (b =? 47) then Some (String c EmptyString, s)
      else if b =? 98 then Some (chr 8, s)
      else if b =? 102 then Some (chr 12, s)
      else if b =? 110 then Some (chr 10, s)
      else if b =? 114 then Some (chr 13, s)
      else if b =? 116 then Some (chr 9, s)
      else if b =? 117 then
        '(r, s) ← parse_hex4 s;
        if in_range 55296 57343 r
        then let '(r, s) := parse_low_surrogate r s in Some (encode_rune r, s)
        else Some (encode_rune r, s)
      else None
  end.

(** The rest of a string literal, behind its opening quote. *)
Fixpoint parse_string (fuel : nat) (s : string) : option (string * string) :=
  match fuel, s with
  | S fuel, String c s' =>
      let b := byte c in
      if b =? 34 then Some (EmptyString, s')
      else if b <? 32 then None
      else if b =? 92 then
        '(t, r) ← parse_escape s';
        '(u, r) ← parse_string fuel r;
        Some (t +:+ u, r)
      else
        let '(r, w) := decode_rune c s' in
        '(u, rest) ← parse_string fuel (drop_bytes w s);
        Some (encode_rune r +:+ u, rest)
  | _, _ => None
  end.

(** The rest of the input behind a literal word. *)
Definition parse_lit (w : string) (v : json) (s : string) : option (json * string) :=
  if HasPrefix s w then Some (v, drop_bytes (String.length w) s) else None.

Definition maxNestingDepth : nat := 10000.

(** One value; [depth] counts the levels of nesting that are left. *)
Fixpoint parse_value (fuel depth : nat) (s : string) {struct fuel}
    : option (json * string) :=
  match fuel with
  | O => None
  | S fuel =>
      match skip_ws s with
      | EmptyString => None
      | String c s' as s =>
          let b := byte c in
          if b =? 123 then
            match depth with
            | O => None
            | S depth =>
                match skip_ws s' with
                | String e r =>
                    if byte e =? 125 then Some (JObject [], r)
                    else '(kvs, r) ← parse_members fuel depth s'; Some (JObject kvs, r)
                | EmptyString => None
                end
            end
          else if b =? 91 then
            match depth with
            | O => None
            | S depth =>
                match skip_ws s' with
                | String e r =>
                    if byte e =? 93 then Some (JArray [], r)
                    else '(l, r) ← parse_elements fuel depth s'; Some (JArray l, r)
                | EmptyString => None
                end
            end
          else if b =? 34 then
            '(t, r) ← parse_string (String.length s') s'; Some (JString t, r)
          else if b =? 116 then parse_lit "true" (JBool true) s
          else if b =? 102 then parse_lit "false" (JBool false) s
          else if b =? 110 then parse_lit "null" JNull s
          else '(n, r) ← parse_number s; Some (JNumber n, r)
      end
  end
with parse_members (fuel depth : nat) (s : string) {struct fuel}
    : option (list (string * json) * string) :=
  match fuel with
  | O => None
  | S fuel =>
      match skip_ws s with
      | String q s' =>
          if negb (byte q =? 34) then None else
          '(k, r) ← parse_string (String.length s') s';
          match skip_ws r with
          | String colon r =>
              if negb (byte colon =? 58) then None else
              '(v, r) ← parse_value fuel depth r;
              match skip_ws r with
              | String e r =>
                  if byte e =? 125 then Some ([(k, v)], r)
                  else if byte e =? 44 then
                    '(kvs, r) ← parse_members fuel depth r; Some ((k, v) :: kvs, r)
                  else None
              | EmptyString => None
              end
          | EmptyString => None
          end
      | EmptyString => None
      end
  end
with parse_elements (fuel depth : nat) (s : string) {struct fuel}
    : option (list json * string) :=
  match fuel with
  | O => None
  | S fuel =>
      '(v, r) ← parse_value fuel depth s;
      match skip_ws r with
      | String e r =>
          if byte e =? 93 then Some ([v], r)
          else if byte e =? 44 then
            '(l, r) ← parse_elements fuel depth r; Some (v :: l, r)
          else None
      | EmptyString => None
      end
  end.

(** Every level of the grammar consumes a byte, so this much fuel suffices. *)
Definition parse_fuel (s : string) : nat := S (2 * String.length s).

(** [json.Decoder.Decode] into [any] with [UseNumber]: one value off the front. *)
Definition decode_next (s : string) : option (json * string) :=
  parse_value (parse_fuel s) maxNestingDepth s.

(** [json.Unmarshal] into [any]: the text is one value. *)
Definition unmarshal (s : string) : option json :=
  '(v, r) ← decode_next s;
  if is_empty (skip_ws r) then Some v else None.

(** [json.Valid]. *)
Definition Valid (s : string) : bool :=
  match unmarshal s with Some _ => true | None => false end.

(** Raw text of the value at the front of [s] (what a [RawMessage] receives). *)
Definition raw_front (s : string) : option (string * string) :=
  '(v, r) ← decode_next s;
  let s' := skip_ws s in
  Some (take_bytes (String.length s' - String.length r) s', r).

(** ** Printing *)

Definition escape_byte (b : Z) : string :=
  if (b =? 34) || (b =? 92) then chr 92 +:+ chr b
  else if b =? 8 then chr 92 +:+ "b"
  else if b =? 12 then chr 92 +:+ "f"
  else if b =? 10 then chr 92 +:+ "n"
  else if b =? 13 then chr 92 +:+ "r"
  else if b =? 9 then chr 92 +:+ "t"
  else chr 92 +:+ "u" +:+ hex4 b.

Definition html_safe (b : Z) : bool :=
  (32 <=? b) && negb ((b =? 34) || (b =? 92) || (b =? 60) || (b =? 62) || (b =? 38)).

Definition quote_rune (rb : Z * string) : string :=
  let '(r, b) := rb in
  if r <? 128 then if html_safe r then b else escape_byte r
  else if (r =? RuneError) && (String.length b =? 1)%nat then chr 92 +:+ "ufffd"
  else if (r =? 8232) || (r =? 8233) then chr 92 +:+ "u" +:+ hex4 r
  else b.

(** [json.Marshal] of a string (HTML escaping on). *)
Definition quote (s : string) : string :=
  dqs +:+ fold_right (fun rb acc => quote_rune rb +:+ acc) EmptyString (runes s)
  +:+ dqs.

(** The scanner state that [compact] needs: inside a string, behind a
    backslash. *)
Fixpoint compact_from (html in_str esc : bool) (s : string) : string :=
  match s with
  | EmptyString => EmptyString
  | String c s =>
      let b := byte c in
      let keep := compact_from html in
      if in_str then
        let out :=
          if html && ((b =? 60) || (b =? 62) || (b =? 38))
          then chr 92 +:+ "u" +:+ hex4 b else String c EmptyString in
        if html && (b =? 226) then
          match s with
          | String c1 (String c2 r) =>
              if (byte c1 =? 128) && (Z.land (byte c2) 254 =? 168)
              then chr 92 +:+ "u" +:+ hex4 (8232 + Z.land (byte c2) 1) +:+ keep true false r
              else String c (keep true false s)
          | _ => String c (keep true false s)
          end
        else if esc then out +:+ keep true false s
        else if b =? 92 then out +:+ keep true true s
        else if b =? 34 then out +:+ keep false false s
        else out +:+ keep true false s
      else if is_ws c then keep false false s
      else String c (keep (b =? 34) false s)
  end.

(** [json.Compact] on valid JSON text. *)
Definition compact (s : string) : string := compact_from false false false s.
(** How [json.Marshal] writes a valid [RawMessage]. *)
Definition compact_html (s : string) : string := compact_from true false false s.

Definition marshal_bool (b : bool) : string := if b then "true" else "false".
Definition marshal_int (z : Z) : string := pretty z.

(** Members of a JSON object, printed and joined. *)
Definition member (k v : string) : string := quote k +:+ ":" +:+ v.
Definition braces (members : list string) : string :=
  "{" +:+ Join "," members +:+ "}".
Definition brackets (items : list string) : string :=
  "[" +:+ Join "," items +:+ "]".

(** [json.Marshal] of a [map[string]string]: sorted keys. *)
Definition marshal_string_map (m : list (string * string)) : string :=
  braces ((fun kv => member kv.1 (quote kv.2)) <$> SortBy fst m).

(** A member of an object; a duplicate key keeps its last value, as decoding
    into a Go map does. *)
Fixpoint lookup_last {A} (k : string) (kvs : list (string * A)) : option A :=
  match kvs with
  | [] => None
  | (k', v) :: kvs =>
      match lookup_last k kvs with
      | Some v => Some v
      | None => if String.eqb k k' then Some v else None
      end
  end.

(** ** Decoding into structs

    [json.Unmarshal] assigns members in source order, matching field names up
    to case folding.  A member of the wrong type records an error and leaves
    its field unchanged; the rest of the struct is still filled in. *)

(** A decoder receives the raw text, the value and the old content of the
    field, and returns the new content and whether it failed. *)
Definition decoder (A : Type) : Type := string -> json -> A -> A * bool.

Definition fold_rune (r : Z) : Z :=
  if in_range 97 122 r then r - 32
  else if r =? 8490 then 75 (* Kelvin sign *)
  else if r =? 383 then 83 (* long s *)
  else r.
Definition fold_name (s : string) : list Z := (fun rb => fold_rune rb.1) <$> runes s.

(** Members (key, raw text, value) of the text of a valid object, behind its
    opening brace. *)
Fixpoint fields_from (fuel : nat) (s : string) : list (string * (string * json)) :=
  match fuel, skip_ws s with
  | S fuel, String q s' =>
      match parse_string (String.length s') s' with
      | Some (k, r) =>
          match skip_ws r with
          | String _ r =>
              match raw_front r, decode_next r with
              | Some (raw, r), Some (v, _) =>
                  (k, (raw, v)) ::
                  match skip_ws r with
                  | String e r => if byte e =? 44 then fields_from fuel r else []
                  | EmptyString => []
                  end
              | _, _ => []
              end
          | EmptyString => []
          end
      | None => []
      end
  | _, _ => []
  end.
Definition object_fields (raw : string) : list (string * (string * json)) :=
  fields_from (String.length raw) (drop_bytes 1 (skip_ws raw)).

(** Raw text and value of each element of a valid array, behind its bracket. *)
Fixpoint elements_from (fuel : nat) (s : string) : list (string * json) :=
  match fuel with
  | O => []
  | S fuel =>
      match raw_front s, decode_next s with
      | Some (raw, r), Some (v, _) =>
          (raw, v) ::
          match skip_ws r with
          | String e r => if byte e =? 44 then elements_from fuel r else []
          | EmptyString => []
          end
      | _, _ => []
      end
  end.
Definition array_elements (raw : string) : list (string * json) :=
  elements_from (String.length raw) (drop_bytes 1 (skip_ws raw)).

(** A field of struct [R]: its JSON name and how a member updates the struct. *)
Definition field (R : Type) : Type := string * decoder R.
Definition via {R A : Type} (name : string) (get : R -> A)
    (set : (A -> A) -> R -> R) (dec : decoder A) : field R :=
  (name, fun raw v r =>
           let '(a, e) := dec raw v (get r) in (set (fun _ => a) r, e)).

Fixpoint find_field {R} (k : list Z) (fs : list (field R)) : option (decoder R) :=
  match fs with
  | [] => None
  | (name, dec) :: fs =>
      if bool_decide (fold_name name = k) then Some dec else find_field k fs
  end.

(** [strict] is [DisallowUnknownFields]: otherwise unknown fields are ignored. *)
Definition assign {R} (strict : bool) (fs : list (field R)) (acc : R * bool)
    (m : string * (string * json)) : R * bool :=
  let '(r, e) := acc in
  let '(k, (raw, v)) := m in
  match find_field (fold_name k) fs with
  | Some dec => let '(r, e') := dec raw v r in (r, e || e')
  | None => (r, e || strict)
  end.

Definition dec_struct_with {R} (strict : bool) (fs : list (field R)) : decoder R :=
  fun raw v r =>
  match v with
  | JObject _ => fold_left (assign strict fs) (object_fields raw) (r, false)
  | JNull => (r, false)
  | _ => (r, true)
  end.
Definition dec_struct {R} (fs : list (field R)) : decoder R := dec_struct_with false fs.

(** [d.DisallowUnknownFields(); d.Decode(&x) == nil && d.Decode(..) == io.EOF]. *)
Definition decode_strict {R} (fs : list (field R)) (zero : R) (text : string) : option R :=
  '(v, rest) ← decode_next text;
  let '(r, err) := dec_struct_with true fs
    (take_bytes (String.length text - String.length rest) text) v zero in
  if err || negb (is_empty (skip_ws rest)) then None else Some r.

Definition dec_string : decoder string := fun _ v old =>
  match v with JString s => (s, false) | JNull => (old, false) | _ => (old, true) end.
Definition dec_bool : decoder bool := fun _ v old =>
  match v with JBool b => (b, false) | JNull => (old, false) | _ => (old, true) end.
(** A [json.RawMessage] keeps the member's text, [null] included. *)
Definition dec_raw : decoder (option string) := fun raw _ _ => (Some raw, false).

Fixpoint digits_val (acc : Z) (s : string) : option Z :=
  match s with
  | EmptyString => Some acc
  | String c s =>
      if is_digit c then digits_val (acc * 10 + (byte c - 48)) s else None
  end.
(** [strconv.ParseInt(s, 10, 64)] on a number literal. *)
Definition parse_int64 (s : string) : option Z :=
  let '(neg, d) := match s with
    | String c s' =>
        if Ascii.eqb c "-" then (true, s')
        else if Ascii.eqb c "+" then (false, s') else (false, s)
    | EmptyString => (false, s)
    end in
  if is_empty d then None else
  n ← digits_val 0 d;
  let z := if neg then - n else n in
  if in_range MinInt64 MaxInt64 z then Some z else None.
Definition dec_int : decoder Z := fun _ v old =>
  match v with
  | JNumber n => match parse_int64 n with Some z => (z, false) | None => (old, true) end
  | JNull => (old, false)
  | _ => (old, true)
  end.

(** A pointer field: [null] makes it nil, a value is decoded into the pointee. *)
Definition dec_ptr {A} (zero : A) (dec : decoder A) : decoder (option A) :=
  fun raw v old =>
  match v with
  | JNull => (None, false)
  | _ => let '(a, e) := dec raw v (default zero old) in (Some a, e)
  end.

(** A slice field: [null] makes it nil, and an array replaces the content. *)
Definition dec_slice {A} (zero : A) (dec : decoder A) : decoder (option (list A)) :=
  fun raw v old =>
  match v with
  | JArray _ =>
      let rs := (fun m => dec m.1 m.2 zero) <$> array_elements raw in
      (Some (fst <$> rs), existsb snd rs)
  | JNull => (None, false)
  | _ => (old, true)
  end.

(** A [map[string]string]: [null] leaves a nil map; every other value must be
    an object of strings ([null] members become empty strings). *)
Definition string_member (v : json) : option string :=
  match v with JString s => Some s | JNull => Some EmptyString | _ => None end.
Definition unmarshal_string_map (raw : string) : option (list (string * string)) :=
  v ← unmarshal raw;
  match v with
  | JNull => Some []
  | JObject kvs => mapM (fun kv => s ← string_member kv.2; Some (kv.1, s)) kvs
  | _ => None
  end.

(** ** Induction over values *)

Section json_ind.
Variable P : json -> Prop.
Hypothesis Hnull : P JNull.
Hypothesis Hbool : forall b, P (JBool b).
Hypothesis Hnum : forall n, P (JNumber n).
Hypothesis Hstr : forall s, P (JString s).
Hypothesis Harr : forall l, Forall P l -> P (JArray l).
Hypothesis Hobj : forall kvs, Forall (fun kv => P kv.2) kvs -> P (JObject kvs).

Fixpoint json_nested_ind (v : json) : P v :=
  match v with
  | JNull => Hnull
  | JBool b => Hbool b
  | JNumber n => Hnum n
  | JString s => Hstr s
  | JArray l =>
      Harr l ((fix go l : Forall P l :=
        match l with
        | [] => Forall_nil_2 P
        | v :: l => Forall_cons_2 P v l (json_nested_ind v) (go l)
        end) l)
  | JObject kvs =>
      Hobj kvs ((fix go kvs : Forall (fun kv => P kv.2) kvs :=
        match kvs with
        | [] => Forall_nil_2 _
        | kv :: kvs => Forall_cons_2 _ kv kvs (json_nested_ind kv.2) (go kvs)
        end) kvs)
  end.
End json_ind.
