(* ===== verification/Protocol.v ===== *)
(** * Frames of meshcall/1: internal/router/protocol.go

    The [frame] struct and the types it carries, [decode] (JSON text to a
    validated frame), [bytes] (a frame back to JSON text) and the errors the
    Router makes itself.  A nil pointer, slice or [RawMessage] is [None]. *)
From S2P Require Import Prelude GoStd Json.
#[local] Open Scope Z_scope.

Definition Protocol : string := "meshcall/1".

Record balance := Balance { b_kind : string; b_key : option string }.
Record method := Method { m_name : string; m_stream : string; m_balance : balance }.
Record service := Service {
  s_name : string;
  s_methods : option (list method);
  s_targeted : bool;
  s_contract : option string }.
Record errorPayload := ErrorPayload {
  e_code : string; e_message : string; e_retryable : bool; e_details : option string }.

Record frame := Frame {
  f_kind : string;
  f_callID : string;
  f_protocol : string;
  f_role : string;
  f_peerID : string;
  f_capabilities : option (list string);
  f_connection : string;
  f_instanceID : string;
  f_services : option (list service);
  f_maxInflight : Z;
  f_service : string;
  f_method : string;
  f_payload : option string;
  f_timeoutMS : option Z;
  f_idempotency : string;
  f_idleTimeout : option Z;
  f_metadata : option string;
  f_error : option errorPayload;
  f_reason : string;
  f_direction : string;
  f_sequence : option Z;
  f_credit : option Z;
  f_nonce : string;
  f_raw : option string }.

#[global] Instance balance_eta : Eta balance := fun x => Balance (b_kind x) (b_key x).
#[global] Instance method_eta : Eta method :=
  fun x => Method (m_name x) (m_stream x) (m_balance x).
#[global] Instance service_eta : Eta service :=
  fun x => Service (s_name x) (s_methods x) (s_targeted x) (s_contract x).
#[global] Instance errorPayload_eta : Eta errorPayload :=
  fun x => ErrorPayload (e_code x) (e_message x) (e_retryable x) (e_details x).
#[global] Instance frame_eta : Eta frame := fun x =>
  Frame (f_kind x) (f_callID x) (f_protocol x) (f_role x) (f_peerID x)
    (f_capabilities x) (f_connection x) (f_instanceID x) (f_services x)
    (f_maxInflight x) (f_service x) (f_method x) (f_payload x) (f_timeoutMS x)
    (f_idempotency x) (f_idleTimeout x) (f_metadata x) (f_error x) (f_reason x)
    (f_direction x) (f_sequence x) (f_credit x) (f_nonce x) (f_raw x).

(** The zero value of [frame]. *)
Definition frame0 : frame :=
  Frame "" "" "" "" "" None "" "" None 0 "" "" None None "" None None None "" ""
    None None "" None.

#[global] Instance balance_eq_dec : EqDecision balance.
Proof. solve_decision. Defined.
#[global] Instance method_eq_dec : EqDecision method.
Proof. solve_decision. Defined.
#[global] Instance service_eq_dec : EqDecision service.
Proof. solve_decision. Defined.
#[global] Instance errorPayload_eq_dec : EqDecision errorPayload.
Proof. solve_decision. Defined.
#[global] Instance frame_eq_dec : EqDecision frame.
Proof. solve_decision. Defined.
#[global] Instance frame_inhabited : Inhabited frame := populate frame0.

(** [range f.Services] and [range s.Methods]: a nil slice has no elements. *)
Definition services_of (f : frame) : list service := default [] (f_services f).
Definition methods_of (s : service) : list method := default [] (s_methods s).

(** ** Struct tags *)

Abbreviation upd get := (fun g r => apply_update (mk_update get g) r) (only parsing).

Definition balance_fields : list (field balance) :=
  [ via "kind" b_kind (upd b_kind) dec_string;
    via "key" b_key (upd b_key) (dec_ptr "" dec_string) ].
Definition method_fields : list (field method) :=
  [ via "name" m_name (upd m_name) dec_string;
    via "stream" m_stream (upd m_stream) dec_string;
    via "balance" m_balance (upd m_balance) (dec_struct balance_fields) ].
Definition service_fields : list (field service) :=
  [ via "name" s_name (upd s_name) dec_string;
    via "methods" s_methods (upd s_methods)
      (dec_slice (Method "" "" (Balance "" None)) (dec_struct method_fields));
    via "targeted" s_targeted (upd s_targeted) dec_bool;
    via "contract" s_contract (upd s_contract) dec_raw ].
Definition error_fields : list (field errorPayload) :=
  [ via "code" e_code (upd e_code) dec_string;
    via "message" e_message (upd e_message) dec_string;
    via "retryable" e_retryable (upd e_retryable) dec_bool;
    via "details" e_details (upd e_details) dec_raw ].
Definition frame_fields : list (field frame) :=
  [ via "kind" f_kind (upd f_kind) dec_string;
    via "call_id" f_callID (upd f_callID) dec_string;
    via "protocol" f_protocol (upd f_protocol) dec_string;
    via "role" f_role (upd f_role) dec_string;
    via "peer_id" f_peerID (upd f_peerID) dec_string;
    via "capabilities" f_capabilities (upd f_capabilities) (dec_slice "" dec_string);
    via "connection_id" f_connection (upd f_connection) dec_string;
    via "instance_id" f_instanceID (upd f_instanceID) dec_string;
    via "services" f_services (upd f_services)
      (dec_slice (Service "" None false None) (dec_struct service_fields));
    via "max_inflight" f_maxInflight (upd f_maxInflight) dec_int;
    via "service" f_service (upd f_service) dec_string;
    via "method" f_method (upd f_method) dec_string;
    via "payload" f_payload (upd f_payload) dec_raw;
    via "timeout_ms" f_timeoutMS (upd f_timeoutMS) (dec_ptr 0 dec_int);
    via "idempotency_key" f_idempotency (upd f_idempotency) dec_string;
    via "idle_timeout_ms" f_idleTimeout (upd f_idleTimeout) (dec_ptr 0 dec_int);
    via "metadata" f_metadata (upd f_metadata) dec_raw;
    via "error" f_error (upd f_error)
      (dec_ptr (ErrorPayload "" "" false None) (dec_struct error_fields));
    via "reason" f_reason (upd f_reason) dec_string;
    via "direction" f_direction (upd f_direction) dec_string;
    via "sequence" f_sequence (upd f_sequence) (dec_ptr 0 dec_int);
    via "credit" f_credit (upd f_credit) (dec_ptr 0 dec_int);
    via "nonce" f_nonce (upd f_nonce) dec_string ].

(** ** Decoding *)

Inductive decode_error :=
  | InvalidFrame | NotOneFrame | InvalidHello | InvalidRegistration
  | InvalidCallOpen | TimeoutsMustBePositive | IdempotencyTooLong
  | InvalidMetadata | InvalidCallError | InvalidStreamDirection
  | InvalidStreamItem | InvalidStreamCredit | InvalidNonce
  | UnexpectedKind (k : string) | MissingCallID.
#[global] Instance decode_error_eq_dec : EqDecision decode_error.
Proof. solve_decision. Defined.

Definition validMetadata (raw : option string) : bool :=
  match raw with
  | None => true
  | Some raw =>
      match unmarshal_string_map raw with
      | None => false
      | Some values => forallb (fun kv => negb (is_empty kv.1)) values
      end
  end.

Definition is_nil {A} (o : option A) : bool := match o with None => true | _ => false end.

(** [x != nil && *x <= 0]. *)
Definition non_positive (x : option Z) : bool :=
  match x with Some z => z <=? 0 | None => false end.

(** The [nonce] of a ping or pong must be a JSON string ([fields["nonce"]]
    after decoding into a map of raw messages: exact key, last one wins). *)
Definition nonce_ok (data : string) : bool :=
  match unmarshal data with
  | Some (JObject _) =>
      match lookup_last "nonce" (object_fields data) with
      | Some (String c _, _) => Ascii.eqb c dq
      | _ => false
      end
  | _ => false
  end.

(** The checks on the known fields, by frame kind. *)
Definition check_kind (data : string) (f : frame) : option decode_error :=
  let k := f_kind f in
  if String.eqb k "hello" then
    if negb (String.eqb (f_protocol f) Protocol)
       || (negb (String.eqb (f_role f) "client") && negb (String.eqb (f_role f) "server"))
       || is_empty (f_peerID f)
    then Some InvalidHello else None
  else if String.eqb k "server.register" then
    if is_empty (f_instanceID f) || is_nil (f_services f) || (f_maxInflight f <? 0)
    then Some InvalidRegistration else None
  else if String.eqb k "call.open" then
    if is_empty (f_service f) || is_empty (f_method f) || is_nil (f_payload f)
    then Some InvalidCallOpen
    else if non_positive (f_timeoutMS f) || non_positive (f_idleTimeout f)
    then Some TimeoutsMustBePositive
    else if 128 <? slen (f_idempotency f) then Some IdempotencyTooLong
    else if negb (validMetadata (f_metadata f)) then Some InvalidMetadata
    else None
  else if String.eqb k "call.result" then
    if negb (validMetadata (f_metadata f)) then Some InvalidMetadata else None
  else if String.eqb k "call.error" then
    match f_error f with
    | None => Some InvalidCallError
    | Some e =>
        if is_empty (e_code e) || negb (validMetadata (f_metadata f))
        then Some InvalidCallError else None
    end
  else if Contains ["stream.item"; "stream.end"; "stream.window"] k then
    if negb (String.eqb (f_direction f) "client") && negb (String.eqb (f_direction f) "server")
    then Some InvalidStreamDirection
    else if String.eqb k "stream.item"
            && (match f_sequence f with None => true | Some z => z <? 0 end
                || is_nil (f_payload f))
    then Some InvalidStreamItem
    else if String.eqb k "stream.window"
            && match f_credit f with None => true | Some z => z <=? 0 end
    then Some InvalidStreamCredit
    else None
  else if Contains ["ping"; "pong"] k then
    if nonce_ok data then None else Some InvalidNonce
  else if Contains ["call.cancel"; "server.drain"; "server.drain.ack"] k then None
  else Some (UnexpectedKind k).

(** The kinds of the frames that belong to a call. *)
Definition call_kinds : list string :=
  ["call.open"; "call.result"; "call.error"; "call.cancel";
   "stream.item"; "stream.end"; "stream.window"].

(** [decode]: the frame, filled in as far as it decoded, and the error. *)
Definition decode (data : string) : frame * option decode_error :=
  match decode_next data with
  | None => (frame0, Some InvalidFrame)
  | Some (v, rest) =>
      let raw := take_bytes (String.length data - String.length rest) data in
      let '(f, err) := dec_struct frame_fields raw v frame0 in
      if (err : bool) then (f, Some InvalidFrame)
      else if negb (is_empty (skip_ws rest)) then (f, Some NotOneFrame)
      else match check_kind data f with
      | Some e => (f, Some e)
      | None =>
          if Contains call_kinds (f_kind f) && is_empty (f_callID f)
          then (f, Some MissingCallID)
          else (f {{ f_raw := Some data }}, None)
      end
  end.

(** ** Encoding *)

(** A member that [omitempty] drops. *)
Definition opt_member (present : bool) (k v : string) : list string :=
  if present then [member k v] else [].
Definition str_member (k s : string) : list string :=
  opt_member (negb (is_empty s)) k (quote s).
Definition raw_member (k : string) (raw : option string) : list string :=
  match raw with
  | Some r => opt_member (negb (is_empty r)) k (compact_html r)
  | None => []
  end.
Definition int_member (k : string) (z : option Z) : list string :=
  match z with Some z => [member k (marshal_int z)] | None => [] end.

Definition marshal_balance (b : balance) : string :=
  braces (member "kind" (quote (b_kind b)) ::
          match b_key b with Some k => [member "key" (quote k)] | None => [] end).
Definition marshal_method (m : method) : string :=
  braces [member "name" (quote (m_name m)); member "stream" (quote (m_stream m));
          member "balance" (marshal_balance (m_balance m))].
Definition marshal_service (s : service) : string :=
  braces ([member "name" (quote (s_name s));
           member "methods" (match s_methods s with
             | Some ms => brackets (marshal_method <$> ms) | None => "null" end)]
          ++ opt_member (s_targeted s) "targeted" "true"
          ++ raw_member "contract" (s_contract s)).
Definition marshal_error (e : errorPayload) : string :=
  braces ([member "code" (quote (e_code e)); member "message" (quote (e_message e));
           member "retryable" (marshal_bool (e_retryable e))]
          ++ raw_member "details" (e_details e)).

Definition slice_member {A} (k : string) (pr : A -> string) (o : option (list A)) : list string :=
  match o with
  | Some (x :: l) => [member k (brackets (pr <$> (x :: l)))]
  | _ => []
  end.

(** [json.Marshal] of the struct. *)
Definition marshal_frame (f : frame) : string :=
  braces (
    [member "kind" (quote (f_kind f))]
    ++ str_member "call_id" (f_callID f)
    ++ str_member "protocol" (f_protocol f)
    ++ str_member "role" (f_role f)
    ++ str_member "peer_id" (f_peerID f)
    ++ slice_member "capabilities" quote (f_capabilities f)
    ++ str_member "connection_id" (f_connection f)
    ++ str_member "instance_id" (f_instanceID f)
    ++ slice_member "services" marshal_service (f_services f)
    ++ opt_member (negb (f_maxInflight f =? 0)) "max_inflight" (marshal_int (f_maxInflight f))
    ++ str_member "service" (f_service f)
    ++ str_member "method" (f_method f)
    ++ raw_member "payload" (f_payload f)
    ++ int_member "timeout_ms" (f_timeoutMS f)
    ++ str_member "idempotency_key" (f_idempotency f)
    ++ int_member "idle_timeout_ms" (f_idleTimeout f)
    ++ raw_member "metadata" (f_metadata f)
    ++ match f_error f with Some e => [member "error" (marshal_error e)] | None => [] end
    ++ str_member "reason" (f_reason f)
    ++ str_member "direction" (f_direction f)
    ++ int_member "sequence" (f_sequence f)
    ++ int_member "credit" (f_credit f)
    ++ str_member "nonce" (f_nonce f)).

(** [frame.bytes]: the received text when there is one, else the encoding. *)
Definition bytes (f : frame) : string :=
  match f_raw f with
  | Some raw => raw
  | None =>
      if String.eqb (f_kind f) "ping" || String.eqb (f_kind f) "pong"
      then braces [member "kind" (quote (f_kind f)); member "nonce" (quote (f_nonce f))]
      else marshal_frame f
  end.

(** ** Errors the Router makes *)

Definition callError (id code message : string) (retryable : bool) : frame :=
  frame0 {{ f_kind := "call.error"; f_callID := id;
            f_error := Some (ErrorPayload code message retryable None) }}.

Definition with_details (f : frame) (d : string) : frame :=
  f {{ f_error := match f_error f with
                  | Some e => Some (ErrorPayload (e_code e) (e_message e) (e_retryable e) (Some d))
                  | None => None
                  end }}.

Definition routerError (id code message : string) (retryable : bool)
    (reason instance : string) : frame :=
  let details := [("source", "router"); ("reason", reason)]
    ++ (if is_empty instance then [] else [("instance_id", instance)]) in
  with_details (callError id code message retryable) (marshal_string_map details).

Definition deadlineError (id : string) : frame :=
  with_details (callError id "deadline_exceeded" "Call deadline exceeded" false)
    (braces [member "source" (quote "router")]).

(** Control frames that may overtake other calls' frames in an outbox. *)
Definition priority (f : frame) : bool :=
  Contains ["call.cancel"; "stream.window"; "ping"; "pong"] (f_kind f).
