(* ===== verification/Outbox.v ===== *)
(** * The queue of frames for one peer: internal/router/queue.go

    An [outbox] keeps one FIFO queue per call ([q_calls]) and serves the calls
    round-robin ([q_order]); a control frame at the head of a call goes first.
    [q_ready] is the one-slot wake-up channel. *)
From S2P Require Import Prelude GoStd Protocol.
#[local] Open Scope Z_scope.

Record outbox := Outbox {
  q_calls : gmap string (list frame);
  q_order : list string;
  q_bytes : Z;
  q_limit : Z;
  q_closed : bool;
  q_ready : bool }.

#[global] Instance outbox_eta : Eta outbox := fun x =>
  Outbox (q_calls x) (q_order x) (q_bytes x) (q_limit x) (q_closed x) (q_ready x).

Definition frameOverhead : Z := 512.

Definition newOutbox (limit : Z) : outbox := Outbox ∅ [] 0 limit false false.
#[global] Instance outbox_inhabited : Inhabited outbox := populate (newOutbox 0).

(** [q.calls[id]]: a missing key reads as an empty slice. *)
Definition queue (q : outbox) (id : string) : list frame := default [] (q_calls q !! id).

(** The memory charged for an encoded frame. *)
Definition frame_size (f : frame) : Z := slen (bytes f) + frameOverhead.

Definition push (f : frame) (q : outbox) : outbox * bool :=
  let data := bytes f in
  let f := f {{ f_raw := Some data }} in
  let size := slen data + frameOverhead in
  if q_closed q || ((0 <? q_bytes q) && (q_limit q <? q_bytes q + size))
  then (q, false)
  else
    let id := f_callID f in
    let order := match queue q id with [] => q_order q ++ [id] | _ => q_order q end in
    (q {{ q_order := order;
          q_calls ::= insert id (queue q id ++ [f]);
          q_bytes ::= Z.add size;
          q_ready := true }}, true).

(** Whether the head of a call's queue is a control frame. *)
Definition head_priority (q : outbox) (id : string) : bool :=
  match queue q id with f :: _ => priority f | [] => false end.

(** The first index of [order] whose call has a priority head, else 0. *)
Fixpoint pick_from (q : outbox) (i : nat) (order : list string) : nat :=
  match order with
  | [] => 0%nat
  | id :: order => if head_priority q id then i else pick_from q (S i) order
  end.
Definition pick (q : outbox) : nat := pick_from q 0 (q_order q).

Definition pop (q : outbox) : option (frame * outbox) :=
  match q_order q with
  | [] => None
  | _ =>
      let index := pick q in
      match q_order q !! index with
      | None => None
      | Some id =>
          match queue q id with
          | [] => None
          | f :: rest =>
              let order := delete index (q_order q) in
              let q := q {{ q_bytes ::= Z.add (- (slen (bytes f) + frameOverhead)) }} in
              Some (f,
                match rest with
                | [] => q {{ q_calls ::= delete id; q_order := order }}
                | _ => q {{ q_calls ::= insert id rest; q_order := order ++ [id] }}
                end)
          end
      end
  end.

Definition empty (q : outbox) : bool :=
  match q_order q with [] => true | _ => false end.

Definition wake (q : outbox) : outbox := q {{ q_ready := true }}.

Definition close (q : outbox) : outbox :=
  q {{ q_closed := true; q_calls := ∅; q_order := []; q_bytes := 0 }}.

(** Popping until the queue is empty, as a writer does. *)
Fixpoint pop_all (fuel : nat) (q : outbox) : list frame :=
  match fuel with
  | O => []
  | S fuel => match pop q with Some (f, q) => f :: pop_all fuel q | None => [] end
  end.

(** ** Well-formed outboxes *)

Definition queue_bytes (q : outbox) (id : string) : Z := sum_with frame_size (queue q id).

Record outbox_ok (q : outbox) : Prop := {
  ok_nodup : NoDup (q_order q);
  ok_order : forall id, id ∈ q_order q <-> queue q id <> [];
  ok_call : forall id f, f ∈ queue q id -> f_callID f = id;
  ok_bytes : q_bytes q = sum_with (queue_bytes q) (q_order q);
  ok_bound : q_bytes q <= q_limit q \/ exists id f, q_order q = [id] /\ queue q id = [f];
  ok_limit : 0 <= q_limit q }.

(** How many frames wait, over all calls. *)
Definition queued (q : outbox) : Z :=
  sum_with (fun id => Z.of_nat (length (queue q id))) (q_order q).

(** The abstract outbox: one FIFO queue per call. *)
Definition spec_queues : Type := string -> list frame.
Definition spec_of (q : outbox) : spec_queues := queue q.
Definition spec_push (f : frame) (s : spec_queues) : spec_queues :=
  fun id => if decide (id = f_callID f) then s id ++ [f] else s id.
Inductive spec_pop (s : spec_queues) : frame -> spec_queues -> Prop :=
  SpecPop id f rest s' :
    s id = f :: rest -> s' id = rest -> (forall id', id' <> id -> s' id' = s id') ->
    spec_pop s f s'.

(** Two calls, "a" and "b", one frame each. *)
Definition sample_outbox : outbox :=
  (push (frame0 {{ f_callID := "b" }}) (push (frame0 {{ f_callID := "a" }}) (newOutbox 10000)).1).1.

(** ** Lemmas *)

(** A frame as the outbox stores it: with its encoding. *)
Definition encoded (f : frame) : frame := f {{ f_raw := Some (bytes f) }}.

Lemma frame_size_encoded f : frame_size (encoded f) = frame_size f.
Proof. done. Qed.

Lemma frame_size_pos f : 0 < frame_size f.
Proof. unfold frame_size, frameOverhead, slen. lia. Qed.

Lemma queue_bytes_nonneg q id : 0 <= queue_bytes q id.
Proof. apply sum_with_nonneg. intros f _. pose proof (frame_size_pos f). lia. Qed.

Lemma queue_insert q id l id' :
  queue (q {{ q_calls ::= insert id l }}) id' = if decide (id' = id) then l else queue q id'.
Proof. unfold queue; simpl. rewrite lookup_insert. repeat case_decide; subst; done. Qed.

Lemma pick_from_spec q i order :
  (exists k id, pick_from q i order = (i + k)%nat /\ order !! k = Some id /\ head_priority q id = true /\
     forall j id', (j < k)%nat -> order !! j = Some id' -> head_priority q id' = false)
  \/ (pick_from q i order = 0%nat /\ forall id, id ∈ order -> head_priority q id = false).
Proof.
  revert i. induction order as [|id order IH]; intros i; simpl; [right; set_solver|].
  destruct (head_priority q id) eqn:E.
  - left. exists 0%nat, id. rewrite Nat.add_0_r. split_and!; [done|done|done|]. intros; lia.
  - destruct (IH (S i)) as [(k & id' & Hp & Hk & Hh & Hb)|[Hp Hn]].
    + left. exists (S k), id'. rewrite Hp. split_and!; [lia|done|done|].
      intros [|j] id'' Hj Hl; simplify_eq/=; [done|]. apply (Hb j); [lia|done].
    + right. split; [done|]. intros id' [->|?]%elem_of_cons; auto.
Qed.

Lemma pick_lt q : q_order q <> [] -> exists id, q_order q !! pick q = Some id.
Proof.
  intros Hne. unfold pick.
  destruct (pick_from_spec q 0 (q_order q)) as [(k & id & -> & Hk & _)|[-> _]]; [by exists id|].
  destruct (q_order q) as [|id l]; [done|]. by exists id.
Qed.

(** What [pop] returns on a well-formed, non-empty outbox. *)
Lemma pop_some q : outbox_ok q -> q_order q <> [] ->
  exists id f rest, q_order q !! pick q = Some id /\ queue q id = f :: rest /\
    exists q', pop q = Some (f, q').
Proof.
  intros Hq Hne. destruct (pick_lt q Hne) as [id Hid].
  assert (queue q id <> []) as Hqne.
  { apply (ok_order q Hq). rewrite list_elem_of_lookup. eauto. }
  destruct (queue q id) as [|f rest] eqn:E; [done|].
  exists id, f, rest. split_and!; [done..|].
  unfold pop. destruct (q_order q) as [|o l] eqn:Eo; [done|].
  rewrite Hid, E. destruct rest; eauto.
Qed.

Lemma pop_none q : outbox_ok q -> pop q = None <-> q_order q = [].
Proof.
  intros Hq. split; [|intros E; unfold pop; by rewrite E].
  intros Hp. destruct (q_order q) as [|o l] eqn:E; [done|].
  destruct (pop_some q Hq) as (id & f & rest & _ & _ & q' & Hq'); [by rewrite E|congruence].
Qed.


(** The shape of the outbox behind a [pop]. *)
Lemma pop_inv_eq q f q' : pop q = Some (f, q') ->
  exists id rest, q_order q !! pick q = Some id /\ queue q id = f :: rest /\
    q_bytes q' = q_bytes q - frame_size f /\ q_limit q' = q_limit q /\
    q_closed q' = q_closed q /\
    q_order q' = delete (pick q) (q_order q) ++ match rest with [] => [] | _ => [id] end /\
    forall id', queue q' id' = if decide (id' = id) then rest else queue q id'.
Proof.
  unfold pop. intros H. destruct (q_order q) as [|o l] eqn:Eo; [done|].
  rewrite <- Eo in *. case_match eqn:Hid; [|done]. rename s into id.
  destruct (queue q id) as [|f' rest] eqn:E; [done|].
  destruct rest as [|g rest]; simplify_eq/=; exists id; eexists; split_and!;
    try done; try (unfold frame_size; lia); try (by rewrite app_nil_r);
    intros id'; unfold queue; simpl;
    rewrite ?lookup_delete, ?lookup_insert; repeat case_decide; by subst.
Qed.

(** How [push] changes the outbox when it accepts. *)
Lemma push_true_eq f q q' : push f q = (q', true) ->
  (q_bytes q <= 0 \/ q_bytes q' <= q_limit q) /\
  q_bytes q' = q_bytes q + frame_size f /\ q_limit q' = q_limit q /\
  q_closed q = false /\ q_closed q' = false /\
  q_order q' = q_order q ++ match queue q (f_callID f) with [] => [f_callID f] | _ => [] end /\
  forall id, queue q' id = if decide (id = f_callID f) then queue q id ++ [encoded f] else queue q id.
Proof.
  unfold push. simpl. intros H. case_match eqn:E; simplify_eq/=. unbool.
  split_and!; try done.
  - destruct (0 <? q_bytes q) eqn:?; simpl in *; unbool; [right|left]; lia.
  - unfold frame_size. lia.
  - by destruct (queue q (f_callID f)); rewrite ?app_nil_r.
  - intros id. unfold queue; simpl. rewrite lookup_insert.
    repeat case_decide; by subst.
Qed.

Lemma push_false_eq f q q' : push f q = (q', false) -> q' = q.
Proof. unfold push. simpl. intros H. by case_match; simplify_eq. Qed.

Lemma push_order_iff q f : outbox_ok q ->
  f_callID f ∈ q_order q <-> queue q (f_callID f) <> [].
Proof. intros Hq. apply (ok_order q Hq). Qed.

(** Accounting over the order list, for a queue changed at one call only. *)
Lemma sum_order_update (g h : string -> Z) id l :
  NoDup l -> id ∈ l -> (forall id', id' <> id -> g id' = h id') ->
  sum_with g l = sum_with h l + (g id - h id).
Proof.
  intros Hnd Hin Hext. apply list_elem_of_split in Hin as (l1 & l2 & ->).
  rewrite !sum_with_app. simpl.
  apply NoDup_app in Hnd as (_ & Hd & Hnd%NoDup_cons).
  rewrite (sum_with_ext g h l1), (sum_with_ext g h l2).
  - lia.
  - intros x Hx. apply Hext. naive_solver.
  - intros x Hx. apply Hext. intros ->. apply (Hd id Hx). set_solver.
Qed.

(** The same for the sum over the order list that [push] leaves behind. *)
Lemma sum_order_push (g h : string -> Z) q f :
  outbox_ok q -> (forall id', id' <> f_callID f -> g id' = h id') ->
  (queue q (f_callID f) = [] -> h (f_callID f) = 0) ->
  sum_with g (q_order q ++ match queue q (f_callID f) with [] => [f_callID f] | _ => [] end)
  = sum_with h (q_order q) + (g (f_callID f) - h (f_callID f)).
Proof.
  intros Hq Hext H0. destruct (queue q (f_callID f)) eqn:E.
  - rewrite sum_with_app. simpl. rewrite H0 by done.
    rewrite (sum_with_ext g h (q_order q)); [lia|].
    intros id Hid. apply Hext. intros ->. by apply (ok_order q Hq) in Hid.
  - rewrite app_nil_r. apply sum_order_update; [apply Hq| |done].
    apply (ok_order q Hq). by rewrite E.
Qed.

(** An outbox that is charged nothing holds nothing. *)
Lemma bytes_zero_empty q : outbox_ok q -> q_bytes q <= 0 -> q_order q = [].
Proof.
  intros Hq Hb. destruct (q_order q) as [|id l] eqn:Eo; [done|]. exfalso.
  assert (queue q id <> []) as Hne by (apply (ok_order q Hq); rewrite Eo; set_solver).
  rewrite (ok_bytes q Hq), Eo in Hb. simpl in Hb. unfold queue_bytes in Hb at 1.
  assert (0 <= sum_with (queue_bytes q) l) by
    (apply sum_with_nonneg; intros; apply queue_bytes_nonneg).
  destruct (queue q id) as [|g rest]; [done|]. simpl in Hb.
  assert (0 <= sum_with frame_size rest) by
    (apply sum_with_nonneg; intros x _; pose proof (frame_size_pos x); lia).
  pose proof (frame_size_pos g). lia.
Qed.

Lemma empty_queue q id : outbox_ok q -> id ∉ q_order q -> queue q id = [].
Proof.
  intros Hq Hid. destruct (queue q id) eqn:E; [done|]. exfalso.
  apply Hid, (ok_order q Hq). by rewrite E.
Qed.

Lemma push_ok f q q' b : outbox_ok q -> push f q = (q', b) -> outbox_ok q'.
Proof.
  intros Hq H. destruct b; [|apply push_false_eq in H; by subst].
  apply push_true_eq in H as (Hb & Hby & Hl & _ & _ & Ho & Hqu).
  constructor.
  - rewrite Ho. destruct (queue q (f_callID f)) eqn:E; [|rewrite app_nil_r; apply Hq].
    apply NoDup_app; split_and!; [apply Hq| |apply NoDup_singleton].
    intros id Hid ->%list_elem_of_singleton. by apply (ok_order q Hq) in Hid.
  - intros id. rewrite Ho, elem_of_app, (ok_order q Hq), Hqu.
    case_decide as Hd; [subst|]; destruct (queue q (f_callID f)); set_solver.
  - intros id g. rewrite Hqu. case_decide as Hd; [|apply (ok_call q Hq)].
    subst. rewrite elem_of_app, list_elem_of_singleton. intros [?| ->]; [|done].
    by apply (ok_call q Hq).
  - rewrite Ho, (sum_order_push (queue_bytes q') (queue_bytes q)); [|done|..].
    + rewrite Hby, (ok_bytes q Hq). unfold queue_bytes.
      rewrite Hqu, decide_True, sum_with_app by done. simpl.
      rewrite frame_size_encoded. lia.
    + intros id' Hne. unfold queue_bytes. by rewrite Hqu, decide_False.
    + intros E. unfold queue_bytes. by rewrite E.
  - destruct Hb as [Hb|Hb]; [right|left; by rewrite Hl].
    pose proof (bytes_zero_empty q Hq Hb) as Hnil.
    assert (queue q (f_callID f) = []) as E
      by (apply empty_queue; [done|rewrite Hnil; set_solver]).
    rewrite Ho, Hnil, E. simpl. eexists _, _. split; [done|].
    rewrite Hqu, decide_True, E by done. done.
  - rewrite Hl. apply Hq.
Qed.

Lemma NoDup_delete_notin i (x : string) l : NoDup l -> l !! i = Some x -> x ∉ delete i l.
Proof.
  intros Hnd Hx Hin. rewrite (delete_Permutation l i x Hx) in Hnd.
  by apply NoDup_cons in Hnd as [? _].
Qed.

(** Accounting over the order list that [pop] leaves behind. *)
Lemma sum_order_pop (g h : string -> Z) q i id (rest : list frame) :
  NoDup (q_order q) -> q_order q !! i = Some id ->
  (forall id', id' <> id -> g id' = h id') -> (rest = [] -> g id = 0) ->
  sum_with g (delete i (q_order q) ++ match rest with [] => [] | _ => [id] end)
  = sum_with h (q_order q) + (g id - h id).
Proof.
  intros Hnd Hi Hgh H0. rewrite sum_with_app, (sum_with_ext g h (delete _ _)).
  - rewrite (sum_with_delete h _ _ _ Hi). destruct rest; simpl; [rewrite H0; [lia|done]|lia].
  - intros x Hx. apply Hgh. intros ->. by apply (NoDup_delete_notin i id (q_order q)) in Hx.
Qed.

Lemma pop_order_iff q q' i id f rest :
  outbox_ok q -> q_order q !! i = Some id -> queue q id = f :: rest ->
  q_order q' = delete i (q_order q) ++ match rest with [] => [] | _ => [id] end ->
  (forall id', queue q' id' = if decide (id' = id) then rest else queue q id') ->
  forall id', id' ∈ q_order q' <-> queue q' id' <> [].
Proof.
  intros Hq Hi E Ho Hqu id'. rewrite Ho, elem_of_app, Hqu.
  pose proof (NoDup_delete_notin i id (q_order q) (ok_nodup q Hq) Hi).
  case_decide as Hd; [subst; destruct rest; set_solver|].
  rewrite <- (ok_order q Hq).
  assert (id' ∈ q_order q <-> id' ∈ delete i (q_order q)) as ->.
  { by rewrite (delete_Permutation (q_order q) i id Hi) at 1; set_solver. }
  destruct rest; set_solver.
Qed.

Lemma pop_ok f q q' : outbox_ok q -> pop q = Some (f, q') -> outbox_ok q'.
Proof.
  intros Hq H. apply pop_inv_eq in H as (id & rest & Hi & E & Hby & Hl & _ & Ho & Hqu).
  assert (q_bytes q' = sum_with (queue_bytes q') (q_order q')) as Hbytes.
  { rewrite Ho, (sum_order_pop (queue_bytes q') (queue_bytes q)); [|apply Hq|done|..].
    - rewrite Hby, (ok_bytes q Hq). unfold queue_bytes.
      rewrite Hqu, decide_True, E by done. simpl. lia.
    - intros id' Hne. unfold queue_bytes. by rewrite Hqu, decide_False.
    - intros Hr. unfold queue_bytes. by rewrite Hqu, decide_True, Hr. }
  constructor; [| |  |done| |].
  - rewrite Ho. assert (NoDup (delete (pick q) (q_order q))) as Hnd.
    { eapply sublist_NoDup; [apply Hq|apply sublist_delete]. }
    destruct rest; [by rewrite app_nil_r|].
    apply NoDup_app; split_and!; [done| |apply NoDup_singleton].
    intros x Hx ->%list_elem_of_singleton.
    by apply (NoDup_delete_notin _ _ _ (ok_nodup q Hq) Hi).
  - by apply (pop_order_iff q q' (pick q) id f rest).
  - intros id' g. rewrite Hqu. case_decide; intros Hg; [|by apply (ok_call q Hq)].
    subst. apply (ok_call q Hq). rewrite E. set_solver.
  - left. rewrite Hl. destruct (ok_bound q Hq) as [Hb|(id' & f' & Ho' & E')].
    + pose proof (frame_size_pos f). lia.
    + rewrite Hbytes, Ho. rewrite Ho' in Hi |- *.
      destruct (pick q) as [|k]; simplify_eq/=.
      assert (rest = []) as -> by congruence. apply (ok_limit q Hq).
  - rewrite Hl. apply Hq.
Qed.

Lemma pop_queued f q q' : outbox_ok q -> pop q = Some (f, q') -> queued q' = queued q - 1.
Proof.
  intros Hq H. apply pop_inv_eq in H as (id & rest & Hi & E & _ & _ & _ & Ho & Hqu).
  unfold queued. rewrite Ho.
  rewrite (sum_order_pop _ (fun id => Z.of_nat (length (queue q id))) q _ id);
    [|apply Hq|done| |].
  - rewrite Hqu, decide_True, E by done. simpl. lia.
  - intros id' Hne. by rewrite Hqu, decide_False.
  - intros ->. by rewrite Hqu, decide_True.
Qed.

Lemma queued_zero q : outbox_ok q -> queued q <= 0 -> forall id, queue q id = [].
Proof.
  intros Hq H id. destruct (queue q id) as [|f l] eqn:E; [done|]. exfalso.
  assert (id ∈ q_order q) as Hin by (apply (ok_order q Hq); by rewrite E).
  unfold queued in H. apply list_elem_of_split in Hin as (l1 & l2 & Hl).
  rewrite Hl, sum_with_app in H. simpl in H. rewrite E in H. simpl in H.
  assert (forall l', 0 <= sum_with (fun id => Z.of_nat (length (queue q id))) l') as Hnn
    by (intros l'; apply sum_with_nonneg; lia).
  pose proof (Hnn l1). pose proof (Hnn l2). lia.
Qed.

Lemma newOutbox_ok limit : 0 <= limit -> outbox_ok (newOutbox limit).
Proof.
  intros H. constructor; simpl; try done; try (by left).
  - intros id. split; [by intros ?%elem_of_nil|done].
  - by intros id f ?%elem_of_nil.
Qed.

Lemma close_ok q : outbox_ok q -> outbox_ok (close q).
Proof.
  intros Hq. constructor; simpl; try done; try (left; apply Hq); try apply Hq.
  - intros id. split; [by intros ?%elem_of_nil|done].
  - by intros id f ?%elem_of_nil.
Qed.

Lemma wake_ok q : outbox_ok q -> outbox_ok (wake q).
Proof. intros [??????]. by constructor. Qed.

#[export] Hint Resolve newOutbox_ok close_ok wake_ok push_ok pop_ok : go.

(** When the head of some call is a control frame, [pop] returns a control
    frame; otherwise it serves the first call in order. *)
Lemma pop_first q f q' :
  outbox_ok q -> pop q = Some (f, q') ->
  ((exists id, id ∈ q_order q /\ head_priority q id = true) -> priority f = true) /\
  ((forall id, id ∈ q_order q -> head_priority q id = false) ->
     exists id, q_order q !! 0%nat = Some id /\ head (queue q id) = Some f).
Proof.
  intros Hq H. apply pop_inv_eq in H as (id & rest & Hi & E & _).
  unfold pick in Hi.
  destruct (pick_from_spec q 0 (q_order q)) as [(k & id' & Hp & Hk & Hh & _)|[Hp Hn]];
    rewrite Hp in Hi; simpl in Hi; split.
  - intros _. simplify_eq. unfold head_priority in Hh. by rewrite E in Hh.
  - intros Hno. rewrite Hno in Hh; [done|]. rewrite list_elem_of_lookup. eauto.
  - intros (id'' & Hin & Ht). by rewrite Hn in Ht.
  - intros _. exists id. by rewrite E.
Qed.

(** ** The properties of an outbox *)

(** Every operation keeps an outbox well-formed: the order lists
    exactly the calls that have frames, once each, the byte count is the sum of
    the queued frames' sizes, and it stays within the limit unless a single
    frame is queued. *)
Theorem outbox_ok_preserved q :
  outbox_ok q ->
  (forall f, outbox_ok (push f q).1) /\
  (forall f q', pop q = Some (f, q') -> outbox_ok q') /\
  outbox_ok (close q) /\ outbox_ok (wake q).
Proof.
  intros Hq. split_and!; eauto with go.
  intros f. destruct (push f q) as [q' b] eqn:E. eapply push_ok; eauto.
Qed.

Example outbox_ok_preserved_witness :
  outbox_ok (newOutbox 1000) /\ outbox_ok (push frame0 (newOutbox 1000)).1.
Proof.
  split; [by apply newOutbox_ok|].
  apply (outbox_ok_preserved (newOutbox 1000)). by apply newOutbox_ok.
Defined.

(** C30: [push] and [pop] refine one FIFO queue per call: an accepted
    frame goes to the back of its call's queue and nothing else changes, and
    a popped frame is the front of some call's queue. *)
Theorem outbox_refines_fifo q f q' :
  (push f q = (q', true) ->
     forall id, spec_of q' id = spec_push (encoded f) (spec_of q) id) /\
  (push f q = (q', false) -> spec_of q' = spec_of q) /\
  (pop q = Some (f, q') -> spec_pop (spec_of q) f (spec_of q')).
Proof.
  split_and!; intros H.
  - apply push_true_eq in H as (_ & _ & _ & _ & _ & _ & Hqu). apply Hqu.
  - by apply push_false_eq in H as ->.
  - apply pop_inv_eq in H as (id & rest & _ & E & _ & _ & _ & _ & Hqu).
    apply SpecPop with (id := id) (rest := rest); unfold spec_of; [done|by rewrite Hqu, decide_True|].
    intros id' Hne. by rewrite Hqu, decide_False.
Qed.

(** [push] accepts a frame exactly when the outbox is open and
    the frame fits the limit, or nothing is queued. *)
Theorem push_accepts_iff q f : outbox_ok q ->
  (push f q).2 = true <->
  q_closed q = false /\ (q_order q = [] \/ q_bytes q + frame_size f <= q_limit q).
Proof.
  intros Hq. unfold push, frame_size. simpl.
  assert (q_order q = [] <-> q_bytes q <= 0) as ->.
  { split; [|by apply bytes_zero_empty]. intros E. by rewrite (ok_bytes q Hq), E. }
  case_match eqn:E; simpl; unbool; split; intros; destruct_and?; try done.
  - exfalso. apply orb_true_iff in E as [?|E]; [congruence|]. unbool. lia.
  - split; [done|]. apply andb_false_iff in H0 as [?|?]; unbool; lia.
Qed.

(** A writer that keeps popping gets every queued frame, and the
    frames of one call in the order they were pushed; it needs as many pops as
    there are frames. *)
Theorem pop_all_drains q n :
  outbox_ok q -> queued q <= Z.of_nat n ->
  forall id, filter (fun f => f_callID f = id) (pop_all n q) = queue q id.
Proof.
  revert q. induction n as [|n IH]; intros q Hq Hn id; simpl.
  - rewrite queued_zero; [done|done|lia].
  - destruct (pop q) as [[f q']|] eqn:E.
    + pose proof (pop_queued f q q' Hq E). pose proof (pop_ok f q q' Hq E) as Hq'.
      apply pop_inv_eq in E as (id' & rest & _ & E & _ & _ & _ & _ & Hqu).
      assert (f_callID f = id') as Hid by (apply (ok_call q Hq); rewrite E; set_solver).
      rewrite filter_cons, IH, Hqu by (done || lia).
      repeat case_decide; subst; congruence.
    + apply pop_none in E; [|done]. symmetry. apply empty_queue; [done|].
      rewrite E. set_solver.
Qed.


(** ** Witnesses *)

Lemma sample_outbox_ok : outbox_ok sample_outbox.
Proof.
  unfold sample_outbox. eapply push_ok; [|apply surjective_pairing].
  eapply push_ok; [|apply surjective_pairing]. by apply newOutbox_ok.
Qed.

Example outbox_refines_fifo_witness :
  exists f q', pop sample_outbox = Some (f, q') /\ spec_pop (spec_of sample_outbox) f (spec_of q').
Proof.
  destruct (pop sample_outbox) as [[f q']|] eqn:E; [|vm_compute in E; discriminate E].
  exists f, q'. split; [reflexivity|]. by apply outbox_refines_fifo.
Defined.

Example push_accepts_iff_witness :
  q_order sample_outbox = ["a"; "b"]%string /\ (push frame0 sample_outbox).2 = true.
Proof.
  split; [vm_compute; reflexivity|].
  apply (push_accepts_iff sample_outbox frame0 sample_outbox_ok).
  split; [vm_compute; reflexivity|right; vm_compute; discriminate].
Defined.

Example pop_all_drains_witness :
  filter (fun f => f_callID f = "b"%string) (pop_all 2 sample_outbox) = queue sample_outbox "b".
Proof. apply (pop_all_drains sample_outbox 2 sample_outbox_ok). vm_compute. discriminate. Defined.

