(* ===== verification/Breaker.v ===== *)
(** * The per-instance circuit breaker: internal/router/breaker.go

    Times are nanoseconds on one clock; the zero [time.Time] of [openUntil] is
    [None].  [health_admit] ([health.admit]) returns the answer and the updated health, because a
    half-open breaker marks its probe. *)
From S2P Require Import Prelude GoStd Protocol.
#[local] Open Scope Z_scope.

Definition DefaultBreakerThreshold : Z := 5.
Definition DefaultBreakerCooldown : Z := 10 * Second.

Inductive breakerState := breakerClosed | breakerOpen | breakerHalfOpen.
#[global] Instance breakerState_eq_dec : EqDecision breakerState.
Proof. solve_decision. Defined.

Definition breaker_text (s : breakerState) : string :=
  match s with
  | breakerClosed => "closed" | breakerOpen => "open" | breakerHalfOpen => "half_open"
  end.

Record health := Health {
  h_failures : Z;
  h_openUntil : option Z;
  h_probing : bool }.
#[global] Instance health_eta : Eta health :=
  fun x => Health (h_failures x) (h_openUntil x) (h_probing x).
#[global] Instance health_eq_dec : EqDecision health.
Proof. solve_decision. Defined.

Definition health0 : health := Health 0 None false.

Definition state (h : health) (now : Z) : breakerState :=
  match h_openUntil h with
  | None => breakerClosed
  | Some t => if now <? t then breakerOpen else breakerHalfOpen
  end.

Definition health_admit (h : health) (now : Z) : bool * health :=
  match state h now with
  | breakerClosed => (true, h)
  | breakerHalfOpen =>
      if h_probing h then (false, h) else (true, h {{ h_probing := true }})
  | breakerOpen => (false, h)
  end.

(** [Router.observe] on the health of one instance. *)
Definition observe (threshold cooldown now : Z) (ok : bool) (h : health) : health :=
  if ok then Health 0 None false
  else
    let h := h {{ h_failures ::= Z.add 1; h_probing := false }} in
    if threshold <=? h_failures h then h {{ h_openUntil := Some (now + cooldown) }} else h.

Definition instanceFailed (f : frame) : bool :=
  String.eqb (f_kind f) "call.error" &&
  match f_error f with
  | Some e => String.eqb (e_code e) "internal" || String.eqb (e_code e) "unavailable"
  | None => false
  end.

(** A history of outcomes, the most recent last: time and success. *)
Definition run (threshold cooldown : Z) (h : health) (obs : list (Z * bool)) : health :=
  fold_left (fun h o => observe threshold cooldown o.1 o.2 h) obs h.

(** A run of [health_admit]s with no outcome in between: the answers. *)
Fixpoint admits (h : health) (times : list Z) : list bool :=
  match times with
  | [] => []
  | t :: times => let '(b, h) := health_admit h t in b :: admits h times
  end.

(** The specification of the breaker: it only looks at the outcomes since the
    last success. *)
Fixpoint trailing_failures (obs : list (Z * bool)) : Z :=
  (* [obs] with the most recent first *)
  match obs with
  | (_, false) :: obs => 1 + trailing_failures obs
  | _ => 0
  end.
Definition last_time (obs : list (Z * bool)) : Z :=
  match obs with (t, _) :: _ => t | [] => 0 end.
Definition breaker_spec (threshold cooldown : Z) (obs : list (Z * bool)) (now : Z)
    : breakerState :=
  let obs := reverse obs in
  if trailing_failures obs <? threshold then breakerClosed
  else if now <? last_time obs + cooldown then breakerOpen
  else breakerHalfOpen.

(** ** Lemmas *)

Lemma run_snoc th cd h obs o :
  run th cd h (obs ++ [o]) = observe th cd o.1 o.2 (run th cd h obs).
Proof. unfold run. by rewrite fold_left_app. Qed.

Lemma trailing_nonneg obs : 0 <= trailing_failures obs.
Proof. induction obs as [|[t []] obs IH]; simpl; lia. Qed.

Lemma run_health th cd obs : 1 <= th ->
  run th cd health0 obs =
  Health (trailing_failures (reverse obs))
    (if trailing_failures (reverse obs) <? th then None
     else Some (last_time (reverse obs) + cd)) false.
Proof.
  intros Hth. induction obs as [|[t ok] obs IH] using rev_ind.
  - simpl. by destruct (0 <? th) eqn:E; [|unbool; lia].
  - rewrite run_snoc, IH, reverse_snoc. destruct ok; unfold observe; simpl.
    + by destruct (0 <? th) eqn:E; [|unbool; lia].
    + destruct (th <=? 1 + trailing_failures (reverse obs)) eqn:E1,
        (1 + trailing_failures (reverse obs) <? th) eqn:E2; simpl; unbool; try lia; [done|].
      destruct (trailing_failures (reverse obs) <? th) eqn:E3; unbool; [done|lia].
Qed.

Lemma admit_probing h t : h_openUntil h <> None -> h_probing h = true -> health_admit h t = (false, h).
Proof.
  destruct h as [f [o|] p]; simpl; intros ? Hp; [|done]. subst.
  unfold health_admit, state. simpl. by destruct (t <? o).
Qed.

Lemma admits_probing h times :
  h_openUntil h <> None -> h_probing h = true -> admits h times = map (fun _ => false) times.
Proof.
  intros Ho Hp. induction times as [|t times IH]; simpl; [done|].
  by rewrite admit_probing, IH.
Qed.

(** ** Properties *)

(** C32: after any history of outcomes the breaker is closed while
    fewer than [threshold] failures follow the last success, open for
    [cooldown] after the latest failure otherwise, and then half-open. *)
Theorem breaker_refines_spec th cd obs now :
  1 <= th -> state (run th cd health0 obs) now = breaker_spec th cd obs now.
Proof.
  intros Hth. rewrite run_health by done. unfold state, breaker_spec. simpl.
  by destruct (_ <? th).
Qed.

Example breaker_refines_spec_witness :
  1 <= 2 /\ state (run 2 10 health0 [(0, true); (1, false); (5, false)]) 14 = breakerOpen.
Proof.
  split; [lia|]. rewrite (breaker_refines_spec 2 10); [reflexivity|lia].
Defined.

(** A breaker that has opened admits nothing before its
    cooldown ends, and at most one call until an outcome is observed, however
    often it is asked. *)
Theorem breaker_single_probe h times t0 :
  h_openUntil h = Some t0 ->
  (Forall (fun t => t < t0) times -> Forall (fun b => b = false) (admits h times)) /\
  (length (filter (fun b => b = true) (admits h times)) <= 1)%nat.
Proof.
  intros Ho. split.
  - induction 1 as [|t times Ht _ IH]; simpl; [constructor|].
    unfold health_admit, state. rewrite Ho. destruct (t <? t0) eqn:E; [|unbool; lia].
    by constructor.
  - induction times as [|t times IH]; simpl; [lia|].
    unfold health_admit, state. rewrite Ho. destruct (t <? t0); simpl.
    + rewrite filter_cons_False by done. done.
    + destruct (h_probing h) eqn:Hp; simpl.
      * rewrite filter_cons_False by done. done.
      * rewrite admits_probing by (simpl; rewrite ?Ho; done).
        clear. induction times as [|t' times IH]; simpl in *; [lia|].
        by rewrite filter_cons_False.
Qed.

Example breaker_single_probe_witness :
  h_openUntil (Health 5 (Some 10) false) = Some 10 /\
  (length (filter (fun b => b = true) (admits (Health 5 (Some 10%Z) false) [3; 11; 12]%Z)) <= 1)%nat.
Proof.
  split; [reflexivity|].
  apply (breaker_single_probe (Health 5 (Some 10) false) [3; 11; 12] 10). reflexivity.
Defined.
