(* ===== verification/GoHeap.v ===== *)
(** * Package container/heap, on a slice with a [Less] by integer key

    [heap_up], [heap_down], [heap_pop] and [heap_remove] are the standard
    library's functions on any implementation of [heap.Interface]
    ([HeapInterface]).  [up], [down], [Pop] and [Remove] are the same functions
    on a plain slice ordered by an integer key; an implementation that shows a
    slice ([HeapView]: its [Swap] may also do bookkeeping, such as updating
    index fields) behaves like it. *)
From S2P Require Import Prelude GoStd.

(** ** heap.Interface *)

Class HeapInterface (S : Type) : Type := {
  Len : S -> nat;
  Less : nat -> nat -> S -> bool;
  Swap : nat -> nat -> S -> S }.

(** [(j - 1) / 2] in Go is 0 for [j = 0], as [Nat.div2 (pred j)] is. *)
Definition parent (j : nat) : nat := Nat.div2 (pred j).

Section interface.
Context {S : Type} `{HeapInterface S}.

Fixpoint heap_up (fuel j : nat) (s : S) : S :=
  match fuel with
  | O => s
  | Datatypes.S fuel =>
      let i := parent j in
      if (i =? j)%nat || negb (Less j i s) then s
      else heap_up fuel i (Swap i j s)
  end.

(** [down(h, i, n)]: the state and the final position. *)
Fixpoint heap_down (fuel i n : nat) (s : S) : S * nat :=
  match fuel with
  | O => (s, i)
  | Datatypes.S fuel =>
      let j1 := (2 * i + 1)%nat in
      if (n <=? j1)%nat then (s, i)
      else
        let j2 := Datatypes.S j1 in
        let j := if (j2 <? n)%nat && Less j2 j1 s then j2 else j1 in
        if negb (Less j i s) then (s, i)
        else heap_down fuel j n (Swap i j s)
  end.

(** What [heap.Push] does behind [h.Push(x)]. *)
Definition heap_push (s : S) : S := heap_up (Len s) (Len s - 1) s.

(** What [heap.Pop] does before [h.Pop()]. *)
Definition heap_pop (s : S) : S :=
  let n := (Len s - 1)%nat in
  fst (heap_down (Len s) 0 n (Swap 0 n s)).

(** What [heap.Remove] does before [h.Pop()]. *)
Definition heap_remove (i : nat) (s : S) : S :=
  let n := (Len s - 1)%nat in
  if (n =? i)%nat then s
  else
    let s := Swap i n s in
    let '(s', i') := heap_down (Len s) i n s in
    if (i <? i')%nat then s' else heap_up (Len s') i s'.
End interface.

(** ** A slice ordered by a key *)

Section heap.
Context {A : Type} (key : A -> Z).

Definition swap (i j : nat) (h : list A) : list A :=
  match h !! i, h !! j with
  | Some x, Some y => <[j := x]> (<[i := y]> h)
  | _, _ => h
  end.

Definition less (h : list A) (i j : nat) : bool :=
  match h !! i, h !! j with
  | Some x, Some y => (key x <? key y)%Z
  | _, _ => false
  end.

Fixpoint up (fuel : nat) (j : nat) (h : list A) : list A :=
  match fuel with
  | O => h
  | S fuel =>
      let i := parent j in
      if (i =? j)%nat || negb (less h j i) then h
      else up fuel i (swap i j h)
  end.

(** [down(h, i, n)]: the slice and the final position. *)
Fixpoint down (fuel : nat) (i n : nat) (h : list A) : list A * nat :=
  match fuel with
  | O => (h, i)
  | S fuel =>
      let j1 := (2 * i + 1)%nat in
      if (n <=? j1)%nat then (h, i)
      else
        let j2 := S j1 in
        let j := if (j2 <? n)%nat && less h j2 j1 then j2 else j1 in
        if negb (less h j i) then (h, i)
        else down fuel j n (swap i j h)
  end.

Definition Push (x : A) (h : list A) : list A :=
  let h := h ++ [x] in up (length h) (length h - 1) h.

(** [Pop] and [Remove] return the removed element and the rest. *)
Definition split_last (h : list A) : option (A * list A) :=
  match last h with
  | Some x => Some (x, take (length h - 1) h)
  | None => None
  end.

Definition Pop (h : list A) : option (A * list A) :=
  let n := (length h - 1)%nat in
  let h := swap 0 n h in
  split_last (fst (down (length h) 0 n h)).

(** [if !down(h, i, n) { up(h, i) }]. *)
Definition sift (i n : nat) (h : list A) : list A :=
  let '(h', i') := down (length h) i n h in
  if (i <? i')%nat then h' else up (length h') i h'.
Definition Remove (i : nat) (h : list A) : option (A * list A) :=
  let n := (length h - 1)%nat in
  split_last (if (n =? i)%nat then h else sift i n (swap i n h)).

Definition keyAt (h : list A) (i : nat) : Z := default 0%Z (key <$> h !! i).

(** Every element of the first [n] but the root is not before its parent. *)
Definition heap_upto (n : nat) (h : list A) : Prop :=
  forall j, (0 < j < n)%nat -> (keyAt h (parent j) <= keyAt h j)%Z.
Definition is_heap (h : list A) : Prop := heap_upto (length h) h.
End heap.

(** An implementation whose operations act on a slice as above. *)
Class HeapView (S A : Type) `{HeapInterface S} (key : A -> Z) (view : S -> list A) : Prop := {
  view_Len s : Len s = length (view s);
  view_Less i j s : Less i j s = less key (view s) i j;
  view_Swap i j s : view (Swap i j s) = swap i j (view s) }.

(** ** Lemmas *)

(** Case analysis on the positions an exchange touches. *)
Ltac heap_cases :=
  repeat case_decide; subst; try lia;
  repeat match goal with E : parent ?m = _ |- _ => rewrite E in *; clear E end;
  try lia.

Section heap_lemmas.
Context {A : Type} (key : A -> Z).
Implicit Types h : list A.

Lemma swap_length i j h : length (swap i j h) = length h.
Proof. unfold swap. case_all; by rewrite ?length_insert. Qed.

Lemma swap_perm i j h : swap i j h ≡ₚ h.
Proof.
  unfold swap. destruct (h !! i) as [x|] eqn:Ei; [|done].
  destruct (h !! j) as [y|] eqn:Ej; [|done].
  apply Permutation_inj. split; [by rewrite !length_insert|].
  exists (fun k => if decide (k = i) then j else if decide (k = j) then i else k).
  split.
  - intros a b. repeat case_decide; subst; congruence.
  - intros k. pose proof (lookup_lt_Some _ _ _ Ei). pose proof (lookup_lt_Some _ _ _ Ej).
    repeat case_decide; subst.
    + destruct (decide (i = j)) as [->|Hij].
      * rewrite list_lookup_insert_eq by (rewrite length_insert; lia). congruence.
      * rewrite list_lookup_insert_ne, list_lookup_insert_eq by (congruence || lia). done.
    + rewrite list_lookup_insert_eq by (rewrite length_insert; lia). done.
    + by rewrite !list_lookup_insert_ne by congruence.
Qed.

Lemma swap_lookup i j k h :
  (i < length h)%nat -> (j < length h)%nat ->
  swap i j h !! k = if decide (k = j) then h !! i else if decide (k = i) then h !! j else h !! k.
Proof.
  intros Hi Hj. unfold swap.
  destruct (lookup_lt_is_Some_2 h i Hi) as [x Hx].
  destruct (lookup_lt_is_Some_2 h j Hj) as [y Hy]. rewrite Hx, Hy.
  repeat case_decide; subst.
  - by rewrite list_lookup_insert_eq by (rewrite length_insert; lia).
  - by rewrite list_lookup_insert_ne, list_lookup_insert_eq by (congruence || lia).
  - by rewrite !list_lookup_insert_ne by congruence.
Qed.

Lemma up_perm fuel j h : up key fuel j h ≡ₚ h.
Proof.
  revert j h. induction fuel as [|fuel IH]; intros j h; simpl; [done|].
  case_match; [done|]. by rewrite IH, swap_perm.
Qed.

Lemma down_perm fuel i n h : (down key fuel i n h).1 ≡ₚ h.
Proof.
  revert i h. induction fuel as [|fuel IH]; intros i h; simpl; [done|].
  case_match; [done|]. case_match; [done|]. by rewrite IH, swap_perm.
Qed.

Lemma up_length fuel j h : length (up key fuel j h) = length h.
Proof. apply Permutation_length, up_perm. Qed.
Lemma down_length fuel i n h : length (down key fuel i n h).1 = length h.
Proof. apply Permutation_length, down_perm. Qed.

Lemma split_last_spec h x h' : split_last h = Some (x, h') <-> h = h' ++ [x].
Proof.
  unfold split_last. split.
  - intros H. destruct (last h) as [y|] eqn:E; simplify_eq.
    apply last_Some in E as [l ->]. rewrite length_app. simpl.
    replace (length l + 1 - 1)%nat with (length l) by lia.
    by rewrite take_app_length.
  - intros ->. rewrite last_snoc, length_app. simpl.
    replace (length h' + 1 - 1)%nat with (length h') by lia.
    by rewrite take_app_length.
Qed.

Lemma parent_lt j : (0 < j)%nat -> (parent j < j)%nat.
Proof. unfold parent. intros. pose proof (Nat.div2_decr (pred j) (pred j)). lia. Qed.

Lemma parent_children i m : parent m = i -> (0 < m)%nat -> m = (2 * i + 1)%nat \/ m = (2 * i + 2)%nat.
Proof.
  unfold parent. intros <- Hm. rewrite Nat.div2_div.
  pose proof (Nat.div_mod_eq (pred m) 2). pose proof (Nat.mod_upper_bound (pred m) 2). lia.
Qed.

Lemma parent_left i : parent (2 * i + 1) = i.
Proof. unfold parent. rewrite Nat.div2_div. symmetry. apply (Nat.div_unique _ _ _ 0); lia. Qed.
Lemma parent_right i : parent (S (2 * i + 1)) = i.
Proof. unfold parent. rewrite Nat.div2_div. symmetry. apply (Nat.div_unique _ _ _ 1); lia. Qed.

Lemma less_spec h i j : (i < length h)%nat -> (j < length h)%nat ->
  less key h i j = (keyAt key h i <? keyAt key h j)%Z.
Proof.
  intros Hi Hj. unfold less, keyAt.
  destruct (lookup_lt_is_Some_2 h i Hi) as [x ->].
  by destruct (lookup_lt_is_Some_2 h j Hj) as [y ->].
Qed.

Lemma keyAt_swap i j k h : (i < length h)%nat -> (j < length h)%nat ->
  keyAt key (swap i j h) k =
  if decide (k = j) then keyAt key h i else if decide (k = i) then keyAt key h j else keyAt key h k.
Proof. intros Hi Hj. unfold keyAt. rewrite swap_lookup by done. by repeat case_decide. Qed.

(** Before [up j]: only [j] may be before its parent, and the children of
    [j] are not before that parent. *)
Definition up_ready (j n : nat) h : Prop :=
  (forall m, (0 < m < n)%nat -> m <> j -> (keyAt key h (parent m) <= keyAt key h m)%Z) /\
  (forall m, (0 < m < n)%nat -> parent m = j -> (0 < j)%nat ->
     (keyAt key h (parent j) <= keyAt key h m)%Z).

Lemma up_heap fuel j n h : (j < fuel)%nat -> (j < n)%nat -> (n <= length h)%nat ->
  up_ready j n h -> heap_upto key n (up key fuel j h).
Proof.
  revert j h. induction fuel as [|fuel IH]; intros j h Hf Hj Hn [Hoth Hch]; [lia|]. simpl.
  destruct (parent j =? j)%nat eqn:Ep; simpl.
  { apply Nat.eqb_eq in Ep. intros m Hm. apply Hoth; [done|]. intros ->.
    pose proof (parent_lt j). lia. }
  apply Nat.eqb_neq in Ep.
  assert (0 < j)%nat as Hj0 by (destruct j; [done|lia]).
  pose proof (parent_lt j Hj0) as Hpj.
  rewrite less_spec by lia. destruct (_ <? _)%Z eqn:El; simpl; unbool.
  - apply IH; [lia|lia|by rewrite swap_length|].
    split; intros m Hm.
    + intros Hne. pose proof (parent_lt m ltac:(lia)).
      rewrite !keyAt_swap by lia.
      pose proof (Hoth m Hm). pose proof (Hch m Hm).
      heap_cases.
    + intros Hpm Hp0. pose proof (parent_lt (parent j) Hp0).
      rewrite !keyAt_swap by lia.
      pose proof (Hoth m Hm). pose proof (Hoth (parent j) ltac:(lia) ltac:(lia)).
      pose proof (parent_lt m ltac:(lia)).
      heap_cases.
  - intros m Hm. destruct (decide (m = j)) as [->|]; [lia|by apply Hoth].
Qed.

(** Before [down i]: every element but [i] and its children is in place, and
    the children of [i] are not before the parent of [i]. *)
Definition down_ready (i n : nat) h : Prop :=
  (forall m, (0 < m < n)%nat -> m <> i -> parent m <> i ->
     (keyAt key h (parent m) <= keyAt key h m)%Z) /\
  (forall m, (0 < m < n)%nat -> parent m = i -> (0 < i)%nat ->
     (keyAt key h (parent i) <= keyAt key h m)%Z).
Definition in_place i h : Prop :=
  (0 < i)%nat -> (keyAt key h (parent i) <= keyAt key h i)%Z.

(** The child that [down] compares with: the smaller one. *)
Lemma smaller_child i n h (j := if (S (2 * i + 1) <? n)%nat && less key h (S (2 * i + 1)) (2 * i + 1)
                            then S (2 * i + 1) else (2 * i + 1)%nat) :
  (2 * i + 1 < n)%nat -> (n <= length h)%nat ->
  (0 < j < n)%nat /\ parent j = i /\
  forall m, (0 < m < n)%nat -> parent m = i -> (keyAt key h j <= keyAt key h m)%Z.
Proof.
  intros H1 Hn. subst j.
  destruct (S (2 * i + 1) <? n)%nat eqn:E2; cbn [andb].
  - apply Nat.ltb_lt in E2. rewrite less_spec by lia.
    destruct (_ <? _)%Z eqn:El; unbool; (split_and!; [lia|lia|by rewrite ?parent_left, ?parent_right|]);
      intros m Hm Hp; destruct (parent_children i m Hp ltac:(lia)) as [->| ->];
      replace (2 * i + 2)%nat with (S (2 * i + 1)) in * by lia; lia.
  - apply Nat.ltb_ge in E2. split_and!; [lia|lia|apply parent_left|].
    intros m Hm Hp. destruct (parent_children i m Hp ltac:(lia)) as [->| ->]; lia.
Qed.

(** One exchange of [down] hands the obligation to the child. *)
Lemma down_exchange i j n h :
  (0 < j < n)%nat -> (n <= length h)%nat -> parent j = i ->
  (forall m, (0 < m < n)%nat -> parent m = i -> (keyAt key h j <= keyAt key h m)%Z) ->
  (keyAt key h j < keyAt key h i)%Z -> down_ready i n h ->
  down_ready j n (swap i j h) /\ in_place j (swap i j h).
Proof.
  intros Hj Hn Hp Hmin Hlt [Hoth Hch].
  pose proof (parent_lt j ltac:(lia)) as Hij. rewrite Hp in Hij.
  split; [split|].
  - intros m Hm Hmj Hpm. pose proof (parent_lt m ltac:(lia)).
    rewrite !keyAt_swap by lia.
    destruct (decide (m = i)) as [->|Hmi].
    + pose proof (Hch j Hj Hp ltac:(lia)). heap_cases.
    + destruct (decide (parent m = i)) as [Hpi|Hpi].
      * pose proof (Hmin m Hm Hpi). heap_cases.
      * pose proof (Hoth m Hm Hmi Hpi). heap_cases.
  - intros m Hm Hpm Hj0. pose proof (parent_lt m ltac:(lia)).
    rewrite !keyAt_swap by lia. rewrite Hp.
    pose proof (Hoth m Hm ltac:(lia) ltac:(lia)). rewrite Hpm in *.
    heap_cases.
  - intros _. rewrite !keyAt_swap by lia. rewrite Hp. heap_cases.
Qed.

Lemma down_heap fuel i n h : (n - i < fuel)%nat -> (n <= length h)%nat ->
  down_ready i n h -> in_place i h ->
  heap_upto key n (down key fuel i n h).1 /\ (i <= (down key fuel i n h).2)%nat.
Proof.
  revert i h. induction fuel as [|fuel IH]; intros i h Hf Hn Hd Hi; [lia|].
  cbn [down]. destruct (n <=? 2 * i + 1)%nat eqn:E1; cbn [fst snd].
  - apply Nat.leb_le in E1. split; [|done]. intros m Hm.
    destruct (decide (m = i)) as [->|]; [apply Hi; lia|].
    apply Hd; [done|done|]. intros Hp. destruct (parent_children i m Hp ltac:(lia)); lia.
  - apply Nat.leb_gt in E1. destruct (smaller_child i n h E1 Hn) as (Hj & Hp & Hmin).
    set (j := if _ : bool then _ else _) in *.
    pose proof (parent_lt j ltac:(lia)).
    rewrite less_spec by lia. destruct (_ <? _)%Z eqn:El; cbn [negb fst snd]; unbool.
    + destruct (down_exchange i j n h Hj Hn Hp Hmin El Hd) as [Hd' Hi'].
      destruct (IH j (swap i j h)) as [Hh Hle]; [lia|by rewrite swap_length|done|done|].
      split; [done|lia].
    + split; [|done]. intros m Hm. destruct (decide (parent m = i)) as [Hpm|].
      * pose proof (Hmin m Hm Hpm). rewrite Hpm. lia.
      * destruct (decide (m = i)) as [->|]; [apply Hi; lia|]. by apply Hd.
Qed.

(** The first step of [down] when [i] may also be before its parent, as in
    [Remove]: either nothing moves, or the result is a heap. *)
Lemma down_or_stay fuel i n h : (n - i < fuel)%nat -> (n <= length h)%nat ->
  down_ready i n h ->
  (down key fuel i n h = (h, i) /\ up_ready i n h) \/
  ((i < (down key fuel i n h).2)%nat /\ heap_upto key n (down key fuel i n h).1).
Proof.
  destruct fuel as [|fuel]; intros Hf Hn Hd; [lia|]. cbn [down].
  assert (forall m, (0 < m < n)%nat -> parent m = i -> (2 * i + 1 < n)%nat) as Hchild.
  { intros m Hm Hp. destruct (parent_children i m Hp ltac:(lia)); lia. }
  destruct (n <=? 2 * i + 1)%nat eqn:E1; cbn [fst snd].
  - apply Nat.leb_le in E1. left. split; [done|]. split; [|apply Hd].
    intros m Hm Hmi. apply Hd; [done|done|]. intros Hp. specialize (Hchild m Hm Hp). lia.
  - apply Nat.leb_gt in E1. destruct (smaller_child i n h E1 Hn) as (Hj & Hp & Hmin).
    set (j := if _ : bool then _ else _) in *. pose proof (parent_lt j ltac:(lia)).
    rewrite less_spec by lia. destruct (_ <? _)%Z eqn:El; cbn [negb fst snd]; unbool.
    + right. destruct (down_exchange i j n h Hj Hn Hp Hmin El Hd) as [Hd' Hi'].
      destruct (down_heap fuel j n (swap i j h)) as [Hh Hle];
        [lia|by rewrite swap_length|done|done|]. split; [lia|done].
    + left. split; [done|]. split; [|apply Hd]. intros m Hm Hmi.
      destruct (decide (parent m = i)) as [Hpm|]; [|by apply Hd].
      pose proof (Hmin m Hm Hpm). rewrite Hpm. lia.
Qed.

Lemma up_lookup_gt fuel j k h : (j < k)%nat -> (j < length h)%nat -> up key fuel j h !! k = h !! k.
Proof.
  revert j h. induction fuel as [|fuel IH]; intros j h Hk Hj; simpl; [done|].
  case_match eqn:E; [done|]. apply orb_false_iff in E as [E _]. apply Nat.eqb_neq in E.
  assert (parent j < j)%nat by (apply parent_lt; destruct j; [done|lia]).
  rewrite IH, swap_lookup by (rewrite ?swap_length; lia).
  by rewrite !decide_False by lia.
Qed.

Lemma down_lookup_ge fuel i n k h : (i < n)%nat -> (n <= k)%nat -> (n <= length h)%nat ->
  (down key fuel i n h).1 !! k = h !! k.
Proof.
  revert i h. induction fuel as [|fuel IH]; intros i h Hi Hk Hn; [done|]. cbn [down].
  destruct (n <=? 2 * i + 1)%nat eqn:E1; [done|]. apply Nat.leb_gt in E1.
  destruct (smaller_child i n h E1 Hn) as (Hj & Hp & _).
  set (j := if _ : bool then _ else _) in *.
  case_match; [done|]. rewrite IH, swap_lookup by (rewrite ?swap_length; lia).
  by rewrite !decide_False by lia.
Qed.

Lemma heap_upto_root n h i : heap_upto key n h -> (i < n)%nat -> (keyAt key h 0 <= keyAt key h i)%Z.
Proof.
  intros Hh. induction (lt_wf i) as [i _ IH]. intros Hi.
  destruct i as [|i]; [done|]. pose proof (parent_lt (S i) ltac:(lia)).
  pose proof (IH (parent (S i)) ltac:(lia) ltac:(lia)). pose proof (Hh (S i) ltac:(lia)). lia.
Qed.

(** The root of a heap is a minimum. *)
Lemma is_heap_min h x : is_heap key h -> h !! 0 = Some x -> forall y, y ∈ h -> (key x <= key y)%Z.
Proof.
  intros Hh Hx y [i Hi]%list_elem_of_lookup.
  pose proof (heap_upto_root (length h) h i Hh (lookup_lt_Some _ _ _ Hi)) as Hle.
  unfold keyAt in Hle. by rewrite Hx, Hi in Hle.
Qed.

Lemma keyAt_app_l h k i : (i < length h)%nat -> keyAt key (h ++ k) i = keyAt key h i.
Proof. intros. unfold keyAt. by rewrite lookup_app_l. Qed.

Lemma Push_heap x h : is_heap key h -> is_heap key (Push key x h).
Proof.
  intros Hh. unfold Push, is_heap. rewrite up_length, length_app. simpl.
  replace (length h + 1 - 1)%nat with (length h) by lia.
  apply up_heap; rewrite ?length_app; simpl; try lia. split.
  - intros m Hm Hne. pose proof (parent_lt m ltac:(lia)).
    rewrite !keyAt_app_l by lia. apply Hh. lia.
  - intros m Hm Hp. pose proof (parent_lt m ltac:(lia)). lia.
Qed.

Lemma Push_perm x h : Push key x h ≡ₚ x :: h.
Proof. unfold Push. rewrite up_perm. by rewrite Permutation_app_comm. Qed.

(** The heap property after the last element was cut off. *)
Lemma heap_take h' x : heap_upto key (length h') (h' ++ [x]) -> is_heap key h'.
Proof.
  intros Hh j Hj. pose proof (parent_lt j ltac:(lia)). pose proof (Hh j Hj).
  by rewrite !keyAt_app_l in * by lia.
Qed.

Lemma snoc_of_last h n x : n = (length h - 1)%nat -> h !! n = Some x ->
  exists h', h = h' ++ [x] /\ length h' = n.
Proof.
  intros -> Hx. destruct h as [|y h' _] using rev_ind; [done|].
  rewrite length_app in Hx. simpl in Hx. rewrite lookup_app_r in Hx by lia.
  replace (length h' + 1 - 1 - length h')%nat with 0%nat in Hx by lia. simplify_eq/=.
  exists h'. rewrite length_app. simpl. split; [done|lia].
Qed.

Lemma sift_spec i n h : (i < n)%nat -> (n < length h)%nat -> down_ready i n h ->
  length (sift key i n h) = length h /\ sift key i n h ≡ₚ h /\
  sift key i n h !! n = h !! n /\ heap_upto key n (sift key i n h).
Proof.
  intros Hi Hn Hd. unfold sift.
  destruct (down_or_stay (length h) i n h) as [[-> Hup]|[Hlt Hhp]]; [lia|lia|done| |].
  - rewrite Nat.ltb_irrefl, up_length. split_and!; [done|apply up_perm| |].
    + by rewrite up_lookup_gt by lia.
    + apply up_heap; [lia|lia|lia|done].
  - pose proof (down_lookup_ge (length h) i n n h ltac:(lia) ltac:(lia) ltac:(lia)) as Hlk.
    pose proof (down_perm (length h) i n h) as Hp.
    destruct (down key (length h) i n h) as [h1 i1]. cbn [fst snd] in *.
    apply Nat.ltb_lt in Hlt as ->. split_and!; [by apply Permutation_length|done..].
Qed.

(** Exchanging a position with the last one leaves a heap but for it. *)
Lemma swap_down_ready i n h : is_heap key h -> n = (length h - 1)%nat -> (i < n)%nat ->
  down_ready i n (swap i n h).
Proof.
  intros Hh Hn Hi. split.
  - intros m Hm Hmi Hpm. pose proof (parent_lt m ltac:(lia)).
    rewrite !keyAt_swap by lia. pose proof (Hh m ltac:(lia)). heap_cases.
  - intros m Hm Hpm Hi0. pose proof (parent_lt m ltac:(lia)). pose proof (parent_lt i Hi0).
    rewrite !keyAt_swap by lia.
    pose proof (Hh m ltac:(lia)). pose proof (Hh i ltac:(lia)). heap_cases.
Qed.

(** Cutting the last element off what [Pop] and [Remove] prepared. *)
Lemma cut_last h h1 n x : n = (length h - 1)%nat -> length h1 = length h -> h1 ≡ₚ h ->
  h1 !! n = Some x -> heap_upto key n h1 ->
  exists h', split_last h1 = Some (x, h') /\ is_heap key h' /\ h ≡ₚ x :: h'.
Proof.
  intros Hn Hlen Hperm Hlast Hheap.
  destruct (snoc_of_last h1 n x ltac:(lia) Hlast) as (h' & -> & Hl').
  exists h'. split_and!.
  - by apply split_last_spec.
  - apply (heap_take h' x). by rewrite Hl'.
  - rewrite <- Hperm. by rewrite Permutation_app_comm.
Qed.

Lemma Remove_spec i h x : is_heap key h -> h !! i = Some x ->
  exists h', Remove key i h = Some (x, h') /\ is_heap key h' /\ h ≡ₚ x :: h'.
Proof.
  intros Hh Hx. pose proof (lookup_lt_Some _ _ _ Hx) as Hi. unfold Remove.
  set (n := (length h - 1)%nat). destruct (n =? i)%nat eqn:En.
  - apply Nat.eqb_eq in En. apply (cut_last h h n x); [done|done|done|by rewrite En|].
    intros j Hj. apply Hh. lia.
  - apply Nat.eqb_neq in En.
    destruct (sift_spec i n (swap i n h)) as (Hl & Hp & Hn & Hhp);
      [lia|rewrite swap_length; lia|apply swap_down_ready; [done|done|lia]|].
    apply (cut_last h _ n x); [done|by rewrite Hl, swap_length|by rewrite Hp, swap_perm| |done].
    rewrite Hn, swap_lookup by lia. by rewrite decide_True.
Qed.

Lemma Pop_spec h x : is_heap key h -> h !! 0%nat = Some x ->
  exists h', Pop key h = Some (x, h') /\ is_heap key h' /\ h ≡ₚ x :: h'.
Proof.
  intros Hh Hx. pose proof (lookup_lt_Some _ _ _ Hx) as Hi. unfold Pop.
  set (n := (length h - 1)%nat). set (h0 := swap 0 n h).
  assert (length h0 = length h) as Hl0 by apply swap_length.
  assert (h0 !! n = Some x) as Hn0.
  { unfold h0. rewrite swap_lookup by lia. by rewrite decide_True. }
  destruct (decide (n = 0%nat)) as [Hz|Hz].
  - assert (down key (length h0) 0 n h0 = (h0, 0%nat)) as ->.
    { destruct (length h0); [done|]. cbn [down].
      destruct (n <=? 2 * 0 + 1)%nat eqn:E; [done|]. apply Nat.leb_gt in E. lia. }
    apply (cut_last h h0 n x); [done..|apply swap_perm|done|]. intros j Hj. lia.
  - destruct (down_heap (length h0) 0 n h0) as [Hheap _];
      [lia|lia|apply swap_down_ready; [done|done|lia]|intros ?; lia|].
    apply (cut_last h _ n x); [done|by rewrite down_length|rewrite down_perm; apply swap_perm| |done].
    by rewrite down_lookup_ge by lia.
Qed.
End heap_lemmas.

(** A property [Swap] preserves is preserved by every heap operation. *)
Section preserved.
Context {S : Type} `{HeapInterface S} (P : S -> Prop).
Context (P_Swap : forall i j s, P s -> P (Swap i j s)).

Lemma heap_up_ind fuel j s : P s -> P (heap_up fuel j s).
Proof. revert j s. induction fuel; intros; simpl; [done|]. case_match; auto. Qed.

Lemma heap_down_ind fuel i n s : P s -> P (heap_down fuel i n s).1.
Proof.
  revert i s. induction fuel as [|fuel IH]; intros; cbn [heap_down]; [done|].
  case_match; [done|]. case_match; auto.
Qed.

Lemma heap_push_ind s : P s -> P (heap_push s).
Proof. apply heap_up_ind. Qed.

Lemma heap_pop_ind s : P s -> P (heap_pop s).
Proof. intros. unfold heap_pop. by apply heap_down_ind, P_Swap. Qed.

Lemma heap_remove_ind i s : P s -> P (heap_remove i s).
Proof.
  intros Hs. unfold heap_remove. case_match; [done|].
  pose proof (heap_down_ind (Len (Swap i (Len s - 1) s)) i (Len s - 1) _
                (P_Swap i (Len s - 1) s Hs)) as Hd.
  destruct (heap_down _ _ _ _). case_match; [done|]. by apply heap_up_ind.
Qed.
End preserved.

Section view_lemmas.
Context {S A : Type} `{HeapInterface S} (key : A -> Z) (view : S -> list A).
Context `{!HeapView S A key view}.

Lemma view_up fuel j s : view (heap_up fuel j s) = up key fuel j (view s).
Proof.
  revert j s. induction fuel as [|fuel IH]; intros j s; simpl; [done|].
  rewrite view_Less. case_match; [done|]. by rewrite IH, view_Swap.
Qed.

Lemma view_down fuel i n s :
  view (heap_down fuel i n s).1 = (down key fuel i n (view s)).1 /\
  (heap_down fuel i n s).2 = (down key fuel i n (view s)).2.
Proof.
  revert i s. induction fuel as [|fuel IH]; intros i s; [done|]. cbn [heap_down down].
  rewrite !view_Less. case_match; [done|]. case_match; [done|].
  rewrite <- view_Swap. apply IH.
Qed.

Lemma view_push s h x : view s = h ++ [x] -> view (heap_push s) = Push key x h.
Proof. intros Hs. unfold heap_push, Push. by rewrite view_up, view_Len, Hs. Qed.

Lemma view_pop s : split_last (view (heap_pop s)) = Pop key (view s).
Proof.
  unfold heap_pop, Pop. rewrite (proj1 (view_down _ _ _ _)), view_Swap, view_Len.
  by rewrite swap_length.
Qed.

Lemma view_remove i s : split_last (view (heap_remove i s)) = Remove key i (view s).
Proof.
  unfold heap_remove, Remove. rewrite view_Len. case_match; [done|]. unfold sift.
  destruct (view_down (Len (Swap i (length (view s) - 1) s)) i (length (view s) - 1)
              (Swap i (length (view s) - 1) s)) as [H1 H2].
  rewrite view_Len, view_Swap in *.
  destruct (heap_down _ _ _ _) as [s' i']. destruct (down _ _ _ _ _) as [h' i''].
  cbn [fst snd] in *. subst. case_match; [done|]. by rewrite view_up, view_Len.
Qed.
End view_lemmas.

#[export] Hint Resolve Push_heap : go.
