(* ===== verification/Libs.v ===== *)
(** * Encodings and cryptography the code calls

    Hexadecimal and base64 are defined here.  SHA-256, PBKDF2 and the
    conversion between float64 and decimal text are parameters ([Crypto],
    [Floats]): the code uses them as functions and relies on nothing else,
    except where a lemma states a law as a hypothesis. *)
From S2P Require Import Prelude GoStd Json.
#[local] Open Scope Z_scope.
#[local] Arguments String.append !_ _ / : simpl nomatch.

Class Crypto : Type := {
  sha256_Sum256 : string -> string; (* the 32 bytes of the digest *)
  pbkdf2_Key : string -> string -> string (* password, salt; 600000 rounds, 32 bytes *) }.

(** [strconv.ParseFloat(s, 64)] and [FormatFloat(x, fmt, -1, 64)]. *)
Class Floats : Type := {
  float : Type;
  parseFloat : string -> option float; (* None: err != nil or infinite *)
  float_eqb : float -> float -> bool; (* == *)
  needs_exponent : float -> bool; (* abs != 0 && (abs < 1e-4 || abs >= 1e16) *)
  formatFloat : ascii -> float -> string }.

(** ** encoding/hex *)

Fixpoint hex_encode (s : string) : string :=
  match s with
  | EmptyString => EmptyString
  | String c s =>
      String (hex_digit (byte c / 16)) (String (hex_digit (byte c mod 16)) (hex_encode s))
  end.

Fixpoint hex_decode (s : string) : option string :=
  match s with
  | EmptyString => Some EmptyString
  | String a (String b s) =>
      x ← hex_val a; y ← hex_val b; r ← hex_decode s;
      Some (String (of_byte (16 * x + y)) r)
  | String _ EmptyString => None
  end.

(** ** encoding/base64 *)

Definition b64_char (url : bool) (z : Z) : ascii :=
  if z <? 26 then of_byte (65 + z)
  else if z <? 52 then of_byte (71 + z)
  else if z <? 62 then of_byte (z - 4)
  else if z =? 62 then (if url then "-"%char else "+"%char)
  else (if url then "_"%char else "/"%char).

(** [base64.RawURLEncoding.EncodeToString]: no padding. *)
Fixpoint b64url_encode (s : string) : string :=
  match s with
  | EmptyString => EmptyString
  | String a EmptyString =>
      let n := byte a * 16 in
      String (b64_char true (n / 64)) (String (b64_char true (n mod 64)) EmptyString)
  | String a (String b EmptyString) =>
      let n := (byte a * 256 + byte b) * 4 in
      String (b64_char true (n / 4096)) (String (b64_char true (n / 64 mod 64))
        (String (b64_char true (n mod 64)) EmptyString))
  | String a (String b (String c s)) =>
      let n := byte a * 65536 + byte b * 256 + byte c in
      String (b64_char true (n / 262144)) (String (b64_char true (n / 4096 mod 64))
        (String (b64_char true (n / 64 mod 64)) (String (b64_char true (n mod 64))
          (b64url_encode s))))
  end.

Definition b64_val (c : ascii) : option Z :=
  let b := byte c in
  if in_range 65 90 b then Some (b - 65)
  else if in_range 97 122 b then Some (b - 71)
  else if in_range 48 57 b then Some (b + 4)
  else if b =? 43 then Some 62
  else if b =? 47 then Some 63
  else None.

Fixpoint drop_newlines (s : string) : string :=
  match s with
  | EmptyString => EmptyString
  | String c s =>
      if (byte c =? 10) || (byte c =? 13) then drop_newlines s else String c (drop_newlines s)
  end.

(** [base64.StdEncoding.DecodeString] on text without line breaks. *)
Fixpoint b64_groups (s : string) : option string :=
  match s with
  | EmptyString => Some EmptyString
  | String a (String b (String c (String d s))) =>
      x ← b64_val a; y ← b64_val b;
      let pad1 := Ascii.eqb c "=" in let pad2 := Ascii.eqb d "=" in
      let first := of_byte (x * 4 + y / 16) in
      if pad1 then if pad2 && is_empty s then Some (String first EmptyString) else None
      else
        z ← b64_val c;
        let second := of_byte (y mod 16 * 16 + z / 4) in
        if pad2 then if is_empty s then Some (String first (String second EmptyString)) else None
        else
          w ← b64_val d; r ← b64_groups s;
          Some (String first (String second (String (of_byte (z mod 4 * 64 + w)) r)))
  | _ => None
  end.
Definition b64_decode (s : string) : option string := b64_groups (drop_newlines s).

(** ** Lemmas *)

Lemma byte_range c : 0 <= byte c < 256.
Proof. destruct c as [[] [] [] [] [] [] [] []]; vm_compute; split; congruence. Qed.

Lemma of_byte_byte c : of_byte (byte c) = c.
Proof. by destruct c as [[] [] [] [] [] [] [] []]. Qed.

Lemma hex_val_digit z : 0 <= z < 16 -> hex_val (hex_digit z) = Some z.
Proof.
  intros Hz. assert (exists n, z = Z.of_nat n /\ (n < 16)%nat) as (n & -> & Hn)
    by (exists (Z.to_nat z); lia).
  do 16 (destruct n as [|n]; [reflexivity|]). lia.
Qed.

(** Hexadecimal text decodes to what it encodes. *)
Lemma hex_round_trip s : hex_decode (hex_encode s) = Some s.
Proof.
  induction s as [|c s IH]; [done|]. cbn [hex_encode hex_decode].
  pose proof (byte_range c).
  rewrite !hex_val_digit, IH by (split; [apply Z.div_pos || apply Z.mod_pos_bound|
    apply Z.div_lt_upper_bound || apply Z.mod_pos_bound]; lia).
  simpl. rewrite <- Z.div_mod by lia. by rewrite of_byte_byte.
Qed.
