(* ===== verification/Auth.v ===== *)
(** * Accounts, tokens and API keys: internal/router/auth.go

    A [User] carries its permissions; pointers to token users are compared by
    the code, so a user carries the address it was allocated at ([u_ref]).
    [Auth] is the struct behind [*Auth]; a nil [*User] or [*Auth] is [None]. *)
From S2P Require Import Prelude GoStd Json Libs.
#[local] Open Scope Z_scope.

Definition passwordIterations : Z := 600000.

(** How a caller authenticated. *)
Inductive identityKind :=
  | identityAccount | identityToken | identityAPIKey | identityAnonymous.
#[global] Instance identityKind_eq_dec : EqDecision identityKind.
Proof. solve_decision. Defined.

Record User := MkUser {
  u_username : string;
  u_passwordHash : string;
  u_roles : option (list string);
  u_register : option (list string);
  u_call : option (list string);
  u_salt : string;
  u_key : string;
  u_expires : option Z; (* the zero time is None *)
  u_tokenID : string;
  u_kind : identityKind;
  u_ref : nat }.
#[global] Instance User_eta : Eta User := fun x =>
  MkUser (u_username x) (u_passwordHash x) (u_roles x) (u_register x) (u_call x)
    (u_salt x) (u_key x) (u_expires x) (u_tokenID x) (u_kind x) (u_ref x).
#[global] Instance User_eq_dec : EqDecision User.
Proof. solve_decision. Defined.

Definition user0 : User :=
  MkUser "" "" None None None "" "" None "" identityAccount 0.

Definition AnonymousUser : string := "anonymous".

Record APIKey := MkAPIKey {
  k_id : string;
  k_keyHash : string;
  k_roles : option (list string);
  k_register : option (list string);
  k_call : option (list string) }.
#[global] Instance APIKey_eta : Eta APIKey := fun x =>
  MkAPIKey (k_id x) (k_keyHash x) (k_roles x) (k_register x) (k_call x).

Definition apiKeyPrefix : string := "mk_".

(** [range] and [slices.Contains] over a slice that may be nil. *)
Definition rules (o : option (list string)) : list string := default [] o.

Definition mayIssueTokens (u : option User) : bool :=
  match u with Some u => bool_decide (u_kind u = identityAccount) | None => false end.

Record apiKeyEntry := MkKeyEntry { ke_digest : string; ke_user : User }.
Record verifiedBasic := MkVerified { vb_user : User; vb_expires : Z }.

Record Auth := MkAuth {
  a_users : gmap string User;
  a_apiKeys : gmap string apiKeyEntry;
  a_anonymous : User;
  a_slots : nat; (* password checks in progress elsewhere *)
  a_dummy : option User;
  a_tokens : gmap string User;
  a_verified : gmap string verifiedBasic;
  a_next : nat (* the next address for a user *) }.
#[global] Instance Auth_eta : Eta Auth := fun x =>
  MkAuth (a_users x) (a_apiKeys x) (a_anonymous x) (a_slots x) (a_dummy x)
    (a_tokens x) (a_verified x) (a_next x).

Definition basicCacheTTL : Z := Minute.
Definition basicCacheSize : nat := 1024.
Definition slotsCapacity : nat := 8.

(** ** Permissions *)

Definition allowsRole (u : option User) (role : string) : bool :=
  match u with None => true | Some u => Contains (rules (u_roles u)) role end.

Definition allowsRegistration (u : option User) (name : string) : bool :=
  match u with
  | None => true
  | Some u => Contains (rules (u_register u)) "*" || Contains (rules (u_register u)) name
  end.

Definition allowsCall (u : option User) (service method : string) : bool :=
  match u with
  | None => true
  | Some u =>
      Contains (rules (u_call u)) "*"
      || Contains (rules (u_call u)) (service +:+ "/*")
      || Contains (rules (u_call u)) (service +:+ "/" +:+ method)
  end.

(** [validatePermissions]: the error message, if any. *)
Definition role_ok (role : string) : bool :=
  String.eqb role "client" || String.eqb role "server".
Definition register_rule_ok (rule : string) : bool :=
  String.eqb rule "*" || negb (is_empty rule || ContainsAny rule "*/").
Definition call_rule_ok (rule : string) : bool :=
  String.eqb rule "*" ||
  let '(service, method, ok) := Cut "/" rule in
  negb (negb ok || is_empty service || ContainsByte service "*" || is_empty method
        || ContainsByte method "/" || (ContainsByte method "*" && negb (String.eqb method "*"))).

Definition validatePermissions (roles register call : option (list string)) : option string :=
  if negb (forallb role_ok (rules roles)) then Some "auth role must be client or server"%string
  else if negb (forallb register_rule_ok (rules register))
  then Some "register ACL requires exact service names or *"%string
  else if negb (forallb call_rule_ok (rules call))
  then Some "call ACL requires service/method, service/*, or *"%string
  else None.

Definition nonNilRules (r : option (list string)) : option (list string) := Some (rules r).

(** ** The auth document *)

Abbreviation upd get := (fun g r => apply_update (mk_update get g) r) (only parsing).

Definition user_fields : list (field User) :=
  [ via "username" u_username (upd u_username) dec_string;
    via "password_hash" u_passwordHash (upd u_passwordHash) dec_string;
    via "roles" u_roles (upd u_roles) (dec_slice "" dec_string);
    via "register" u_register (upd u_register) (dec_slice "" dec_string);
    via "call" u_call (upd u_call) (dec_slice "" dec_string) ].
Definition apikey_fields : list (field APIKey) :=
  [ via "id" k_id (upd k_id) dec_string;
    via "key_hash" k_keyHash (upd k_keyHash) dec_string;
    via "roles" k_roles (upd k_roles) (dec_slice "" dec_string);
    via "register" k_register (upd k_register) (dec_slice "" dec_string);
    via "call" k_call (upd k_call) (dec_slice "" dec_string) ].

Record authFile := AuthFile {
  af_users : option (list User);
  af_apiKeys : option (list APIKey) }.
#[global] Instance authFile_eta : Eta authFile :=
  fun x => AuthFile (af_users x) (af_apiKeys x).
Definition authFile_fields : list (field authFile) :=
  [ via "users" af_users (upd af_users)
      (dec_slice user0 (dec_struct_with true user_fields));
    via "api_keys" af_apiKeys (upd af_apiKeys)
      (dec_slice (MkAPIKey "" "" None None None) (dec_struct_with true apikey_fields)) ].

(** What the loop over the users has built so far. *)
Definition no_rules (o : option (list string)) : bool :=
  match rules o with [] => true | _ => false end.

Definition parse_password (u : User) : string + User :=
  match Split "$" (u_passwordHash u) with
  | [scheme; rounds; salt; key] =>
      if negb (String.eqb scheme "pbkdf2-sha256") || negb (String.eqb rounds "600000")
      then inl "unsupported password hash; use hash-password"%string
      else match hex_decode salt with
      | Some salt =>
          if negb (String.length salt =? 16)%nat then inl "invalid password hash salt"%string
          else match hex_decode key with
          | Some key =>
              if negb (String.length key =? 32)%nat then inl "invalid password hash key"%string
              else inr (u {{ u_salt := salt; u_key := key }})
          | None => inl "invalid password hash key"%string
          end
      | None => inl "invalid password hash salt"%string
      end
  | _ => inl "unsupported password hash; use hash-password"%string
  end.

Definition anonymous_message : string :=
  "the " +:+ dqs +:+ "anonymous" +:+ dqs +:+
  " user takes no password_hash, no register list, and roles [" +:+ dqs +:+
  "client" +:+ dqs +:+ "] only".

Definition add_user (u : User) (auth : Auth) : string + Auth :=
  if is_empty (u_username u) || ContainsAny (u_username u) (":" +:+ chr 13 +:+ chr 10)
     || no_rules (u_roles u)
  then inl "auth user requires a username and roles"%string
  else if bool_decide (is_Some (a_users auth !! u_username u))
          || (String.eqb (u_username u) AnonymousUser
              && bool_decide (is_Some (u_call (a_anonymous auth))))
  then inl "duplicate auth username"%string
  else match validatePermissions (u_roles u) (u_register u) (u_call u) with
  | Some err => inl err
  | None =>
      if String.eqb (u_username u) AnonymousUser then
        if negb (is_empty (u_passwordHash u)) || negb (no_rules (u_register u))
           || negb (bool_decide (rules (u_roles u) = ["client"%string]))
        then inl anonymous_message
        else inr (auth {{ a_anonymous :=
          MkUser AnonymousUser "" (u_roles u) None (nonNilRules (u_call u)) "" "" None ""
            identityAnonymous 0 }})
      else match parse_password u with
      | inl err => inl err
      | inr u => inr (auth {{ a_users ::= insert (u_username u) u; a_dummy := Some u }})
      end
  end.

Definition add_key (k : APIKey) (auth : Auth) : string + Auth :=
  if is_empty (k_id k) || ContainsAny (k_id k) ("_:" +:+ chr 13 +:+ chr 10 +:+ " ")
     || no_rules (k_roles k)
  then inl "API key requires an id (no '_' or spaces) and roles"%string
  else if bool_decide (is_Some (a_apiKeys auth !! k_id k))
  then inl "duplicate API key id"%string
  else match hex_decode (k_keyHash k) with
  | Some digest =>
      if negb (String.length digest =? 32)%nat
      then inl "API key key_hash must be a SHA-256 hex digest; use new-api-key"%string
      else match validatePermissions (k_roles k) (k_register k) (k_call k) with
      | Some err => inl err
      | None =>
          inr (auth {{ a_apiKeys ::= insert (k_id k) (MkKeyEntry digest
            (MkUser ("api-key:" +:+ k_id k) "" (k_roles k) (k_register k) (k_call k)
               "" "" None "" identityAPIKey 0)) }})
      end
  | None => inl "API key key_hash must be a SHA-256 hex digest; use new-api-key"%string
  end.

(** A loop that stops at the first error. *)
Fixpoint each {A S} (step : A -> S -> string + S) (l : list A) (s : S) : string + S :=
  match l with
  | [] => inr s
  | x :: l => match step x s with inl err => inl err | inr s => each step l s end
  end.

Definition auth0 : Auth :=
  MkAuth ∅ ∅
    (MkUser AnonymousUser "" (Some ["client"%string]) None None "" "" None "" identityAnonymous 0)
    0 None ∅ ∅ 1.

Section crypto.
Context `{Crypto}.

(** [HashPassword], with the 16 random bytes of the salt ([None]: the random
    source failed). *)
Definition HashPassword (password : string) (salt : option string) : string + string :=
  if (slen password =? 0) || (1024 <? slen password)
  then inl "password must contain 1 to 1024 UTF-8 bytes"%string
  else match salt with
  | None => inl "rand"%string
  | Some salt =>
      inr ("pbkdf2-sha256$600000$" +:+ hex_encode salt +:+ "$"
           +:+ hex_encode (pbkdf2_Key password salt))
  end.

(** Without accounts, equal-cost rejection compares with a made-up password. *)
Definition ensure_dummy (salt : option string) (auth : Auth) : string + Auth :=
  match a_dummy auth with
  | Some _ => inr auth
  | None =>
      match HashPassword "unused-dummy-password" salt with
      | inl err => inl err
      | inr hash =>
          let parts := Split "$" hash in
          let part i := default EmptyString (hex_decode (default EmptyString (parts !! i))) in
          inr (auth {{ a_dummy := Some (user0 {{ u_salt := part 2%nat; u_key := part 3%nat }}) }})
      end
  end.

Definition ParseAuth (data : string) (salt : option string) : string + Auth :=
  match decode_next data with
  | None => inl "invalid auth file"%string
  | Some (v, rest) =>
      let raw := take_bytes (String.length data - String.length rest) data in
      let '(config, err) := dec_struct_with true authFile_fields raw v (AuthFile None None) in
      if (err : bool) then inl "invalid auth file"%string
      else
        let users := default [] (af_users config) in
        let keys := default [] (af_apiKeys config) in
        if negb (is_empty (skip_ws rest)) || (length users + length keys =? 0)%nat
        then inl "auth file must contain at least one user or API key"%string
        else match each add_user users auth0 with
        | inl err => inl err
        | inr auth =>
            match ensure_dummy salt auth with
            | inl err => inl err
            | inr auth => each add_key keys auth
            end
        end
  end.

(** [NewAPIKey]: the key and the digest for the auth file. *)
Definition NewAPIKey (id : string) (secret : option string) : string + (string * string) :=
  if is_empty id || ContainsAny id ("_:" +:+ chr 13 +:+ chr 10 +:+ " ")
  then inl "API key id must be non-empty without '_', ':' or spaces"%string
  else match secret with
  | None => inl "rand"%string
  | Some secret =>
      let key := apiKeyPrefix +:+ id +:+ "_" +:+ hex_encode secret in
      inr (key, hex_encode (sha256_Sum256 key))
  end.

(** ** Authentication of a request *)

Record authFailure := AuthFailure {
  af_status : Z; af_message : string; af_challenge : bool }.

(** [Request.BasicAuth]. *)
Definition BasicAuth (header : string) : option (string * string) :=
  if String.eqb (lower_ascii (take_bytes 6 header)) "basic "
  then c ← b64_decode (drop_bytes 6 header);
       let '(username, password, ok) := Cut ":" c in
       if (ok : bool) then Some (username, password) else None
  else None.

Definition is_bearer (header : string) : option string :=
  let '(scheme, token, ok) := Cut " " header in
  if ok && String.eqb (lower_ascii scheme) "bearer" then Some token else None.

Definition refused (message : string) (challenge : bool) : authFailure :=
  AuthFailure 401 message challenge.

Definition check_api_key (token : string) (a : Auth) : option User + authFailure :=
  let rest := TrimPrefix token apiKeyPrefix in
  let '(id, _, _) := Cut "_" rest in
  match a_apiKeys a !! id with
  | Some entry =>
      if String.eqb (sha256_Sum256 token) (ke_digest entry)
      then inl (Some (ke_user entry))
      else inr (refused "authentication failed" false)
  | None => inr (refused "authentication failed" false)
  end.

(** [time.Now().Before(user.expires)]; the zero time is in the past. *)
Definition unexpired (now : Z) (u : User) : bool :=
  match u_expires u with Some t => now <? t | None => false end.

Definition check_token (token : string) (now : Z) (a : Auth) : option User + authFailure :=
  match a_tokens a !! hex_encode (sha256_Sum256 token) with
  | Some user =>
      if unexpired now user then inl (Some user)
      else inr (refused "authentication failed" false)
  | None => inr (refused "authentication failed" false)
  end.

Definition check_password (header : string) (now : Z) (a : Auth)
    : Auth * (option User + authFailure) :=
  match BasicAuth header with
  | None => (a, inr (refused "authentication required" true))
  | Some (username, password) =>
      if 1024 <? slen password
      then (a, inr (refused "authentication required" true))
      else
        let exists_ := bool_decide (is_Some (a_users a !! username)) in
        let u := default (default user0 (a_dummy a)) (a_users a !! username) in
        if negb (String.eqb (pbkdf2_Key password (u_salt u)) (u_key u)) || negb exists_
        then (a, inr (refused "authentication failed" true))
        else
          let verified :=
            if (basicCacheSize <=? size (a_verified a))%nat then ∅ else a_verified a in
          (a {{ a_verified := <[sha256_Sum256 header := MkVerified u (now + basicCacheTTL)]> verified }},
           inl (Some u))
  end.

(** [check] on the Authorization header (empty when absent). *)
Definition check (auth : option Auth) (header : string) (now : Z)
    : option Auth * (option User + authFailure) :=
  match auth with
  | None => (None, inl None)
  | Some a =>
      if is_empty header then (auth, inl (Some (a_anonymous a)))
      else match is_bearer header with
      | Some token =>
          if HasPrefix token apiKeyPrefix then (auth, check_api_key token a)
          else (auth, check_token token now a)
      | None =>
          let hit := a_verified a !! sha256_Sum256 header in
          match hit with
          | Some cached =>
              if now <? vb_expires cached then (auth, inl (Some (vb_user cached)))
              else if (slotsCapacity <=? a_slots a)%nat
              then (auth, inr (AuthFailure 503 "authentication busy" false))
              else let '(a, r) := check_password header now a in (Some a, r)
          | None =>
              if (slotsCapacity <=? a_slots a)%nat
              then (auth, inr (AuthFailure 503 "authentication busy" false))
              else let '(a, r) := check_password header now a in (Some a, r)
          end
      end
  end.
End crypto.

(** [valid]: a token user must still be the one registered under its id. *)
Definition valid (auth : option Auth) (user : option User) (now : Z) : bool :=
  match user with
  | None => true
  | Some u =>
      if is_empty (u_tokenID u) then true
      else match auth with
      | Some a =>
          match a_tokens a !! u_tokenID u with
          | Some v => (u_ref v =? u_ref u)%nat && unexpired now u
          | None => false
          end
      | None => false
      end
  end.
