(* ===== verification/State.v ===== *)
(** * The Router's state: internal/router/router.go, balance.go, dedup.go, metrics.go

    Go objects that are shared by pointer (peers, routes, dedup entries) live
    in stores, total functions from addresses to records; [r_next] is the next
    free address.  Go maps are [gmap]s.  Everything the Router mutates under
    [Router.mu] is in [Router]; an operation under the lock is a function from
    [Router] to [Router].

    What one critical section takes from its surroundings is an [Env]: one
    reading of the clock (nanoseconds), the answers of [rand.IntN] and of
    [crypto/rand], and the order Go's map iteration happens to have. *)
From S2P Require Import Prelude GoStd Json Protocol Outbox Breaker Auth.
#[local] Open Scope Z_scope.

(** ** Configuration *)

Record Config := MkConfig {
  c_Host : string;
  c_Port : Z;
  c_UnixPath : string;
  c_Pipe : string;
  c_MaxFrameSize : Z;
  c_MaxCallsPerConnection : Z;
  c_ShutdownTimeout : Z;
  c_OutboxSize : Z;
  c_DeadlineGrace : Z;
  c_IdleTimeout : Z;
  c_BreakerThreshold : Z;
  c_BreakerCooldown : Z;
  c_MaxAnonymousConnections : Z;
  c_HTTPDefaultTimeout : Z;
  c_HTTPMaxTimeout : Z;
  c_HTTPMaxInflight : Z;
  c_HTTPCORSOrigins : list string;
  c_MaxConnections : Z;
  c_MetricsListen : string }.
#[global] Instance Config_eta : Eta Config := fun x =>
  MkConfig (c_Host x) (c_Port x) (c_UnixPath x) (c_Pipe x) (c_MaxFrameSize x)
    (c_MaxCallsPerConnection x) (c_ShutdownTimeout x) (c_OutboxSize x)
    (c_DeadlineGrace x) (c_IdleTimeout x) (c_BreakerThreshold x) (c_BreakerCooldown x)
    (c_MaxAnonymousConnections x) (c_HTTPDefaultTimeout x) (c_HTTPMaxTimeout x)
    (c_HTTPMaxInflight x) (c_HTTPCORSOrigins x) (c_MaxConnections x) (c_MetricsListen x).

Definition config0 : Config :=
  MkConfig "" 0 "" "" 0 0 0 0 0 0 0 0 0 0 0 0 [] 0 "".

Definition DefaultDeadlineGrace : Z := 500 * Millisecond.
Definition DefaultIdleTimeout : Z := 45 * Second.
Definition DefaultMaxConnections : Z := 10000.
Definition DefaultMaxAnonymousConnections : Z := 1000.
Definition DefaultHTTPDefaultTimeout : Z := 30 * Second.
Definition DefaultHTTPMaxInflight : Z := 10000.
Definition DefaultMaxFrameSize : Z := Z.shiftl 64 20.
Definition DefaultOutboxSize : Z := Z.shiftl 256 20.
Definition DefaultMaxCallsPerConnection : Z := 1000.
Definition DefaultShutdownTimeout : Z := 10 * Second.

(** ** Peers *)

Record peer := Peer {
  p_cancelled : bool;            (* p.cancel() was called *)
  p_ctxDeadline : option Z;      (* context.WithDeadline for token users *)
  p_out : outbox;
  p_user : option User;
  p_id : string;
  p_role : string;
  p_instanceID : string;
  p_services : list service;
  p_inflight : Z;
  p_calls : Z;
  p_maxInflight : Z;
  p_health : health;
  p_draining : bool }.
#[global] Instance peer_eta : Eta peer := fun x =>
  Peer (p_cancelled x) (p_ctxDeadline x) (p_out x) (p_user x) (p_id x) (p_role x)
    (p_instanceID x) (p_services x) (p_inflight x) (p_calls x) (p_maxInflight x)
    (p_health x) (p_draining x).

Definition peer0 : peer :=
  Peer false None (newOutbox 0) None "" "" "" [] 0 0 0 health0 false.

(** ** Routes *)

Record route := Route {
  rt_id : string;
  rt_service : string;
  rt_method : string;
  rt_started : Z;
  rt_client : nat;
  rt_instance : nat;
  rt_deadline : Z;
  rt_index : Z;                  (* position in deadlines, or -1 *)
  rt_dedup : option nat;
  rt_clientCredit : Z;
  rt_serverCredit : Z }.
#[global] Instance route_eta : Eta route := fun x =>
  Route (rt_id x) (rt_service x) (rt_method x) (rt_started x) (rt_client x)
    (rt_instance x) (rt_deadline x) (rt_index x) (rt_dedup x)
    (rt_clientCredit x) (rt_serverCredit x).
Definition route0 : route := Route "" "" "" 0 0 0 0 (-1) None 0 0.

(** [route.credit]: the updated route and whether the frame may be forwarded. *)
Definition grant (counter add : Z) : Z :=
  if MaxInt64 - add <? counter then MaxInt64 else counter + add.

Definition credit (rt : route) (f : frame) : route * bool :=
  let server := String.eqb (f_direction f) "server" in
  let counter := if server then rt_serverCredit rt else rt_clientCredit rt in
  let store c := if server then rt {{ rt_serverCredit := c }}
                 else rt {{ rt_clientCredit := c }} in
  if String.eqb (f_kind f) "stream.window" then
    (store (grant counter (default 0 (f_credit f))), true)
  else if String.eqb (f_kind f) "stream.item" then
    if counter =? 0 then (rt, false) else (store (counter - 1), true)
  else (rt, true).

(** ** Deduplication entries *)

Record dedupEntry := DedupEntry {
  d_key : string;
  d_route : option nat;
  d_waiters : list (nat * string);   (* client, call id *)
  d_result : option frame;
  d_expires : Z;
  d_lastInstance : option nat;
  d_element : bool                   (* still in dedupOrder *) }.
#[global] Instance dedupEntry_eta : Eta dedupEntry := fun x =>
  DedupEntry (d_key x) (d_route x) (d_waiters x) (d_result x) (d_expires x)
    (d_lastInstance x) (d_element x).
Definition dedupEntry0 : dedupEntry := DedupEntry "" None [] None 0 None false.

(** ** Pools *)

Record pool := Pool {
  po_targeted : bool;
  po_methods : gmap string method;
  po_contract : option string;
  po_contractMethods : Z;
  po_instances : list nat;
  po_cursors : gmap string Z }.
#[global] Instance pool_eta : Eta pool := fun x =>
  Pool (po_targeted x) (po_methods x) (po_contract x) (po_contractMethods x)
    (po_instances x) (po_cursors x).

(** ** Metrics *)

(** Bucket bounds and durations in nanoseconds (the code's are seconds). *)
Definition durationBuckets : list Z :=
  [5 * Millisecond; 10 * Millisecond; 25 * Millisecond; 50 * Millisecond;
   100 * Millisecond; 250 * Millisecond; 500 * Millisecond; 1 * Second;
   2500 * Millisecond; 5 * Second; 10 * Second; 30 * Second; 60 * Second].

Record histogram := Histogram {
  hg_counts : list Z;
  hg_sum : Z;
  hg_total : Z }.
Definition histogram0 : histogram := Histogram ((fun _ => 0) <$> durationBuckets) 0 0.

Record metrics := Metrics {
  m_calls : gmap (string * string * string) Z;
  m_duration : gmap (string * string) histogram;
  m_outboxDrops : Z }.
#[global] Instance metrics_eta : Eta metrics :=
  fun x => Metrics (m_calls x) (m_duration x) (m_outboxDrops x).

(** ** The Router *)

Record Router := MkRouter {
  r_config : Config;
  r_auth : option Auth;
  r_cancelled : bool;            (* r.cancel() was called *)
  r_closed : bool;
  r_draining : bool;
  r_stopping : bool;
  r_drained : bool;              (* channel closed *)
  r_peersGone : bool;            (* channel closed *)
  r_peers : gset nat;
  r_instances : gmap string nat;
  r_services : gmap string pool;
  r_routes : gmap string nat;
  r_deadlines : list nat;
  r_deadlineWake : bool;
  r_dedup : gmap string nat;
  r_dedupOrder : list nat;
  r_connections : Z;
  r_anonymous : Z;
  r_httpInflight : Z;
  r_metrics : metrics;
  r_pstore : nat -> peer;
  r_rstore : nat -> route;
  r_dstore : nat -> dedupEntry;
  r_next : nat }.
#[global] Instance Router_eta : Eta Router := fun x =>
  MkRouter (r_config x) (r_auth x) (r_cancelled x) (r_closed x) (r_draining x)
    (r_stopping x) (r_drained x) (r_peersGone x) (r_peers x) (r_instances x)
    (r_services x) (r_routes x) (r_deadlines x) (r_deadlineWake x) (r_dedup x)
    (r_dedupOrder x) (r_connections x) (r_anonymous x) (r_httpInflight x)
    (r_metrics x) (r_pstore x) (r_rstore x) (r_dstore x) (r_next x).

(** The Router [Start] builds for a checked configuration. *)
Definition newRouter (config : Config) (auth : option Auth) : Router :=
  MkRouter config auth false false false false false false ∅ ∅ ∅ ∅ [] false ∅ []
    0 0 0 (Metrics ∅ ∅ 0) (fun _ => peer0) (fun _ => route0) (fun _ => dedupEntry0) 0.

Record Env := MkEnv {
  e_now : Z;
  e_intN : nat -> nat;
  e_secret : option string;
  e_iter : list string -> list string }.

(** What Go promises about [rand.IntN] and map iteration. *)
Record env_ok (e : Env) : Prop := {
  intN_lt n : (0 < n)%nat -> (e_intN e n < n)%nat;
  iter_perm l : e_iter e l ≡ₚ l }.

(** A concrete environment at time [t]. *)
Definition env_at (t : Z) : Env := MkEnv t (fun _ => 0%nat) (Some "") (fun l => l).

(** The keys of a map, in iteration order. *)
Definition iter_keys {A} (e : Env) (m : gmap string A) : list string :=
  e_iter e (fst <$> map_to_list m).

(** ** Field access through pointers *)

Definition peerOf (r : Router) (p : nat) : peer := r_pstore r p.
Definition upd_peer (p : nat) (g : peer -> peer) (r : Router) : Router :=
  r {{ r_pstore ::= update p g }}.
Definition upd_route (rt : nat) (g : route -> route) (r : Router) : Router :=
  r {{ r_rstore ::= update rt g }}.
Definition upd_dedup (d : nat) (g : dedupEntry -> dedupEntry) (r : Router) : Router :=
  r {{ r_dstore ::= update d g }}.
Definition upd_metrics (g : metrics -> metrics) (r : Router) : Router :=
  r {{ r_metrics ::= g }}.

(** [p.cancel()]. *)
Definition cancel (p : nat) : Router -> Router :=
  upd_peer p (fun x => x {{ p_cancelled := true }}).

(** [p.ctx.Err() != nil]: cancelled, past the token's expiry, or the Router's
    own context is cancelled. *)
Definition ctxErr (r : Router) (now : Z) (p : nat) : bool :=
  p_cancelled (peerOf r p) || r_cancelled r
  || match p_ctxDeadline (peerOf r p) with Some t => t <=? now | None => false end.

(** [peer.send]: a frame that does not fit disconnects the peer. *)
Definition send (p : nat) (f : frame) (r : Router) : Router :=
  let '(q, ok) := push f (p_out (peerOf r p)) in
  let r := upd_peer p (fun x => x {{ p_out := q }}) r in
  if (ok : bool) then r
  else r |> upd_metrics (fun m => m {{ m_outboxDrops ::= Z.add 1 }}) |> cancel p.

Definition wake_peer (p : nat) : Router -> Router :=
  upd_peer p (fun x => x {{ p_out ::= wake }}).

(** [methodStream]: the registered stream kind of a method, or empty. *)
Definition methodStream (r : Router) (service method : string) : string :=
  match r_services r !! service with
  | None => ""
  | Some pool =>
      match po_methods pool !! method with Some m => m_stream m | None => "" end
  end.

(** [Router.observe]. *)
Definition observe_peer (p : nat) (ok : bool) (now : Z) (r : Router) : Router :=
  upd_peer p (fun x => x {{ p_health ::=
    observe (c_BreakerThreshold (r_config r)) (c_BreakerCooldown (r_config r)) now ok }}) r.

(** [peer.serves]: by the first entry the peer registered for the service. *)
Fixpoint serves_in (l : list service) (service name : string) : bool :=
  match l with
  | [] => false
  | s :: l =>
      if String.eqb (s_name s) service
      then ContainsFunc (methods_of s) (fun m => String.eqb (m_name m) name)
      else serves_in l service name
  end.
Definition serves (x : peer) (service name : string) : bool :=
  serves_in (p_services x) service name.

(** ** Metrics operations: internal/router/metrics.go *)

(** The first bucket whose bound is at least the duration counts. *)
Fixpoint bump_bucket (d : Z) (bounds counts : list Z) : list Z :=
  match bounds, counts with
  | b :: bounds, c :: counts =>
      if d <=? b then (c + 1) :: counts else c :: bump_bucket d bounds counts
  | _, _ => counts
  end.

(** [metrics.call]; [started = None] is the zero time. *)
Definition metrics_call (service method code : string) (started : option Z) (now : Z)
    (m : metrics) : metrics :=
  let k := (service, method, code) in
  let m := m {{ m_calls ::= insert k (1 + default 0 (m_calls m !! k)) }} in
  match started with
  | None => m
  | Some t =>
      let h := default histogram0 (m_duration m !! (service, method)) in
      let d := now - t in
      m {{ m_duration ::= insert (service, method)
        (Histogram (bump_bucket d durationBuckets (hg_counts h)) (hg_sum h + d) (hg_total h + 1)) }}
  end.

(** [Router.refuse]: a call.open the Router answers itself. *)
Definition refuse_metric (f : frame) (code : string) (now : Z) (r : Router) : Router :=
  let known := negb (is_empty (methodStream r (f_service f) (f_method f))) in
  let service := if known then f_service f else EmptyString in
  let method := if known then f_method f else EmptyString in
  upd_metrics (metrics_call service method code None now) r.

(** [Router.finishRoute]. *)
Definition finishRoute (rt : route) (code : string) (now : Z) : Router -> Router :=
  upd_metrics (metrics_call (rt_service rt) (rt_method rt) code (Some (rt_started rt)) now).

(** ** Quiet changes

    Queueing frames, waking writers, cancelling connections, breaker and
    metrics updates do not change which calls exist: [quiet r r'] relates two
    Routers that differ only in those. *)
Definition core (x : peer) : peer :=
  x {{ p_out := newOutbox 0; p_cancelled := false; p_health := health0 }}.

Record quiet (r r' : Router) : Prop := {
  quiet_rest : r' = r {{ r_pstore := r_pstore r'; r_metrics := r_metrics r' }};
  quiet_peer q : core (peerOf r' q) = core (peerOf r q) }.

(** ** Lemmas *)

#[global] Instance quiet_equivalence : Equivalence quiet.
Proof.
  split.
  - intros []. by split.
  - intros x y [H1 H2]. split; [|done]. rewrite H1. by destruct x.
  - intros x y z [H1 H2] [H3 H4]. split; [|by intros; rewrite H4].
    rewrite H3, H1. done.
Qed.

Lemma upd_peer_quiet p g r : (forall x, core (g x) = core x) -> quiet r (upd_peer p g r).
Proof.
  intros Hg. split; [done|]. intros q. unfold peerOf, upd_peer. simpl. by apply update_field.
Qed.

Lemma upd_metrics_quiet g r : quiet r (upd_metrics g r).
Proof. by split. Qed.

Lemma cancel_quiet p r : quiet r (cancel p r).
Proof. by apply upd_peer_quiet. Qed.

Lemma wake_peer_quiet p r : quiet r (wake_peer p r).
Proof. by apply upd_peer_quiet. Qed.

Lemma observe_peer_quiet p ok now r : quiet r (observe_peer p ok now r).
Proof. by apply upd_peer_quiet. Qed.

Lemma send_quiet p f r : quiet r (send p f r).
Proof.
  unfold send. destruct (push _ _) as [q []].
  - by apply upd_peer_quiet.
  - etrans; [by apply (upd_peer_quiet p (fun x => x {{ p_out := q }}))|].
    etrans; [apply upd_metrics_quiet|]. apply cancel_quiet.
Qed.

Lemma finishRoute_quiet rt code now r : quiet r (finishRoute rt code now r).
Proof. by split. Qed.

Lemma refuse_metric_quiet f code now r : quiet r (refuse_metric f code now r).
Proof. by split. Qed.

#[export] Hint Resolve cancel_quiet wake_peer_quiet observe_peer_quiet send_quiet
  finishRoute_quiet refuse_metric_quiet upd_metrics_quiet : go.

(** The fields a quiet change keeps. *)
Lemma quiet_field {B} (g : Router -> B) r r' :
  (forall x ps m, g (x {{ r_pstore := ps; r_metrics := m }}) = g x) ->
  quiet r r' -> g r' = g r.
Proof. intros Hg [-> _]. apply Hg. Qed.

Lemma quiet_peer_field {B} (g : peer -> B) r r' q :
  (forall x, g (core x) = g x) -> quiet r r' -> g (peerOf r' q) = g (peerOf r q).
Proof. intros Hg [_ H]. rewrite <- (Hg (peerOf r' q)), H. apply Hg. Qed.
