(* ===== verification/Deadline.v ===== *)
(** * Router-side deadlines: internal/router/deadline.go

    The deadline heap is container/heap on the Router: [Swap] exchanges two
    slots and rewrites the [index] of the two routes, [Push] and [Pop] keep it
    too.  [endRoute] forgets a call for any reason.  The expiry loop, which
    also needs the deduplication table, is in [Expire]. *)
From S2P Require Import Prelude GoStd GoHeap State.
#[local] Open Scope Z_scope.

Definition set_index (p : nat) (i : Z) : Router -> Router :=
  upd_route p (fun x => x {{ rt_index := i }}).

(** [deadlineHeap.Swap]: both slots exist whenever container/heap calls it. *)
Definition swap_routes (i j : nat) (r : Router) : Router :=
  match r_deadlines r !! i, r_deadlines r !! j with
  | Some a, Some b =>
      r {{ r_deadlines ::= swap i j }} |> set_index b (Z.of_nat i) |> set_index a (Z.of_nat j)
  | _, _ => r
  end.

Definition set_deadline (t : Z) (x : route) : route := x {{ rt_deadline := t }}.
Definition deadlineOf (r : Router) (p : nat) : Z := rt_deadline (r_rstore r p).

#[global] Instance deadlineHeap : HeapInterface Router := {
  Len r := length (r_deadlines r);
  Less i j r :=
    match r_deadlines r !! i, r_deadlines r !! j with
    | Some a, Some b => deadlineOf r a <? deadlineOf r b
    | _, _ => false
    end;
  Swap := swap_routes }.

(** [deadlineHeap.Push], and [heap.Push(&r.deadlines, rt)]. *)
Definition append_deadline (rt : nat) (r : Router) : Router :=
  let r := set_index rt (Z.of_nat (length (r_deadlines r))) r in
  r {{ r_deadlines := r_deadlines r ++ [rt] }}.
Definition push_deadline (rt : nat) (r : Router) : Router := heap_push (append_deadline rt r).

(** [deadlineHeap.Pop]: cuts the last slot off. *)
Definition cut_deadline (r : Router) : option nat * Router :=
  match last (r_deadlines r) with
  | Some rt =>
      let r := r {{ r_deadlines := take (length (r_deadlines r) - 1) (r_deadlines r) }} in
      (Some rt, set_index rt (-1) r)
  | None => (None, r)
  end.

(** [heap.Pop(&r.deadlines)] and [heap.Remove(&r.deadlines, i)]. *)
Definition pop_deadline (r : Router) : option nat * Router := cut_deadline (heap_pop r).
Definition remove_deadline (i : nat) (r : Router) : option nat * Router :=
  cut_deadline (heap_remove i r).

(** The one-slot channel [deadlineWake]. *)
Definition wake_deadlines (r : Router) : Router := r {{ r_deadlineWake := true }}.

Definition track (rt : nat) (timeout now : Z) (r : Router) : Router :=
  let deadline := now + int64 (timeout + c_DeadlineGrace (r_config r)) in
  let r := r |> upd_route rt (set_deadline deadline)
             |> push_deadline rt in
  if rt_index (r_rstore r rt) =? 0 then wake_deadlines r else r.

Definition untrack (rt : nat) (r : Router) : Router :=
  let i := rt_index (r_rstore r rt) in
  if 0 <=? i then snd (remove_deadline (Z.to_nat i) r) else r.

(** [Router.callEnded]. *)
Definition callEnded (client : nat) (r : Router) : Router :=
  let r := upd_peer client (fun x => x {{ p_calls ::= Z.add (-1) }}) r in
  if r_draining r then wake_peer client r else r.

Definition markDrained (r : Router) : Router := r {{ r_drained := true }}.

(** [len(r.routes)] *)
Definition route_count (r : Router) : Z := Z.of_nat (size (r_routes r)).

Definition endRoute (id : string) (rt : nat) (r : Router) : Router :=
  let instance := rt_instance (r_rstore r rt) in
  let client := rt_client (r_rstore r rt) in
  let r := r {{ r_routes ::= delete id }} in
  let r := upd_peer instance (fun x => x {{ p_inflight ::= Z.add (-1) }}) r in
  let r := untrack rt r in
  let r := callEnded client r in
  if r_draining r then
    let r := wake_peer instance r in
    if route_count r =? 0 then markDrained r else r
  else r.

(** ** The heap's invariant *)

(** [index] is the position in the heap, and negative outside it. *)
Definition index_ok (r : Router) : Prop :=
  forall i p, r_deadlines r !! i = Some p <-> rt_index (r_rstore r p) = Z.of_nat i.

(** The routes with their deadlines, as the heap orders them. *)
Definition deadline_view (r : Router) : list (nat * Z) :=
  (fun p => (p, deadlineOf r p)) <$> r_deadlines r.

Record deadlines_ok (r : Router) : Prop := {
  ok_index : index_ok r;
  ok_heap : is_heap snd (deadline_view r) }.

(** Two Routers that differ only in the heap's order and index fields. *)
Record reindexed (r r' : Router) : Prop := {
  re_rest : r' = r {{ r_deadlines := r_deadlines r'; r_rstore := r_rstore r' }};
  re_route p : r_rstore r' p = (r_rstore r p) {{ rt_index := rt_index (r_rstore r' p) }} }.

(** ** Lemmas *)

#[global] Instance reindexed_preorder : PreOrder reindexed.
Proof.
  split.
  - intros r. split; [by destruct r|]. intros p. by destruct (r_rstore r p).
  - intros x y z [H1 H2] [H3 H4]. split.
    + rewrite H3, H1. done.
    + intros p. rewrite H4, H2. done.
Qed.

Lemma set_index_reindexed p i r : reindexed r (set_index p i r).
Proof.
  split; [by destruct r|]. intros q. unfold set_index, upd_route. simpl. unfold update.
  case_decide; [done|]. by destruct (r_rstore r q).
Qed.

Lemma reindexed_deadlines r ds : reindexed r (r {{ r_deadlines := ds }}).
Proof. split; [done|]. intros p. simpl. by destruct (r_rstore r p). Qed.

Lemma swap_reindexed i j r : reindexed r (swap_routes i j r).
Proof.
  unfold swap_routes. case_match; [|done]. case_match; [|done].
  etrans; [|apply set_index_reindexed]. etrans; [|apply set_index_reindexed].
  apply reindexed_deadlines.
Qed.

Lemma cut_reindexed r : reindexed r (cut_deadline r).2.
Proof.
  unfold cut_deadline. case_match; simpl; [|done].
  etrans; [|apply set_index_reindexed]. apply reindexed_deadlines.
Qed.

Lemma reindexed_field {B} (g : Router -> B) r r' :
  (forall x ds rs, g (x {{ r_deadlines := ds; r_rstore := rs }}) = g x) ->
  reindexed r r' -> g r' = g r.
Proof. intros Hg [-> _]. apply Hg. Qed.

Lemma reindexed_route {B} (g : route -> B) r r' p :
  (forall x i, g (x {{ rt_index := i }}) = g x) ->
  reindexed r r' -> g (r_rstore r' p) = g (r_rstore r p).
Proof. intros Hg [_ H]. by rewrite H. Qed.

Lemma set_index_at p i q r :
  rt_index (r_rstore (set_index p i r) q) = if decide (q = p) then i else rt_index (r_rstore r q).
Proof. unfold set_index, upd_route. simpl. unfold update. by case_decide. Qed.

Lemma index_ok_nodup r : index_ok r -> NoDup (r_deadlines r).
Proof.
  intros H. apply NoDup_alt. intros i j p Hi Hj. apply H in Hi. apply H in Hj. lia.
Qed.

Lemma swap_routes_lookup i j a b r :
  r_deadlines r !! i = Some a -> r_deadlines r !! j = Some b ->
  forall k, r_deadlines (swap_routes i j r) !! k =
    if decide (k = j) then Some a else if decide (k = i) then Some b else r_deadlines r !! k.
Proof.
  intros Ha Hb k. unfold swap_routes. rewrite Ha, Hb. unfold set_index, upd_route. simpl.
  rewrite swap_lookup by (eapply lookup_lt_Some; done). by rewrite Ha, Hb.
Qed.

Lemma swap_index_ok i j r : index_ok r -> index_ok (swap_routes i j r).
Proof.
  intros H. destruct (r_deadlines r !! i) as [a|] eqn:Ha; [|unfold swap_routes; by rewrite Ha].
  destruct (r_deadlines r !! j) as [b|] eqn:Hb; [|unfold swap_routes; by rewrite Ha, Hb].
  intros k p. rewrite (swap_routes_lookup i j a b r Ha Hb).
  unfold swap_routes. rewrite Ha, Hb, !set_index_at. simpl.
  pose proof (proj1 (H i a) Ha) as Ia. pose proof (proj1 (H j b) Hb) as Ib.
  pose proof (H k p) as Hk. pose proof (H i p) as Hi. pose proof (H j p) as Hj.
  rewrite ?Ha, ?Hb in *.
  repeat case_decide; subst; split; intros; simplify_eq; intuition (congruence || lia).
Qed.

#[global] Instance deadline_heap_view : HeapView Router (nat * Z) snd deadline_view.
Proof.
  split.
  - intros r. unfold deadline_view. by rewrite length_fmap.
  - intros i j r. unfold Less, less, deadline_view. simpl. rewrite !list_lookup_fmap.
    by destruct (r_deadlines r !! i), (r_deadlines r !! j).
  - intros i j r. unfold Swap, deadline_view. simpl.
    assert (forall p, deadlineOf (swap_routes i j r) p = deadlineOf r p) as Hd.
    { intros p. by apply (reindexed_route rt_deadline), swap_reindexed. }
    apply list_eq. intros k. rewrite list_lookup_fmap.
    unfold swap. rewrite !list_lookup_fmap.
    destruct (r_deadlines r !! i) as [a|] eqn:Ha; simpl;
      [|unfold swap_routes; by rewrite Ha, list_lookup_fmap].
    destruct (r_deadlines r !! j) as [b|] eqn:Hb; simpl;
      [|unfold swap_routes; by rewrite Ha, Hb, list_lookup_fmap].
    pose proof (lookup_lt_Some _ _ _ Ha). pose proof (lookup_lt_Some _ _ _ Hb).
    rewrite (swap_routes_lookup i j a b r Ha Hb).
    repeat case_decide; subst; simpl; rewrite ?Hd.
    + by rewrite list_lookup_insert_eq by (rewrite length_insert, length_fmap; lia).
    + rewrite list_lookup_insert_ne, list_lookup_insert_eq by (rewrite ?length_fmap; lia). done.
    + rewrite !list_lookup_insert_ne, list_lookup_fmap by lia.
      destruct (r_deadlines r !! k); simpl; by rewrite ?Hd.
Qed.

Lemma deadline_view_fst r : fst <$> deadline_view r = r_deadlines r.
Proof. unfold deadline_view. rewrite <- list_fmap_compose. apply list_fmap_id. Qed.

(** Changing the deadline and index of a route outside the heap. *)
Lemma deadline_view_ext r r' :
  r_deadlines r' = r_deadlines r -> (forall p, p ∈ r_deadlines r -> deadlineOf r' p = deadlineOf r p) ->
  deadline_view r' = deadline_view r.
Proof.
  intros Hd Hp. unfold deadline_view. rewrite Hd. apply list_fmap_ext. intros i p Hi.
  rewrite Hp; [done|]. by apply list_elem_of_lookup_2 in Hi.
Qed.

Lemma append_index_ok rt r : index_ok r -> rt_index (r_rstore r rt) < 0 ->
  index_ok (append_deadline rt r).
Proof.
  intros H Hn i p. change (r_deadlines (append_deadline rt r)) with (r_deadlines r ++ [rt]).
  change (r_rstore (append_deadline rt r))
    with (r_rstore (set_index rt (Z.of_nat (length (r_deadlines r))) r)).
  rewrite set_index_at.
  pose proof (H i p) as Hi. destruct (decide (i < length (r_deadlines r))%nat) as [Hl|Hl].
  - rewrite lookup_app_l by done. rewrite Hi. case_decide; subst; split; lia.
  - rewrite lookup_app_r by lia.
    assert (r_deadlines r !! i = None) as Hnone by (apply lookup_ge_None_2; lia).
    rewrite Hnone in Hi. case_decide; subst.
    + destruct (decide (i = length (r_deadlines r))) as [->|].
      * rewrite Nat.sub_diag. done.
      * rewrite lookup_ge_None_2 by (simpl; lia). split; [done|lia].
    + split; [|intros; exfalso; intuition congruence].
      intros Hs. apply list_lookup_singleton_Some in Hs as [? ->]. done.
Qed.

Lemma push_deadline_spec rt r :
  deadlines_ok r -> rt_index (r_rstore r rt) < 0 ->
  deadlines_ok (push_deadline rt r) /\ reindexed r (push_deadline rt r) /\
  r_deadlines (push_deadline rt r) ≡ₚ rt :: r_deadlines r.
Proof.
  intros [Hi Hh] Hn. unfold push_deadline.
  set (r1 := append_deadline rt r).
  assert (reindexed r r1) as Hr1.
  { etrans; [apply set_index_reindexed|apply reindexed_deadlines]. }
  assert (deadline_view r1 = deadline_view r ++ [(rt, deadlineOf r rt)]) as Hv.
  { assert (forall p, deadlineOf r1 p = deadlineOf r p) as Hd
      by (intros; by apply (reindexed_route rt_deadline)).
    unfold deadline_view at 1. change (r_deadlines r1) with (r_deadlines r ++ [rt]).
    rewrite fmap_app. simpl. f_equal.
    - apply list_fmap_ext. intros. by rewrite Hd.
    - by rewrite Hd. }
  pose proof (view_push snd deadline_view r1 _ _ Hv) as Hp.
  split_and!.
  - split; [by apply (heap_push_ind index_ok), append_index_ok; [apply swap_index_ok|..]|].
    rewrite Hp. by apply Push_heap.
  - etrans; [exact Hr1|].
    apply (heap_push_ind (reindexed r1)); [|done]. intros i j s Hs. etrans; [done|].
    apply swap_reindexed.
  - rewrite <- (deadline_view_fst (heap_push r1)), Hp, Push_perm. simpl.
    by rewrite deadline_view_fst.
Qed.

Lemma cut_spec r rt d h :
  index_ok r -> split_last (deadline_view r) = Some ((rt, d), h) ->
  exists r', cut_deadline r = (Some rt, r') /\ index_ok r' /\ deadline_view r' = h /\
    rt_index (r_rstore r' rt) = -1.
Proof.
  intros H Hs. apply split_last_spec in Hs.
  assert (r_deadlines r = (fst <$> h) ++ [rt]) as Hd.
  { rewrite <- deadline_view_fst, Hs, fmap_app. done. }
  pose proof (index_ok_nodup r H) as Hnd. rewrite Hd in Hnd.
  apply NoDup_app in Hnd as (Hnd & Hnotin & _).
  assert (Hds : take (length (r_deadlines r) - 1) (r_deadlines r) = fst <$> h).
  { rewrite Hd, length_app. simpl. replace (_ + 1 - 1)%nat with (length (fst <$> h)) by lia.
    by rewrite take_app_length. }
  assert (last (r_deadlines r) = Some rt) as Hlast by (rewrite Hd; apply last_snoc).
  eexists. unfold cut_deadline. rewrite Hlast, Hds. split; [reflexivity|].
  set (r' := set_index rt (-1) _).
  assert (forall p, deadlineOf r' p = deadlineOf r p) as Hdl.
  { intros p. by apply (update_field rt_deadline). }
  change (r_deadlines r') with (fst <$> h) in *.
  assert (length (r_deadlines r) = S (length (fst <$> h))) as Hlen by (rewrite Hd, length_app; simpl; lia).
  split_and!.
  - intros i p. change (r_deadlines r') with (fst <$> h). unfold r'. rewrite set_index_at. simpl.
    pose proof (H i p) as Hi. pose proof (H (length (fst <$> h)) rt) as Hl. rewrite Hd in Hi, Hl.
    rewrite lookup_app_r, Nat.sub_diag in Hl by done. simpl in Hl.
    case_decide as Hp; simpl.
    + subst. split; [|lia]. intros Hx. exfalso. apply (Hnotin rt); [|set_solver].
      by apply list_elem_of_lookup_2 in Hx.
    + rewrite <- Hi. split.
      * intros Hx. rewrite lookup_app_l; [done|]. by eapply lookup_lt_Some.
      * intros [Hx|[Hge Hx]]%lookup_app_Some; [done|].
        apply list_lookup_singleton_Some in Hx as [_ ->]. done.
  - unfold deadline_view. change (r_deadlines r') with (fst <$> h). transitivity ((fun p => (p, deadlineOf r p)) <$> (fst <$> h)).
    { apply list_fmap_ext. intros. by rewrite Hdl. }
    rewrite <- list_fmap_compose.
    assert (forall x, x ∈ h -> x.2 = deadlineOf r x.1) as Hx.
    { intros x Hx. assert (x ∈ deadline_view r) as Hin by (rewrite Hs; set_solver).
      unfold deadline_view in Hin. apply list_elem_of_fmap in Hin as (p & -> & _). done. }
    transitivity (id <$> h); [|apply list_fmap_id].
    apply list_fmap_ext. intros i [p e] Hi. simpl. pose proof (Hx (p, e) ltac:(by eapply list_elem_of_lookup_2)) as He.
    simpl in He. by rewrite He.
  - unfold r'. rewrite set_index_at. by rewrite decide_True.
Qed.

(** What removing one element of the heap promises. *)
Definition removed (rt : nat) (r : Router) (res : option nat * Router) : Prop :=
  res.1 = Some rt /\ deadlines_ok res.2 /\ reindexed r res.2 /\
  r_deadlines r ≡ₚ rt :: r_deadlines res.2 /\ rt_index (r_rstore res.2 rt) = -1.

Lemma cut_removed (op : Router -> Router)
    r rt h' :
  split_last (deadline_view (op r)) = Some ((rt, deadlineOf r rt), h') ->
  is_heap snd h' -> deadline_view r ≡ₚ (rt, deadlineOf r rt) :: h' ->
  index_ok (op r) -> reindexed r (op r) ->
  removed rt r (cut_deadline (op r)).
Proof.
  intros Hs Hh Hp Hi Hr. destruct (cut_spec _ _ _ _ Hi Hs) as (r' & Hc & Hi' & Hv & Hx).
  pose proof (cut_reindexed (op r)) as Hcr. rewrite Hc in *. split_and!; simpl in *; [done| | | |done].
  - split; [done|]. by rewrite Hv.
  - by etrans.
  - rewrite <- (deadline_view_fst r), Hp. simpl. by rewrite <- Hv, deadline_view_fst.
Qed.

Lemma remove_deadline_spec i rt r :
  deadlines_ok r -> r_deadlines r !! i = Some rt -> removed rt r (remove_deadline i r).
Proof.
  intros [Hi Hh] Hrt. unfold remove_deadline.
  assert (deadline_view r !! i = Some (rt, deadlineOf r rt)) as Hv.
  { unfold deadline_view. by rewrite list_lookup_fmap, Hrt. }
  destruct (Remove_spec snd i _ _ Hh Hv) as (h' & Hr & Hh' & Hp).
  apply (cut_removed (heap_remove i) r rt h'); [|done|done| |].
  - rewrite <- Hr. apply (view_remove snd deadline_view).
  - apply (heap_remove_ind index_ok); [apply swap_index_ok|done].
  - apply (heap_remove_ind (reindexed r)); [|done]. intros. etrans; [done|]. apply swap_reindexed.
Qed.

Lemma pop_deadline_spec rt r :
  deadlines_ok r -> head (r_deadlines r) = Some rt -> removed rt r (pop_deadline r).
Proof.
  intros [Hi Hh] Hrt. unfold pop_deadline.
  assert (deadline_view r !! 0%nat = Some (rt, deadlineOf r rt)) as Hv.
  { unfold deadline_view. rewrite list_lookup_fmap. destruct (r_deadlines r); by simplify_eq/=. }
  destruct (Pop_spec snd _ _ Hh Hv) as (h' & Hr & Hh' & Hp).
  apply (cut_removed heap_pop r rt h'); [|done|done| |].
  - rewrite <- Hr. apply (view_pop snd deadline_view).
  - apply (heap_pop_ind index_ok); [apply swap_index_ok|done].
  - apply (heap_pop_ind (reindexed r)); [|done]. intros. etrans; [done|]. apply swap_reindexed.
Qed.

(** The root of the heap has the earliest deadline. *)
Lemma earliest_deadline r rt p :
  deadlines_ok r -> head (r_deadlines r) = Some rt -> p ∈ r_deadlines r ->
  deadlineOf r rt <= deadlineOf r p.
Proof.
  intros [Hi Hh] Hrt Hp.
  apply (is_heap_min snd (deadline_view r) (rt, deadlineOf r rt)) with (y := (p, deadlineOf r p)); [done| |].
  - unfold deadline_view. rewrite list_lookup_fmap. destruct (r_deadlines r); by simplify_eq/=.
  - unfold deadline_view. apply list_elem_of_fmap. eauto.
Qed.

(** Changes that leave the heap's slots and deadlines alone; the negative
    index of an untracked route does not matter. *)
Lemma deadlines_ok_ext_neg r r' :
  r_deadlines r' = r_deadlines r ->
  (forall p, rt_index (r_rstore r' p) = rt_index (r_rstore r p) \/
             (rt_index (r_rstore r' p) < 0 /\ rt_index (r_rstore r p) < 0)) ->
  (forall p, p ∈ r_deadlines r -> deadlineOf r' p = deadlineOf r p) ->
  deadlines_ok r -> deadlines_ok r'.
Proof.
  intros Hd Hi Hl [H1 H2]. split.
  - intros i p. rewrite Hd. pose proof (H1 i p) as H. destruct (Hi p) as [->|[? ?]]; [done|].
    rewrite H. lia.
  - by rewrite (deadline_view_ext r r').
Qed.

Lemma deadlines_ok_ext r r' :
  r_deadlines r' = r_deadlines r ->
  (forall p, rt_index (r_rstore r' p) = rt_index (r_rstore r p)) ->
  (forall p, p ∈ r_deadlines r -> deadlineOf r' p = deadlineOf r p) ->
  deadlines_ok r -> deadlines_ok r'.
Proof. intros ? ?. apply deadlines_ok_ext_neg; auto. Qed.

Lemma untrack_spec rt r : deadlines_ok r ->
  deadlines_ok (untrack rt r) /\ reindexed r (untrack rt r) /\
  rt_index (r_rstore (untrack rt r) rt) < 0 /\
  (r_deadlines r ≡ₚ rt :: r_deadlines (untrack rt r) \/
   (rt ∉ r_deadlines r) /\ untrack rt r = r).
Proof.
  intros Hok. unfold untrack. destruct (0 <=? _) eqn:E; unbool.
  - assert (r_deadlines r !! Z.to_nat (rt_index (r_rstore r rt)) = Some rt) as Hl.
    { apply (ok_index r Hok). lia. }
    destruct (remove_deadline_spec _ _ _ Hok Hl) as (_ & H2 & H3 & H4 & H5).
    split_and!; [done|done|lia|by left].
  - split_and!; [done|done|done|]. right. split; [|done].
    intros [i Hi]%list_elem_of_lookup. apply (ok_index r Hok) in Hi. lia.
Qed.

Lemma track_spec rt timeout now r : deadlines_ok r -> rt_index (r_rstore r rt) < 0 ->
  deadlines_ok (track rt timeout now r) /\
  r_deadlines (track rt timeout now r) ≡ₚ rt :: r_deadlines r /\
  deadlineOf (track rt timeout now r) rt = now + int64 (timeout + c_DeadlineGrace (r_config r)) /\
  (forall p, r_rstore (track rt timeout now r) p =
     (if decide (p = rt)
      then set_deadline (now + int64 (timeout + c_DeadlineGrace (r_config r))) (r_rstore r p)
      else r_rstore r p) {{ rt_index := rt_index (r_rstore (track rt timeout now r) p) }}) /\
  track rt timeout now r = r {{ r_rstore := r_rstore (track rt timeout now r);
    r_deadlines := r_deadlines (track rt timeout now r);
    r_deadlineWake := r_deadlineWake (track rt timeout now r) }}.
Proof.
  intros Hok Hn. unfold track.
  set (d := now + int64 _). set (r1 := upd_route rt _ r).
  assert (forall p, rt_index (r_rstore r1 p) = rt_index (r_rstore r p)) as Hx.
  { intros p. by apply (update_field rt_index). }
  assert (rt ∉ r_deadlines r) as Hnin.
  { intros [i Hi]%list_elem_of_lookup. apply (ok_index r Hok) in Hi. lia. }
  assert (deadlines_ok r1) as Hok1.
  { apply (deadlines_ok_ext r); [done|done| |done]. intros p Hp.
    unfold deadlineOf, r1. simpl. rewrite update_ne; [done|]. by intros ->. }
  destruct (push_deadline_spec rt r1 Hok1) as (H1 & H2 & H3); [by rewrite Hx|].
  assert (forall p, r_rstore (push_deadline rt r1) p =
     (if decide (p = rt) then set_deadline d (r_rstore r p) else r_rstore r p)
     {{ rt_index := rt_index (r_rstore (push_deadline rt r1) p) }}) as Hp.
  { intros p. rewrite (re_route _ _ H2 p) at 1. f_equal. }
  assert (push_deadline rt r1 = r {{ r_rstore := r_rstore (push_deadline rt r1);
    r_deadlines := r_deadlines (push_deadline rt r1) }}) as Hr.
  { rewrite (re_rest _ _ H2) at 1. done. }
  assert (deadlineOf (push_deadline rt r1) rt = d) as Hd.
  { unfold deadlineOf. rewrite Hp. by rewrite decide_True. }
  change (r1 |> push_deadline rt) with (push_deadline rt r1).
  destruct (_ =? 0); split_and!; try done.
  { by apply (deadlines_ok_ext (push_deadline rt r1)). }
  all: assert (exists rs ds, push_deadline rt r1 = r {{ r_rstore := rs; r_deadlines := ds }})
      as (rs & ds & ->) by eauto; done || by destruct r.
Qed.
