(* ===== verification/Dedup.v ===== *)
(** * Idempotent calls: internal/router/dedup.go

    An entry is in flight ([d_route]), settled ([d_result], replayed until
    [d_expires]) or a tombstone that only remembers which instance lost the
    call.  [r_dedup] finds entries by key, [r_dedupOrder] is the eviction
    order, oldest first. *)
From S2P Require Import Prelude GoStd Protocol Breaker State Deadline.
#[local] Open Scope Z_scope.

Definition dedupTTL : Z := 60 * Second.
Definition dedupCapacity : nat := 4096.

Definition dedupKey (f : frame) : string :=
  f_service f +:+ nuls +:+ f_method f +:+ nuls +:+ f_idempotency f +:+ nuls +:+ f_instanceID f.

Definition withCallID (f : frame) (id : string) : frame :=
  f {{ f_callID := id; f_raw := None }}.

Definition entryOf (r : Router) (d : nat) : dedupEntry := r_dstore r d.

Definition dedupRemove (d : nat) (r : Router) : Router :=
  let r := if d_element (entryOf r d)
           then upd_dedup d (fun x => x {{ d_element := false }})
                  (r {{ r_dedupOrder ::= filter (fun d' => d' <> d) }})
           else r in
  r {{ r_dedup ::= delete (d_key (entryOf r d)) }}.

Definition dedupLookup (key : string) (now : Z) (r : Router) : Router * option nat :=
  match r_dedup r !! key with
  | Some d =>
      match d_route (entryOf r d) with
      | None => if d_expires (entryOf r d) <? now then (dedupRemove d r, None) else (r, Some d)
      | Some _ => (r, Some d)
      end
  | None => (r, None)
  end.

(** The eviction loop of [dedupInsert]; every round removes the oldest entry,
    so the length of the order is enough fuel. *)
Fixpoint dedup_evict (fuel : nat) (r : Router) : Router :=
  match fuel with
  | O => r
  | S fuel =>
      if (dedupCapacity <=? length (r_dedupOrder r))%nat then
        match r_dedupOrder r with
        | oldest :: _ =>
            match d_route (entryOf r oldest) with
            | Some _ => r
            | None => dedup_evict fuel (dedupRemove oldest r)
            end
        | [] => r
        end
      else r
  end.

Definition dedupInsert (key : string) (rt : nat) (r : Router) : Router :=
  let r := dedup_evict (length (r_dedupOrder r)) r in
  let d := r_next r in
  let r := r {{ r_next ::= S }} in
  let r := upd_dedup d (fun _ => DedupEntry key (Some rt) [] None 0 None true) r in
  let r := r {{ r_dedupOrder := r_dedupOrder r ++ [d] }} in
  let r := r {{ r_dedup ::= insert key d }} in
  upd_route rt (fun x => x {{ rt_dedup := Some d }}) r.

(** The same terminal frame to every joined call. *)
Fixpoint answer_waiters (f : frame) (waiters : list (nat * string)) (r : Router) : Router :=
  match waiters with
  | [] => r
  | (client, id) :: waiters =>
      answer_waiters f waiters (callEnded client (send client (withCallID f id) r))
  end.

Definition dedupSettle (d : nat) (terminal : frame) (now : Z) (r : Router) : Router :=
  let settled := terminal {{ f_raw := None }} in
  let r := upd_dedup d (fun x => x {{ d_route := None; d_result := Some settled;
                                      d_expires := now + dedupTTL }}) r in
  let r := answer_waiters settled (d_waiters (entryOf r d)) r in
  upd_dedup d (fun x => x {{ d_waiters := [] }}) r.

Definition dedupFail (d : nat) (err : frame) (lost : option nat) (now : Z) (r : Router) : Router :=
  let r := answer_waiters err (d_waiters (entryOf r d)) r in
  upd_dedup d (fun x => x {{ d_waiters := []; d_route := None; d_lastInstance := lost;
                             d_expires := now + dedupTTL; d_result := None }}) r.

(** [rt.dedup != nil && rt.dedup.route == rt]. *)
Definition owns_dedup (r : Router) (rt : nat) : option nat :=
  match rt_dedup (r_rstore r rt) with
  | Some d => if bool_decide (d_route (entryOf r d) = Some rt) then Some d else None
  | None => None
  end.

(** Fails the joined calls of a route that ends without a terminal frame. *)
Definition fail_joined (rt : nat) (err : frame) (lost : option nat) (now : Z) (r : Router) : Router :=
  match owns_dedup r rt with
  | Some d => dedupFail d err lost now r
  | None => r
  end.

(** ** The expiry loop: deadline.go *)

(** One round, for a route the heap gave up. *)
Definition expire_route (rt : nat) (now : Z) (r : Router) : Router :=
  let x := r_rstore r rt in
  let id := rt_id x in
  if bool_decide (r_routes r !! id <> Some rt) then r
  else
    let r := observe_peer (rt_instance x) false now r in
    let r := finishRoute x "deadline_exceeded" now r in
    let r := fail_joined rt (deadlineError id) None now r in
    let r := send (rt_client x) (deadlineError id) r in
    let r := send (rt_instance x)
      (frame0 {{ f_kind := "call.cancel"; f_callID := id; f_reason := "deadline_exceeded" }}) r in
    endRoute id rt r.

Definition due (now : Z) (r : Router) : bool :=
  match r_deadlines r with rt :: _ => negb (now <? deadlineOf r rt) | [] => false end.

Fixpoint expire_loop (fuel : nat) (now : Z) (r : Router) : Router :=
  match fuel with
  | O => r
  | S fuel =>
      if due now r then
        let '(rt, r) := pop_deadline r in
        match rt with
        | Some rt => expire_loop fuel now (expire_route rt now r)
        | None => r
        end
      else r
  end.

(** One wake-up of [expireLoop]: every round pops a route, so the size of the
    heap is enough fuel. *)
Definition expire (now : Z) (r : Router) : Router :=
  expire_loop (length (r_deadlines r)) now r.

(** How long the loop sleeps afterwards. *)
Definition next_expiry (now : Z) (r : Router) : Z :=
  match r_deadlines r with
  | rt :: _ => Z.max (deadlineOf r rt - now) Millisecond
  | [] => 60 * Minute
  end.
