(* ===== verification/Contract.v ===== *)
(** * Portable contracts: internal/contract

    [Object] keeps the key order of a JSON object: an association list with
    unique keys ([Keys] are its first components, [Values] its entries).  A
    decoded value is a [json] value whose objects are such lists. *)
From S2P Require Import Prelude GoStd Json Libs.
#[local] Open Scope Z_scope.

(** ** Ordered objects: json.go *)

Definition Object : Type := list (string * json).

Fixpoint Get (o : Object) (key : string) : option json :=
  match o with
  | [] => None
  | (k, v) :: o => if String.eqb key k then Some v else Get o key
  end.
Definition Has (o : Object) (key : string) : bool :=
  match Get o key with Some _ => true | None => false end.
Definition Keys (o : Object) : list string := fst <$> o.

(** [v.(string)], [v.( *Object)] and [v.([]any)]. *)
Definition as_string (v : option json) : option string :=
  match v with Some (JString s) => Some s | _ => None end.
Definition as_object (v : option json) : option Object :=
  match v with Some (JObject o) => Some o | _ => None end.
Definition as_array (v : option json) : option (list json) :=
  match v with Some (JArray l) => Some l | _ => None end.
Definition as_bool (v : option json) : bool :=
  match v with Some (JBool b) => b | _ => false end.

Definition Str (o : Object) (key : string) : string := default EmptyString (as_string (Get o key)).
Definition Obj (o : Object) (key : string) : option Object := as_object (Get o key).
Definition Strings (o : Object) (key : string) : list string :=
  omap (fun v => as_string (Some v)) (default [] (as_array (Get o key))).

Fixpoint Set_ (o : Object) (key : string) (value : json) : Object :=
  match o with
  | [] => [(key, value)]
  | (k, v) :: o => if String.eqb key k then (k, value) :: o else (k, v) :: Set_ o key value
  end.
(** The copy [With] makes is not shared, so it is [Set_] on values. *)
Definition With (o : Object) (key : string) (value : json) : Object := Set_ o key value.

(** [decodeValue] inserts the members one by one with [Set_]. *)
Fixpoint ordered (v : json) : json :=
  match v with
  | JArray l => JArray (ordered <$> l)
  | JObject kvs =>
      JObject ((fix members (kvs : list (string * json)) (o : Object) : Object :=
        match kvs with
        | [] => o
        | (k, v) :: kvs => members kvs (Set_ o k (ordered v))
        end) kvs [])
  | _ => v
  end.

(** The token reader has no nesting limit. *)
Definition DecodeOrdered (data : string) : option json :=
  '(v, rest) ← parse_value (parse_fuel data) (S (String.length data)) data;
  if is_empty (skip_ws rest) then Some (ordered v) else None.

Section floats.
Context `{Floats}.

Definition numberEqual (a b : string) : bool :=
  String.eqb a b ||
  match parseFloat a, parseFloat b with
  | Some x, Some y => float_eqb x y
  | _, _ => false
  end.

Fixpoint Equal (a b : json) {struct a} : bool :=
  match a, b with
  | JObject x, JObject y =>
      (length x =? length y)%nat &&
      (fix members (x : Object) : bool :=
         match x with
         | [] => true
         | (k, v) :: x =>
             match Get y k with Some w => Equal v w | None => false end && members x
         end) x
  | JArray x, JArray y =>
      (length x =? length y)%nat &&
      (fix items (x y : list json) : bool :=
         match x, y with
         | v :: x, w :: y => Equal v w && items x y
         | _, _ => true
         end) x y
  | JNumber x, JNumber y => numberEqual x y
  | JString x, JString y => String.eqb x y
  | JBool x, JBool y => Bool.eqb x y
  | JNull, JNull => true
  | _, _ => false
  end.
End floats.

Fixpoint Encode (v : json) : string :=
  match v with
  | JObject o =>
      braces ((fix members (o : Object) : list string :=
        match o with
        | [] => []
        | (k, v) :: o => member k (Encode v) :: members o
        end) o)
  | JArray l => brackets (Encode <$> l)
  | JNumber n => n
  | JString s => quote s
  | JBool b => marshal_bool b
  | JNull => "null"
  end.

(** ** Documents: contract.go *)

Record Balance := MkBalance { bl_Kind : string; bl_Key : option string }.
Record Annotations := MkAnnotations {
  an_Idempotent : bool; an_ReadOnly : bool; an_Destructive : bool }.
Record TypeRef := MkTypeRef { tr_Module : string; tr_Qualname : string; tr_Schema : Object }.
Record Method := MkMethod {
  mt_Name : string;
  mt_Stream : string;
  mt_Request : TypeRef;
  mt_Parameters : list string;
  mt_Response : option TypeRef;
  mt_InputItem : option TypeRef;
  mt_OutputItem : option TypeRef;
  mt_Balance : Balance;
  mt_Binding : string;
  mt_Description : option string;
  mt_Annotations : Annotations;
  mt_Deprecated : option string;
  mt_DuplexReason : option string;
  mt_Raw : Object }.
Record Service := MkService {
  sv_Name : string;
  sv_Version : string;
  sv_SourceModule : string;
  sv_SourceQualname : string;
  sv_Balance : Balance;
  sv_Description : option string;
  sv_Targeted : bool;
  sv_Methods : list Method;
  sv_Raw : Object }.
Record Document := MkDocument {
  dc_Protocol : string; dc_Services : list Service; dc_Raw : Object }.

Inductive contract_error :=
  | NotJSON | NotAnObject
  | ServiceNotObject (i : nat) | ServiceNeedsName
  | MethodNotObject (service : string) | MethodNeedsName
  | UnknownStream (method stream : string)
  | RequestRequired (method : string) | BadTypeRef (method : string)
  | DuplexReasonOnStream (method stream : string) | DuplexNeedsReason (method : string)
  | DuplexHasResponse (method : string) | DuplexNeedsItems (method : string)
  | DuplexIdempotent (method : string)
  | MultipleServices | NoSuchService (name : string).

Definition optionalString (o : Object) (key : string) : option string := as_string (Get o key).

Definition or_default (s d : string) : string := if is_empty s then d else s.

Definition parseBalance (o : option Object) : Balance :=
  match o with
  | None => MkBalance "round_robin" None
  | Some o => MkBalance (or_default (Str o "kind") "round_robin") (optionalString o "key")
  end.

(** [Some None]: no reference; [None]: a malformed one. *)
Definition parseTypeRef (o : option Object) : option (option TypeRef) :=
  match o with
  | None => Some None
  | Some o =>
      match Obj o "schema" with
      | Some schema =>
          if is_empty (Str o "qualname") then None
          else Some (Some (MkTypeRef (Str o "module") (Str o "qualname") schema))
      | None => None
      end
  end.

(** [unicode.IsSpace], and [strings.TrimSpace(s) == ""]. *)
Definition IsSpace (c : Z) : bool :=
  in_range 9 13 c || (c =? 32) || (c =? 133) || (c =? 160) || (c =? 5760)
  || in_range 8192 8202 c || (c =? 8232) || (c =? 8233) || (c =? 8239) || (c =? 8287)
  || (c =? 12288).
Definition blank (s : string) : bool := forallb (fun rb => IsSpace rb.1) (runes s).

Definition checkDuplex (m : Method) : option contract_error :=
  let name := mt_Name m in
  if negb (String.eqb (mt_Stream m) "duplex") then
    match mt_DuplexReason m with
    | Some _ => Some (DuplexReasonOnStream name (mt_Stream m))
    | None => None
    end
  else if match mt_DuplexReason m with Some reason => blank reason | None => true end
  then Some (DuplexNeedsReason name)
  else if bool_decide (is_Some (mt_Response m)) then Some (DuplexHasResponse name)
  else if negb (bool_decide (is_Some (mt_InputItem m)) && bool_decide (is_Some (mt_OutputItem m)))
  then Some (DuplexNeedsItems name)
  else if an_Idempotent (mt_Annotations m) || an_ReadOnly (mt_Annotations m)
  then Some (DuplexIdempotent name)
  else None.

Definition parseAnnotations (o : option Object) : Annotations :=
  match o with
  | None => MkAnnotations false false false
  | Some a => MkAnnotations (as_bool (Get a "idempotent")) (as_bool (Get a "read_only"))
                (as_bool (Get a "destructive"))
  end.

Definition stream_kinds : list string := ["unary"; "server_stream"; "client_stream"; "duplex"].

Definition parseMethod (o : Object) : contract_error + Method :=
  let name := Str o "name" in
  let stream := Str o "stream" in
  if is_empty name then inl MethodNeedsName
  else if negb (Contains stream_kinds stream) then inl (UnknownStream name stream)
  else match parseTypeRef (Obj o "request") with
  | Some (Some request) =>
      match parseTypeRef (Obj o "response"), parseTypeRef (Obj o "input_item"),
            parseTypeRef (Obj o "output_item") with
      | Some response, Some input, Some output =>
          let m := MkMethod name stream request (Strings o "parameters") response input output
            (parseBalance (Obj o "balance")) (or_default (Str o "binding") "instance")
            (optionalString o "description") (parseAnnotations (Obj o "annotations"))
            (optionalString o "deprecated") (optionalString o "duplex_reason") o in
          match checkDuplex m with Some err => inl err | None => inr m end
      | _, _, _ => inl (BadTypeRef name)
      end
  | _ => inl (RequestRequired name)
  end.

(** The loops over the methods of a service and the services of a document. *)
Fixpoint parse_methods (service : string) (items : list json) : contract_error + list Method :=
  match items with
  | [] => inr []
  | JObject o :: items =>
      match parseMethod o with
      | inl err => inl err
      | inr m =>
          match parse_methods service items with inl err => inl err | inr l => inr (m :: l) end
      end
  | _ => inl (MethodNotObject service)
  end.

Definition parseService (o : Object) : contract_error + Service :=
  let name := Str o "name" in
  if is_empty name || is_empty (Str o "source_qualname") then inl ServiceNeedsName
  else match parse_methods name (default [] (as_array (Get o "methods"))) with
  | inl err => inl err
  | inr methods =>
      inr (MkService name (or_default (Str o "version") "0") (Str o "source_module")
        (Str o "source_qualname") (parseBalance (Obj o "balance"))
        (optionalString o "description") (as_bool (Get o "targeted")) methods o)
  end.

Fixpoint parse_services (i : nat) (items : list json) : contract_error + list Service :=
  match items with
  | [] => inr []
  | JObject o :: items =>
      match parseService o with
      | inl err => inl err
      | inr s =>
          match parse_services (S i) items with inl err => inl err | inr l => inr (s :: l) end
      end
  | _ => inl (ServiceNotObject i)
  end.

Definition Parse (data : string) : contract_error + Document :=
  match DecodeOrdered data with
  | None => inl NotJSON
  | Some (JObject root) =>
      match parse_services 0 (default [] (as_array (Get root "services"))) with
      | inl err => inl err
      | inr services =>
          inr (MkDocument (or_default (Str root "protocol") "meshcall/1") services root)
      end
  | Some _ => inl NotAnObject
  end.

Definition Select (d : Document) (name : string) : contract_error + Service :=
  if is_empty name then
    match dc_Services d with [s] => inr s | _ => inl MultipleServices end
  else match List.find (fun s => String.eqb (sv_Name s) name) (dc_Services d) with
  | Some s => inr s
  | None => inl (NoSuchService name)
  end.
