(* ===== verification/Objects.v ===== *)
(** * Ordered objects: lookups, updates and sizes

    The lemmas on internal/contract's objects that the components share; the size
    of a value is the measure of the recursions on schemas and values. *)
From S2P Require Import Prelude GoStd Json Libs Contract.
#[local] Open Scope Z_scope.

Fixpoint json_size (v : json) : nat :=
  match v with
  | JArray l => S (fold_right (fun v n => json_size v + n)%nat 0%nat l)
  | JObject kvs => S (fold_right (fun kv n => json_size kv.2 + n)%nat 0%nat kvs)
  | _ => 1
  end.
Definition schema_size (schema : Object) : nat := json_size (JObject schema).

(** ** Members and elements *)

Lemma json_size_pos v : (1 <= json_size v)%nat.
Proof. destruct v; cbn; lia. Qed.

Lemma array_size v l : v ∈ l -> (json_size v < json_size (JArray l))%nat.
Proof.
  intros Hv. cbn. enough (json_size v <= foldr (fun v n => json_size v + n) 0 l)%nat by lia.
  induction l as [|w l IH]; [by apply not_elem_of_nil in Hv|].
  apply elem_of_cons in Hv as [->|Hv]; cbn; [lia|]. specialize (IH Hv). lia.
Qed.

Lemma member_size (kv : string * json) kvs : kv ∈ kvs -> (json_size kv.2 < schema_size kvs)%nat.
Proof.
  intros Hv. unfold schema_size. cbn.
  enough (json_size kv.2 <= foldr (fun kv n => json_size kv.2 + n) 0 kvs)%nat by lia.
  induction kvs as [|w kvs IH]; [by apply not_elem_of_nil in Hv|].
  apply elem_of_cons in Hv as [->|Hv]; cbn; [lia|]. specialize (IH Hv). lia.
Qed.

Lemma Get_member o k v : Get o k = Some v -> (k, v) ∈ o.
Proof.
  induction o as [|[k' v'] o IH]; [done|]. cbn. destruct (String.eqb_spec k k') as [->|].
  - intros [= ->]. left.
  - intros H. right. auto.
Qed.
Lemma Get_size o k v : Get o k = Some v -> (json_size v < schema_size o)%nat.
Proof. intros H%Get_member. apply (member_size (k, v) o H). Qed.

(** ** Updates *)

Lemma Get_Set o k v k' : Get (Set_ o k v) k' = if decide (k' = k) then Some v else Get o k'.
Proof.
  induction o as [|[k0 v0] o IH]; simpl.
  - destruct (String.eqb k' k) eqn:E; [apply String.eqb_eq in E|apply String.eqb_neq in E]; by case_decide.
  - destruct (String.eqb k k0) eqn:E; [apply String.eqb_eq in E|apply String.eqb_neq in E]; simpl; subst.
    + destruct (String.eqb k' k0) eqn:E'; [apply String.eqb_eq in E'|apply String.eqb_neq in E']; by case_decide.
    + rewrite IH. destruct (String.eqb k' k0) eqn:E'; [apply String.eqb_eq in E'|done].
      case_decide; congruence.
Qed.

Lemma Set_key o k v x : x ∈ (Set_ o k v).*1 -> x = k \/ x ∈ o.*1.
Proof.
  induction o as [|[k' v'] o IH]; simpl; [set_solver|].
  destruct (String.eqb_spec k k') as [->|]; simpl; set_solver.
Qed.

Lemma Set_NoDup o k v : NoDup o.*1 -> NoDup (Set_ o k v).*1.
Proof.
  induction o as [|[k' v'] o IH]; simpl; [intros _; apply NoDup_singleton|].
  intros [Hk Ho]%NoDup_cons. destruct (String.eqb_spec k k') as [->|]; simpl; constructor; auto.
  intros [->|?]%Set_key; done.
Qed.

Lemma Set_fresh o k v : (k ∉ o.*1) -> Set_ o k v = o ++ [(k, v)].
Proof.
  induction o as [|[k' v'] o IH]; simpl; [done|]. intros Hk.
  destruct (String.eqb_spec k k') as [->|]; [set_solver|]. rewrite IH by set_solver. done.
Qed.

(** ** [mapM] *)

Lemma mapM_ext_elem {A B} (f g : A -> option B) l : (forall x, x ∈ l -> f x = g x) -> mapM f l = mapM g l.
Proof.
  induction l as [|x l IH]; intros H; [done|]. cbn. rewrite (H x) by left.
  destruct (g x); [|done]. cbn. rewrite IH; [done|]. intros. apply H. by right.
Qed.
Lemma mapM_Some_map {A B} (f : A -> B) l : mapM (fun x => Some (f x)) l = Some (f <$> l).
Proof. induction l as [|x l IH]; [done|]. cbn. by rewrite IH. Qed.
