(* ===== verification/Printing.v ===== *)
(** * Parsing what was printed

    The JSON text that [Encode] writes parses back to the value it was written
    for: strings rune by rune, numbers by their grammar, values by induction. *)
From S2P Require Import Prelude GoStd Json Libs Contract Objects.
#[local] Open Scope Z_scope.
#[local] Arguments String.append !_ _ / : simpl nomatch.

(** ** Definitions *)

Definition valid_rune (r : Z) : bool := in_range 0 1114111 r && negb (in_range 55296 57343 r).

(** The text of some runes. *)
Definition text_of (rs : list Z) : string := fold_right (fun r s => encode_rune r +:+ s) EmptyString rs.
Definition well_formed (s : string) : Prop :=
  exists rs, Forall (fun r => valid_rune r = true) rs /\ s = text_of rs.

(** What may follow a value inside a text. *)
Definition starts (p : ascii -> bool) (s : string) : bool :=
  match s with String c _ => p c | EmptyString => false end.
Definition delimiter (s : string) : Prop :=
  match s with
  | EmptyString => True
  | String c _ => byte c = 44 \/ byte c = 93 \/ byte c = 125 \/ is_ws c = true
  end.

(** A number literal that parses as itself. *)
Definition literal (n : string) : Prop :=
  starts (fun c => is_digit c || Ascii.eqb c "-") n = true /\
  forall rest, delimiter rest -> parse_number (n +:+ rest) = Some (n, rest).

(** Values within [depth] levels of nesting whose strings are UTF-8 and whose
    numbers are literals; [keys] is what the keys of an object satisfy. *)
Inductive shaped (keys : list string -> Prop) : nat -> json -> Prop :=
  | ShapedNull d : shaped keys d JNull
  | ShapedBool d b : shaped keys d (JBool b)
  | ShapedNumber d n : literal n -> shaped keys d (JNumber n)
  | ShapedString d s : well_formed s -> shaped keys d (JString s)
  | ShapedArray d l : Forall (shaped keys d) l -> shaped keys (S d) (JArray l)
  | ShapedObject d kvs :
      keys kvs.*1 -> Forall well_formed kvs.*1 -> Forall (shaped keys d) kvs.*2 ->
      shaped keys (S d) (JObject kvs).

(** What the parser returns, and what [decodeValue] makes of it: every key of
    an object occurs once. *)
Definition parsed : nat -> json -> Prop := shaped (fun _ => True).
Definition printable : nat -> json -> Prop := shaped (@NoDup string).

(** ** Runes *)

Lemma byte_of_byte z : 0 <= z < 256 -> byte (of_byte z) = z.
Proof.
  intros H. unfold byte, of_byte. rewrite N_ascii_embedding by lia. lia.
Qed.

Lemma land_ones z n : 0 <= n -> Z.land z (2 ^ n - 1) = z mod 2 ^ n.
Proof. intros. rewrite <- Z.land_ones by done. by rewrite Z.ones_equiv, Z.sub_1_r. Qed.

Lemma low6 z : Z.land z 63 = z mod 64.
Proof. apply (land_ones z 6). lia. Qed.
Lemma low5 z : Z.land z 31 = z mod 32.
Proof. apply (land_ones z 5). lia. Qed.
Lemma low4 z : Z.land z 15 = z mod 16.
Proof. apply (land_ones z 4). lia. Qed.
Lemma low3 z : Z.land z 7 = z mod 8.
Proof. apply (land_ones z 3). lia. Qed.
Lemma shift_div z n : 0 <= n -> Z.shiftr z n = z / 2 ^ n.
Proof. intros. by apply Z.shiftr_div_pow2. Qed.

Lemma in_range_true lo hi z : in_range lo hi z = true <-> lo <= z <= hi.
Proof. unfold in_range. lia. Qed.
Lemma in_range_false lo hi z : in_range lo hi z = false <-> z < lo \/ hi < z.
Proof. unfold in_range. lia. Qed.

Ltac euclid := Z.to_euclidean_division_equations; lia.

(** The bytes of a rune decode to it, whatever follows. *)
Lemma decode_encode r t : valid_rune r = true ->
  exists c u, encode_rune r = String c u /\ decode_rune c (u +:+ t) = (r, String.length (String c u)).
Proof.
  unfold valid_rune. intros [H1%in_range_true H2%negb_true_iff%in_range_false]%andb_true_iff.
  unfold encode_rune. rewrite !low6, !shift_div by lia.
  change (2 ^ 6) with 64. change (2 ^ 12) with 4096. change (2 ^ 18) with 262144.
  destruct (in_range 0 127 r) eqn:E1; [apply in_range_true in E1|apply in_range_false in E1].
  { exists (of_byte r), EmptyString. split; [done|]. unfold decode_rune. rewrite byte_of_byte by lia.
    destruct (r <? 128) eqn:E; [done|lia]. }
  destruct (in_range 128 2047 r) eqn:E2; [apply in_range_true in E2|apply in_range_false in E2].
  { eexists _, _. split; [reflexivity|]. unfold decode_rune, chr. cbn [String.append].
    rewrite !byte_of_byte by euclid.
    destruct (_ <? 128) eqn:E; [exfalso; apply Z.ltb_lt in E; euclid|]. unfold utf8_first.
    replace (in_range 194 223 (192 + r / 64)) with true by (symmetry; apply in_range_true; euclid).
    replace (in_range 128 191 (128 + r mod 64)) with true by (symmetry; apply in_range_true; euclid).
    rewrite low5, low6. f_equal. euclid. }
  replace (in_range 55296 57343 r) with false by (symmetry; apply in_range_false; lia).
  replace (in_range 0 1114111 r) with true by (symmetry; apply in_range_true; lia). cbn [orb negb].
  destruct (in_range 0 65535 r) eqn:E3; [apply in_range_true in E3|apply in_range_false in E3].
  { eexists _, _. split; [reflexivity|]. unfold decode_rune, chr. cbn [String.append].
    rewrite !byte_of_byte by euclid.
    destruct (_ <? 128) eqn:E; [exfalso; apply Z.ltb_lt in E; euclid|].
    assert (exists lo hi, utf8_first (224 + r / 4096) = Some (3%nat, lo, hi) /\
      lo <= 128 + r / 64 mod 64 <= hi) as (lo & hi & -> & Hb).
    { unfold utf8_first.
      destruct (in_range 194 223 _) eqn:F1; [exfalso; apply in_range_true in F1; euclid|].
      destruct (_ =? 224) eqn:F2; [do 2 eexists; split; [reflexivity|apply Z.eqb_eq in F2; euclid]|].
      apply Z.eqb_neq in F2.
      destruct (_ =? 237) eqn:F3; [do 2 eexists; split; [reflexivity|apply Z.eqb_eq in F3; euclid]|].
      apply Z.eqb_neq in F3.
      destruct (in_range 225 239 _) eqn:F4; [do 2 eexists; split; [reflexivity|euclid]|].
      exfalso. apply in_range_false in F4. euclid. }
    replace (in_range lo hi (128 + r / 64 mod 64)) with true by (symmetry; by apply in_range_true).
    replace (in_range 128 191 (128 + r mod 64)) with true by (symmetry; apply in_range_true; euclid).
    cbn [andb]. rewrite low4, !low6. f_equal. euclid. }
  eexists _, _. split; [reflexivity|]. unfold decode_rune, chr. cbn [String.append].
  rewrite !byte_of_byte by euclid. destruct (_ <? 128) eqn:E; [exfalso; apply Z.ltb_lt in E; euclid|].
  assert (exists lo hi, utf8_first (240 + r / 262144) = Some (4%nat, lo, hi) /\
    lo <= 128 + r / 4096 mod 64 <= hi) as (lo & hi & -> & Hb).
  { unfold utf8_first.
    destruct (in_range 194 223 _) eqn:F1; [exfalso; apply in_range_true in F1; euclid|].
    destruct (_ =? 224) eqn:F2; [exfalso; apply Z.eqb_eq in F2; euclid|].
    destruct (_ =? 237) eqn:F3; [exfalso; apply Z.eqb_eq in F3; euclid|].
    destruct (in_range 225 239 _) eqn:F4; [exfalso; apply in_range_true in F4; euclid|].
    destruct (_ =? 240) eqn:F5; [do 2 eexists; split; [reflexivity|apply Z.eqb_eq in F5; euclid]|].
    apply Z.eqb_neq in F5.
    destruct (in_range 241 243 _) eqn:F6; [do 2 eexists; split; [reflexivity|euclid]|].
    apply in_range_false in F6.
    destruct (_ =? 244) eqn:F7; [do 2 eexists; split; [reflexivity|apply Z.eqb_eq in F7; euclid]|].
    exfalso. apply Z.eqb_neq in F7. euclid. }
  replace (in_range lo hi (128 + r / 4096 mod 64)) with true by (symmetry; by apply in_range_true).
  replace (in_range 128 191 (128 + r / 64 mod 64)) with true by (symmetry; apply in_range_true; euclid).
  replace (in_range 128 191 (128 + r mod 64)) with true by (symmetry; apply in_range_true; euclid).
  cbn [andb]. rewrite low3, !low6. f_equal. euclid.
Qed.

Lemma encode_rune_high r t c u : valid_rune r = true -> 128 <= r ->
  encode_rune r = String c u -> decode_rune c (u +:+ t) = (r, String.length (String c u)) ->
  128 <= byte c.
Proof.
  intros Hv Hr He Hd. unfold decode_rune in Hd.
  destruct (byte c <? 128) eqn:E; [|apply Z.ltb_ge in E; lia].
  apply Z.ltb_lt in E. injection Hd as Hd _. lia.
Qed.

Lemma encode_rune_cons r : exists c u, encode_rune r = String c u.
Proof. unfold encode_rune, chr. case_all; eauto. Qed.

(** ** Strings *)

Lemma text_of_app l k : text_of (l ++ k) = text_of l +:+ text_of k.
Proof. induction l as [|r l IH]; simpl; [done|]. by rewrite IH, append_assoc. Qed.

Lemma well_formed_app s t : well_formed s -> well_formed t -> well_formed (s +:+ t).
Proof.
  intros (l & Hl & ->) (k & Hk & ->). exists (l ++ k).
  by rewrite text_of_app, Forall_app.
Qed.

Lemma well_formed_nil : well_formed EmptyString.
Proof. by exists []. Qed.

(** [AppendRune] writes U+FFFD for what is no rune. *)
Lemma well_formed_rune r : well_formed (encode_rune r).
Proof.
  destruct (valid_rune r) eqn:Hr.
  - exists [r]. split; [by repeat constructor|]. simpl. by rewrite append_nil_r.
  - exists [65533]. split; [by repeat constructor|].
    unfold valid_rune in Hr. unfold encode_rune.
    replace (in_range 55296 57343 r || negb (in_range 0 1114111 r)) with true.
    + unfold in_range in *. repeat case_match; try reflexivity; exfalso; lia.
    + destruct (in_range 0 1114111 r), (in_range 55296 57343 r); done.
Qed.

Lemma take_bytes_app p s : take_bytes (String.length p) (p +:+ s) = p.
Proof. induction p; simpl; congruence. Qed.

(** Ranging over a well-formed string yields its runes with their bytes. *)
Lemma runes_text rs : Forall (fun r => valid_rune r = true) rs ->
  runes (text_of rs) = (fun r => (r, encode_rune r)) <$> rs.
Proof.
  intros Hrs. unfold runes. generalize (Nat.le_refl (String.length (text_of rs))).
  generalize (String.length (text_of rs)) at 2 3. intros n. revert n.
  induction Hrs as [|r rs Hr _ IH]; intros n; simpl; [by destruct n|].
  rewrite length_append. destruct (decode_encode r (text_of rs) Hr) as (c & u & -> & Hd).
  destruct n as [|n]; simpl; [lia|]. intros Hn. rewrite Hd. simpl.
  rewrite take_bytes_app, drop_bytes_app, IH by lia. done.
Qed.

(** Reading what was written for one rune. *)
Lemma parse_string_rune fuel r t : valid_rune r = true ->
  parse_string (S fuel) (quote_rune (r, encode_rune r) +:+ t) =
  ('(u, rest) ← parse_string fuel t; Some (encode_rune r +:+ u, rest)).
Proof.
  intros Hr. destruct (Z.ltb_spec r 128) as [Hlow|Hhigh].
  { assert (0 <= r) by (unfold valid_rune, in_range in Hr; lia).
    rewrite <- (Z2Nat.id r) by done. assert (Z.to_nat r < 128)%nat as Hn by lia.
    revert Hn. generalize (Z.to_nat r). clear. intros n Hn.
    do 128 (destruct n as [|n]; [reflexivity|]). exfalso. lia. }
  unfold quote_rune. destruct (Z.ltb_spec r 128) as [?|_]; [lia|].
  destruct (Z.eqb_spec r 8232) as [->|]; [reflexivity|].
  destruct (Z.eqb_spec r 8233) as [->|]; [reflexivity|].
  destruct (decode_encode r t Hr) as (c & u & He & Hd).
  pose proof (encode_rune_high r t c u Hr Hhigh He Hd) as Hc.
  replace ((r =? RuneError) && (String.length (encode_rune r) =? 1)%nat) with false.
  2: { destruct (Z.eqb_spec r RuneError) as [->|]; reflexivity. }
  cbn [orb]. rewrite He, append_cons. cbn [parse_string].
  destruct (Z.eqb_spec (byte c) 34); [lia|]. destruct (Z.ltb_spec (byte c) 32); [lia|].
  destruct (Z.eqb_spec (byte c) 92); [lia|]. rewrite Hd, He.
  by rewrite <- append_cons, drop_bytes_app.
Qed.

Definition quoted (rs : list Z) : string :=
  fold_right (fun r acc => quote_rune (r, encode_rune r) +:+ acc) EmptyString rs.

Lemma quote_text rs : Forall (fun r => valid_rune r = true) rs ->
  quote (text_of rs) = dqs +:+ quoted rs +:+ dqs.
Proof.
  intros Hrs. unfold quote. rewrite runes_text by done. f_equal.
  f_equal. clear Hrs. induction rs as [|r rs IH]; [done|]. cbn [fmap list_fmap foldr quoted fold_right].
  by rewrite IH.
Qed.

Lemma quote_rune_length r : (1 <= String.length (quote_rune (r, encode_rune r)))%nat.
Proof.
  destruct (encode_rune_cons r) as (c & u & ->). unfold quote_rune, escape_byte, chr.
  repeat case_match; simpl; lia.
Qed.

Lemma quoted_length rs : (length rs <= String.length (quoted rs))%nat.
Proof.
  induction rs as [|r rs IH]; [simpl; lia|]. cbn [quoted foldr length]. rewrite length_append.
  fold (quoted rs). pose proof (quote_rune_length r). lia.
Qed.

Lemma parse_quoted rs rest : Forall (fun r => valid_rune r = true) rs ->
  forall fuel, (length rs < fuel)%nat ->
  parse_string fuel (quoted rs +:+ dqs +:+ rest) = Some (text_of rs, rest).
Proof.
  induction 1 as [|r rs Hr _ IH]; intros [|fuel] Hf; simpl in Hf; try lia; [done|].
  cbn [quoted fold_right]. fold (quoted rs).
  rewrite append_assoc, parse_string_rune, IH by (done || lia). done.
Qed.

(** A quoted string is a quote character and a text that reads back. *)
Lemma parse_quote s rest : well_formed s -> exists t,
  quote s +:+ rest = String (of_byte 34) t /\ parse_string (String.length t) t = Some (s, rest).
Proof.
  intros (rs & Hrs & ->). rewrite quote_text by done.
  exists (quoted rs +:+ dqs +:+ rest). split; [by rewrite !append_assoc|].
  apply parse_quoted; [done|]. rewrite !length_append. pose proof (quoted_length rs). simpl. lia.
Qed.

Lemma parse_escape_well_formed s t r : parse_escape s = Some (t, r) -> well_formed t.
Proof.
  destruct s as [|c s]; [done|]. unfold parse_escape.
  destruct ((byte c =? 34) || (byte c =? 92) || (byte c =? 47)) eqn:E.
  { intros [= <- <-]. exists [byte c]. split.
    - constructor; [|constructor]. unfold valid_rune, in_range. lia.
    - unfold text_of, fold_right, encode_rune, chr, of_byte, byte. unfold byte in E.
      rewrite N2Z.id, ascii_N_embedding.
      replace (in_range 0 127 (Z.of_N (N_of_ascii c))) with true; [done|].
      symmetry. apply in_range_true. lia. }
  do 5 (case_match; [intros [= <- <-]; first
    [apply (well_formed_rune 8)|apply (well_formed_rune 12)|apply (well_formed_rune 10)
    |apply (well_formed_rune 13)|apply (well_formed_rune 9)]|]).
  case_match; [|done]. destruct (parse_hex4 s) as [[r0 s0]|]; simpl; [|done].
  case_match; [destruct (parse_low_surrogate r0 s0)|]; intros [= <- <-]; apply well_formed_rune.
Qed.

Lemma parse_string_well_formed fuel : forall s t r,
  parse_string fuel s = Some (t, r) -> well_formed t.
Proof.
  induction fuel as [|fuel IH]; intros [|c s] t r; simpl; try done.
  case_match; [intros [= <- <-]; apply well_formed_nil|]. case_match; [done|].
  case_match.
  - destruct (parse_escape s) as [[e s']|] eqn:He; simpl; [|done].
    destruct (parse_string fuel s') as [[u s'']|] eqn:Hs; simpl; [|done].
    intros [= <- <-]. apply well_formed_app; eauto using parse_escape_well_formed.
  - destruct (decode_rune c s) as [r0 w].
    destruct (parse_string fuel (drop_bytes w (String c s))) as [[u s'']|] eqn:Hs; simpl; [|done].
    intros [= <- <-]. apply well_formed_app; eauto using well_formed_rune.
Qed.

(** ** Numbers *)

Lemma starts_app p s t : starts p s = true -> starts p (s +:+ t) = true.
Proof. by destruct s. Qed.

Lemma span_digits_again s d r rest :
  span_digits s = (d, r) -> starts is_digit rest = false -> span_digits (d +:+ rest) = (d, rest).
Proof.
  revert d r. induction s as [|c s IH]; intros d r; simpl.
  - intros [= <- <-] Hr. destruct rest as [|x rest]; simpl in *; [done|]. by rewrite Hr.
  - destruct (is_digit c) eqn:Hc.
    + destruct (span_digits s) as [d' r'] eqn:E. intros [= <- <-] Hr. simpl.
      by rewrite Hc, (IH _ _ eq_refl Hr).
    + intros [= <- <-] Hr. destruct rest as [|x rest]; simpl in *; [done|]. by rewrite Hr.
Qed.

Lemma span_digits_starts s d r : span_digits s = (d, r) -> is_empty d = false ->
  starts is_digit d = true.
Proof.
  destruct s as [|c s]; simpl; [by intros [= <- <-]|].
  destruct (is_digit c) eqn:Hc; [|by intros [= <- <-]].
  destruct (span_digits s). by intros [= <- <-].
Qed.

Definition no_digit (s : string) : Prop := starts is_digit s = false.
Definition exp_mark (c : ascii) : bool := Ascii.eqb c "e" || Ascii.eqb c "E".

Lemma parse_int_again s i r rest : parse_int_part s = Some (i, r) -> no_digit rest ->
  parse_int_part (i +:+ rest) = Some (i, rest) /\ starts is_digit i = true.
Proof.
  unfold parse_int_part. destruct s as [|c s]; [done|].
  destruct (Ascii.eqb c "0") eqn:H0; [by intros [= <- <-]|].
  destruct (is_digit c) eqn:Hc; [|done]. intros [= H] Hr.
  pose proof (span_digits_again (String c s) _ _ _ H Hr) as Hs. simpl in H. rewrite Hc in H.
  destruct (span_digits s) as [d r']. injection H as <- <-. simpl in *.
  rewrite H0, Hc in *. by rewrite <- Hs.
Qed.

Lemma parse_frac_again s f r rest : parse_frac s = Some (f, r) ->
  no_digit rest -> starts (fun c => Ascii.eqb c ".") rest = false ->
  parse_frac (f +:+ rest) = Some (f, rest) /\ starts is_digit (f +:+ rest) = false.
Proof.
  intros H Hd Hr.
  assert (parse_frac (EmptyString +:+ rest) = Some (EmptyString, rest)) as Hnone.
  { destruct rest as [|x rest]; [done|]. simpl in *. by rewrite Hr. }
  destruct s as [|c s]; simpl in H; [by injection H as <- <-|].
  destruct (Ascii.eqb_spec c ".") as [->|]; [|by injection H as <- <-].
  destruct (span_digits s) as [d r'] eqn:E. destruct (is_empty d) eqn:Ee; [done|].
  injection H as <- <-. split; [|done]. simpl. by rewrite (span_digits_again _ _ _ _ E Hd), Ee.
Qed.

Lemma parse_exp_again s e r rest : parse_exp s = Some (e, r) ->
  no_digit rest -> starts exp_mark rest = false ->
  parse_exp (e +:+ rest) = Some (e, rest) /\
  (e = EmptyString \/ starts exp_mark (e +:+ rest) = true).
Proof.
  intros H Hd Hr.
  assert (parse_exp (EmptyString +:+ rest) = Some (EmptyString, rest)) as Hnone.
  { destruct rest as [|x rest]; [done|]. simpl in *. unfold exp_mark in Hr. by rewrite Hr. }
  destruct s as [|c s]; simpl in H; [by injection H as <- <-; auto|].
  destruct (Ascii.eqb c "e" || Ascii.eqb c "E") eqn:Hc; [|by injection H as <- <-; auto].
  assert (exists g s2, (match s with
    | String g r => if Ascii.eqb g "+" || Ascii.eqb g "-" then (String g EmptyString, r)
                    else (EmptyString, s)
    | EmptyString => (EmptyString, s) end) = (g, s2) /\
    (g = EmptyString \/ exists x, g = String x EmptyString /\ Ascii.eqb x "+" || Ascii.eqb x "-" = true))
    as (g & s2 & Hg & Hsign).
  { destruct s as [|x s]; [by eauto|]. destruct (Ascii.eqb x "+" || Ascii.eqb x "-") eqn:Hx; eauto 8. }
  rewrite Hg in H. destruct (span_digits s2) as [d r'] eqn:E. destruct (is_empty d) eqn:Ee; [done|].
  injection H as <- <-. split; [|by right; simpl; unfold exp_mark].
  pose proof (span_digits_again _ _ _ _ E Hd) as Hs. pose proof (span_digits_starts _ _ _ E Ee) as Hst.
  simpl. rewrite Hc. destruct Hsign as [->|(x & -> & Hx)]; simpl.
  - pose proof (starts_app _ _ rest Hst) as Hy. destruct (d +:+ rest) as [|y t]; [done|].
    assert (Ascii.eqb y "+" || Ascii.eqb y "-" = false) as ->; [|by rewrite Hs, Ee].
    destruct (Ascii.eqb_spec y "+") as [->|]; [done|].
    by destruct (Ascii.eqb_spec y "-") as [->|].
  - by rewrite Hx, Hs, Ee.
Qed.

Lemma delimiter_starts p rest : delimiter rest ->
  p (of_byte 44) = false -> p (of_byte 93) = false -> p (of_byte 125) = false ->
  p (of_byte 32) = false -> p (of_byte 9) = false -> p (of_byte 10) = false -> p (of_byte 13) = false ->
  starts p rest = false.
Proof.
  destruct rest as [|c rest]; [done|]. cbn [delimiter starts]. unfold is_ws. intros Hc H1 H2 H3 H4 H5 H6 H7.
  assert (c = of_byte (byte c)) as ->.
  { unfold of_byte, byte. by rewrite N2Z.id, ascii_N_embedding. }
  assert (byte c = 44 \/ byte c = 93 \/ byte c = 125 \/ byte c = 32 \/ byte c = 9 \/ byte c = 10 \/ byte c = 13)
    as Hb by lia.
  by destruct Hb as [->|[->|[->|[->|[->|[->| ->]]]]]].
Qed.

Lemma parse_number_literal s n r : parse_number s = Some (n, r) -> literal n.
Proof.
  unfold parse_number at 1. set (head := match s with String c s' => _ | EmptyString => _ end).
  assert (head.1 = EmptyString \/ head.1 = "-"%string) as Hsign.
  { subst head. destruct s as [|c s]; [auto|]. case_match; auto. }
  destruct head as [g s1]. simpl in Hsign.
  destruct (parse_int_part s1) as [[i s2]|] eqn:Hi; simpl; [|done].
  destruct (parse_frac s2) as [[f s3]|] eqn:Hf; simpl; [|done].
  destruct (parse_exp s3) as [[e s4]|] eqn:He; simpl; [|done]. intros [= <- <-].
  assert (forall rest, delimiter rest ->
    parse_int_part ((i +:+ f +:+ e) +:+ rest) = Some (i, f +:+ e +:+ rest) /\
    parse_frac (f +:+ e +:+ rest) = Some (f, e +:+ rest) /\
    parse_exp (e +:+ rest) = Some (e, rest) /\ starts is_digit i = true) as Hall.
  { intros rest Hr.
    assert (no_digit rest) as Hd by by apply delimiter_starts.
    destruct (parse_exp_again _ _ _ rest He Hd) as [He' Hx]; [by apply delimiter_starts|].
    assert (no_digit (e +:+ rest) /\ starts (fun c => Ascii.eqb c ".") (e +:+ rest) = false) as [Hd' Hp].
    { destruct Hx as [->|Hx]; [by split; [|apply delimiter_starts]|].
      destruct (e +:+ rest) as [|x t]; [done|]. unfold no_digit. simpl in *.
      unfold exp_mark in Hx. apply orb_true_iff in Hx as [Hx|Hx];
        by apply Ascii.eqb_eq in Hx as ->. }
    destruct (parse_frac_again _ _ _ _ Hf Hd' Hp) as [Hf' Hd''].
    destruct (parse_int_again _ _ _ _ Hi Hd'') as [Hi' Hst]. by rewrite !append_assoc. }
  destruct (Hall EmptyString I) as (_ & _ & _ & Hst). split.
  - destruct Hsign as [->| ->]; simpl; [|by destruct i].
    destruct i as [|c i]; [done|]. simpl in *. by rewrite Hst.
  - intros rest Hr. destruct (Hall rest Hr) as (H1 & H2 & H3 & _). unfold parse_number.
    assert ((match (g +:+ i +:+ f +:+ e) +:+ rest with
      | String c s' => if Ascii.eqb c "-" then ("-"%string, s') else (EmptyString, (g +:+ i +:+ f +:+ e) +:+ rest)
      | EmptyString => (EmptyString, (g +:+ i +:+ f +:+ e) +:+ rest) end)
      = (g, (i +:+ f +:+ e) +:+ rest)) as ->.
    { destruct Hsign as [->| ->]; [|done]. destruct i as [|c i]; [done|]. simpl in *.
      destruct (Ascii.eqb_spec c "-") as [->|]; done. }
    rewrite H1. simpl. rewrite H2. simpl. by rewrite H3.
Qed.

(** ** What the parser returns *)

Lemma parse_lit_parsed w v s v' r d : parse_lit w v s = Some (v', r) -> parsed d v -> parsed d v'.
Proof. unfold parse_lit. case_match; [|done]. by intros [= <- <-]. Qed.

Lemma parse_parsed fuel :
  (forall d s v r, parse_value fuel d s = Some (v, r) -> parsed d v) /\
  (forall d s kvs r, parse_members fuel d s = Some (kvs, r) ->
     Forall well_formed kvs.*1 /\ Forall (parsed d) kvs.*2) /\
  (forall d s l r, parse_elements fuel d s = Some (l, r) -> Forall (parsed d) l).
Proof.
  induction fuel as [|fuel (IHv & IHm & IHe)]; [done|]. split; [|split].
  - intros d s v r. cbn [parse_value]. destruct (skip_ws s) as [|c s']; [done|].
    case_match; [|case_match].
    + destruct d as [|d]; [done|]. destruct (skip_ws s') as [|e t]; [done|].
      case_match; [intros [= <- <-]; by constructor; [..|constructor]|].
      destruct (parse_members fuel d s') as [[kvs t']|] eqn:E; simpl; [|done]. intros [= <- <-].
      apply IHm in E as [Hk Hv]. by constructor.
    + destruct d as [|d]; [done|]. destruct (skip_ws s') as [|e t]; [done|].
      case_match; [intros [= <- <-]; by constructor|].
      destruct (parse_elements fuel d s') as [[l t']|] eqn:E; simpl; [|done]. intros [= <- <-].
      constructor. eauto.
    + case_match.
      { destruct (parse_string (String.length s') s') as [[u t]|] eqn:E; simpl; [|done].
        intros [= <- <-]. constructor. eauto using parse_string_well_formed. }
      do 3 (case_match; [intros Hl; eapply parse_lit_parsed; [done|constructor]|]).
      destruct (parse_number (String c s')) as [[n t]|] eqn:E; simpl; [|done].
      intros [= <- <-]. constructor. eauto using parse_number_literal.
  - intros d s kvs r. cbn [parse_members]. destruct (skip_ws s) as [|q s']; [done|].
    case_match; [done|].
    destruct (parse_string (String.length s') s') as [[k t]|] eqn:Ek; simpl; [|done].
    apply parse_string_well_formed in Ek. destruct (skip_ws t) as [|colon t']; [done|].
    case_match; [done|]. destruct (parse_value fuel d t') as [[v t2]|] eqn:Ev; simpl; [|done].
    apply IHv in Ev. destruct (skip_ws t2) as [|e t3]; [done|].
    case_match; [intros [= <- <-]; by repeat constructor|]. case_match; [|done].
    destruct (parse_members fuel d t3) as [[kvs' t4]|] eqn:Em; simpl; [|done].
    apply IHm in Em as [Hks Hvs]. intros [= <- <-]. by split; constructor.
  - intros d s l r. cbn [parse_elements].
    destruct (parse_value fuel d s) as [[v t2]|] eqn:Ev; simpl; [|done].
    apply IHv in Ev. destruct (skip_ws t2) as [|e t3]; [done|].
    case_match; [intros [= <- <-]; by repeat constructor|]. case_match; [|done].
    destruct (parse_elements fuel d t3) as [[l' t4]|] eqn:Em; simpl; [|done].
    apply IHe in Em. intros [= <- <-]. by constructor.
Qed.

(** ** What [decodeValue] makes of it *)

Definition set_all : list (string * json) -> Object -> Object :=
  fix members (kvs : list (string * json)) (o : Object) : Object :=
    match kvs with
    | [] => o
    | (k, v) :: kvs => members kvs (Set_ o k (ordered v))
    end.

Lemma Set_Forall (P : string -> Prop) (Q : json -> Prop) o k v :
  P k -> Q v -> Forall P o.*1 -> Forall Q o.*2 ->
  Forall P (Set_ o k v).*1 /\ Forall Q (Set_ o k v).*2.
Proof.
  intros Hk Hv. induction o as [|[k' v'] o IH]; simpl; [by repeat constructor|].
  intros [? Ho]%Forall_cons [? Ho']%Forall_cons. destruct (IH Ho Ho').
  destruct (String.eqb_spec k k'); simpl; split; by constructor.
Qed.

Lemma parsed_ordered v d : parsed d v -> printable d (ordered v).
Proof.
  revert d. induction v as [|b|n|s|l IH|kvs IH] using json_nested_ind;
    intros d H; inversion H; subst; simpl; try by constructor.
  - constructor. apply Forall_fmap. rename select (Forall _ _) into Hl.
    rewrite Forall_forall in *. intros x Hx. by apply IH, Hl.
  - fold set_all. rename select (Forall well_formed _) into Hks.
    rename select (Forall (shaped _ _) _) into Hvs. clear H.
    assert (forall o : Object, NoDup o.*1 -> Forall well_formed o.*1 -> Forall (printable d0) o.*2 ->
      printable (S d0) (JObject (set_all kvs o))) as Hset; [|by apply Hset; constructor].
    induction kvs as [|[k v] kvs IHk]; intros o Ho Hk Hv; simpl; [by constructor|].
    apply Forall_cons in IH as [IHv IH]. apply Forall_cons in Hks as [? Hks].
    apply Forall_cons in Hvs as [? Hvs]. simpl in *.
    destruct (Set_Forall well_formed (printable d0) o k (ordered v)) as [? ?]; auto.
    apply IHk; auto using Set_NoDup.
Qed.

Lemma printable_ordered v d : printable d v -> ordered v = v.
Proof.
  revert d. induction v as [|b|n|s|l IH|kvs IH] using json_nested_ind;
    intros d H; inversion H; subst; simpl; try done.
  - f_equal. rename select (Forall _ _) into Hl.
    assert (ordered <$> l = id <$> l) as ->; [|by rewrite list_fmap_id].
    apply list_fmap_ext. intros i v Hv%list_elem_of_lookup_2.
    rewrite Forall_forall in *. eapply IH; [done|]. by apply Hl.
  - fold set_all. f_equal. rename select (NoDup _) into Hnd.
    rename select (Forall (shaped _ _) _) into Hvs.
    rename select (Forall well_formed _) into Hk. clear H Hk.
    assert (forall o : Object, NoDup (o ++ kvs).*1 -> set_all kvs o = o ++ kvs) as Hset;
      [|by apply (Hset [])].
    clear Hnd. induction kvs as [|[k v] kvs IHk]; intros o Ho; simpl; [by rewrite app_nil_r|].
    apply Forall_cons in IH as [IHv IH]. apply Forall_cons in Hvs as [Hv Hvs]. simpl in *.
    rewrite (IHv _ Hv). rewrite Set_fresh.
    + rewrite IHk; rewrite <- ?app_assoc; done.
    + rewrite fmap_app in Ho. apply NoDup_app in Ho as (_ & Hdis & _).
      intros Hin. apply (Hdis k Hin). simpl. set_solver.
Qed.

(** ** Texts of values

    A text of a value as encoding/json reads it, with any space around the
    commas and colons; every printer of this development writes such texts. *)

Definition spaces (w : string) : Prop := forall s, skip_ws (w +:+ s) = skip_ws s.
Definition string_text (s t : string) : Prop := forall rest, exists u,
  t +:+ rest = String (of_byte 34) u /\ parse_string (String.length u) u = Some (s, rest).
Definition member_text (colon k t : string) : string := k +:+ ":" +:+ colon +:+ t.

Inductive writes : nat -> json -> string -> Prop :=
  | WriteNull d : writes d JNull "null"
  | WriteBool d b : writes d (JBool b) (marshal_bool b)
  | WriteNumber d n : literal n -> writes d (JNumber n) n
  | WriteString d s t : string_text s t -> writes d (JString s) t
  | WriteNoItems d : writes (S d) (JArray []) "[]"
  | WriteArray d l ts w sep w' :
      l <> [] -> spaces w -> spaces sep -> spaces w' -> Forall2 (writes d) l ts ->
      writes (S d) (JArray l) ("[" +:+ w +:+ Join ("," +:+ sep) ts +:+ w' +:+ "]")
  | WriteNoMembers d : writes (S d) (JObject []) "{}"
  | WriteObject d kvs ks ts w sep colon w' :
      kvs <> [] -> spaces w -> spaces sep -> spaces colon -> spaces w' ->
      Forall2 string_text kvs.*1 ks -> Forall2 (writes d) kvs.*2 ts ->
      writes (S d) (JObject kvs)
        ("{" +:+ w +:+ Join ("," +:+ sep) (zip_with (member_text colon) ks ts) +:+ w' +:+ "}").

Definition reads_back (v : json) : Prop := forall d t fuel rest,
  writes d v t -> (String.length t <= fuel)%nat -> delimiter rest ->
  parse_value fuel d (t +:+ rest) = Some (v, rest).

Lemma Join_cons sep (x : string) y l : Join sep (x :: y :: l) = x +:+ sep +:+ Join sep (y :: l).
Proof. done. Qed.

Lemma skip_ws_cons c s : is_ws c = false -> skip_ws (String c s) = String c s.
Proof. simpl. by intros ->. Qed.

Lemma spaces_nil : spaces EmptyString.
Proof. done. Qed.

Lemma string_text_first s t : string_text s t -> exists u, t = String (of_byte 34) u.
Proof.
  intros H. destruct (H EmptyString) as (u & Hu & _). rewrite append_nil_r in Hu. eauto.
Qed.

(** Where a text of a value begins. *)
Lemma writes_first d v t : writes d v t -> exists c u,
  t = String c u /\ is_ws c = false /\ byte c <> 93 /\
  (forall n, v = JNumber n -> is_digit c || Ascii.eqb c "-" = true).
Proof.
  destruct 1 as [|d [|]|d n [Hn _]|d s t Ht| | | |]; try (by do 2 eexists).
  - destruct n as [|c u]; [done|]. simpl in Hn. exists c, u. split_and!; [done| | |by intros ? [= <-]].
    + unfold is_ws. destruct (Ascii.eqb_spec c "-") as [->|]; [done|].
      rewrite orb_false_r in Hn. unfold is_digit in Hn. apply in_range_true in Hn. lia.
    + destruct (Ascii.eqb_spec c "-") as [->|]; [done|].
      rewrite orb_false_r in Hn. unfold is_digit in Hn. apply in_range_true in Hn. lia.
  - destruct (string_text_first _ _ Ht) as (u & ->). by do 2 eexists.
Qed.

Lemma delimiter_spaces w c t : spaces w -> delimiter (String c t) ->
  delimiter (w +:+ String c t).
Proof.
  intros Hw Hc. destruct w as [|x w]; [done|]. cbn [String.append]. right. right. right.
  specialize (Hw (String "x" EmptyString)). rewrite append_cons in Hw. cbn [skip_ws] in Hw.
  destruct (is_ws x); [done|]. exfalso.
  change (is_ws "x") with false in Hw. cbn iota in Hw. destruct w; discriminate.
Qed.

Lemma parse_value_spaces fuel d w s : spaces w -> parse_value fuel d (w +:+ s) = parse_value fuel d s.
Proof. intros Hw. destruct fuel; [done|]. cbn [parse_value]. by rewrite Hw. Qed.
Lemma parse_members_spaces fuel d w s : spaces w -> parse_members fuel d (w +:+ s) = parse_members fuel d s.
Proof. intros Hw. destruct fuel; [done|]. cbn [parse_members]. by rewrite Hw. Qed.

Lemma parse_elements_spaces fuel d w s : spaces w ->
  parse_elements fuel d (w +:+ s) = parse_elements fuel d s.
Proof. intros Hw. destruct fuel; [done|]. cbn [parse_elements]. by rewrite parse_value_spaces. Qed.

Section texts.
Context (d : nat) (sep w' rest : string) (Hsep : spaces sep) (Hw' : spaces w').

Lemma parse_elements_text l : l <> [] -> Forall reads_back l -> forall ts, Forall2 (writes d) l ts ->
  forall fuel, (String.length (Join ("," +:+ sep) ts) < fuel)%nat ->
  parse_elements fuel d (Join ("," +:+ sep) ts +:+ w' +:+ String (of_byte 93) rest) = Some (l, rest).
Proof.
  induction l as [|v l IH]; [done|]. intros _ [Hv Hl]%Forall_cons ts Hts fuel Hf.
  apply Forall2_cons_inv_l in Hts as (t & ts' & Ht & Hts & ->).
  destruct fuel as [|fuel]; [lia|]. cbn [parse_elements]. destruct l as [|v2 l].
  - apply Forall2_nil_inv_l in Hts as ->. cbn [Join] in *.
    rewrite (Hv d t); [|done|lia|by apply delimiter_spaces; [|right; left]].
    cbn [mbind option_bind]. rewrite Hw'. by rewrite skip_ws_cons.
  - pose proof Hts as Hts2. apply Forall2_cons_inv_l in Hts2 as (t2 & ts2 & Ht2 & Hts2 & ->).
    rewrite Join_cons in *. rewrite !append_assoc. rewrite !length_append in Hf. cbn [String.length] in Hf.
    cbn [String.append]. rewrite (Hv d t); [|done|lia|by left].
    cbn [mbind option_bind]. rewrite skip_ws_cons by done. change (byte "," =? 93) with false.
    change (byte "," =? 44) with true. cbn iota.
    rewrite parse_elements_spaces, (IH ltac:(done) Hl (t2 :: ts2)) by (done || lia). done.
Qed.

Lemma parse_members_text colon kvs : spaces colon -> kvs <> [] ->
  Forall (fun kv => reads_back kv.2) kvs ->
  forall ks ts, Forall2 string_text kvs.*1 ks -> Forall2 (writes d) kvs.*2 ts ->
  forall fuel, (String.length (Join ("," +:+ sep) (zip_with (member_text colon) ks ts)) < fuel)%nat ->
  parse_members fuel d
    (Join ("," +:+ sep) (zip_with (member_text colon) ks ts) +:+ w' +:+ String (of_byte 125) rest)
    = Some (kvs, rest).
Proof.
  intros Hcolon. induction kvs as [|[k v] kvs IH]; [done|].
  intros _ [Hv Hl]%Forall_cons ks ts Hks Hts fuel Hf. cbn [fmap list_fmap fst snd] in *.
  apply Forall2_cons_inv_l in Hks as (kt & ks' & Hk & Hks & ->).
  apply Forall2_cons_inv_l in Hts as (t & ts' & Ht & Hts & ->). destruct fuel as [|fuel]; [lia|].
  assert (forall tail, delimiter tail -> (String.length t <= fuel)%nat ->
    parse_members (S fuel) d (member_text colon kt t +:+ tail) =
    match skip_ws tail with
    | String e r =>
        if byte e =? 125 then Some ([(k, v)], r)
        else if byte e =? 44 then
          '(kvs, r) ← parse_members fuel d r; Some ((k, v) :: kvs, r)
        else None
    | EmptyString => None
    end) as Hstep.
  { intros tail Htail Hlen. unfold member_text. rewrite !append_assoc.
    destruct (Hk (":" +:+ colon +:+ t +:+ tail)) as (u & -> & Ek).
    cbn [parse_members]. rewrite skip_ws_cons by done.
    change (negb (byte (of_byte 34) =? 34)) with false. cbn iota. rewrite Ek.
    cbn [mbind option_bind]. cbn [String.append]. rewrite skip_ws_cons by done.
    change (negb (byte ":" =? 58)) with false. cbn iota.
    rewrite parse_value_spaces by done. by rewrite (Hv d t). }
  cbn [zip_with] in *. destruct kvs as [|[k2 v2] kvs]; cbn [fmap list_fmap fst snd] in *.
  - apply Forall2_nil_inv_l in Hks as ->. cbn [zip_with Join] in *.
    rewrite Hstep; [|by apply delimiter_spaces; [|right; right; left]|].
    + rewrite Hw'. by rewrite skip_ws_cons.
    + unfold member_text in Hf. rewrite !length_append in Hf. lia.
  - pose proof Hks as Hks2. apply Forall2_cons_inv_l in Hks2 as (kt2 & ks2 & Hk2 & Hks2 & ->).
    pose proof Hts as Hts2. apply Forall2_cons_inv_l in Hts2 as (t2 & ts2 & Ht2 & Hts2 & ->).
    cbn [zip_with] in *. rewrite Join_cons in *. rewrite !append_assoc.
    rewrite !length_append in Hf. cbn [String.length] in Hf. cbn [String.append].
    rewrite Hstep; [|by left|].
    + rewrite skip_ws_cons by done. change (byte "," =? 125) with false.
      change (byte "," =? 44) with true. cbn iota. rewrite parse_members_spaces by done.
      rewrite (IH ltac:(done) Hl (kt2 :: ks2) (t2 :: ts2)); [done|done|done|]. cbn [zip_with]. lia.
    + unfold member_text in Hf. rewrite !length_append in Hf. lia.
Qed.
End texts.

Lemma parse_lit_app w v rest : parse_lit w v (w +:+ rest) = Some (v, rest).
Proof. unfold parse_lit. by rewrite HasPrefix_app, drop_bytes_app. Qed.

(** An opening bracket is followed by the first item, not by its closing. *)
Lemma Join_first {A} sep (l : list A) ts (P : A -> string -> Prop) :
  Forall2 P l ts -> l <> [] -> exists x t r, P x t /\ Join sep ts = t +:+ r.
Proof.
  destruct 1 as [|x t l ts Hx _]; [done|]. intros _. exists x, t.
  destruct ts; [exists EmptyString; by rewrite append_nil_r|]. by eexists.
Qed.

Lemma items_first d sep l ts : Forall2 (writes d) l ts -> l <> [] ->
  exists c u, Join sep ts = String c u /\ is_ws c = false /\ byte c <> 93.
Proof.
  intros H Hl. destruct (Join_first sep _ _ _ H Hl) as (v & t & r & Ht & ->).
  destruct (writes_first _ _ _ Ht) as (c & u & -> & Hc & H93 & _). by exists c, (u +:+ r).
Qed.

Lemma members_first sep colon ks kts ts : Forall2 string_text ks kts -> ks <> [] ->
  length ts = length ks ->
  exists u, Join sep (zip_with (member_text colon) kts ts) = String (of_byte 34) u.
Proof.
  destruct 1 as [|k kt ks kts Hk _]; [done|]. intros _. destruct ts as [|t ts]; [done|]. intros _.
  destruct (string_text_first _ _ Hk) as (u & ->). cbn [zip_with].
  destruct (zip_with (member_text colon) kts ts); by eexists.
Qed.

Lemma read_back v : reads_back v.
Proof.
  induction v as [|b|n|s|l IH|kvs IH] using json_nested_ind; intros d t fuel rest Ht Hlen Hd;
    (destruct fuel as [|fuel];
      [exfalso; destruct (writes_first _ _ _ Ht) as (c & u & -> & _); simpl in Hlen; lia|]).
  - inversion Ht; subst. apply (parse_lit_app "null").
  - inversion Ht; subst. destruct b; [apply (parse_lit_app "true")|apply (parse_lit_app "false")].
  - destruct (writes_first _ _ _ Ht) as (c & u & Hc & Hws & _ & Hnum). specialize (Hnum n eq_refl).
    inversion Ht as [| |? ? [_ Hn]| | | | |]; subst. specialize (Hn rest Hd).
    rewrite append_cons in *. cbn [parse_value]. rewrite skip_ws_cons by done.
    assert (byte c = 45 \/ 48 <= byte c <= 57) as Hb.
    { destruct (Ascii.eqb_spec c "-") as [->|]; [by left|].
      rewrite orb_false_r in Hnum. right. by apply in_range_true. }
    repeat (case_match; [exfalso; lia|]). by rewrite Hn.
  - inversion Ht as [| | |? ? ? Hs| | | |]; subst. destruct (Hs rest) as (u & -> & Hu).
    cbn [parse_value]. rewrite skip_ws_cons by done. cbn -[parse_string]. by rewrite Hu.
  - inversion Ht as [| | | |?|d' ? ts w sep w' Hne Hw Hsep Hw' Hts| |]; subst; [done|].
    destruct (items_first d' ("," +:+ sep) l ts) as (c & u & Hj & Hc & H93); [done..|].
    rewrite !append_assoc. change ("[" +:+ ?x) with (String "[" x).
    cbn [parse_value]. rewrite skip_ws_cons by done. change (byte "[" =? 123) with false. change (byte "[" =? 91) with true. cbn iota.
    rewrite Hw. rewrite Hj, append_cons, skip_ws_cons by done. rewrite <- append_cons, <- Hj.
    destruct (Z.eqb_spec (byte c) 93); [done|].
    change ("]" +:+ rest) with (String (of_byte 93) rest).
    rewrite parse_elements_spaces, (parse_elements_text d' sep w' rest Hsep Hw' l); try done.
    rewrite !length_append in Hlen. cbn [String.length] in Hlen. lia.
  - inversion Ht as [| | | | | |?|d' ? ks ts w sep colon w' Hne Hw Hsep Hcolon Hw' Hks Hts]; subst; [done|].
    destruct (members_first ("," +:+ sep) colon kvs.*1 ks ts) as (u & Hj);
      [done|by destruct kvs|by rewrite <- (Forall2_length _ _ _ Hts), !length_fmap|].
    rewrite !append_assoc. change ("{" +:+ ?x) with (String "{" x).
    cbn [parse_value]. rewrite skip_ws_cons by done. change (byte "{" =? 123) with true. cbn iota.
    rewrite Hw. rewrite Hj, append_cons, skip_ws_cons by done. rewrite <- append_cons, <- Hj.
    change (byte (of_byte 34) =? 125) with false. cbn iota.
    change ("}" +:+ rest) with (String (of_byte 125) rest).
    rewrite parse_members_spaces, (parse_members_text d' sep w' rest Hsep Hw' colon kvs); try done.
    rewrite !length_append in Hlen. cbn [String.length] in Hlen. lia.
Qed.

(** A text is longer than its value is deep. *)
Lemma Join_elem sep x l : x ∈ l -> (String.length x <= String.length (Join sep l))%nat.
Proof.
  induction l as [|y [|z l] IH]; intros Hx; [set_solver|set_solver by simpl; lia|].
  rewrite Join_cons, !length_append.
  apply elem_of_cons in Hx as [->|Hx]; [lia|]. specialize (IH Hx). lia.
Qed.

Lemma Forall2_elem {A B} (P Q : A -> B -> Prop) l k : Forall2 P l k ->
  (forall x y, x ∈ l -> y ∈ k -> P x y -> Q x y) -> Forall2 Q l k.
Proof.
  induction 1 as [|x y l k Hxy _ IH]; intros HQ; constructor.
  - apply HQ; [left|left|done].
  - apply IH. intros. apply HQ; [by right..|done].
Qed.

Lemma zip_with_elem {A B C} (f : A -> B -> C) l k y : length l = length k -> y ∈ k ->
  exists x, f x y ∈ zip_with f l k.
Proof.
  revert k. induction l as [|x l IH]; intros [|z k] Hl Hy; [set_solver|done..|].
  injection Hl as Hl. cbn [zip_with]. apply elem_of_cons in Hy as [->|Hy]; [exists x; left|].
  destruct (IH k Hl Hy) as (x' & ?). exists x'. by right.
Qed.

Lemma writes_depth v d t d' : writes d v t -> (String.length t <= d')%nat -> writes d' v t.
Proof.
  revert d t d'. induction v as [|b|n|s|l IH|kvs IH] using json_nested_ind;
    intros d t d' Ht Hlen; inversion Ht; subst; try by constructor.
  - destruct d' as [|d']; [simpl in Hlen; lia|constructor].
  - rewrite !length_append in Hlen. cbn [String.length] in Hlen.
    destruct d' as [|d']; [lia|]. constructor; [done..|].
    rename select (Forall2 _ l _) into Hts. eapply Forall2_elem; [exact Hts|].
    intros x t Hx Ht' Hxt. rewrite Forall_forall in IH. apply (IH x Hx d0 t d' Hxt).
    pose proof (Join_elem ("," +:+ sep) t ts Ht'). lia.
  - destruct d' as [|d']; [simpl in Hlen; lia|constructor].
  - rewrite !length_append in Hlen. cbn [String.length] in Hlen.
    destruct d' as [|d']; [lia|]. constructor; [done..|].
    rename select (Forall2 (writes _) _ _) into Hts. eapply Forall2_elem; [exact Hts|].
    intros x t Hx Ht' Hxt. apply list_elem_of_fmap in Hx as (kv & -> & Hkv).
    rewrite Forall_forall in IH. apply (IH kv Hkv d0 t d' Hxt).
    rename select (Forall2 string_text _ _) into Hks.
    destruct (zip_with_elem (member_text colon) ks ts t) as (x & Hx); [|done|].
    { apply Forall2_length in Hts, Hks. by rewrite <- Hts, <- Hks, !length_fmap. }
    pose proof (Join_elem ("," +:+ sep) _ _ Hx) as Hj.
    assert (String.length t <= String.length (member_text colon x t))%nat; [|lia].
    unfold member_text. rewrite !length_append. lia.
Qed.

(** [DecodeOrdered] of a text of a value whose keys occur once. *)
Lemma DecodeOrdered_writes d v t : printable d v -> writes d v t -> DecodeOrdered t = Some v.
Proof.
  intros Hp Ht. unfold DecodeOrdered. rewrite <- (append_nil_r t) at 3.
  rewrite (read_back v) with (t := t);
    [|eapply writes_depth; [done|lia]|unfold parse_fuel; lia|done].
  simpl. by rewrite (printable_ordered v d Hp).
Qed.

(** ** The text that [Encode] writes *)

Definition encode_members : Object -> list string :=
  fix members (o : Object) : list string :=
    match o with
    | [] => []
    | (k, v) :: o => member k (Encode v) :: members o
    end.

Lemma encode_members_zip kvs : encode_members kvs =
  zip_with (member_text EmptyString) (quote <$> kvs.*1) (Encode <$> kvs.*2).
Proof. induction kvs as [|[k v] kvs IH]; [done|]. cbn [encode_members]. fold encode_members. by rewrite IH. Qed.

Lemma quote_string_text s : well_formed s -> string_text s (quote s).
Proof. intros Hs rest. by apply parse_quote. Qed.

Lemma encode_writes v d : printable d v -> writes d v (Encode v).
Proof.
  revert d. induction v as [|b|n|s|l IH|kvs IH] using json_nested_ind;
    intros d Hp; inversion Hp; subst; cbn [Encode]; try by constructor.
  - constructor. by apply quote_string_text.
  - destruct l as [|v l]; [constructor|]. apply (WriteArray d0 _ _ EmptyString EmptyString EmptyString); try done.
    apply Forall2_fmap_r, Forall_Forall2_diag. rename select (Forall (shaped _ _) _) into Hl.
    rewrite Forall_forall in *. intros x Hx. by apply IH, Hl.
  - fold encode_members. destruct kvs as [|kv kvs]; [constructor|]. rewrite encode_members_zip.
    apply (WriteObject d0 _ _ _ EmptyString EmptyString EmptyString EmptyString); try done.
    + apply Forall2_fmap_r, Forall_Forall2_diag. rename select (Forall well_formed _) into Hk.
      eapply Forall_impl; [done|]. intros. by apply quote_string_text.
    + apply Forall2_fmap_r, Forall_Forall2_diag. rename select (Forall (shaped _ _) _) into Hl.
      rewrite Forall_fmap in *. rewrite Forall_forall in *. intros x Hx. by apply IH, Hl.
Qed.

(** What was read is printable. *)
Lemma decoded_printable data v : DecodeOrdered data = Some v -> exists d, printable d v.
Proof.
  unfold DecodeOrdered. destruct (parse_value _ _ data) as [[w rest]|] eqn:E; simpl; [|done].
  case_match; [|done]. intros [= <-]. apply parse_parsed in E. eauto using parsed_ordered.
Qed.

(** C36: what [DecodeOrdered] read is what it reads again from the
    text that [Encode] writes for it: a contract that is stored, published or
    rewritten keeps its members, their order, its numbers to the letter and
    its strings, whatever escapes, invalid UTF-8, spaces or duplicate keys
    the text it came from had. *)
Theorem decode_encode_ordered data v :
  DecodeOrdered data = Some v -> DecodeOrdered (Encode v) = Some v.
Proof.
  intros [d Hd]%decoded_printable. eapply DecodeOrdered_writes, encode_writes; exact Hd.
Qed.

(** A text with spaces, escapes, a surrogate pair, a duplicate key and numbers
    in every notation. *)
Definition sample_text : string :=
  text "{ 'k' : [1, -0.50e+3, true, null], 'n': {}, 'k': 'a\u00e9\ud83d\ude00\n<' }".

Lemma decode_encode_ordered_witness : exists v,
  DecodeOrdered sample_text = Some v /\ DecodeOrdered (Encode v) = Some v.
Proof.
  eexists. assert (forall o, DecodeOrdered sample_text = Some o ->
    DecodeOrdered sample_text = Some o /\ DecodeOrdered (Encode o) = Some o) as Hboth.
  { intros o Ho. split; [done|]. by apply (decode_encode_ordered sample_text). }
  apply Hboth. vm_compute. reflexivity.
Defined.
