(* ===== verification/Balance.v ===== *)
(** * Choosing an instance: internal/router/balance.go

    [selectInstance] filters the instances of a pool (asking every breaker, so
    it updates their health) and applies the method's policy.  [canonicalJSON]
    prints a sticky key, and [rendezvous] hashes it with every instance id. *)
From S2P Require Import Prelude GoStd Json Protocol Breaker Libs Auth State.
#[local] Open Scope Z_scope.

(** [pool.rebuildMethods], from the peers that are left. *)
Definition rebuildMethods (ps : nat -> peer) (po : pool) : pool :=
  po {{ po_methods :=
    fold_left (fun ms inst =>
      fold_left (fun ms s =>
        fold_left (fun ms m => <[m_name m := m]> ms) (methods_of s) ms)
        (p_services (ps inst)) ms)
      (po_instances po) ∅ }}.

Definition unavailable_instances (f : frame) : frame :=
  routerError (f_callID f) "unavailable" ("No instances registered for " +:+ f_service f)
    true "no_instances" "".
(** [fail] of selectInstance, for the codes other than "unavailable". *)
Definition select_fail (f : frame) (code message : string) : frame :=
  routerError (f_callID f) code message false "" "".

Definition targetInstance (f : frame) (r : Router) : nat + frame :=
  let id := f_instanceID f in
  let err code message retryable reason :=
    inr (routerError (f_callID f) code message retryable reason id) in
  match r_instances r !! id with
  | None =>
      err "unavailable" ("Instance " +:+ id +:+ " is not registered for " +:+ f_service f)
        false "instance_unknown"
  | Some target =>
      let x := peerOf r target in
      if negb (ContainsFunc (p_services x) (fun s => String.eqb (s_name s) (f_service f)))
      then err "unavailable" ("Instance " +:+ id +:+ " is not registered for " +:+ f_service f)
             false "instance_unknown"
      else if negb (serves x (f_service f) (f_method f))
      then err "method_not_found" ("Instance " +:+ id +:+ " does not serve " +:+ f_service f
             +:+ "." +:+ f_method f) false EmptyString
      else if p_draining x
      then err "unavailable" ("Instance " +:+ id +:+ " is draining") true "instance_draining"
      else if (0 <? p_maxInflight x) && (p_maxInflight x <=? p_inflight x)
      then err "resource_exhausted" ("Instance " +:+ id +:+ " is at its max_inflight")
             true "overloaded"
      else inl target
  end.

(** ** Eligibility *)

(** [c.maxInflight > 0 && c.inflight >= c.maxInflight]. *)
Definition at_cap (x : peer) : bool :=
  (0 <? p_maxInflight x) && (p_maxInflight x <=? p_inflight x).

(** [c.health.admit(now)], which may mark the breaker's probe. *)
Definition admit_peer (c : nat) (now : Z) (r : Router) : bool * Router :=
  let '(ok, h) := health_admit (p_health (peerOf r c)) now in
  (ok, upd_peer c (fun x => x {{ p_health := h }}) r).

(** The loop over the serving instances; [several] is [len(serving) > 1]. *)
Fixpoint eligibility (avoid : option nat) (several : bool) (now : Z) (serving : list nat)
    (r : Router) : list nat * Z * Z * Router :=
  match serving with
  | [] => ([], 0, 0, r)
  | c :: serving =>
      if bool_decide (avoid = Some c) && several
      then eligibility avoid several now serving r
      else if at_cap (peerOf r c) then
        let '(eligible, full, tripped, r) := eligibility avoid several now serving r in
        (eligible, full + 1, tripped, r)
      else
        let '(ok, r) := admit_peer c now r in
        let '(eligible, full, tripped, r) := eligibility avoid several now serving r in
        if (ok : bool) then (c :: eligible, full, tripped, r)
        else (eligible, full, tripped + 1, r)
  end.

(** ** Policies *)

Definition least_inflight (ps : nat -> peer) (best : nat) (rest : list nat) : nat :=
  fold_left (fun best c => if p_inflight (ps c) <? p_inflight (ps best) then c else best)
    rest best.

(** [binary.BigEndian.Uint64(digest[:8])]. *)
Fixpoint big_endian (n : nat) (acc : Z) (s : string) : Z :=
  match n, s with
  | S n, String c s => big_endian n (acc * 256 + byte c) s
  | _, _ => acc
  end.

Section policies.
Context `{Crypto, Floats}.

Definition score (id key : string) : Z :=
  big_endian 8 0 (sha256_Sum256 (id +:+ nuls +:+ key)).

(** The first candidate with the highest score. *)
Definition rendezvous_from (name : nat -> string) (key : string)
    (best : option (nat * Z)) (instances : list nat) : option (nat * Z) :=
  fold_left (fun best c =>
    let s := score (name c) key in
    match best with
    | Some (_, bestScore) => if bestScore <? s then Some (c, s) else best
    | None => Some (c, s)
    end) instances best.
Definition rendezvous (name : nat -> string) (instances : list nat) (key : string)
    : option nat :=
  fst <$> rendezvous_from name key None instances.

(** ** canonicalJSON *)

Definition canonical_rune (c : Z) : string :=
  if (c =? 34) || (c =? 92) then chr 92 +:+ chr c
  else if c =? 8 then chr 92 +:+ "b"
  else if c =? 12 then chr 92 +:+ "f"
  else if c =? 10 then chr 92 +:+ "n"
  else if c =? 13 then chr 92 +:+ "r"
  else if c =? 9 then chr 92 +:+ "t"
  else if (c <? 32) || (126 <? c) then
    if 65535 <? c then
      let '(a, b) := utf16_encode c in
      chr 92 +:+ "u" +:+ hex4 a +:+ chr 92 +:+ "u" +:+ hex4 b
    else chr 92 +:+ "u" +:+ hex4 c
  else chr c.
Definition canonical_string (s : string) : string :=
  dqs +:+ fold_right (fun rb acc => canonical_rune rb.1 +:+ acc) EmptyString (runes s) +:+ dqs.

Definition canonical_number (n : string) : option string :=
  if negb (ContainsAny n ".eE")
  then Some (if String.eqb n "-0" then "0" else n)
  else match parseFloat n with
  | None => None
  | Some x =>
      let format := if needs_exponent x then "e"%char else "f"%char in
      let text := formatFloat format x in
      Some (if negb (needs_exponent x) && negb (ContainsByte text ".") then text +:+ ".0" else text)
  end.

(** The sorted keys of a decoded object, each once. *)
Definition object_keys {A} (kvs : list (string * A)) : list string :=
  Sort (remove_dups (fst <$> kvs)).

(** The text of the members, given the text of every value. *)
Definition canonical_members (texts : list (string * option string)) : option string :=
  members ← mapM (fun k => text ← mjoin (lookup_last k texts);
                           Some (canonical_string k +:+ ":" +:+ text))
              (object_keys texts);
  Some ("{" +:+ Join "," members +:+ "}").

Fixpoint canonicalJSON (v : json) : option string :=
  match v with
  | JNull => Some "null"
  | JBool b => Some (if b then "true" else "false")
  | JString s => Some (canonical_string s)
  | JNumber n => canonical_number n
  | JArray items =>
      texts ← mapM canonicalJSON items;
      Some ("[" +:+ Join "," texts +:+ "]")
  | JObject kvs =>
      canonical_members ((fix members (kvs : list (string * json)) :=
        match kvs with
        | [] => []
        | (k, v) :: kvs => (k, canonicalJSON v) :: members kvs
        end) kvs)
  end.

(** The value a sticky key's path leads to; [None]: the key is missing. *)
Fixpoint descend (path : list string) (v : json) : option json :=
  match path with
  | [] => Some v
  | part :: path =>
      match v with
      | JObject kvs => v ← lookup_last part kvs; descend path v
      | _ => None
      end
  end.

(** [Split(key, ".")[1:]]: the path behind "request". *)
Definition sticky_path (b : balance) : list string :=
  tail (Split "." (default EmptyString (b_key b))).

Definition sticky_key (b : balance) (payload : option string) : string + string :=
  match decode_next (default EmptyString payload) with
  | None => inl "Invalid sticky request"%string
  | Some (value, _) =>
      match descend (sticky_path b) value with
      | None => inl "Sticky key is missing"%string
      | Some v =>
          match canonicalJSON v with
          | None => inl "Invalid sticky key"%string
          | Some text => inr text
          end
      end
  end.

(** The cursor of a method moves by one over the candidates. *)
Definition round_robin (f : frame) (po : pool) (instances : list nat) (r : Router)
    : Router * option nat :=
  let n := Z.of_nat (length instances) in
  let cursor := Z.rem (default 0 (po_cursors po !! f_method f)) n in
  let po := po {{ po_cursors ::= insert (f_method f) (Z.rem (cursor + 1) n) }} in
  (r {{ r_services ::= insert (f_service f) po }}, instances !! Z.to_nat cursor).

(** The [switch] over the balance policy; [instances] is not empty. *)
Definition choose (b : balance) (f : frame) (e : Env) (po : pool) (instances : list nat)
    (r : Router) : Router * (nat + frame) :=
  let kind := b_kind b in
  let pick (c : option nat) : nat + frame :=
    match c with Some c => inl c | None => inr (unavailable_instances f) end in
  if String.eqb kind "round_robin" then
    let '(r, c) := round_robin f po instances r in (r, pick c)
  else if String.eqb kind "least_inflight" then
    (r, pick (match instances with
              | best :: rest => Some (least_inflight (r_pstore r) best rest)
              | [] => None
              end))
  else if String.eqb kind "random" then
    (r, pick (instances !! e_intN e (length instances)))
  else if String.eqb kind "sticky" then
    match sticky_key b (f_payload f) with
    | inl message => (r, inr (select_fail f "invalid_argument" message))
    | inr key => (r, pick (rendezvous (fun c => p_instanceID (peerOf r c)) instances key))
    end
  else match instances with
  | [c] => (r, inl c)
  | _ => (r, inr (routerError (f_callID f) "unavailable"
               ("Balance is disabled for " +:+ f_service f +:+ "." +:+ f_method f
                +:+ " and several instances are registered") true "balance_disabled" ""))
  end.

Definition no_eligible (f : frame) (full tripped : Z) : frame :=
  if 0 <? full then routerError (f_callID f) "resource_exhausted"
    ("Every instance of " +:+ f_service f +:+ " is at its max_inflight") true "overloaded" ""
  else if 0 <? tripped then routerError (f_callID f) "unavailable"
    ("Every instance of " +:+ f_service f +:+ " has an open circuit") true "circuit_open" ""
  else unavailable_instances f.

(** The instances of the pool that registered the call's method. *)
Definition serving_instances (r : Router) (po : pool) (f : frame) : list nat :=
  filter (fun c => serves (peerOf r c) (f_service f) (f_method f) = true) (po_instances po).

(** The eligible instances of a pool, and the breakers' new states. *)
Definition eligible_instances (r : Router) (po : pool) (f : frame) (avoid : option nat) (now : Z)
    : list nat * Z * Z * Router :=
  let serving := serving_instances r po f in
  eligibility avoid (1 <? length serving)%nat now serving r.

Definition selectInstance (f : frame) (avoid : option nat) (e : Env) (r : Router)
    : Router * (nat + frame) :=
  match r_services r !! f_service f with
  | None => (r, inr (unavailable_instances f))
  | Some po =>
      if (length (po_instances po) =? 0)%nat && is_empty (f_instanceID f)
      then (r, inr (unavailable_instances f))
      else match po_methods po !! f_method f with
      | None =>
          (r, inr (select_fail f "method_not_found"
                     ("Unknown method " +:+ f_service f +:+ "." +:+ f_method f)))
      | Some selected =>
          if negb (is_empty (f_instanceID f)) then (r, targetInstance f r)
          else if po_targeted po then
            (r, inr (routerError (f_callID f) "invalid_argument"
               (f_service f +:+ " is a targeted service: call.open needs instance_id")
               false "instance_required" ""))
          else
            let '(eligible, full, tripped, r) := eligible_instances r po f avoid (e_now e) in
            match eligible with
            | [] => (r, inr (no_eligible f full tripped))
            | _ =>
                let instances :=
                  if (length eligible =? length (po_instances po))%nat
                  then po_instances po else eligible in
                choose (m_balance selected) f e po instances r
            end
      end
  end.
End policies.

(** ** Eligibility lemmas *)

Lemma at_cap_quiet r r' c : quiet r r' -> at_cap (peerOf r' c) = at_cap (peerOf r c).
Proof.
  intros H. unfold at_cap.
  by rewrite (quiet_peer_field p_maxInflight r r'), (quiet_peer_field p_inflight r r').
Qed.

Lemma serves_quiet r r' c s m : quiet r r' -> serves (peerOf r' c) s m = serves (peerOf r c) s m.
Proof. intros H. by apply (quiet_peer_field (fun x => serves x s m)). Qed.

Lemma admit_peer_quiet c now r ok r' : admit_peer c now r = (ok, r') -> quiet r r'.
Proof.
  unfold admit_peer. destruct (health_admit _ _) as [b h]. intros. simplify_eq. by apply upd_peer_quiet.
Qed.

Lemma eligibility_spec avoid several now serving r eligible full tripped r' :
  eligibility avoid several now serving r = (eligible, full, tripped, r') ->
  quiet r r' /\ eligible `sublist_of` serving /\ 0 <= full /\ 0 <= tripped /\
  (forall c, c ∈ eligible -> at_cap (peerOf r c) = false /\ (avoid = Some c -> several = false)) /\
  (full = 0 -> tripped = 0 -> forall c, c ∈ serving -> ~ (avoid = Some c /\ several = true) -> c ∈ eligible).
Proof.
  revert r eligible full tripped r'.
  induction serving as [|c serving IH]; intros r el fu tr r' H; cbn [eligibility] in H.
  { simplify_eq. split_and!; try done; set_solver. }
  destruct (bool_decide (avoid = Some c) && several) eqn:Ea.
  { apply andb_true_iff in Ea as [Ea ->]. apply bool_decide_eq_true_1 in Ea.
    destruct (IH _ _ _ _ _ H) as (H1 & H2 & H3 & H4 & H5 & H6). split_and!; try done.
    - by apply sublist_cons.
    - intros Hf Ht c' [->|Hc]%elem_of_cons Hn; [tauto|]. by apply H6. }
  destruct (at_cap (peerOf r c)) eqn:Ec.
  { destruct (eligibility _ _ _ serving r) as [[[el1 fu1] tr1] r1] eqn:E. simplify_eq.
    destruct (IH _ _ _ _ _ E) as (H1 & H2 & H3 & H4 & H5 & H6). split_and!; try done; try lia.
    by apply sublist_cons. }
  destruct (admit_peer c now r) as [ok r1] eqn:Ead. pose proof (admit_peer_quiet _ _ _ _ _ Ead) as Hq.
  destruct (eligibility _ _ _ serving r1) as [[[el1 fu1] tr1] r2] eqn:E.
  destruct (IH _ _ _ _ _ E) as (H1 & H2 & H3 & H4 & H5 & H6).
  assert (forall c', c' ∈ el1 -> at_cap (peerOf r c') = false /\ (avoid = Some c' -> several = false)) as H5'.
  { intros c' Hc'. rewrite <- (at_cap_quiet r r1) by done. auto. }
  destruct ok; simplify_eq; split_and!; try (by etrans); try done; try lia.
  - by apply sublist_skip.
  - intros c' [->|Hc']%elem_of_cons; [|auto]. split; [done|]. intros ->.
    by rewrite bool_decide_true in Ea.
  - intros Hf Ht c' [->|Hc]%elem_of_cons Hn; [set_solver|]. apply elem_of_cons. right. auto.
  - by apply sublist_cons.
Qed.

(** ** Policies *)

Lemma least_inflight_in ps best rest : least_inflight ps best rest ∈ best :: rest.
Proof.
  revert best. induction rest as [|c rest IH]; intros best; cbn [least_inflight fold_left]; [set_solver|].
  specialize (IH (if p_inflight (ps c) <? p_inflight (ps best) then c else best)).
  unfold least_inflight in IH. case_match; set_solver.
Qed.

Section policy_lemmas.
Context `{Crypto, Floats}.

Lemma rendezvous_from_spec name key l best :
  match rendezvous_from name key best l with
  | None => best = None /\ l = []
  | Some (w, s) =>
      (best = Some (w, s) \/ (w ∈ l /\ s = score (name w) key)) /\
      (forall c, c ∈ l -> score (name c) key <= s) /\
      (forall b sb, best = Some (b, sb) -> sb <= s)
  end.
Proof.
  revert best. induction l as [|c l IH]; intros best; cbn [rendezvous_from fold_left].
  { destruct best as [[b sb]|]; [|done]. split_and!; [by left|set_solver|]. intros. simplify_eq. lia. }
  set (best' := match best with Some _ => _ | None => _ end).
  specialize (IH best'). unfold rendezvous_from in IH.
  destruct (fold_left _ l best') as [[w s]|] eqn:E.
  - destruct IH as (H1 & H2 & H3). unfold best' in *.
    destruct best as [[b sb]|].
    + destruct (sb <? score (name c) key) eqn:El; unbool.
      * pose proof (H3 _ _ eq_refl). split_and!.
        -- right. destruct H1 as [?|[? ->]]; simplify_eq; set_solver.
        -- intros c' [->|?]%elem_of_cons; auto.
        -- intros. simplify_eq. lia.
      * pose proof (H3 _ _ eq_refl). split_and!.
        -- destruct H1 as [?|[? ->]]; [by left|right; set_solver].
        -- intros c' [->|?]%elem_of_cons; [lia|auto].
        -- intros. simplify_eq. lia.
    + pose proof (H3 _ _ eq_refl). split_and!.
      * right. destruct H1 as [?|[? ->]]; simplify_eq; set_solver.
      * intros c' [->|?]%elem_of_cons; auto.
      * done.
  - destruct IH as [IH ->]. unfold best' in IH. destruct best as [[b sb]|]; [|done]. by case_match.
Qed.

Lemma rendezvous_in name l key w : rendezvous name l key = Some w -> w ∈ l.
Proof.
  unfold rendezvous. pose proof (rendezvous_from_spec name key l None) as Hs.
  destruct (rendezvous_from _ _ _ _) as [[w' s]|]; simpl; [|done]. intros. simplify_eq.
  destruct Hs as ([?|[? ?]] & _); by simplify_eq.
Qed.

(** The fold with one candidate less, unless it is the winner. *)
Lemma rendezvous_from_skip name key l x best w s :
  rendezvous_from name key best (x :: l) = Some (w, s) -> w <> x ->
  rendezvous_from name key best l = Some (w, s).
Proof.
  intros Hr Hne. cbn [rendezvous_from fold_left] in *.
  assert (forall l b1 b2 w s, fold_left (fun best c =>
      match best with
      | Some (_, bestScore) => if bestScore <? score (name c) key then Some (c, score (name c) key) else best
      | None => Some (c, score (name c) key)
      end) l (Some (x, b1)) = Some (w, s) -> w <> x ->
      (forall b sb, b2 = Some (b, sb) -> sb <= b1) ->
      fold_left (fun best c =>
      match best with
      | Some (_, bestScore) => if bestScore <? score (name c) key then Some (c, score (name c) key) else best
      | None => Some (c, score (name c) key)
      end) l b2 = Some (w, s)) as Hgen.
  { clear. induction l as [|c l IH]; intros b1 b2 w s Hf Hne Hle; cbn [fold_left] in *; [congruence|].
    destruct (b1 <? score (name c) key) eqn:E; unbool.
    - destruct b2 as [[b sb]|]; [|done]. specialize (Hle _ _ eq_refl).
      destruct (sb <? score (name c) key) eqn:E2; unbool; [done|lia].
    - apply (IH b1); [done|done|]. intros b sb. destruct b2 as [[b' sb']|].
      + destruct (sb' <? score (name c) key); intros; simplify_eq; [done|by eapply Hle].
      + intros. simplify_eq. done. }
  destruct best as [[b sb]|].
  - destruct (sb <? score (name x) key) eqn:E; unbool; [|done].
    eapply Hgen; [done|done|]. intros. simplify_eq. lia.
  - eapply Hgen; [done|done|done].
Qed.
End policy_lemmas.

(** ** The selection *)

(** Quiet but for the cursors of the pools. *)
Definition po_core (po : pool) : pool := po {{ po_cursors := ∅ }}.
Definition selection_frame (r r' : Router) : Prop :=
  exists r1 ss, quiet r r1 /\ r' = r1 {{ r_services := ss }} /\
    po_core <$> ss = po_core <$> r_services r1.

Lemma selection_frame_quiet r r' : quiet r r' -> selection_frame r r'.
Proof. intros H. exists r', (r_services r'). split_and!; [done|by destruct r'|done]. Qed.

Lemma selection_frame_field {B} (g : Router -> B) r r' :
  (forall x ps m ss, g (x {{ r_pstore := ps; r_metrics := m; r_services := ss }}) = g x) ->
  selection_frame r r' -> g r' = g r.
Proof.
  intros Hg (r1 & ss & [Hq _] & -> & _). rewrite Hq.
  rewrite <- (Hg r (r_pstore r1) (r_metrics r1) ss). done.
Qed.

Lemma selection_frame_peer {B} (g : peer -> B) r r' q :
  (forall x, g (core x) = g x) -> selection_frame r r' -> g (peerOf r' q) = g (peerOf r q).
Proof.
  intros Hg (r1 & ss & Hq & -> & _). change (g (peerOf r1 q) = g (peerOf r q)).
  by apply quiet_peer_field.
Qed.

Lemma selection_frame_pools r r' : selection_frame r r' ->
  po_core <$> r_services r' = po_core <$> r_services r.
Proof.
  intros (r1 & ss & Hq & -> & Hss). simpl. rewrite Hss. by rewrite (quiet_field r_services r r1).
Qed.

Section select_lemmas.
Context `{Crypto, Floats}.

Lemma choose_spec b f e po instances r r' res :
  env_ok e -> instances <> [] -> r_services r !! f_service f = Some po ->
  choose b f e po instances r = (r', res) ->
  selection_frame r r' /\ (forall c, res = inl c -> c ∈ instances).
Proof.
  intros He Hne Hpo Hc. unfold choose in Hc.
  assert (forall (o : option nat) c, (match o with Some c => inl c | None => inr (unavailable_instances f) end)
    = (inl c : nat + frame) -> o = Some c) as Hpick by (intros [] ? ?; by simplify_eq).
  assert (selection_frame r r) as Hr by by apply selection_frame_quiet.
  destruct (String.eqb _ "round_robin").
  { unfold round_robin in Hc. simplify_eq. split.
    - exists r, (<[f_service f := po {{ po_cursors ::= insert (f_method f)
        (Z.rem (Z.rem (default 0 (po_cursors po !! f_method f)) (Z.of_nat (length instances)) + 1)
           (Z.of_nat (length instances))) }}]> (r_services r)).
      split_and!; [done|done|]. rewrite fmap_insert.
      apply insert_id. rewrite lookup_fmap, Hpo. done.
    - intros c Hres%Hpick. by eapply list_elem_of_lookup_2. }
  destruct (String.eqb _ "least_inflight").
  { simplify_eq. split; [done|]. intros c Hres%Hpick. destruct instances as [|best rest]; [done|].
    simplify_eq. apply least_inflight_in. }
  destruct (String.eqb _ "random").
  { simplify_eq. split; [done|]. intros c Hres%Hpick. by eapply list_elem_of_lookup_2. }
  destruct (String.eqb _ "sticky").
  { destruct (sticky_key _ _) as [msg|key]; simplify_eq; (split; [done|]); [done|].
    intros c Hres%Hpick. by eapply rendezvous_in. }
  split; [destruct instances as [|? []]; by simplify_eq|].
  intros c ->. destruct instances as [|c0 []]; simplify_eq; set_solver.
Qed.

(** What a selected instance promises. *)
Record selected (f : frame) (avoid : option nat) (r : Router) (c : nat) : Prop := {
  sl_cap : at_cap (peerOf r c) = false;
  sl_serves : serves (peerOf r c) (f_service f) (f_method f) = true;
  sl_where :
    (f_instanceID f = EmptyString /\ exists po, r_services r !! f_service f = Some po /\
       c ∈ po_instances po /\ is_Some (po_methods po !! f_method f) /\
       (avoid = Some c -> serving_instances r po f = [c])) \/
    (f_instanceID f <> EmptyString /\ r_instances r !! f_instanceID f = Some c /\
       p_draining (peerOf r c) = false) }.

Lemma targetInstance_spec f r c : targetInstance f r = inl c ->
  r_instances r !! f_instanceID f = Some c /\ p_draining (peerOf r c) = false /\
  serves (peerOf r c) (f_service f) (f_method f) = true /\ at_cap (peerOf r c) = false.
Proof.
  unfold targetInstance, at_cap. destruct (r_instances r !! f_instanceID f) as [t|]; [|done].
  destruct (negb (ContainsFunc _ _)); [done|].
  destruct (serves (peerOf r t) _ _) eqn:E1; [|done]. simpl.
  destruct (p_draining _) eqn:E2; [done|].
  destruct (_ && _) eqn:E3; [done|]. intros. by simplify_eq.
Qed.

Lemma selectInstance_spec f avoid e r r' res : env_ok e ->
  selectInstance f avoid e r = (r', res) ->
  selection_frame r r' /\ (forall c, res = inl c -> selected f avoid r c).
Proof.
  intros He. assert (selection_frame r r) as Hr by by apply selection_frame_quiet.
  unfold selectInstance. destruct (r_services r !! f_service f) as [po|] eqn:Hpo;
    [|intros; by simplify_eq].
  destruct (_ && _); [intros; by simplify_eq|].
  destruct (po_methods po !! f_method f) as [m|] eqn:Hm; [|intros; by simplify_eq].
  destruct (is_empty (f_instanceID f)) eqn:Hid; simpl.
  2: { intros. simplify_eq. split; [done|]. intros c Hc.
       destruct (targetInstance_spec _ _ _ Hc) as (H1 & H2 & H3 & H4).
       split; [done|done|]. right. unfold is_empty in Hid. unbool. done. }
  unfold is_empty in Hid. unbool.
  destruct (po_targeted po); [intros; by simplify_eq|].
  unfold eligible_instances.
  destruct (eligibility _ _ _ _ r) as [[[el fu] tr] r1] eqn:E.
  destruct (eligibility_spec _ _ _ _ _ _ _ _ _ E) as (Hq & Hsub & _ & _ & Hel & _).
  assert (forall c, c ∈ el -> selected f avoid r c) as Hsel.
  { intros c Hc. destruct (Hel c Hc) as [Hcap Hav].
    assert (c ∈ serving_instances r po f) as Hin by (eapply elem_of_submseteq; [done|by apply sublist_submseteq]).
    unfold serving_instances in Hin. apply list_elem_of_filter in Hin as [Hs Hin].
    split; [done|done|]. left. split; [done|]. exists po. split_and!; [done|done|by rewrite Hm|].
    intros Ha. apply Hav, Nat.ltb_ge in Ha.
    assert (c ∈ serving_instances r po f) as Hin' by by apply list_elem_of_filter.
    destruct (serving_instances r po f) as [|c1 [|c2 l]]; [set_solver| |simpl in *; lia].
    by apply list_elem_of_singleton in Hin' as ->. }
  destruct el as [|c0 el]; intros Hc; [simplify_eq; split; [by apply selection_frame_quiet|done]|].
  set (instances := if (_ =? _)%nat then po_instances po else c0 :: el) in Hc.
  assert (forall c : nat, c ∈ instances -> c ∈ c0 :: el) as Hin.
  { intros c. unfold instances. case_match eqn:El; [|done]. apply Nat.eqb_eq in El.
    assert (c0 :: el `sublist_of` po_instances po) as Hsub'.
    { etrans; [done|]. apply sublist_filter. }
    assert (c0 :: el ≡ₚ po_instances po) as ->; [|done].
    apply submseteq_length_Permutation; [by apply sublist_submseteq|]. rewrite El. done. }
  assert (r_services r1 !! f_service f = Some po) as Hpo1.
  { by rewrite (quiet_field r_services r r1). }
  assert (instances <> []) as Hne.
  { unfold instances. case_match eqn:El; [|done]. apply Nat.eqb_eq in El. by destruct (po_instances po). }
  destruct (choose_spec _ _ _ _ _ _ _ _ He Hne Hpo1 Hc) as [Hfr Hres]. split.
  - destruct Hfr as (r2 & ss & Hq2 & -> & Hss). exists r2, ss. split_and!; [by etrans|done|done].
  - intros c ->. apply Hsel, Hin. by apply Hres.
Qed.
End select_lemmas.
