(* ===== verification/Management.v ===== *)
(** * The Router's own services: internal/router/management.go

    AuthService ([issue], whoami, revocation) and the Registry.  Both answer a
    call at once with one frame; [management] is the handler of a call.open on
    a reserved service name. *)
From S2P Require Import Prelude GoStd Json Protocol Breaker Libs Auth State Contract.
#[local] Open Scope Z_scope.

Definition AuthService : string := "meshcall.router.v1.AuthService".
Definition RegistryService : string := "meshcall.router.v1.Registry".
Definition reservedPrefix : string := "meshcall.router.".

(** ** Tokens *)

Record Scope := MkScope {
  sc_service : string; sc_methods : option (list string); sc_register : bool }.
#[global] Instance Scope_eta : Eta Scope :=
  fun x => MkScope (sc_service x) (sc_methods x) (sc_register x).
Record IssueTokenRequest := MkIssueRequest {
  ir_ttlSeconds : Z; ir_scopes : option (list Scope) }.
#[global] Instance IssueTokenRequest_eta : Eta IssueTokenRequest :=
  fun x => MkIssueRequest (ir_ttlSeconds x) (ir_scopes x).
Record IssueTokenResult := MkIssueResult {
  is_token : string; is_tokenID : string; is_expires : Z; is_scopes : list Scope }.

(** A refusal of [issue]; [Denied] is a [scopeError]. *)
Inductive issue_error := Refused (message : string) | Denied (message : string).

Definition scope_fields : list (field Scope) :=
  [via "service" sc_service (upd sc_service) dec_string;
   via "methods" sc_methods (upd sc_methods) (dec_slice EmptyString dec_string);
   via "register" sc_register (upd sc_register) dec_bool].
Definition issue_fields : list (field IssueTokenRequest) :=
  [via "ttl_seconds" ir_ttlSeconds (upd ir_ttlSeconds) dec_int;
   via "scopes" ir_scopes (upd ir_scopes)
     (dec_slice (MkScope EmptyString None false) (dec_struct_with true scope_fields))].

Definition method_scope_bad (method : string) : bool :=
  is_empty method || ContainsByte method "/"
  || (ContainsByte method "*" && negb (String.eqb method "*")).

(** The loop over the methods of one scope: the rules [user.Call] gains. *)
Fixpoint scope_calls (issuer : User) (service : string) (methods : list string)
    : issue_error + list string :=
  match methods with
  | [] => inr []
  | method :: methods =>
      if method_scope_bad method then inl (Refused "invalid method scope")
      else if negb (allowsRole (Some issuer) "client")
              || negb (allowsCall (Some issuer) service method)
      then inl (Denied "requested call scope exceeds issuer permissions")
      else match scope_calls issuer service methods with
      | inl err => inl err
      | inr calls => inr ((service +:+ "/" +:+ method) :: calls)
      end
  end.

(** The loop over the scopes: the call and registration rules of the token. *)
Fixpoint scopes_grant (issuer : User) (seen : list string) (scopes : list Scope)
    : issue_error + (list string * list string) :=
  match scopes with
  | [] => inr ([], [])
  | sc :: scopes =>
      let service := sc_service sc in
      let methods := default [] (sc_methods sc) in
      if is_empty service || ContainsAny service "*/" || HasPrefix service reservedPrefix
         || Contains seen service
      then inl (Refused "scopes require unique, concrete business service names")
      else if (length methods =? 0)%nat && negb (sc_register sc)
      then inl (Refused "scope grants no permissions")
      else match scope_calls issuer service methods with
      | inl err => inl err
      | inr calls =>
          if sc_register sc && (negb (allowsRole (Some issuer) "server")
                                || negb (allowsRegistration (Some issuer) service))
          then inl (Denied "requested registration scope exceeds issuer permissions")
          else match scopes_grant issuer (service :: seen) scopes with
          | inl err => inl err
          | inr (calls', regs') =>
              inr (calls ++ calls', (if sc_register sc then [service] else []) ++ regs')
          end
      end
  end.

(** A slice built by [append]: nil when nothing was appended. *)
Definition appended (l : list string) : option (list string) :=
  match l with [] => None | _ => Some l end.

Definition tokenCapacity : nat := 4096.

Section crypto.
Context `{Crypto}.

(** [issue]; [secret] are the 32 bytes of [rand.Read]. *)
Definition issue (issuer : User) (request : IssueTokenRequest) (secret : option string)
    (now : Z) (a : Auth) : Auth * (issue_error + IssueTokenResult) :=
  let scopes := default [] (ir_scopes request) in
  if negb (is_empty (u_tokenID issuer))
  then (a, inl (Refused "temporary tokens cannot issue tokens"))
  else if (ir_ttlSeconds request <? 1) || (3600 <? ir_ttlSeconds request)
          || (length scopes =? 0)%nat || (128 <? length scopes)%nat
  then (a, inl (Refused "ttl_seconds must be 1..3600 and scopes must contain 1..128 services"))
  else match scopes_grant issuer [] scopes with
  | inl err => (a, inl err)
  | inr (calls, regs) =>
      let roles := (match calls with [] => [] | _ => ["client"%string] end)
                   ++ (match regs with [] => [] | _ => ["server"%string] end) in
      match secret with
      | None => (a, inl (Refused "rand"))
      | Some secret =>
          let token := "mt_" +:+ b64url_encode secret in
          let id := hex_encode (sha256_Sum256 token) in
          let expires := now + ir_ttlSeconds request * Second in
          let user := MkUser (u_username issuer) "" (appended roles) (appended regs)
            (appended calls) "" "" (Some expires) id identityToken (a_next a) in
          let a := a {{ a_next ::= S }} in
          let a := a {{ a_tokens ::= filter (fun kv => unexpired now kv.2 = true) }} in
          if (tokenCapacity <=? size (a_tokens a))%nat
          then (a, inl (Refused "temporary token capacity reached"))
          else (a {{ a_tokens ::= insert id user }},
                inr (MkIssueResult token id (expires / Millisecond) scopes))
      end
  end.
End crypto.

(** ** Requests and answers *)

(** [readRequest] on a struct with these fields. *)
Definition readRequest {R} (fs : list (field R)) (zero : R) (payload : option string) : option R :=
  let text := default EmptyString payload in
  if HasPrefix (TrimSpace text) "{" then decode_strict fs zero text else None.

Definition one_string_field (name : string) : list (field string) :=
  [(name, fun raw v r => dec_string raw v r)].

Definition fail_call (p : nat) (f : frame) (code message : string) : Router -> Router :=
  send p (callError (f_callID f) code message false).
Definition answer (p : nat) (f : frame) (payload : string) : Router -> Router :=
  send p (frame0 {{ f_kind := "call.result"; f_callID := f_callID f; f_payload := Some payload }}).

Definition nonNil (values : option (list string)) : list string := rules values.

Definition marshal_strings (l : list string) : string := brackets (quote <$> l).
(** A slice without [omitempty]: nil is [null]. *)
Definition marshal_nilable (o : option (list string)) : string :=
  match o with Some l => marshal_strings l | None => "null" end.

Definition marshal_scope (s : Scope) : string :=
  braces ([member "service" (quote (sc_service s))]
          ++ slice_member "methods" quote (sc_methods s)
          ++ opt_member (sc_register s) "register" "true").
Definition marshal_issued (i : IssueTokenResult) : string :=
  braces [member "token" (quote (is_token i)); member "token_id" (quote (is_tokenID i));
          member "expires_at_unix_ms" (marshal_int (is_expires i));
          member "scopes" (brackets (marshal_scope <$> is_scopes i))].
Definition marshal_whoami (u : User) : string :=
  braces [member "username" (quote (u_username u)); member "roles" (marshal_nilable (u_roles u));
          member "register" (marshal_strings (nonNil (u_register u)));
          member "call" (marshal_strings (nonNil (u_call u)));
          member "expires_at_unix_ms"
            (match u_expires u with Some t => marshal_int (t / Millisecond) | None => "null" end)].

(** ** The Registry *)

Record RegistryInstance := MkRegistryInstance {
  ri_ID : string; ri_Inflight : Z; ri_MaxInflight : Z; ri_Breaker : string; ri_Draining : bool }.
Record registryMethod := MkRegistryMethod {
  rm_Name : string; rm_Stream : string; rm_Balance : balance;
  rm_Description : option string; rm_Annotations : option string; rm_Deprecated : option string;
  rm_Parameters : option (list string); rm_DuplexReason : option string;
  rm_Instances : list string }.
#[global] Instance registryMethod_eta : Eta registryMethod := fun x =>
  MkRegistryMethod (rm_Name x) (rm_Stream x) (rm_Balance x) (rm_Description x)
    (rm_Annotations x) (rm_Deprecated x) (rm_Parameters x) (rm_DuplexReason x) (rm_Instances x).
Record registryService := MkRegistryService {
  rs_Name : string; rs_Version : string; rs_Description : option string; rs_Targeted : bool;
  rs_Instances : list RegistryInstance; rs_Methods : list registryMethod }.

Record contractMethod := MkContractMethod {
  cm_Name : string; cm_Description : option string; cm_Annotations : option string;
  cm_Deprecated : option string; cm_Parameters : option (list string);
  cm_DuplexReason : option string }.
#[global] Instance contractMethod_eta : Eta contractMethod := fun x =>
  MkContractMethod (cm_Name x) (cm_Description x) (cm_Annotations x) (cm_Deprecated x)
    (cm_Parameters x) (cm_DuplexReason x).
Record contractEntry := MkContractEntry {
  ce_Version : string; ce_Description : option string;
  ce_Methods : option (list contractMethod) }.
#[global] Instance contractEntry_eta : Eta contractEntry := fun x =>
  MkContractEntry (ce_Version x) (ce_Description x) (ce_Methods x).

Definition opt_string : decoder (option string) := dec_ptr EmptyString dec_string.
Definition contractMethod_fields : list (field contractMethod) :=
  [via "name" cm_Name (upd cm_Name) dec_string;
   via "description" cm_Description (upd cm_Description) opt_string;
   via "annotations" cm_Annotations (upd cm_Annotations) dec_raw;
   via "deprecated" cm_Deprecated (upd cm_Deprecated) opt_string;
   via "parameters" cm_Parameters (upd cm_Parameters) (dec_slice EmptyString dec_string);
   via "duplex_reason" cm_DuplexReason (upd cm_DuplexReason) opt_string].
Definition contractEntry_fields : list (field contractEntry) :=
  [via "version" ce_Version (upd ce_Version) dec_string;
   via "description" ce_Description (upd ce_Description) opt_string;
   via "methods" ce_Methods (upd ce_Methods)
     (dec_slice (MkContractMethod "" None None None None None) (dec_struct contractMethod_fields))].

(** [json.Unmarshal] keeps what it decoded next to the error. *)
Definition read_entry (contract : option string) : contractEntry * bool :=
  let zero := MkContractEntry EmptyString None None in
  match contract with
  | None => (zero, true)
  | Some raw =>
      match unmarshal raw with
      | Some v => dec_struct contractEntry_fields raw v zero
      | None => (zero, true)
      end
  end.

Definition allowsAnyCall (u : option User) (service : string) (po : pool) : bool :=
  existsb (fun kv => allowsCall u service kv.1) (map_to_list (po_methods po)).

Definition visibleContract (raw : option string) (service : string) (u : option User)
    : option string :=
  match raw, u with
  | Some text, Some _ =>
      match DecodeOrdered text with
      | Some (JObject doc) =>
          let methods := default [] (as_array (Get doc "methods")) in
          let kept := filter (fun m =>
            match m with
            | JObject entry => allowsCall u service (Str entry "name")
            | _ => false
            end = true) methods in
          Some (Encode (JObject (Set_ doc "methods" (JArray kept))))
      | _ => None
      end
  | _, _ => raw
  end.

Definition sortedMethods (methods : gmap string method) : list method :=
  SortBy m_name (snd <$> map_to_list methods).

Definition instance_row (x : peer) (id : string) (draining : bool) (now : Z) : RegistryInstance :=
  MkRegistryInstance id (p_inflight x) (p_maxInflight x)
    (breaker_text (state (p_health x) now)) draining.

Definition describeService (name : string) (u : option User) (e : Env) (po : pool) (r : Router)
    : registryService :=
  let now := e_now e in
  let live := (fun c => instance_row (peerOf r c) (p_instanceID (peerOf r c))
                          (p_draining (peerOf r c)) now) <$> po_instances po in
  let draining := omap (fun id =>
    match r_instances r !! id with
    | Some c =>
        if p_draining (peerOf r c)
           && ContainsFunc (p_services (peerOf r c)) (fun s => String.eqb (s_name s) name)
        then Some (instance_row (peerOf r c) id true now) else None
    | None => None
    end) (iter_keys e (r_instances r)) in
  let '(entry, err) := read_entry (po_contract po) in
  let describe (m : method) : registryMethod :=
    let ids := (fun c => p_instanceID (peerOf r c)) <$>
      filter (fun c => serves (peerOf r c) name (m_name m) = true) (po_instances po) in
    fold_left (fun rm cm =>
      if String.eqb (cm_Name cm) (m_name m) then
        rm {{ rm_Description := cm_Description cm; rm_Annotations := cm_Annotations cm;
              rm_Deprecated := cm_Deprecated cm; rm_Parameters := cm_Parameters cm;
              rm_DuplexReason := cm_DuplexReason cm }}
      else rm) (default [] (ce_Methods entry))
      (MkRegistryMethod (m_name m) (m_stream m) (m_balance m) None None None None None ids) in
  MkRegistryService name
    (if (err : bool) then EmptyString else ce_Version entry)
    (if (err : bool) then None else ce_Description entry)
    (po_targeted po) (live ++ draining)
    (describe <$> filter (fun m => allowsCall u name (m_name m) = true)
                    (sortedMethods (po_methods po))).

Definition opt_string_member (k : string) (o : option string) : list string :=
  match o with Some s => [member k (quote s)] | None => [] end.

Definition marshal_instance (i : RegistryInstance) : string :=
  braces ([member "id" (quote (ri_ID i)); member "inflight" (marshal_int (ri_Inflight i))]
    ++ opt_member (negb (ri_MaxInflight i =? 0)) "max_inflight" (marshal_int (ri_MaxInflight i))
    ++ [member "breaker" (quote (ri_Breaker i)); member "draining" (marshal_bool (ri_Draining i))]).
Definition marshal_registryMethod (m : registryMethod) : string :=
  braces ([member "name" (quote (rm_Name m)); member "stream" (quote (rm_Stream m));
           member "balance" (marshal_balance (rm_Balance m))]
    ++ opt_string_member "description" (rm_Description m)
    ++ raw_member "annotations" (rm_Annotations m)
    ++ opt_string_member "deprecated" (rm_Deprecated m)
    ++ slice_member "parameters" quote (rm_Parameters m)
    ++ opt_string_member "duplex_reason" (rm_DuplexReason m)
    ++ [member "instances" (marshal_strings (rm_Instances m))]).
Definition registryService_members (s : registryService) : list string :=
  [member "name" (quote (rs_Name s))]
    ++ str_member "version" (rs_Version s)
    ++ opt_string_member "description" (rs_Description s)
    ++ [member "targeted" (marshal_bool (rs_Targeted s));
        member "instances" (brackets (marshal_instance <$> rs_Instances s));
        member "methods" (brackets (marshal_registryMethod <$> rs_Methods s))].

(** The services a caller sees, in name order. *)
Definition visible_services (u : option User) (r : Router) : list (string * pool) :=
  SortBy fst (filter (fun kv => allowsAnyCall u kv.1 kv.2 = true) (map_to_list (r_services r))).

Definition registry (p : nat) (f : frame) (e : Env) (r : Router) : Router :=
  let u := p_user (peerOf r p) in
  if String.eqb (f_method f) "list" then
    match readRequest [] tt (f_payload f) with
    | None => fail_call p f "invalid_argument" "list expects an empty object" r
    | Some _ =>
        let services := (fun kv => describeService kv.1 u e kv.2 r) <$> visible_services u r in
        answer p f (braces [member "services" (brackets
          ((fun s => braces (registryService_members s)) <$> services))]) r
    end
  else if String.eqb (f_method f) "describe" then
    match readRequest (one_string_field "service") EmptyString (f_payload f) with
    | Some (String _ _ as name) =>
        let missing :=
          fail_call p f "method_not_found" ("No instances registered for " +:+ name) r in
        match r_services r !! name with
        | None => missing
        | Some po =>
            if negb (allowsAnyCall u name po) then missing
            else answer p f (braces (registryService_members (describeService name u e po r)
                   ++ raw_member "contract" (visibleContract (po_contract po) name u))) r
        end
    | _ => fail_call p f "invalid_argument"
             ("describe expects {" +:+ dqs +:+ "service" +:+ dqs +:+ ": name}") r
    end
  else fail_call p f "method_not_found" ("Unknown Registry method " +:+ f_method f) r.

(** ** AuthService *)

(** Disconnects everyone who connected with a revoked token. *)
Definition cancel_token (id : string) (r : Router) : Router :=
  foldr (fun candidate r =>
    match p_user (peerOf r candidate) with
    | Some u => if String.eqb (u_tokenID u) id then cancel candidate r else r
    | None => r
    end) r (elements (r_peers r)).

(** Whether [token_id] is a token that [username] issued. *)
Definition revocable (a : Auth) (id username : string) : bool :=
  match a_tokens a !! id with
  | Some u => String.eqb (u_username u) username
  | None => false
  end.

Section management.
Context `{Crypto}.

Definition issue_token (p : nat) (user : User) (f : frame) (e : Env) (r : Router) : Router :=
  if negb (mayIssueTokens (Some user))
  then fail_call p f "permission_denied" "Temporary tokens cannot issue tokens" r
  else match readRequest issue_fields (MkIssueRequest 0 None) (f_payload f), r_auth r with
  | Some request, Some a =>
      let '(a, issued) := issue user request (e_secret e) (e_now e) a in
      let r := r {{ r_auth := Some a }} in
      match issued with
      | inl (Denied message) => fail_call p f "permission_denied" message r
      | inl (Refused message) => fail_call p f "invalid_argument" message r
      | inr issued => answer p f (marshal_issued issued) r
      end
  | _, _ => fail_call p f "invalid_argument" "Invalid issue_token request" r
  end.

Definition revoke_token (p : nat) (user : User) (f : frame) (r : Router) : Router :=
  if negb (mayIssueTokens (Some user))
  then fail_call p f "permission_denied" "Temporary tokens cannot revoke tokens" r
  else match readRequest (one_string_field "token_id") EmptyString (f_payload f), r_auth r with
  | Some (String _ _ as id), Some a =>
      let revoked := revocable a id (u_username user) in
      let r := if revoked
               then cancel_token id (r {{ r_auth := Some (a {{ a_tokens ::= delete id }}) }})
               else r in
      answer p f (braces [member "revoked" (marshal_bool revoked)]) r
  | _, _ => fail_call p f "invalid_argument" "token_id is required" r
  end.

Definition management (p : nat) (f : frame) (e : Env) (r : Router) : Router :=
  if String.eqb (f_service f) RegistryService then registry p f e r
  else match p_user (peerOf r p) with
  | None => fail_call p f "unauthenticated" "Router accounts are not configured" r
  | Some user =>
      if negb (String.eqb (f_service f) AuthService)
      then fail_call p f "method_not_found" "Unknown router service" r
      else if String.eqb (f_method f) "whoami" then
        match readRequest [] tt (f_payload f) with
        | None => fail_call p f "invalid_argument" "whoami expects an empty object" r
        | Some _ => answer p f (marshal_whoami user) r
        end
      else if String.eqb (f_method f) "issue_token" then issue_token p user f e r
      else if String.eqb (f_method f) "revoke_token" then revoke_token p user f r
      else fail_call p f "method_not_found" "Unknown router method" r
  end.
End management.
