(* ===== verification/OpenApi.v ===== *)
(** * The OpenAPI document: internal/router/openapi.go

    A [Builder] collects the component schemas; [lift] moves a payload schema's
    "$defs" there under fresh names and rewrites the references; [openAPI] is the
    document of the services a caller may call. *)
From S2P Require Import Prelude GoStd Json Protocol Libs Auth State Contract Management.
#[local] Open Scope Z_scope.

(** ** Definitions *)

Record openAPIBuilder := MkBuilder { ob_schemas : Object; ob_taken : gset string }.
#[global] Instance openAPIBuilder_eta : Eta openAPIBuilder :=
  fun b => MkBuilder (ob_schemas b) (ob_taken b).

Fixpoint replace_bytes (from : string) (to : ascii) (s : string) : string :=
  match s with
  | EmptyString => EmptyString
  | String c s => String (if ContainsByte from c then to else c) (replace_bytes from to s)
  end.

(** The first free name among [clean], [clean_2], [clean_3], ...; one candidate
    more than there are taken names is enough fuel. *)
Fixpoint free_name (fuel : nat) (taken : gset string) (clean name : string) (i : Z) : string :=
  match fuel with
  | O => name
  | S fuel =>
      if bool_decide (name ∈ taken)
      then free_name fuel taken clean (clean +:+ "_" +:+ marshal_int i) (i + 1)
      else name
  end.

Definition schemas_prefix : string := "#/components/schemas/".

Definition ref_to (name : string) : Object := Set_ [] "$ref" (JString (schemas_prefix +:+ name)).

(** [component]: the updated builder and a reference to the stored schema. *)
Definition component (base : string) (schema : json) (b : openAPIBuilder) : openAPIBuilder * Object :=
  let clean := replace_bytes "./" "_" base in
  let name := free_name (S (size (ob_taken b))) (ob_taken b) clean clean 2 in
  (b {{ ob_taken ::= union {[name]}; ob_schemas ::= fun o => Set_ o name schema }}, ref_to name).

Definition defs_prefix : string := "#/$defs/".

(** The target of one member: "$ref" into the lifted definitions. *)
Definition retarget (renamed : gmap string string) (k : string) (v : json) : json :=
  match v with
  | JString s =>
      if String.eqb k "$ref" && HasPrefix s defs_prefix then
        match renamed !! TrimPrefix s defs_prefix with
        | Some target => if is_empty target then v else JString target
        | None => v
        end
      else v
  | _ => v
  end.

Fixpoint rewriteRefs (renamed : gmap string string) (v : json) : json :=
  match v with
  | JObject o =>
      JObject ((fix members (o out : Object) : Object :=
        match o with
        | [] => out
        | (k, v) :: o =>
            members o (Set_ out k
              (match v with JString _ => retarget renamed k v | _ => rewriteRefs renamed v end))
        end) o [])
  | JArray l => JArray (rewriteRefs renamed <$> l)
  | _ => v
  end.

(** The first loop of [lift]: every definition gets a component. *)
Fixpoint reserve (prefix : string) (keys : list string) (b : openAPIBuilder)
    (renamed : gmap string string) : openAPIBuilder * gmap string string :=
  match keys with
  | [] => (b, renamed)
  | key :: keys =>
      let '(b, ref) := component (prefix +:+ "_" +:+ key) JNull b in
      reserve prefix keys b (<[key := Str ref "$ref"]> renamed)
  end.

(** The second: the definitions themselves, their references rewritten. *)
Definition fill (defs : Object) (renamed : gmap string string) (b : openAPIBuilder) : openAPIBuilder :=
  fold_left (fun b key =>
    let name := TrimPrefix (default EmptyString (renamed !! key)) schemas_prefix in
    b {{ ob_schemas ::= fun o => Set_ o name (rewriteRefs renamed (default JNull (Get defs key))) }})
    (Keys defs) b.

Definition lift (prefix : string) (schema : option Object) (b : openAPIBuilder)
    : openAPIBuilder * json :=
  match schema with
  | None => (b, JObject [])
  | Some schema =>
      let '(b, renamed) :=
        match Obj schema "$defs" with
        | Some defs =>
            let '(b, renamed) := reserve prefix (Keys defs) b ∅ in (fill defs renamed b, renamed)
        | None => (b, ∅)
        end in
      let out := match rewriteRefs renamed (JObject schema) with JObject o => o | _ => [] end in
      (b, JObject (fold_left (fun o kv => if String.eqb kv.1 "$defs" then o else Set_ o kv.1 kv.2) out []))
  end.

Definition obj (pairs : list (string * json)) : json :=
  JObject (fold_left (fun o kv => Set_ o kv.1 kv.2) pairs []).
Definition content (mediaType : string) (schema : json) : json :=
  obj [(mediaType, obj [("schema", schema)])].

Definition jstr (s : string) : json := JString s.
Definition ndjson : string := "application/x-ndjson".

Definition error_schema : json :=
  obj [("type", jstr "object"); ("required", JArray [jstr "error"]);
       ("properties", obj [("error", obj [
          ("type", jstr "object"); ("required", JArray [jstr "code"; jstr "message"]);
          ("properties", obj [
             ("code", obj [("type", jstr "string")]);
             ("message", obj [("type", jstr "string")]);
             ("retryable", obj [("type", jstr "boolean")]);
             ("details", obj [("type", JArray [jstr "object"; jstr "null"])])])])])].

(** The parsed contract of a service, as far as the caller may see it. *)
Definition parsed_service (name : string) (user : option User) (po : pool) : option Service :=
  match visibleContract (po_contract po) name user with
  | Some raw =>
      match Parse ("{" +:+ dqs +:+ "services" +:+ dqs +:+ ":[" +:+ raw +:+ "]}") with
      | inr doc => match dc_Services doc with [s] => Some s | _ => None end
      | inl _ => None
      end
  | None => None
  end.

(** The last method of that name. *)
Definition contract_method (service : option Service) (name : string) : option Method :=
  match service with
  | Some s => fold_left (fun cm c => if String.eqb (mt_Name c) name then Some c else cm)
                (sv_Methods s) None
  | None => None
  end.

Definition trailers_line : json :=
  obj [("type", jstr "object"); ("required", JArray [jstr "end"]);
       ("properties", obj [("end", obj [("type", jstr "object");
          ("properties", obj [("trailers", obj [("type", jstr "object");
             ("additionalProperties", obj [("type", jstr "string")])])])])])].

(** The request and response schemas of one operation. *)
Definition lift_method (prefix : string) (cm : option Method) (b : openAPIBuilder)
    : openAPIBuilder * json * json :=
  match cm with
  | None => (b, JObject [], JObject [])
  | Some m =>
      let '(b, request) := lift (prefix +:+ "_request") (Some (tr_Schema (mt_Request m))) b in
      match mt_Response m, mt_OutputItem m with
      | Some t, _ =>
          let '(b, response) := lift (prefix +:+ "_response") (Some (tr_Schema t)) b in
          (b, request, response)
      | None, Some t =>
          let '(b, response) := lift (prefix +:+ "_item") (Some (tr_Schema t)) b in
          (b, request, response)
      | None, None => (b, request, JObject [])
      end
  end.

Definition op_head (name prefix : string) (m : method) (cm : option Method) : Object :=
  let op := Set_ (Set_ [] "operationId" (jstr prefix)) "tags" (JArray [jstr name]) in
  let op := match cm with
            | Some c =>
                match mt_Description c with
                | Some d => Set_ (Set_ op "summary" (jstr (Cut "010" d).1.1)) "description" (jstr d)
                | None => op
                end
            | None => op
            end in
  let op := match cm with
            | Some c => match mt_Deprecated c with
                        | Some _ => Set_ op "deprecated" (JBool true) | None => op end
            | None => op
            end in
  let op := match cm with
            | Some c => Set_ op "x-meshcall-annotations" (obj [
                ("read_only", JBool (an_ReadOnly (mt_Annotations c)));
                ("idempotent", JBool (an_Idempotent (mt_Annotations c)));
                ("destructive", JBool (an_Destructive (mt_Annotations c)))])
            | None => op
            end in
  Set_ op "x-meshcall-stream" (jstr (m_stream m)).

(** The result description and the request body, by stream kind. *)
Definition op_shapes (stream : string) (errorRef request response : json) : json * json :=
  if String.eqb stream "server_stream" then
    let line := obj [("oneOf", JArray [
      obj [("type", jstr "object"); ("required", JArray [jstr "item"]);
           ("properties", obj [("item", response)])];
      trailers_line; errorRef])] in
    (obj [("description", jstr ("one JSON envelope per line: {" +:+ dqs +:+ "item" +:+ dqs
              +:+ "} for each item, then {" +:+ dqs +:+ "end" +:+ dqs +:+ "} or {" +:+ dqs
              +:+ "error" +:+ dqs +:+ "}"));
          ("content", content ndjson line)],
     obj [("required", JBool true); ("content", content "application/json" request)])
  else if String.eqb stream "client_stream" then
    (obj [("description", jstr "result"); ("content", content "application/json" response)],
     obj [("required", JBool true);
          ("description", jstr "NDJSON: the first line is the request, then one input item per line");
          ("content", content ndjson request)])
  else
    (obj [("description", jstr "result"); ("content", content "application/json" response)],
     obj [("required", JBool true); ("content", content "application/json" request)]).

Definition operation_path (service method : string) : string :=
  "/v1/call/" +:+ service +:+ "/" +:+ method.

(** The methods of one service, in the order of their names. *)
Fixpoint service_paths (name : string) (user : option User) (service : option Service)
    (errorRef errorResponse : json) (l : list method) (bp : openAPIBuilder * Object)
    : openAPIBuilder * Object :=
  match l with
  | [] => bp
  | m :: l =>
      service_paths name user service errorRef errorResponse l
        (if String.eqb (m_stream m) "duplex" || negb (allowsCall user name (m_name m)) then bp
         else
           let '(b, paths) := bp in
           let cm := contract_method service (m_name m) in
           let prefix := name +:+ "_" +:+ m_name m in
           let '(b, request, response) := lift_method prefix cm b in
           let '(ok, body) := op_shapes (m_stream m) errorRef request response in
           let op := Set_ (op_head name prefix m cm) "requestBody" body in
           let op := Set_ op "responses" (obj [("200", ok); ("default", errorResponse)]) in
           (b, Set_ paths (operation_path name (m_name m)) (obj [("post", JObject op)])))
  end.

Definition service_tag (name : string) (service : option Service) : json :=
  match service with
  | Some s => match sv_Description s with
              | Some d => obj [("name", jstr name); ("description", jstr d)]
              | None => obj [("name", jstr name)]
              end
  | None => obj [("name", jstr name)]
  end.

(** The services the caller may call, sorted. *)
Definition callable_services (user : option User) (r : Router) : list string :=
  Sort (fst <$> filter (fun kv => allowsAnyCall user kv.1 kv.2 = true) (map_to_list (r_services r))).

Definition all_paths (user : option User) (errorRef errorResponse : json) (r : Router)
    (b : openAPIBuilder) : openAPIBuilder * Object :=
  fold_left (fun bp name =>
    match r_services r !! name with
    | Some po => service_paths name user (parsed_service name user po) errorRef errorResponse
                   (sortedMethods (po_methods po)) bp
    | None => bp
    end) (callable_services user r) (b, []).

Definition openAPI (user : option User) (r : Router) : Object :=
  let '(b, errorRef) := component "MeshCallError" error_schema (MkBuilder [] ∅) in
  let errorRef := JObject errorRef in
  let errorResponse := obj [
    ("description", jstr "MeshCall error envelope; see the status table in docs/protocol.md");
    ("content", content "application/json" errorRef)] in
  let names := callable_services user r in
  let tags := (fun name => service_tag name
    (po ← r_services r !! name; parsed_service name user po)) <$> names in
  let '(b, paths) := all_paths user errorRef errorResponse r b in
  let secured := bool_decide (is_Some (r_auth r)) in
  let components := [("schemas"%string, JObject (ob_schemas b))] ++
    (if secured then [("securitySchemes"%string, obj [
       ("bearer", obj [("type", jstr "http"); ("scheme", jstr "bearer");
          ("description", jstr "API key (mk_…) or temporary token (mt_…)")]);
       ("basic", obj [("type", jstr "http"); ("scheme", jstr "basic")])])] else []) in
  [("openapi"%string, jstr "3.1.0");
   ("info"%string, obj [("title", jstr "MeshCall services"); ("version", jstr "1");
      ("description", jstr
        "Generated by the MeshCall Router from the contracts of the services this caller may call.")]);
   ("tags"%string, JArray tags);
   ("paths"%string, JObject paths);
   ("components"%string, JObject components)] ++
  (if secured then [("security"%string, JArray [
     obj [("bearer", JArray [])]; obj [("basic", JArray [])]; JObject []])] else []).

Definition openapi_allowed (user : option User) : bool := allowsCall user RegistryService "list".
