(* ===== verification/Router.v ===== *)
(** * The Router: internal/router/router.go

    Every operation here runs under [Router.mu] and is a function on [Router].
    A connection ([handle]) is a state machine over its [phase]; [System] pairs
    the Router with the phases of its WebSocket connections. *)
From S2P Require Import Prelude GoStd LocalSock Json Protocol Outbox Breaker Libs Auth State.
From S2P Require Import Deadline Dedup Balance Management.
#[local] Open Scope Z_scope.

(** ** Start: the checked configuration *)

Definition or_zero (z d : Z) : Z := if z =? 0 then d else z.

(** The zero values [Start] replaces. *)
Definition apply_defaults (c : Config) : Config :=
  c {{ c_MaxFrameSize := or_zero (c_MaxFrameSize c) DefaultMaxFrameSize;
       c_MaxCallsPerConnection := or_zero (c_MaxCallsPerConnection c) DefaultMaxCallsPerConnection;
       c_ShutdownTimeout := or_zero (c_ShutdownTimeout c) DefaultShutdownTimeout;
       c_OutboxSize := or_zero (c_OutboxSize c) DefaultOutboxSize;
       c_DeadlineGrace := or_zero (c_DeadlineGrace c) DefaultDeadlineGrace;
       c_IdleTimeout := or_zero (c_IdleTimeout c) DefaultIdleTimeout;
       c_MaxConnections := or_zero (c_MaxConnections c) DefaultMaxConnections;
       c_HTTPDefaultTimeout := or_zero (c_HTTPDefaultTimeout c) DefaultHTTPDefaultTimeout;
       c_HTTPMaxInflight := or_zero (c_HTTPMaxInflight c) DefaultHTTPMaxInflight;
       c_MaxAnonymousConnections :=
         or_zero (c_MaxAnonymousConnections c) DefaultMaxAnonymousConnections;
       c_BreakerThreshold := or_zero (c_BreakerThreshold c) DefaultBreakerThreshold;
       c_BreakerCooldown := or_zero (c_BreakerCooldown c) DefaultBreakerCooldown }}.

(** The checks on the numbers. *)
Definition check_config (c : Config) : string + Config :=
  if (c_MaxFrameSize c <? 1) || (DefaultMaxFrameSize <? c_MaxFrameSize c)
  then inl "max-frame-size must be between 1 and 67108864"%string
  else if c_OutboxSize c <? c_MaxFrameSize c
  then inl "outbox-size must be at least max-frame-size"%string
  else if (c_DeadlineGrace c <? 0) || (c_IdleTimeout c <? Second)
  then inl "deadline-grace must be non-negative and idle-timeout at least 1s"%string
  else if c_MaxConnections c <? 0
  then inl "max connections must be positive"%string
  else if (c_HTTPDefaultTimeout c <? 0) || (c_HTTPMaxTimeout c <? 0) || (c_HTTPMaxInflight c <? 0)
  then inl "HTTP timeouts and limits must be positive"%string
  else
    let c := if (0 <? c_HTTPMaxTimeout c) && (c_HTTPMaxTimeout c <? c_HTTPDefaultTimeout c)
             then c {{ c_HTTPDefaultTimeout := c_HTTPMaxTimeout c }} else c in
    if c_MaxAnonymousConnections c <? 0
    then inl "max anonymous connections must be positive"%string
    else if (c_BreakerThreshold c <? 1) || (c_BreakerCooldown c <=? 0)
    then inl "breaker-threshold must be positive and breaker-cooldown greater than zero"%string
    else if (c_Port c <? 0) || (65535 <? c_Port c)
    then inl "port must be between 0 and 65535"%string
    else inr c.

(** [err != nil] after a listen call: "listen: ..." *)
Definition listened (err : option string) (c : Config) : string + Config :=
  match err with Some e => inl ("listen: " +:+ e) | None => inr c end.

(** [net.JoinHostPort]. *)
Definition JoinHostPort (host port : string) : string :=
  if ContainsByte host ":" then "[" +:+ host +:+ "]:" +:+ port else host +:+ ":" +:+ port.

(** The transport: a named pipe, a Unix socket, or TCP. *)
Definition listen (pf : Platform) (c : Config) : string + Config :=
  if negb (is_empty (c_Pipe c)) then
    if negb (is_empty (c_Host c)) || negb (c_Port c =? 0) || negb (is_empty (c_UnixPath c))
    then inl "a named pipe cannot be combined with host, port or a Unix socket"%string
    else match PipeName pf (c_Pipe c) with
    | inl err => inl err
    | inr name => listened (ListenPipe pf name) (c {{ c_Pipe := name }})
    end
  else if negb (is_empty (c_UnixPath c)) then
    if negb (UnixSupported pf) then inl ErrUnixOnWindows
    else if negb (is_empty (c_Host c)) || negb (c_Port c =? 0)
    then inl "Unix socket cannot be combined with host or port"%string
    else match pf_abs pf (c_UnixPath c) with
    | inl err => inl err
    | inr path =>
        if 103 <? slen path
        then inl "Unix socket path exceeds the portable 103-byte limit"%string
        else if pf_exists pf path
        then inl "Unix socket path already exists or is inaccessible"%string
        else match pf_mkdir pf path with
        | Some err => inl err
        | None => listened (pf_listen pf "unix" path) (c {{ c_UnixPath := path }})
        end
    end
  else
    let c := if is_empty (c_Host c) then c {{ c_Host := "127.0.0.1" }} else c in
    listened (pf_listen pf "tcp" (JoinHostPort (c_Host c) (marshal_int (c_Port c)))) c.

(** [Start]: an error, or the configuration the new Router runs with. *)
Definition Start (pf : Platform) (config : Config) : string + Config :=
  match check_config (apply_defaults config) with
  | inl err => inl err
  | inr c =>
      match listen pf c with
      | inl err => inl err
      | inr c =>
          if is_empty (c_MetricsListen c) then inr c
          else match pf_metrics pf (c_MetricsListen c) with
          | Some err => inl err
          | None => inr c
          end
      end
  end.

(** ** Service names *)

Fixpoint all_bytes (p : ascii -> bool) (s : string) : bool :=
  match s with EmptyString => true | String c s => p c && all_bytes p s end.
Definition is_alpha (c : ascii) : bool := in_range 65 90 (byte c) || in_range 97 122 (byte c).
Definition is_alnum (c : ascii) : bool := is_alpha c || is_digit c.

(** The regular expressions nameSegment, numericSegment, majorSegment and
    patchSegment. *)
Definition nameSegment (s : string) : bool :=
  match s with
  | String c s => is_alpha c && all_bytes (fun c => is_alnum c || Ascii.eqb c "_") s
  | EmptyString => false
  end.
Definition numericSegment (s : string) : bool :=
  match s with
  | String c s => if Ascii.eqb c "0" then is_empty s else is_digit c && all_bytes is_digit s
  | EmptyString => false
  end.
Definition majorSegment (s : string) : bool :=
  match s with
  | String c s => Ascii.eqb c "v" && numericSegment s
  | EmptyString => false
  end.
Definition patchSegment (s : string) : bool :=
  let '(number, pre, dash) := Cut "-" s in
  numericSegment number
  && (negb dash || (negb (is_empty pre)
        && all_bytes (fun c => is_alnum c || Ascii.eqb c "-") pre)).

(** The loop over the segments: versions and names counted, or [None]. *)
Fixpoint count_segments (segments : list string) (versions names : Z) : option (Z * Z) :=
  match segments with
  | [] => Some (versions, names)
  | s :: rest =>
      if majorSegment s then
        match rest with
        | minor :: patch :: rest' =>
            if numericSegment minor && patchSegment patch
            then count_segments rest' (versions + 1) names
            else count_segments rest (versions + 1) names
        | _ => count_segments rest (versions + 1) names
        end
      else if nameSegment s then count_segments rest versions (names + 1)
      else None
  end.
Definition validServiceName (name : string) : bool :=
  match count_segments (Split "." name) 0 0 with
  | Some (versions, names) => (versions =? 1) && (0 <? names)
  | None => false
  end.

(** ** Registration *)

Definition stream_kind_ok (s : string) : bool :=
  Contains ["unary"; "server_stream"; "client_stream"; "duplex"] s.
Definition balance_kind_ok (s : string) : bool :=
  Contains ["round_robin"; "least_inflight"; "random"; "sticky"; "disabled"] s.

Definition sticky_ok (b : balance) : bool :=
  negb (String.eqb (b_kind b) "sticky") ||
  match b_key b with
  | Some key => HasPrefix key "request." && negb (HasSuffix key ".")
  | None => false
  end.

Fixpoint check_methods (seen : list string) (l : list method) : option string :=
  match l with
  | [] => None
  | m :: l =>
      if is_empty (m_name m) || Contains seen (m_name m) || negb (stream_kind_ok (m_stream m))
         || negb (balance_kind_ok (b_kind (m_balance m)))
      then Some "invalid method registration"%string
      else if negb (sticky_ok (m_balance m))
      then Some "sticky key must address a request field"%string
      else check_methods (m_name m :: seen) l
  end.

Fixpoint check_services (u : option User) (seen : list string) (l : list service) : option string :=
  match l with
  | [] => None
  | s :: l =>
      if negb (validServiceName (s_name s)) || HasPrefix (s_name s) reservedPrefix
         || Contains seen (s_name s) || negb (allowsRegistration u (s_name s))
      then Some "duplicate, invalid, or unauthorized service"%string
      else match check_methods [] (methods_of s) with
      | Some err => Some err
      | None => check_services u (s_name s :: seen) l
      end
  end.

(** The first method that means something else in the pool. *)
Fixpoint method_conflict (po : pool) (l : list method) : option string :=
  match l with
  | [] => None
  | m :: l =>
      match po_methods po !! m_name m with
      | Some old =>
          if negb (String.eqb (m_stream old) (m_stream m))
             || negb (bool_decide (m_balance old = m_balance m))
          then Some (m_name m) else method_conflict po l
      | None => method_conflict po l
      end
  end.

Fixpoint check_compatible (r : Router) (l : list service) : option string :=
  match l with
  | [] => None
  | s :: l =>
      if match s_contract s with Some raw => negb (Valid raw) | None => false end
      then Some "invalid service contract"%string
      else match r_services r !! s_name s with
      | None => check_compatible r l
      | Some po =>
          if negb (Bool.eqb (po_targeted po) (s_targeted s))
          then Some "incompatible service registration: targeted differs"%string
          else match method_conflict po (methods_of s) with
          | Some name =>
              Some ("incompatible service registration: method " +:+ name +:+ " differs")
          | None => check_compatible r l
          end
      end
  end.

Definition new_pool (targeted : bool) : pool := Pool targeted ∅ None 0 [] ∅.

(** One service of the registration joins its pool. *)
Definition join_pool (p : nat) (s : service) (r : Router) : Router :=
  let po := default (new_pool (s_targeted s)) (r_services r !! s_name s) in
  let po := po {{ po_methods ::= fun ms =>
    fold_left (fun ms m => <[m_name m := m]> ms) (methods_of s) ms }} in
  let count := Z.of_nat (length (methods_of s)) in
  let wider := match po_contract po with
               | None => true | Some _ => po_contractMethods po <? count end in
  let po := match s_contract s with
            | Some raw => if wider then po {{ po_contract := Some raw; po_contractMethods := count }}
                          else po
            | None => po
            end in
  let po := po {{ po_instances ::= fun l =>
    SortBy (fun c => p_instanceID (peerOf r c)) (l ++ [p]) }} in
  r {{ r_services ::= insert (s_name s) po }}.

Definition register (p : nat) (f : frame) (r : Router) : Router * option string :=
  match check_services (p_user (peerOf r p)) [] (services_of f) with
  | Some err => (r, Some err)
  | None =>
      match r_instances r !! f_instanceID f with
      | Some _ => (r, Some "duplicate instance_id"%string)
      | None =>
          match check_compatible r (services_of f) with
          | Some err => (r, Some err)
          | None =>
              let r := upd_peer p (fun x => x {{ p_instanceID := f_instanceID f;
                p_services := services_of f; p_maxInflight := f_maxInflight f }}) r in
              let r := r {{ r_instances ::= insert (f_instanceID f) p }} in
              let r := send p (frame0 {{ f_kind := "server.register.ack";
                                         f_instanceID := f_instanceID f }}) r in
              (fold_left (fun r s => join_pool p s r) (services_of f) r, None)
          end
      end
  end.

(** ** Forwarding *)

Definition allowedFrame (role : string) (f : frame) : bool :=
  let kind k := String.eqb (f_kind f) k in
  let from d := String.eqb (f_direction f) d in
  if String.eqb role "client" then
    kind "call.open"%string || kind "call.cancel"%string
    || ((kind "stream.item"%string || kind "stream.end"%string) && from "client"%string)
    || (kind "stream.window"%string && from "server"%string)
  else
    kind "call.result"%string || kind "call.error"%string
    || ((kind "stream.item"%string || kind "stream.end"%string) && from "server"%string)
    || (kind "stream.window"%string && from "client"%string).

Definition cancel_frame (id reason : string) : frame :=
  frame0 {{ f_kind := "call.cancel"; f_callID := id; f_reason := reason }}.

Definition flowViolation (rt : nat) (byInstance : bool) (now : Z) (r : Router) : Router :=
  let x := r_rstore r rt in
  let message := if byInstance
    then "Service instance sent a stream item beyond granted credit"%string
    else "Client sent a stream item beyond granted credit"%string in
  let instance := if byInstance then p_instanceID (peerOf r (rt_instance x)) else EmptyString in
  let r := if byInstance then observe_peer (rt_instance x) false now r else r in
  let violation := routerError (rt_id x) "protocol_error" message false
    "flow_control_violation" instance in
  let r := fail_joined rt violation None now r in
  let r := send (rt_client x) violation r in
  let r := send (rt_instance x) (cancel_frame (rt_id x) "flow_control_violation") r in
  endRoute (rt_id x) rt r.

(** [refuse] of forward: the error is recorded and sent to the caller. *)
Definition refuse (p : nat) (f e : frame) (now : Z) (r : Router) : Router :=
  let r := match f_error e with Some err => refuse_metric f (e_code err) now r | None => r end in
  send p e r.

Definition keyed_unary (f : frame) (stream : string) : bool :=
  negb (is_empty (f_idempotency f)) && String.eqb stream "unary".

Inductive dedup_answer :=
  | Replay (result : frame)
  | Join (d : nat)
  | Execute (avoid : option nat).

(** What the table says about a keyed call; a tombstone is dropped. *)
Definition consult_dedup (f : frame) (stream : string) (now : Z) (r : Router)
    : Router * dedup_answer :=
  if keyed_unary f stream then
    let '(r, entry) := dedupLookup (dedupKey f) now r in
    match entry with
    | None => (r, Execute None)
    | Some d =>
        match d_result (entryOf r d), d_route (entryOf r d) with
        | Some result, _ => (r, Replay result)
        | None, Some _ => (r, Join d)
        | None, None => (dedupRemove d r, Execute (d_lastInstance (entryOf r d)))
        end
    end
  else (r, Execute None).

Definition new_route (p : nat) (f : frame) (instance : nat) (now : Z) : route :=
  Route (f_callID f) (f_service f) (f_method f) now p instance 0 (-1) None 0 0.

Definition timeout_ns (ms : Z) : Z := int64 (ms * Millisecond).

(** The route of a call that goes to [instance]. *)
Definition open_route (p : nat) (f : frame) (stream : string) (instance : nat) (now : Z)
    (r : Router) : Router :=
  let rt := r_next r in
  let r := r {{ r_next ::= S }} in
  let r := upd_route rt (fun _ => new_route p f instance now) r in
  let r := r {{ r_routes ::= insert (f_callID f) rt }} in
  let r := upd_peer instance (fun x => x {{ p_inflight ::= Z.add 1 }}) r in
  let r := upd_peer p (fun x => x {{ p_calls ::= Z.add 1 }}) r in
  let r := match f_timeoutMS f with
           | Some ms => track rt (timeout_ns ms) now r
           | None => r
           end in
  let r := if keyed_unary f stream then dedupInsert (dedupKey f) rt r else r in
  send instance f r.

Definition routeCapacity : Z := 65536.

Definition is_whoami (f : frame) : bool :=
  String.eqb (f_service f) AuthService && String.eqb (f_method f) "whoami".

(** Frames of a call that is already routed. *)
Definition forward_client (p rt : nat) (f : frame) (now : Z) (r : Router) : Router :=
  let '(x, ok) := credit (r_rstore r rt) f in
  let r := upd_route rt (fun _ => x) r in
  if negb (ok : bool) then flowViolation rt false now r
  else
    let r := send (rt_instance x) f r in
    if String.eqb (f_kind f) "call.cancel"
    then endRoute (f_callID f) rt (finishRoute x "cancelled" now r)
    else r.

Definition forward_server (p rt : nat) (f : frame) (now : Z) (r : Router) : Router :=
  let '(x, ok) := credit (r_rstore r rt) f in
  let r := upd_route rt (fun _ => x) r in
  if negb (ok : bool) then flowViolation rt true now r
  else
    let r := send (rt_client x) f r in
    if String.eqb (f_kind f) "call.result" || String.eqb (f_kind f) "call.error" then
      let r := observe_peer p (negb (instanceFailed f)) now r in
      let r := match rt_dedup x with Some d => dedupSettle d f now r | None => r end in
      let code := match f_error f with Some e => e_code e | None => "ok"%string end in
      endRoute (f_callID f) rt (finishRoute x code now r)
    else r.

Section forward.
Context `{Crypto, Floats}.

(** The part of call.open behind the admission checks. *)
Definition dispatch (p : nat) (f : frame) (e : Env) (r : Router) : Router :=
  let now := e_now e in
  let stream := methodStream r (f_service f) (f_method f) in
  if negb (is_empty (f_idempotency f)) && String.eqb stream "duplex"
  then refuse p f (routerError (f_callID f) "invalid_argument"
         "Duplex calls are never replayed and take no idempotency key" false
         "idempotency_key_on_duplex" "") now r
  else
    let '(r, dedup) := consult_dedup f stream now r in
    match dedup with
    | Replay result => send p (withCallID result (f_callID f)) r
    | Join d =>
        r |> upd_dedup d (fun x => x {{ d_waiters := d_waiters x ++ [(p, f_callID f)] }})
          |> upd_peer p (fun x => x {{ p_calls ::= Z.add 1 }})
    | Execute avoid =>
        let '(r, selected) := selectInstance f avoid e r in
        match selected with
        | inr err => refuse p f err now r
        | inl instance => open_route p f stream instance now r
        end
    end.

Definition call_open (p : nat) (f : frame) (e : Env) (r : Router) : Router :=
  let now := e_now e in
  let user := p_user (peerOf r p) in
  let limit := c_MaxCallsPerConnection (r_config r) in
  if negb (is_whoami f) && negb (allowsCall user (f_service f) (f_method f))
  then refuse p f (callError (f_callID f) "permission_denied" "Call is not permitted" false) now r
  else if bool_decide (is_Some (r_routes r !! f_callID f))
  then refuse p f (callError (f_callID f) "protocol_error" "Duplicate call_id" false) now r
  else if r_draining r
  then refuse p f (routerError (f_callID f) "unavailable" "Router is shutting down" true
         "router_draining" "") now r
  else if HasPrefix (f_service f) reservedPrefix then management p f e r
  else if (0 <? limit) && (limit <=? p_calls (peerOf r p))
  then refuse p f (routerError (f_callID f) "resource_exhausted"
         "Too many calls in flight on this connection" true "overloaded" "") now r
  else if routeCapacity <=? route_count r
  then refuse p f (routerError (f_callID f) "resource_exhausted"
         "Router call capacity reached" true "overloaded" "") now r
  else dispatch p f e r.

Definition forward (p : nat) (f : frame) (e : Env) (r : Router) : Router :=
  let now := e_now e in
  let x := peerOf r p in
  if ctxErr r now p || negb (valid (r_auth r) (p_user x) now) then cancel p r
  else if String.eqb (f_kind f) "call.open" then call_open p f e r
  else match r_routes r !! f_callID f with
  | None => r
  | Some rt =>
      if String.eqb (p_role x) "client" && (rt_client (r_rstore r rt) =? p)%nat
      then forward_client p rt f now r
      else if String.eqb (p_role x) "server" && (rt_instance (r_rstore r rt) =? p)%nat
      then forward_server p rt f now r
      else r
  end.
End forward.

(** ** Leaving *)

(** One service of [leavePools]. *)
Definition leave_pool (p : nat) (s : service) (r : Router) : Router :=
  match r_services r !! s_name s with
  | None => r
  | Some po =>
      let po := po {{ po_instances ::= fun l => DeleteFunc l (fun c => (c =? p)%nat) }} in
      match po_instances po with
      | [] => r {{ r_services ::= delete (s_name s) }}
      | _ => r {{ r_services ::= insert (s_name s) (rebuildMethods (r_pstore r) po) }}
      end
  end.
Definition leavePools (p : nat) (r : Router) : Router :=
  fold_left (fun r s => leave_pool p s r) (p_services (peerOf r p)) r.

(** [r.instances[p.instanceID] == p]. *)
Definition is_registered (p : nat) (r : Router) : bool :=
  bool_decide (r_instances r !! p_instanceID (peerOf r p) = Some p).

Definition drain (p : nat) (r : Router) : Router :=
  if p_draining (peerOf r p) || negb (is_registered p r) then r
  else leavePools p (upd_peer p (fun x => x {{ p_draining := true }}) r).

(** One route of [remove]: of a client that left, or of a lost instance. *)
Definition remove_route (p : nat) (now : Z) (id : string) (r : Router) : Router :=
  match r_routes r !! id with
  | None => r
  | Some rt =>
      let x := r_rstore r rt in
      if (rt_client x =? p)%nat then
        let r := finishRoute x "cancelled" now r in
        let r := endRoute id rt r in
        send (rt_instance x) (cancel_frame id "client_disconnected") r
      else if (rt_instance x =? p)%nat then
        let lost := routerError id "unavailable" "Service instance disconnected" true
          "instance_lost" (p_instanceID (peerOf r p)) in
        let r := match owns_dedup r rt with
                 | Some d => dedupFail d lost (Some p) now r
                             |> upd_route rt (fun x => x {{ rt_dedup := None }})
                 | None => r
                 end in
        let r := finishRoute x "unavailable" now r in
        let r := endRoute id rt r in
        send (rt_client x) lost r
      else r
  end.

Definition peers_gone (r : Router) : Router :=
  if r_closed r && (size (r_peers r) =? 0)%nat then r {{ r_peersGone := true }} else r.

(** The registration a connection holds goes with it. *)
Definition unregister (p : nat) (r : Router) : Router :=
  if is_registered p r
  then leavePools p (r {{ r_instances ::= delete (p_instanceID (peerOf r p)) }})
  else r.

Definition remove (p : nat) (e : Env) (r : Router) : Router :=
  let r := peers_gone (r {{ r_peers ::= fun ps => ps ∖ {[p]} }}) in
  let r := unregister p r in
  fold_left (fun r id => remove_route p (e_now e) id r) (iter_keys e (r_routes r)) r.

(** ** Shutdown *)

Definition startDraining (r : Router) : Router :=
  if r_draining r then r
  else foldr wake_peer (r {{ r_draining := true; r_stopping := true }}) (elements (r_peers r)).

(** The locked part of [Shutdown]; [Close] follows, after the drain or the
    timeout. *)
Definition Shutdown (r : Router) : Router :=
  let r := startDraining r in
  if route_count r =? 0 then markDrained r else r.

(** Whether [Shutdown] still waits before [Close]. *)
Definition shutdown_waits (elapsed : Z) (r : Router) : bool :=
  (0 <? c_ShutdownTimeout (r_config r)) && negb (r_drained r) && negb (r_cancelled r)
  && (elapsed <? c_ShutdownTimeout (r_config r)).

Definition goingAway (p : nat) (r : Router) : bool :=
  r_stopping r &&
  (r_closed r || ((p_calls (peerOf r p) =? 0) && (p_inflight (peerOf r p) =? 0)))
  && empty (p_out (peerOf r p)).

Definition close_route (now : Z) (id : string) (r : Router) : Router :=
  match r_routes r !! id with
  | None => r
  | Some rt =>
      let x := r_rstore r rt in
      let shutdown := routerError id "unavailable" "Router shut down" true "router_shutdown" "" in
      let r := fail_joined rt shutdown None now r in
      let r := finishRoute x "unavailable" now r in
      let r := send (rt_client x) shutdown r in
      let r := send (rt_instance x) (cancel_frame id "router_shutdown") r in
      endRoute id rt r
  end.

(** The locked part of [Close], once; afterwards the Router waits for
    [r_peersGone] and cancels its context ([close_finish]). *)
Definition Close (e : Env) (r : Router) : Router :=
  if r_closed r then r
  else
    let r := startDraining r in
    let r := r {{ r_closed := true }} in
    let r := fold_left (fun r id => close_route (e_now e) id r) (iter_keys e (r_routes r)) r in
    let r := markDrained r in
    if (size (r_peers r) =? 0)%nat then r {{ r_peersGone := true }} else r.
Definition close_finish (r : Router) : Router := r {{ r_cancelled := true }}.

(** ** Snapshot *)

Record InstanceHealth := MkInstanceHealth {
  ih_Inflight : Z; ih_MaxInflight : Z; ih_Breaker : string; ih_Failures : Z; ih_Draining : bool }.
Record snapshot := MkSnapshot {
  sn_Instances : gmap string (list string);
  sn_Methods : gmap string (gmap string string);
  sn_Contracts : gmap string string;
  sn_Targeted : gmap string bool;
  sn_Routes : Z;
  sn_Peers : Z;
  sn_Health : gmap string InstanceHealth }.

Definition method_streams (po : pool) : gmap string string :=
  list_to_map ((fun kv => (m_name kv.2, m_stream kv.2)) <$> map_to_list (po_methods po)).

Definition Snapshot (now : Z) (r : Router) : snapshot :=
  MkSnapshot
    ((fun po => (fun c => p_instanceID (peerOf r c)) <$> po_instances po) <$> r_services r)
    (method_streams <$> r_services r)
    (omap po_contract (r_services r))
    (omap (fun po => if po_targeted po then Some true else None) (r_services r))
    (route_count r)
    (Z.of_nat (size (r_peers r)))
    ((fun p => let x := peerOf r p in
       MkInstanceHealth (p_inflight x) (p_maxInflight x) (breaker_text (state (p_health x) now))
         (h_failures (p_health x)) (p_draining x)) <$> r_instances r).
