(* ===== verification/SdkNames.v ===== *)
(** * Service names of the Go SDK

    [normalizeServiceName] of src/meshcall-go/service.go and its agreement with
    what the Router accepts in a registration (router.go's [validServiceName]).
    The two packages spell their four regular expressions alike, so the
    definitions of Router.v serve both. *)
From S2P Require Import Prelude GoStd Json LocalSock Protocol Outbox Breaker Libs Auth State.
From S2P Require Import Deadline Dedup Contract Balance Management OpenApi Router.
#[local] Open Scope Z_scope.
#[local] Arguments String.append !_ _ / : simpl nomatch.

(** ** Definitions *)

(** The three errors; the texts quote the name and the segment. *)
Inductive name_error :=
  | SeveralVersions (name : string)
  | InvalidSegment (name segment : string)
  | NeedsName (name : string).

(** The loop over the segments: [normalized], [version] and [names]. *)
Fixpoint normalize_segments (name : string) (segments normalized : list string)
    (version : string) (names : Z) : name_error + list string * string * Z :=
  match segments with
  | [] => inr (normalized, version, names)
  | segment :: rest =>
      if majorSegment segment then
        if negb (is_empty version) then inl (SeveralVersions name) else
        let major := drop_bytes 1 segment in
        match rest with
        | minor :: patch :: rest' =>
            if numericSegment minor && patchSegment patch
            then normalize_segments name rest' (normalized ++ [segment; minor; patch])
                   (major +:+ "." +:+ minor +:+ "." +:+ patch) names
            else normalize_segments name rest (normalized ++ [segment]) major names
        | _ => normalize_segments name rest (normalized ++ [segment]) major names
        end
      else if negb (nameSegment segment) then inl (InvalidSegment name segment)
      else normalize_segments name rest (normalized ++ [segment]) version (names + 1)
  end.

(** The normalised name and its version. *)
Definition normalizeServiceName (name : string) : name_error + string * string :=
  match normalize_segments name (Split "." name) [] EmptyString 0 with
  | inl err => inl err
  | inr (normalized, version, names) =>
      if names =? 0 then inl (NeedsName name)
      else
        let '(normalized, version) :=
          if is_empty version then (normalized ++ ["v0"%string], "0"%string)
          else (normalized, version) in
        inr (GoStd.Join "." normalized, version)
  end.

(** ** Splitting and joining *)

Definition dot_free (s : string) : Prop := ContainsByte s "." = false.

Lemma Split_dot_free s : Forall dot_free (Split "." s).
Proof.
  induction s as [|c s IH]; simpl; [by repeat constructor|].
  destruct (Ascii.eqb_spec c "."); [by constructor|].
  destruct (Split "." s) as [|w ws]; inversion IH; subst; constructor; auto.
  - unfold dot_free. cbn [ContainsByte]. by destruct (Ascii.eqb_spec "." c); [congruence|].
  - unfold dot_free in *. cbn [ContainsByte]. by destruct (Ascii.eqb_spec "." c); [congruence|].
Qed.

Lemma Split_word w : dot_free w -> Split "." w = [w].
Proof.
  unfold dot_free. induction w as [|c w IH]; cbn [ContainsByte Split String.append]; [done|].
  destruct (Ascii.eqb_spec "." c) as [->|]; [done|]. intros Hw.
  destruct (Ascii.eqb_spec c "."); [congruence|]. by rewrite IH.
Qed.

Lemma Split_app w t : dot_free w -> Split "." (w +:+ String "." t) = w :: Split "." t.
Proof.
  unfold dot_free. induction w as [|c w IH]; cbn [ContainsByte Split String.append]; [done|].
  destruct (Ascii.eqb_spec "." c) as [->|]; [done|]. intros Hw.
  destruct (Ascii.eqb_spec c "."); [congruence|]. by rewrite IH.
Qed.

Lemma Split_Join l : l <> [] -> Forall dot_free l -> Split "." (GoStd.Join "." l) = l.
Proof.
  induction l as [|w [|x l] IH]; intros Hl H; [done| |].
  - inversion H; subst. by apply Split_word.
  - inversion H; subst. change (GoStd.Join "." (w :: x :: l)) with (w +:+ String "." (GoStd.Join "." (x :: l))).
    by rewrite Split_app, IH.
Qed.

Lemma Join_Split s : GoStd.Join "." (Split "." s) = s.
Proof.
  induction s as [|c s IH]; simpl; [done|].
  destruct (Ascii.eqb_spec c ".") as [->|].
  - destruct (Split "." s) as [|w ws] eqn:E; [by apply Split_nonempty in E|]. simpl. by rewrite <- IH.
  - destruct (Split "." s) as [|w [|x ws]]; simpl in *; congruence.
Qed.

(** ** The loop of the SDK and the loop of the Router *)

Definition versions (version : string) : Z := if is_empty version then 0 else 1.

Lemma major_nonempty s : majorSegment s = true -> versions (drop_bytes 1 s) = 1.
Proof.
  unfold majorSegment. destruct s as [|c [|d s]]; simpl; rewrite ?andb_false_r; done.
Qed.

(** One round of each loop. *)
Lemma normalize_cons name s rest acc version names :
  normalize_segments name (s :: rest) acc version names =
  if majorSegment s then
    if negb (is_empty version) then inl (SeveralVersions name) else
    match rest with
    | minor :: patch :: rest' =>
        if numericSegment minor && patchSegment patch
        then normalize_segments name rest' (acc ++ [s; minor; patch])
               (drop_bytes 1 s +:+ "." +:+ minor +:+ "." +:+ patch) names
        else normalize_segments name rest (acc ++ [s]) (drop_bytes 1 s) names
    | _ => normalize_segments name rest (acc ++ [s]) (drop_bytes 1 s) names
    end
  else if negb (nameSegment s) then inl (InvalidSegment name s)
  else normalize_segments name rest (acc ++ [s]) version (names + 1).
Proof. done. Qed.

Lemma count_cons s rest v names :
  count_segments (s :: rest) v names =
  if majorSegment s then
    match rest with
    | minor :: patch :: rest' =>
        if numericSegment minor && patchSegment patch
        then count_segments rest' (v + 1) names else count_segments rest (v + 1) names
    | _ => count_segments rest (v + 1) names
    end
  else if nameSegment s then count_segments rest v (names + 1) else None.
Proof. done. Qed.

(** Induction on segments that may consume three at once. *)
Lemma segments_ind (P : list string -> Prop) :
  (forall l, (forall k, (length k < length l)%nat -> P k) -> P l) -> forall l, P l.
Proof. intros H l. induction l as [l IH] using (induction_ltof1 _ (@length string)). by apply H. Qed.

Lemma normalize_counts name l : forall acc version names norm version' names',
  normalize_segments name l acc version names = inr (norm, version', names') ->
  norm = acc ++ l /\
  count_segments l (versions version) names = Some (versions version', names').
Proof.
  induction l as [[|s rest] IH] using segments_ind; intros acc version names norm version' names';
    [simpl|rewrite normalize_cons, count_cons].
  { intros [= <- <- <-]. by rewrite app_nil_r. }
  destruct (majorSegment s) eqn:Hm.
  - pose proof (major_nonempty s Hm) as Hmaj.
    destruct (is_empty version) eqn:Hv; [cbn [negb]|done].
    replace (versions version) with 0 by (unfold versions; by rewrite Hv). change (0 + 1) with 1.
    assert (normalize_segments name rest (acc ++ [s]) (drop_bytes 1 s) names = inr (norm, version', names') ->
      norm = acc ++ s :: rest /\ count_segments rest 1 names = Some (versions version', names')) as Hone.
    { intros H. apply IH in H as [-> H]; [|simpl; lia]. rewrite Hmaj in H. by rewrite <- app_assoc. }
    destruct rest as [|minor [|patch rest]]; [exact Hone|exact Hone|].
    destruct (numericSegment minor && patchSegment patch); [|exact Hone].
    intros H. apply IH in H as [-> H]; [|simpl; lia]. rewrite <- app_assoc. split; [done|].
    replace (versions _) with 1 in H; [done|]. clear -Hmaj.
    by destruct (drop_bytes 1 s).
  - destruct (nameSegment s); [cbn [negb]|done]. intros H. apply IH in H as [-> H]; [|simpl; lia].
    by rewrite <- app_assoc.
Qed.

Lemma count_mono l : forall v names v' names', count_segments l v names = Some (v', names') -> v <= v'.
Proof.
  induction l as [[|s rest] IH] using segments_ind; intros v names v' names'; [simpl|rewrite count_cons].
  { intros [= <- <-]. lia. }
  assert (forall k w, (length k < length (s :: rest))%nat ->
    count_segments k w names = Some (v', names') -> v <= w -> v <= v') as Hk.
  { intros k w Hlt H Hw. apply IH in H; [lia|done]. }
  destruct (majorSegment s).
  - destruct rest as [|minor [|patch rest]]; try (intros H; eapply Hk; [|exact H|]; simpl; lia).
    destruct (_ && _); intros H; (eapply Hk; [|exact H|]; simpl; lia).
  - destruct (nameSegment s); [|done]. intros H. apply IH in H; [done|simpl; lia].
Qed.

Lemma counts_normalize name l : forall acc version names v' names',
  count_segments l (versions version) names = Some (v', names') -> v' <= 1 ->
  exists version', normalize_segments name l acc version names = inr (acc ++ l, version', names') /\
    versions version' = v'.
Proof.
  induction l as [[|s rest] IH] using segments_ind; intros acc version names v' names';
    [simpl|rewrite normalize_cons, count_cons].
  { intros [= <- <-] _. exists version. by rewrite app_nil_r. }
  destruct (majorSegment s) eqn:Hm.
  - pose proof (major_nonempty s Hm) as Hmaj. intros H Hle.
    assert (is_empty version = true) as Hv.
    { destruct (is_empty version) eqn:Hv; [done|]. exfalso. unfold versions in H. rewrite Hv in H.
      destruct rest as [|minor [|patch rest]]; [| |destruct (_ && _)];
        apply count_mono in H; lia. }
    replace (versions version) with 0 in H by (unfold versions; by rewrite Hv).
    rewrite Hv. change (0 + 1) with 1 in H. cbn [negb length] in *.
    assert (count_segments rest 1 names = Some (v', names') -> exists version',
      normalize_segments name rest (acc ++ [s]) (drop_bytes 1 s) names = inr (acc ++ s :: rest, version', names')
      /\ versions version' = v') as Hone.
    { intros H1. destruct (IH rest ltac:(lia) (acc ++ [s]) (drop_bytes 1 s) names v' names') as (w & Hw & Hv');
        [by rewrite Hmaj|done|]. exists w. by rewrite Hw, <- app_assoc. }
    destruct rest as [|minor [|patch rest]]; [by apply Hone|by apply Hone|].
    destruct (numericSegment minor && patchSegment patch); [|by apply Hone].
    edestruct (IH rest) as (w & Hw & Hv'); [simpl; lia| |exact Hle|exists w; rewrite Hw, <- app_assoc; done].
    replace (versions _) with 1; [exact H|]. clear -Hmaj. by destruct (drop_bytes 1 s).
  - destruct (nameSegment s); [cbn [negb]|done]. intros H Hle.
    destruct (IH rest ltac:(simpl; lia) (acc ++ [s]) version (names + 1) v' names' H Hle) as (w & Hw & Hv').
    exists w. by rewrite Hw, <- app_assoc.
Qed.

(** Without a version, every segment is a name. *)
Lemma unversioned l : forall v names names', count_segments l v names = Some (v, names') ->
  count_segments (l ++ ["v0"%string]) v names = Some (v + 1, names').
Proof.
  induction l as [|s rest IH]; intros v names names'; [simpl; by intros [= <-]|].
  rewrite <- app_comm_cons, !count_cons. destruct (majorSegment s).
  - intros H. exfalso. destruct rest as [|minor [|patch rest]]; [| |destruct (_ && _)];
      apply count_mono in H; lia.
  - destruct (nameSegment s); [|done]. apply IH.
Qed.

Lemma dot_free_v0 : dot_free "v0".
Proof. done. Qed.

(** What the Router counts in a normalised name. *)
Lemma normalized_counts name full version :
  normalizeServiceName name = inr (full, version) ->
  exists names, 0 < names /\ count_segments (Split "." full) 0 0 = Some (1, names).
Proof.
  unfold normalizeServiceName.
  destruct (normalize_segments _ _ _ _ _) as [|[[norm v] names]] eqn:E; [done|].
  destruct (Z.eqb_spec names 0); [done|]. apply normalize_counts in E as [-> Hc].
  change (versions EmptyString) with 0 in Hc. cbn [app].
  assert (0 < names) as Hn.
  { enough (0 <= names) by lia. clear -Hc. change 0 with (versions EmptyString) in Hc at 1.
    revert Hc. generalize (versions EmptyString), (versions v). intros a b.
    enough (forall l a n b m, count_segments l a n = Some (b, m) -> n <= m) as Hmono by apply Hmono.
    clear. induction l as [[|s rest] IH] using segments_ind; intros a n b m;
      [simpl; intros [= <- <-]; lia|rewrite count_cons].
    destruct (majorSegment s).
    - destruct rest as [|minor [|patch rest]]; [| |destruct (_ && _)];
        intros H; (eapply IH; [|exact H]; simpl; lia).
    - destruct (nameSegment s); [|done]. intros H. apply IH in H; [lia|simpl; lia]. }
  unfold versions in Hc. destruct (is_empty v) eqn:Hv; intros [= <- <-]; exists names; split; try done.
  - rewrite Split_Join; [by apply unversioned|by destruct (Split "." name)|].
    apply Forall_app. split; [apply Split_dot_free|by repeat constructor].
  - by rewrite Join_Split.
Qed.

(** The Router accepts it. *)
Lemma normalized_valid name full version :
  normalizeServiceName name = inr (full, version) -> validServiceName full = true.
Proof.
  intros (names & Hn & Hc)%normalized_counts. unfold validServiceName. rewrite Hc. lia.
Qed.

(** ** The agreement *)


