(* ===== verification/SdkRuntime.v ===== *)
(** * The runtime of the Go SDK: frames, errors, credit, retries

    src/meshcall-go: frame.go, errors.go, [creditWindow] of runtime.go, and the
    retry loop of client.go.  A mutex section is one function; a channel that is
    closed to wake waiters and replaced by a new one is a generation number. *)
From S2P Require Import Prelude GoStd Json.
#[local] Open Scope Z_scope.

(** ** Errors: errors.go *)

Definition CodeCancelled : string := "cancelled".
Definition CodeDeadlineExceeded : string := "deadline_exceeded".
Definition CodeInvalidArgument : string := "invalid_argument".
Definition CodeMethodNotFound : string := "method_not_found".
Definition CodeResourceExhausted : string := "resource_exhausted".
Definition CodeUnavailable : string := "unavailable".
Definition CodeProtocolError : string := "protocol_error".
Definition CodeInternal : string := "internal".

(** A nil map of details is the empty list; a key occurs once. *)
Record Error := MkError {
  er_Code : string;
  er_Message : string;
  er_Retryable : bool;
  er_Details : list (string * json) }.
#[global] Instance Error_eta : Eta Error := fun x =>
  MkError (er_Code x) (er_Message x) (er_Retryable x) (er_Details x).

(** The wire form, [errorPayload] of frame.go. *)
Record errorBody := ErrorBody {
  eb_code : string;
  eb_message : string;
  eb_retryable : bool;
  eb_details : list (string * json) }.

Definition error (code message : string) (retryable : bool) : Error :=
  MkError code message retryable [].

Fixpoint set_detail (k : string) (v : json) (d : list (string * json)) : list (string * json) :=
  match d with
  | [] => [(k, v)]
  | (k', v') :: d => if String.eqb k k' then (k, v) :: d else (k', v') :: set_detail k v d
  end.

(** [Error.Reason]: details.reason, or the empty string. *)
Definition Reason (e : Error) : string :=
  match lookup_last "reason" (er_Details e) with Some (JString s) => s | _ => EmptyString end.

Definition payload (e : Error) : errorBody :=
  ErrorBody (er_Code e) (er_Message e) (er_Retryable e) (er_Details e).
Definition errorFromPayload (p : errorBody) : Error :=
  MkError (eb_code p) (eb_message p) (eb_retryable p) (eb_details p).

Definition detailed (code message source reason : string) (retryable : bool) : Error :=
  MkError code message retryable
    (("source"%string, JString source)
     :: if is_empty reason then [] else [("reason"%string, JString reason)]).

(** [frameTooLarge]: what a call fails with whose frame was over the limit;
    [text] is the message of the error [conn.send] returned. *)
Definition frameTooLarge (source text : string) : Error :=
  detailed CodeResourceExhausted ("Not sent: " +:+ text) source "frame_too_large" false.

(** ** Frames: frame.go *)

Record methodShape := MethodShape { ms_name : string; ms_stream : string;
  ms_balance : string * option string }.
Record registration := Registration { rg_name : string; rg_methods : list methodShape;
  rg_targeted : bool; rg_contract : option string }.

Record sframe := SFrame {
  sf_Kind : string;
  sf_CallID : string;
  sf_Protocol : string;
  sf_Role : string;
  sf_PeerID : string;
  sf_Connection : string;
  sf_InstanceID : string;
  sf_Services : list registration;
  sf_MaxInflight : Z;
  sf_Service : string;
  sf_Method : string;
  sf_Payload : option string;
  sf_TimeoutMS : option Z;
  sf_Idempotency : string;
  sf_IdleTimeout : option Z;
  sf_Metadata : list (string * string);
  sf_Error : option errorBody;
  sf_Reason : string;
  sf_Direction : string;
  sf_Sequence : option Z;
  sf_Credit : option Z;
  sf_Nonce : string }.
#[global] Instance sframe_eta : Eta sframe := fun x =>
  SFrame (sf_Kind x) (sf_CallID x) (sf_Protocol x) (sf_Role x) (sf_PeerID x)
    (sf_Connection x) (sf_InstanceID x) (sf_Services x) (sf_MaxInflight x) (sf_Service x)
    (sf_Method x) (sf_Payload x) (sf_TimeoutMS x) (sf_Idempotency x) (sf_IdleTimeout x)
    (sf_Metadata x) (sf_Error x) (sf_Reason x) (sf_Direction x) (sf_Sequence x)
    (sf_Credit x) (sf_Nonce x).

(** A frame literal names its kind and sets what it needs. *)
Definition sframe0 (kind : string) : sframe :=
  SFrame kind "" "" "" "" "" "" [] 0 "" "" None None "" None [] None "" "" None None "".

Definition windowFrame (direction : string) (credit : Z) : sframe :=
  (sframe0 "stream.window") {{ sf_Direction := direction; sf_Credit := Some credit }}.
Definition itemFrame (direction : string) (sequence : Z) (payload : option string) : sframe :=
  (sframe0 "stream.item")
    {{ sf_Direction := direction; sf_Sequence := Some sequence; sf_Payload := payload }}.
Definition endFrame (direction : string) : sframe :=
  (sframe0 "stream.end") {{ sf_Direction := direction }}.

(** ** Credit: runtime.go *)

Definition initialStreamCredit : Z := 16.

(** [wake] counts how often the channel was closed and replaced. *)
Record creditWindow := CreditWindow {
  cw_n : Z;
  cw_wake : nat;
  cw_closed : option Error }.
#[global] Instance creditWindow_eta : Eta creditWindow := fun x =>
  CreditWindow (cw_n x) (cw_wake x) (cw_closed x).

Definition newCreditWindow : creditWindow := CreditWindow 0 0 None.

Definition grantCredit (n : Z) (w : creditWindow) : creditWindow :=
  w {{ cw_n ::= fun c => int64 (c + n); cw_wake ::= S }}.

Definition closeCredit (err : Error) (w : creditWindow) : creditWindow :=
  match cw_closed w with
  | Some _ => w
  | None => w {{ cw_closed := Some err; cw_wake ::= S }}
  end.

(** One round of [acquire]: a unit of credit, the error that closed the window,
    or the channel to wait on. *)
Inductive acquired :=
  | Acquired
  | Closed (err : Error)
  | Wait (wake : nat).
Definition acquire (w : creditWindow) : acquired * creditWindow :=
  match cw_closed w with
  | Some err => (Closed err, w)
  | None =>
      if 0 <? cw_n w then (Acquired, w {{ cw_n ::= Z.add (-1) }})
      else (Wait (cw_wake w), w)
  end.
(** Whether a waiter that holds the channel [wake] is woken. *)
Definition woken (wake : nat) (w : creditWindow) : bool := (wake <? cw_wake w)%nat.

(** *** No wake-up is lost *)

Inductive windowOp := Grant (n : Z) | Close (err : Error) | Take.
Definition window_op (op : windowOp) (w : creditWindow) : creditWindow :=
  match op with
  | Grant n => grantCredit n w
  | Close err => closeCredit err w
  | Take => snd (acquire w)
  end.
Definition window_ops (ops : list windowOp) (w : creditWindow) : creditWindow :=
  fold_left (fun w op => window_op op w) ops w.
(** Whether [acquire] would have to wait. *)
Definition waits (w : creditWindow) : bool :=
  match fst (acquire w) with Wait _ => true | _ => false end.

Lemma window_op_wake op w : (cw_wake w <= cw_wake (window_op op w))%nat.
Proof. destruct op; cbn; unfold closeCredit, acquire; repeat case_match; cbn; lia. Qed.
Lemma window_ops_wake ops w : (cw_wake w <= cw_wake (window_ops ops w))%nat.
Proof.
  unfold window_ops. revert w. induction ops as [|op ops IH]; intros w; [done|].
  cbn [fold_left]. etrans; [apply (window_op_wake op)|apply IH].
Qed.
(** A section that ends the waiting closes the channel. *)
Lemma window_op_wakes op w : waits w = true -> waits (window_op op w) = false ->
  cw_wake (window_op op w) = S (cw_wake w).
Proof.
  destruct op as [n|err|]; cbn [window_op]; [done|..]; unfold waits at 1; unfold acquire.
  - unfold closeCredit. by destruct (cw_closed w).
  - destruct (cw_closed w) eqn:E; [done|]. destruct (Z.ltb_spec 0 (cw_n w)); [done|].
    cbn [snd]. unfold waits, acquire. rewrite E. by destruct (Z.ltb_spec 0 (cw_n w)); [lia|].
Qed.

(** A goroutine that waits for credit is woken before there is anything to
    wake it for: whatever grants, closes and other takers do, once [acquire] would
    answer, the channel the waiter holds is closed. *)
Theorem credit_no_lost_wakeup ops w : waits w = true -> waits (window_ops ops w) = false ->
  woken (cw_wake w) (window_ops ops w) = true.
Proof.
  revert w. induction ops as [|op ops IH]; intros w Hw Hn; [cbn in Hn; congruence|].
  unfold window_ops in *. cbn [fold_left] in *. unfold woken. apply Nat.ltb_lt.
  destruct (waits (window_op op w)) eqn:E.
  - specialize (IH _ E Hn). apply Nat.ltb_lt in IH. pose proof (window_op_wake op w). lia.
  - pose proof (window_op_wakes op w Hw E). pose proof (window_ops_wake ops (window_op op w)).
    unfold window_ops in *. lia.
Qed.
Lemma credit_no_lost_wakeup_witness :
  waits newCreditWindow = true /\ woken 0 (window_ops [Grant 1; Take; Grant 2] newCreditWindow) = true.
Proof.
  split; [done|]. by apply (credit_no_lost_wakeup [Grant 1; Take; Grant 2] newCreditWindow).
Defined.
