(* ===== verification/SdkClient.v ===== *)
(** * One call of the Go client: [clientCall] of src/meshcall-go/client.go

    A method of [clientCall] takes its mutex several times; between two sections
    other goroutines run.  Here a goroutine is a list of actions, an action is
    one section, and [cexec] runs one: it returns the call, what the goroutine
    does next and the frames it put on the connection. *)
From S2P Require Import Prelude GoStd Json SdkRuntime.
#[local] Open Scope Z_scope.

(** ** State *)

Record clientCall := ClientCall {
  cc_id : string;
  cc_stream : string;
  cc_queue : list sframe;
  cc_wake : nat;                        (* generations of the wake channel *)
  cc_failure : option Error;
  cc_terminal : bool;
  cc_trailers : list (string * string);
  cc_inputCredit : option creditWindow; (* nil without an input stream *)
  cc_inputSeq : Z;
  cc_inputClosed : bool;
  cc_outputAllowance : Z;
  cc_expectedSeq : Z;
  cc_outputEnded : bool;
  cc_idle : Z;
  cc_idleTimer : bool;                  (* whether it runs *)
  cc_listed : bool }.                   (* whether client.calls holds the call *)
#[global] Instance clientCall_eta : Eta clientCall := fun x =>
  ClientCall (cc_id x) (cc_stream x) (cc_queue x) (cc_wake x) (cc_failure x)
    (cc_terminal x) (cc_trailers x) (cc_inputCredit x) (cc_inputSeq x) (cc_inputClosed x)
    (cc_outputAllowance x) (cc_expectedSeq x) (cc_outputEnded x) (cc_idle x)
    (cc_idleTimer x) (cc_listed x).

Definition hasInput (stream : string) : bool :=
  String.eqb stream "client_stream" || String.eqb stream "duplex".
Definition hasOutput (stream : string) : bool :=
  String.eqb stream "server_stream" || String.eqb stream "duplex".

(** The call that [open] puts into client.calls. *)
Definition newClientCall (id stream : string) (idle : Z) : clientCall :=
  ClientCall id stream [] 0 None false []
    (if hasInput stream then Some newCreditWindow else None) 0 false 0 0 false idle false true.

(** ** Actions *)

(** What [conn.send] answers: written, over the size limit, connection lost. *)
Inductive sendOutcome := Sent | TooLarge (text : string) | Lost.

Inductive caction :=
  (* open *)
  | COpenOutput
  (* deliver *)
  | CGrant (n : Z)
  | CAccept (f : sframe)
  | CEndOutput
  | CTerminal (f : sframe)
  | CEnqueue (f : sframe)
  (* next, with what decoding the item answers; result *)
  | CRecv (undecodable : option Error)
  | CResult
  (* fail, abort, done *)
  | CFail (err : Error)
  | CAbort (err : Error) (reason : string)
  | CStopIdle
  | CCloseCredit
  | CUnlist
  | CArm
  (* consumed *)
  | CConsumed
  (* sendInput, closeInput *)
  | CCheckOpen (payload : string)
  | CAcquire (payload : string)
  | CNumber (payload : string)
  | CSendItem (f : sframe)
  | CCloseInput
  (* conn.send, its error ignored *)
  | CSend (f : sframe).

Definition protocolFailure (message : string) : Error := error CodeProtocolError message false.

(** [deliver]: the checks that read no state come first. *)
Definition deliver (f : sframe) (call : clientCall) : list caction :=
  let kind k := String.eqb (sf_Kind f) k in
  if kind "stream.window"%string then
    match cc_inputCredit call, sf_Credit f with
    | Some _, Some n =>
        if negb (String.eqb (sf_Direction f) "client") || (n <=? 0)
        then [CFail (protocolFailure "Invalid input stream window")] else [CGrant n]
    | _, _ => [CFail (protocolFailure "Invalid input stream window")]
    end
  else if kind "stream.item"%string then [CAccept f]
  else if kind "stream.end"%string then [CEndOutput]
  else if kind "call.result"%string || kind "call.error"%string
  then [CTerminal f; CStopIdle; CCloseCredit; CUnlist; CEnqueue f]
  else [CEnqueue f].

(** The check of an item: direction, end, allowance and sequence number. *)
Definition acceptable (f : sframe) (call : clientCall) : bool :=
  String.eqb (sf_Direction f) "server" && negb (cc_outputEnded call)
  && (0 <? cc_outputAllowance call)
  && match sf_Sequence f with Some s => s =? cc_expectedSeq call | None => false end.

Definition enqueue (f : sframe) (call : clientCall) : clientCall :=
  call {{ cc_queue ::= fun q => q ++ [f]; cc_wake ::= S }}.

(** [fail]: the call, and whether [done] follows. *)
Definition fail (err : Error) (call : clientCall) : clientCall * bool :=
  match cc_failure call with
  | Some _ => (call, false)
  | None =>
      if cc_terminal call && negb (length (cc_queue call) =? 0)%nat then (call, false)
      else (call {{ cc_failure := Some err; cc_terminal := true; cc_wake ::= S }}, true)
  end.
Definition done_ : list caction := [CStopIdle; CCloseCredit; CUnlist].

Definition closeInputCredit (call : clientCall) : clientCall :=
  match cc_inputCredit call with
  | Some w => call {{ cc_inputCredit := Some (closeCredit (error CodeCancelled "Call is closed" false) w) }}
  | None => call
  end.

Definition armIdle (call : clientCall) : clientCall :=
  if cc_idle call <=? 0 then call
  else call {{ cc_idleTimer := negb (cc_outputEnded call || cc_terminal call) }}.

(** [consumed]: the call, and whether a credit goes out. *)
Definition consumed (call : clientCall) : clientCall * bool :=
  if negb (cc_outputEnded call) && negb (cc_terminal call)
  then (call {{ cc_outputAllowance ::= fun n => int64 (n + 1) }}, true) else (call, false).

(** The head of the queue for [next]. *)
Definition dequeue (call : clientCall) : option sframe * clientCall :=
  match cc_queue call with
  | f :: q => (Some f, call {{ cc_queue := q }})
  | [] => (None, call)
  end.

(** [Stream.Recv] behind [next]. *)
Definition recv (undecodable : option Error) (f : sframe) : list caction :=
  if String.eqb (sf_Kind f) "stream.item" then
    match undecodable with
    | Some err => [CAbort err "invalid_output_item"]
    | None => [CConsumed]
    end
  else if String.eqb (sf_Kind f) "call.result" || String.eqb (sf_Kind f) "call.error" then []
  else [CRecv undecodable].

Definition cancelFrame (id reason : string) : sframe :=
  (sframe0 "call.cancel") {{ sf_CallID := id; sf_Reason := reason }}.

(** [conn.send] of a frame of this call. *)
Definition sendCall (o : sendOutcome) (f : sframe) (call : clientCall) : list sframe :=
  match o with Sent => [f {{ sf_CallID := cc_id call }}] | _ => [] end.

(** One section; [o] is what [conn.send] answers if it sends. *)
Definition cexec (o : sendOutcome) (a : caction) (call : clientCall)
    : clientCall * list caction * list sframe :=
  match a with
  | COpenOutput =>
      (call {{ cc_outputAllowance := initialStreamCredit }},
       [CSend (windowFrame "server" initialStreamCredit); CArm], [])
  | CGrant n =>
      (call {{ cc_inputCredit ::= fmap (M := option) (grantCredit n) }}, [], [])
  | CAccept f =>
      if acceptable f call
      then (call {{ cc_outputAllowance ::= fun n => int64 (n - 1);
                    cc_expectedSeq ::= fun n => int64 (n + 1) }}, [CArm; CEnqueue f], [])
      else (call, [CFail (protocolFailure "Invalid output stream item, sequence, or credit")], [])
  | CEndOutput => (call {{ cc_outputEnded := true; cc_idleTimer := false }}, [], [])
  | CTerminal f => (call {{ cc_terminal := true; cc_trailers := sf_Metadata f }}, [], [])
  | CEnqueue f => (enqueue f call, [], [])
  | CRecv undecodable =>
      match dequeue call with
      | (Some f, call) => (call, recv undecodable f, [])
      | (None, call) =>
          (call, match cc_failure call with Some _ => [] | None => [CRecv undecodable] end, [])
      end
  | CResult =>
      match dequeue call with
      | (Some f, call) =>
          (call, if String.eqb (sf_Kind f) "call.result" || String.eqb (sf_Kind f) "call.error"
                 then [] else [CResult], [])
      | (None, call) =>
          (call, match cc_failure call with Some _ => [] | None => [CResult] end, [])
      end
  | CFail err =>
      let '(call, ended) := fail err call in (call, if (ended : bool) then done_ else [], [])
  | CAbort err reason =>
      (call, if cc_terminal call then [] else [CFail err; CSend (cancelFrame (cc_id call) reason)], [])
  | CStopIdle => (call {{ cc_idleTimer := false }}, [], [])
  | CCloseCredit => (closeInputCredit call, [], [])
  | CUnlist => (call {{ cc_listed := false }}, [], [])
  | CArm => (armIdle call, [], [])
  | CConsumed =>
      let '(call, open) := consumed call in
      (call, if (open : bool) then [CSend (windowFrame "server" 1)] else [], [])
  | CCheckOpen payload => (call, if cc_inputClosed call then [] else [CAcquire payload], [])
  | CAcquire payload =>
      match cc_inputCredit call with
      | None => (call, [], [])
      | Some w =>
          let '(got, w) := acquire w in
          (call {{ cc_inputCredit := Some w }},
           match got with
           | Acquired => [CNumber payload]
           | Closed _ => []
           | Wait _ => [CAcquire payload]
           end, [])
      end
  | CNumber payload =>
      (call {{ cc_inputSeq ::= fun n => int64 (n + 1) }},
       [CSendItem (itemFrame "client" (cc_inputSeq call) (Some payload))], [])
  | CSendItem f =>
      (call,
       match o with
       | TooLarge text => [CAbort (frameTooLarge "client" text) "frame_too_large"]
       | _ => []
       end, sendCall o f call)
  | CCloseInput =>
      (call {{ cc_inputClosed := true }},
       if cc_inputClosed call then [] else [CSend (endFrame "client")], [])
  | CSend f => (call, [], sendCall o f call)
  end.

(** ** Programs of the goroutines *)

(** [sendInput]: [CAcquire] leaves the program when its context ends. *)
Definition sendInput (payload : string) : list caction := [CCheckOpen payload].
Definition closeInput : list caction := [CCloseInput].
(** What [open] runs once call.open is sent. *)
Definition opened (stream : string) : list caction :=
  if hasOutput stream then [COpenOutput] else [].
