(* ===== verification/SdkServer.v ===== *)
(** * One call of the Go server: [serverCall] of src/meshcall-go/server.go

    Goroutines are lists of actions as in SdkClient.v; [sexec] runs one section. *)
From S2P Require Import Prelude GoStd Json SdkRuntime SdkClient.
#[local] Open Scope Z_scope.

(** ** State *)

(** Of a method: its shape and whether it has input, output and a response. *)
Record smethod := SMethod {
  sm_stream : string;
  sm_input : bool;
  sm_output : bool;
  sm_response : bool }.

(** What [HandleUnary], [HandleServerStream], [HandleClientStream] and
    [HandleDuplex] declare. *)
Definition unaryMethod : smethod := SMethod "unary" false false true.
Definition serverStreamMethod : smethod := SMethod "server_stream" false true false.
Definition clientStreamMethod : smethod := SMethod "client_stream" true false true.
Definition duplexMethod : smethod := SMethod "duplex" true true false.

(** An input item, the end of input, or what ended the call. *)
Inductive inputEvent :=
  | Item (data : string)
  | EndOfInput
  | Broken (err : Error).

Record serverCall := ServerCall {
  sc_CallID : string;
  sc_method : smethod;
  sc_idleTimeout : option Z;
  sc_cause : option Error;              (* of the cancelled context *)
  sc_credit : creditWindow;
  sc_trailers : list (string * string);
  sc_inputQueue : list inputEvent;
  sc_inputWake : nat;
  sc_inputAllowance : Z;
  sc_inputSequence : Z;
  sc_inputClosed : bool;
  sc_idleTimer : bool;
  sc_outputSequence : Z;
  sc_outputClosed : bool;
  sc_terminal : bool;
  sc_listed : bool;                     (* whether session.calls holds the call *)
  sc_counted : bool }.                  (* whether server.inflight counts it *)
#[global] Instance serverCall_eta : Eta serverCall := fun x =>
  ServerCall (sc_CallID x) (sc_method x) (sc_idleTimeout x) (sc_cause x) (sc_credit x)
    (sc_trailers x) (sc_inputQueue x) (sc_inputWake x) (sc_inputAllowance x)
    (sc_inputSequence x) (sc_inputClosed x) (sc_idleTimer x) (sc_outputSequence x)
    (sc_outputClosed x) (sc_terminal x) (sc_listed x) (sc_counted x).

Definition newServerCall (f : sframe) (m : smethod) : serverCall :=
  ServerCall (sf_CallID f) m (sf_IdleTimeout f) None newCreditWindow [] [] 0 0 0 false false
    0 false false false false.

(** An error a handler returns. *)
Inductive handlerError :=
  | MeshError (err : Error)
  | ContextCanceled
  | ContextDeadline
  | OtherError.

(** ** Actions *)

Inductive saction :=
  (* run *)
  | SOpenInput
  (* receive *)
  | SGrant (n : Z)
  | SAccept (f : sframe)
  | SEndInput (f : sframe)
  | SPush (event : inputEvent)
  | SArm
  (* nextInput *)
  | SNext
  | SAllow
  (* sendOutput, closeOutput *)
  | SAcquire (payload : string)
  | SOutput (payload : string)
  | SCloseOutput
  (* the end of run: what the handler returned; closing the output *)
  | SInvoked (result : handlerError + option string)
  | SReturn (payload : option string)
  (* abort, finish, cleanup *)
  | SCancel (err : Error)
  | SCloseCredit (err : Error)
  | SFinish (f : sframe)
  | SSendFinal (f : sframe)
  | SStopIdle
  | SUnlist
  | SRelease
  (* send, its error ignored *)
  | SSend (f : sframe).

Definition sabort (err : Error) : list saction := [SCancel err; SCloseCredit err; SPush (Broken err)].

Definition callErrorFrame (err : Error) : sframe :=
  (sframe0 "call.error") {{ sf_Error := Some (payload err) }}.
Definition callResultFrame (payload : option string) : sframe :=
  (sframe0 "call.result") {{ sf_Payload := payload }}.

(** [errorOf]: the cause of a cancelled context comes before the error. *)
Definition errorOf (cause : option Error) (err : handlerError) : Error :=
  match cause, err with
  | Some e, _ => e
  | None, MeshError e => e
  | None, ContextCanceled => error CodeCancelled "Call was cancelled" false
  | None, ContextDeadline => detailed CodeDeadlineExceeded "Call deadline exceeded" "server" "" false
  | None, OtherError => error CodeInternal "Internal service error" false
  end.

(** An end from the outside: abort, then the terminal frame. *)
Definition endWith (err : Error) : list saction := sabort err ++ [SFinish (callErrorFrame err)].
Definition sprotocolError (message : string) : list saction :=
  endWith (error CodeProtocolError message false).
Definition idleExpired : list saction :=
  endWith (detailed CodeDeadlineExceeded "Input stream idle timeout" "server" "idle" false).

(** [receive]: the checks that read no state come first. *)
Definition receive (f : sframe) (call : serverCall) : list saction :=
  let kind k := String.eqb (sf_Kind f) k in
  if kind "call.cancel"%string then endWith (error CodeCancelled "Call was cancelled" false)
  else if kind "stream.window"%string then
    match sf_Credit f with
    | Some n =>
        if negb (String.eqb (sf_Direction f) "server") || negb (sm_output (sc_method call)) || (n <=? 0)
        then sprotocolError "Invalid output stream window" else [SGrant n]
    | None => sprotocolError "Invalid output stream window"
    end
  else if kind "stream.item"%string then [SAccept f]
  else if kind "stream.end"%string then [SEndInput f]
  else [].

Definition sacceptable (f : sframe) (call : serverCall) : bool :=
  sm_input (sc_method call) && String.eqb (sf_Direction f) "client"
  && negb (sc_inputClosed call) && (0 <? sc_inputAllowance call)
  && match sf_Sequence f with Some s => s =? sc_inputSequence call | None => false end.

Definition pushInput (event : inputEvent) (call : serverCall) : serverCall :=
  call {{ sc_inputClosed := match event with Item _ => sc_inputClosed call | _ => true end;
          sc_inputQueue ::= fun q => q ++ [event];
          sc_inputWake ::= S }}.

Definition sarmIdle (call : serverCall) : serverCall :=
  match sc_idleTimeout call with
  | None => call
  | Some _ => call {{ sc_idleTimer := negb (sc_inputClosed call) }}
  end.

(** [send] of a frame of this call. *)
Definition ssendCall (o : sendOutcome) (f : sframe) (call : serverCall) : list sframe :=
  match o with Sent => [f {{ sf_CallID := sc_CallID call }}] | _ => [] end.

(** The section of [sendOutput] under outputMu, the sending included; a frame
    over the limit cancels the call. *)
Definition output (o : sendOutcome) (payload : string) (call : serverCall)
    : serverCall * list saction * list sframe :=
  if sc_outputClosed call || sc_terminal call then (call, [], [])
  else
    let f := itemFrame "server" (sc_outputSequence call) (Some payload) in
    (call {{ sc_outputSequence ::= fun n => int64 (n + 1) }},
     match o with TooLarge text => [SCancel (frameTooLarge "server" text)] | _ => [] end,
     ssendCall o f call).

(** [closeOutput], under outputMu. *)
Definition closeOutput (o : sendOutcome) (call : serverCall) : serverCall * list sframe :=
  if sc_outputClosed call || sc_terminal call then (call, [])
  else (call {{ sc_outputClosed := true }}, ssendCall o (endFrame "server") call).

(** The end of [run] for a handler that returned no error. *)
Definition return_ (o : sendOutcome) (payload : option string) (call : serverCall)
    : serverCall * list saction * list sframe :=
  let open := hasOutput (sm_stream (sc_method call))
              && negb (sc_outputClosed call || sc_terminal call) in
  let '(call, out) := if open then closeOutput o call else (call, []) in
  let failure := match o with
    | Sent => None
    | TooLarge text => Some (MeshError (frameTooLarge "server" text))
    | Lost => Some OtherError
    end in
  (call,
   match (if open then failure else None) with
   | None => [SFinish (callResultFrame payload)]
   | Some err => [SFinish (callErrorFrame (errorOf (sc_cause call) err))]
   end, out).

Definition cleanup : list saction :=
  [SCancel (error CodeCancelled "Call is complete" false);
   SCloseCredit (error CodeCancelled "Call is closed" false); SStopIdle; SUnlist; SRelease].

Definition sexec (o : sendOutcome) (a : saction) (call : serverCall)
    : serverCall * list saction * list sframe :=
  match a with
  | SOpenInput =>
      (call {{ sc_inputAllowance := initialStreamCredit }},
       [SSend (windowFrame "client" initialStreamCredit); SArm], [])
  | SGrant n => (call {{ sc_credit ::= grantCredit n }}, [], [])
  | SAccept f =>
      if sacceptable f call
      then (call {{ sc_inputAllowance ::= fun n => int64 (n - 1);
                    sc_inputSequence ::= fun n => int64 (n + 1) }},
            [SArm; SPush (Item (default "null"%string (sf_Payload f)))], [])
      else (call, sprotocolError "Invalid input stream item, sequence, or credit", [])
  | SEndInput f =>
      let ok := sm_input (sc_method call) && String.eqb (sf_Direction f) "client"
                && negb (sc_inputClosed call) in
      (call {{ sc_inputClosed := true; sc_idleTimer := false }},
       if ok then [SPush EndOfInput] else sprotocolError "Invalid input stream end", [])
  | SPush event => (pushInput event call, [], [])
  | SArm => (sarmIdle call, [], [])
  | SNext =>
      match sc_inputQueue call with
      | Item _ :: q =>
          (call {{ sc_inputQueue := q }}, if sc_inputClosed call then [] else [SAllow], [])
      | (EndOfInput | Broken _) :: _ => (call, [], [])
      | [] => (call, match sc_cause call with Some _ => [] | None => [SNext] end, [])
      end
  | SAllow =>
      (call {{ sc_inputAllowance ::= fun n => int64 (n + 1) }}, [SSend (windowFrame "client" 1)], [])
  | SAcquire payload =>
      let '(got, w) := acquire (sc_credit call) in
      (call {{ sc_credit := w }},
       match got with
       | Acquired => [SOutput payload]
       | Closed _ => []
       | Wait _ => match sc_cause call with Some _ => [] | None => [SAcquire payload] end
       end, [])
  | SOutput payload => output o payload call
  | SCloseOutput => let '(call, out) := closeOutput o call in (call, [], out)
  | SInvoked result =>
      (call,
       match result, sc_cause call with
       | inr payload, None => [SReturn payload]
       | inr _, Some e => [SFinish (callErrorFrame e)]
       | inl err, cause => [SFinish (callErrorFrame (errorOf cause err))]
       end, [])
  | SReturn payload => return_ o payload call
  | SCancel err =>
      (call {{ sc_cause ::= fun c => match c with Some _ => c | None => Some err end }}, [], [])
  | SCloseCredit err => (call {{ sc_credit ::= closeCredit err }}, [], [])
  | SFinish f =>
      if sc_terminal call then (call, [], [])
      else (call {{ sc_terminal := true }},
            SSendFinal (match sc_trailers call with
                        | [] => f | t => f {{ sf_Metadata := t }} end) :: cleanup, [])
  | SSendFinal f =>
      (call, match o with
             | TooLarge text => [SSend (callErrorFrame (frameTooLarge "server" text))]
             | _ => [] end, ssendCall o f call)
  | SStopIdle => (call {{ sc_idleTimer := false }}, [], [])
  | SUnlist => (call {{ sc_listed := false }}, [], [])
  | SRelease => (call {{ sc_counted := false }}, [], [])
  | SSend f => (call, [], ssendCall o f call)
  end.

(** ** Programs of the goroutines *)

(** What [run] does before the handler and behind it, [sendOutput] of an item
    that encodes, and [nextInput]. *)
Definition running (m : smethod) : list saction := if hasInput (sm_stream m) then [SOpenInput] else [].
Definition sendOutput (payload : string) : list saction := [SAcquire payload].
Definition nextInput : list saction := [SNext].
Definition invoked (result : handlerError + option string) : list saction := [SInvoked result].
(** The deadline of the call, from call.open; the end of the connection. *)
Definition deadlineExpired : list saction :=
  [SCancel (detailed CodeDeadlineExceeded "Call deadline exceeded" "server" "" false)].
Definition connectionLost : list saction := sabort (error CodeUnavailable "Connection was lost" true).
