(* ===== verification/SdkLink.v ===== *)
(** * A streaming call from end to end

    A Go client call, the Router's route and a Go server call, joined by the
    connections between them.  Every goroutine of the two ends takes its sections
    one at a time, in any order; the Router forwards one frame at a time, with
    the credit check of router.go ([State.credit]) and the role check of
    [allowedFrame].  A connection keeps the order of its frames, as a WebSocket
    and the Router's outbox do (Outbox.v: one FIFO queue per call). *)
From S2P Require Import Prelude GoStd Json LocalSock Protocol Outbox Breaker Libs Auth State.
From S2P Require Import Deadline Dedup Contract Balance Management OpenApi Router.
From S2P Require Import SdkRuntime SdkClient SdkServer.
#[local] Open Scope Z_scope.

(** ** The system *)

(** A frame of the SDK as the Router decodes it. *)
Definition routed (f : sframe) : frame :=
  frame0 {{ f_kind := sf_Kind f; f_callID := sf_CallID f; f_payload := sf_Payload f;
            f_reason := sf_Reason f; f_direction := sf_Direction f;
            f_sequence := sf_Sequence f; f_credit := sf_Credit f }}.

(** Items and ends of a stream, the tokens of a direction. *)
Inductive token := TItem (sequence : Z) (payload : option string) | TEnd.
Definition token_of (direction : string) (f : sframe) : option token :=
  if String.eqb (sf_Direction f) direction then
    if String.eqb (sf_Kind f) "stream.item"
    then Some (TItem (default (-1) (sf_Sequence f)) (sf_Payload f))
    else if String.eqb (sf_Kind f) "stream.end" then Some TEnd else None
  else None.
Definition tokens (direction : string) (fs : list sframe) : list token :=
  omap (token_of direction) fs.

(** The goroutines are lists of actions: the reader of each end, the senders of
    the client (one unless the application sends from several goroutines), and
    any number of others.  [k_hup], [k_hdown], [k_gup] and [k_gdown] record what
    was put on the wire and what was accepted; nothing reads them. *)
Record link := Link {
  k_client : clientCall;
  k_creader : list caction;
  k_csenders : list (list caction);
  k_cothers : list (list caction);
  k_server : serverCall;
  k_sreader : list saction;
  k_sothers : list (list saction);
  k_route : option route;
  k_up1 : list sframe;      (* client to Router *)
  k_up2 : list sframe;      (* Router to server *)
  k_down1 : list sframe;    (* server to Router *)
  k_down2 : list sframe;    (* Router to client *)
  k_hup : list sframe;
  k_hdown : list sframe;
  k_gup : list token;
  k_gdown : list token }.
#[global] Instance link_eta : Eta link := fun k =>
  Link (k_client k) (k_creader k) (k_csenders k) (k_cothers k) (k_server k) (k_sreader k)
    (k_sothers k) (k_route k) (k_up1 k) (k_up2 k) (k_down1 k) (k_down2 k) (k_hup k)
    (k_hdown k) (k_gup k) (k_gdown k).

Definition send_up (fs : list sframe) (k : link) : link :=
  k {{ k_up1 ::= fun l => l ++ fs; k_hup ::= fun l => l ++ fs }}.
Definition send_down (fs : list sframe) (k : link) : link :=
  k {{ k_down1 ::= fun l => l ++ fs; k_hdown ::= fun l => l ++ fs }}.

(** What a section of a reader accepts. *)
Definition caccepts (a : caction) (call : clientCall) : list token :=
  match a with
  | CAccept f => if acceptable f call then tokens "server" [f] else []
  | CEndOutput => [TEnd]
  | _ => []
  end.
Definition saccepts (a : saction) (call : serverCall) : list token :=
  match a with
  | SAccept f => if sacceptable f call then tokens "client" [f] else []
  | SEndInput f => if sm_input (sc_method call) && negb (sc_inputClosed call) then tokens "client" [f] else []
  | _ => []
  end.

(** One section of a goroutine of the client or the server whose frames are
    written: [set] puts the rest of its program back. *)
Definition crun (a : caction) (rest : list caction) (set : list caction -> link -> link)
    (k : link) : link :=
  let '(call, next, out) := cexec Sent a (k_client k) in
  (set (next ++ rest) (send_up out k))
    {{ k_client := call; k_gdown ::= fun l => l ++ caccepts a (k_client k) }}.
Definition srun (a : saction) (rest : list saction) (set : list saction -> link -> link)
    (k : link) : link :=
  let '(call, next, out) := sexec Sent a (k_server k) in
  (set (next ++ rest) (send_down out k))
    {{ k_server := call; k_gup ::= fun l => l ++ saccepts a (k_server k) }}.

(** The Router forwards a frame of the client, as [forward_client] does. *)
Definition violationError (byInstance : bool) : Error :=
  detailed CodeProtocolError
    (if byInstance then "Service instance sent a stream item beyond granted credit"
     else "Client sent a stream item beyond granted credit")
    "router" "flow_control_violation" false.
Definition route_up (f : sframe) (k : link) : link :=
  match k_route k with
  | None => k
  | Some rt =>
      let '(rt, ok) := credit rt (routed f) in
      if allowedFrame "client" (routed f) && ok
      then k {{ k_up2 ::= fun l => l ++ [f];
                k_route := if String.eqb (sf_Kind f) "call.cancel" then None else Some rt }}
      else k {{ k_up2 ::= fun l => l ++ [cancelFrame (sf_CallID f) "flow_control_violation"];
                k_down2 ::= fun l => l ++ [callErrorFrame (violationError false)];
                k_route := None }}
  end.
Definition route_down (f : sframe) (k : link) : link :=
  match k_route k with
  | None => k
  | Some rt =>
      let '(rt, ok) := credit rt (routed f) in
      if allowedFrame "server" (routed f) && ok
      then k {{ k_down2 ::= fun l => l ++ [f];
                k_route := if String.eqb (sf_Kind f) "call.result" || String.eqb (sf_Kind f) "call.error"
                           then None else Some rt }}
      else k {{ k_up2 ::= fun l => l ++ [cancelFrame (sf_CallID f) "flow_control_violation"];
                k_down2 ::= fun l => l ++ [callErrorFrame (violationError true)];
                k_route := None }}
  end.

(** What the application, the timers and the contexts of the two ends may start. *)
Inductive cspawn : list caction -> Prop :=
  | SpawnRecv undecodable : cspawn [CRecv undecodable]
  | SpawnResult : cspawn [CResult]
  | SpawnAbort err reason : cspawn [CAbort err reason].
Inductive sspawn (call : serverCall) : list saction -> Prop :=
  | SpawnOutput payload : sspawn call (sendOutput payload)
  | SpawnInput : sspawn call nextInput
  | SpawnClose : sspawn call [SCloseOutput]
  | SpawnReturn result : sspawn call (invoked result)
  | SpawnDeadline : sspawn call deadlineExpired
  | SpawnLost : sspawn call connectionLost
  | SpawnIdle : sc_idleTimer call = true -> sspawn call idleExpired.

Definition set_creader (acts : list caction) (k : link) : link := k {{ k_creader := acts }}.
Definition set_csender (i : nat) (acts : list caction) (k : link) : link :=
  k {{ k_csenders ::= <[i := acts]> }}.
Definition set_cother (i : nat) (acts : list caction) (k : link) : link :=
  k {{ k_cothers ::= <[i := acts]> }}.
Definition set_sreader (acts : list saction) (k : link) : link := k {{ k_sreader := acts }}.
Definition set_sother (i : nat) (acts : list saction) (k : link) : link :=
  k {{ k_sothers ::= <[i := acts]> }}.

Inductive link_step (k : link) : link -> Prop :=
  (* the client *)
  | CRead f rest : k_creader k = [] -> k_down2 k = f :: rest ->
      link_step k (k {{ k_down2 := rest;
                        k_creader := if cc_listed (k_client k) then deliver f (k_client k) else [] }})
  | CReader a acts : k_creader k = a :: acts -> link_step k (crun a acts set_creader k)
  | CSender i a acts : k_csenders k !! i = Some (a :: acts) ->
      link_step k (crun a acts (set_csender i) k)
  | COther i a acts : k_cothers k !! i = Some (a :: acts) ->
      link_step k (crun a acts (set_cother i) k)
  | CStartSend i payload : k_csenders k !! i = Some [] -> hasInput (cc_stream (k_client k)) = true ->
      link_step k (set_csender i (sendInput payload) k)
  | CStartClose i : k_csenders k !! i = Some [] -> hasInput (cc_stream (k_client k)) = true ->
      link_step k (set_csender i closeInput k)
  | CInterrupt i payload acts : k_csenders k !! i = Some (CAcquire payload :: acts) ->
      link_step k (set_csender i acts k)
  | CStart acts : cspawn acts -> link_step k (k {{ k_cothers ::= fun l => l ++ [acts] }})
  (* the server *)
  | SRead f rest : k_sreader k = [] -> k_up2 k = f :: rest ->
      link_step k (k {{ k_up2 := rest;
                        k_sreader := if sc_listed (k_server k) then receive f (k_server k) else [] }})
  | SReader a acts : k_sreader k = a :: acts -> link_step k (srun a acts set_sreader k)
  | SOther i a acts : k_sothers k !! i = Some (a :: acts) ->
      link_step k (srun a acts (set_sother i) k)
  | SStart acts : sspawn (k_server k) acts ->
      link_step k (k {{ k_sothers ::= fun l => l ++ [acts] }})
  (* the Router; it may end the call for reasons of its own *)
  | RouteUp f rest : k_up1 k = f :: rest -> link_step k (route_up f (k {{ k_up1 := rest }}))
  | RouteDown f rest : k_down1 k = f :: rest -> link_step k (route_down f (k {{ k_down1 := rest }}))
  | RouteEnd err reason :
      link_step k (k {{ k_route := None;
                        k_down2 ::= fun l => l ++ [callErrorFrame err];
                        k_up2 ::= fun l => l ++ [cancelFrame (cc_id (k_client k)) reason] }}).

(** The call once its call.open was forwarded. *)
Definition link0 (senders : nat) (open : sframe) (idle : Z) (m : smethod) : link :=
  Link (newClientCall (sf_CallID open) (sm_stream m) idle) [] (replicate senders [])
    [opened (sm_stream m)]
    ((newServerCall open m) {{ sc_listed := true; sc_counted := true }}) [] [running m] (Some route0)
    [] [] [] [] [] [] [] [].

Inductive linked (senders : nat) : link -> Prop :=
  | Linked0 open idle m :
      m ∈ [unaryMethod; serverStreamMethod; clientStreamMethod; duplexMethod] ->
      linked senders (link0 senders open idle m)
  | LinkedStep k k' : linked senders k -> link_step k k' -> linked senders k'.
