(* ===== verification/SdkFlow.v ===== *)
(** * Flow control of a streaming call: the invariant

    For each direction, what the sender may still send, what is on its way and
    what was granted add up: the sender never outruns the Router's counter or the
    receiver's allowance, and the items arrive in the order they were numbered.
    The goroutines of a role are taken together, as one list of actions. *)
From S2P Require Import Prelude GoStd Json LocalSock Protocol Outbox Breaker Libs Auth State.
From S2P Require Import Deadline Dedup Contract Balance Management OpenApi Router.
From S2P Require Import SdkRuntime SdkClient SdkServer SdkLink.
#[local] Open Scope Z_scope.

(** ** Definitions *)

(** *** Credit *)

Definition one_item (t : token) : Z := match t with TItem _ _ => 1 | TEnd => 0 end.
Definition items (ts : list token) : Z := sum_with one_item ts.

(** The credit of a window frame of a direction. *)
Definition window (direction : string) (f : sframe) : Z :=
  if String.eqb (sf_Kind f) "stream.window" && String.eqb (sf_Direction f) direction
  then Z.max 0 (default 0 (sf_Credit f)) else 0.
Definition windows (direction : string) (fs : list sframe) : Z := sum_with (window direction) fs.

Definition item_kind (f : sframe) : Z := if String.eqb (sf_Kind f) "stream.item" then 1 else 0.

(** What an action holds: credit taken but not yet used, a window not yet
    written or not yet granted, an item read but not yet accepted, or room of
    the receiver. *)
Definition c_held (a : caction) : Z := match a with CNumber _ => 1 | _ => 0 end.
Definition c_window (a : caction) : Z := match a with CSend f => window "server" f | _ => 0 end.
Definition c_grant (a : caction) : Z := match a with CGrant n => Z.max 0 n | _ => 0 end.
Definition c_read (a : caction) : list token :=
  match a with CAccept f => tokens "server" [f] | CEndOutput => [TEnd] | _ => [] end.
Definition c_room (a : caction) : Z :=
  match a with
  | CEnqueue f => item_kind f
  | CConsumed => 1
  | COpenOutput => initialStreamCredit
  | _ => 0
  end.
Definition c_write (a : caction) : list token :=
  match a with CSendItem f | CSend f => tokens "client" [f] | _ => [] end.

Definition s_held (a : saction) : Z := match a with SOutput _ => 1 | _ => 0 end.
Definition s_window (a : saction) : Z := match a with SSend f => window "client" f | _ => 0 end.
Definition s_grant (a : saction) : Z := match a with SGrant n => Z.max 0 n | _ => 0 end.
Definition s_read (a : saction) : list token :=
  match a with SAccept f | SEndInput f => tokens "client" [f] | _ => [] end.
Definition s_room (a : saction) : Z :=
  match a with
  | SPush (Item _) => 1
  | SAllow => 1
  | SOpenInput => initialStreamCredit
  | _ => 0
  end.

Definition credit_n (w : option creditWindow) : Z := match w with Some w => cw_n w | None => 0 end.
Definition queued_items (q : list inputEvent) : Z :=
  sum_with (fun e => match e with Item _ => 1 | _ => 0 end) q.

(** The account of a direction. *)
Record account := Account {
  ac_credit : Z;            (* the sender's credit window *)
  ac_held : Z;              (* credit its goroutines took *)
  ac_line1 : Z;             (* items on the way to the Router *)
  ac_line2 : Z;             (* items behind the Router *)
  ac_win1 : Z;              (* windows on the way to the Router *)
  ac_win2 : Z;              (* windows behind the Router *)
  ac_counter : option Z;    (* the Router's counter *)
  ac_allowance : Z;         (* the receiver's allowance *)
  ac_room : Z }.            (* items the receiver holds *)

Definition account_ok (capacity : Z) (a : account) : Prop :=
  0 <= ac_credit a /\
  (forall c, ac_counter a = Some c -> ac_credit a + ac_held a + ac_line1 a + ac_win2 a <= c) /\
  ac_credit a + ac_held a + ac_line1 a + ac_line2 a + ac_win1 a + ac_win2 a <= ac_allowance a /\
  ac_allowance a + ac_room a <= capacity.

(** [A] and [B] are the actions of all goroutines of the client and the server. *)
Definition up_account (C : clientCall) (A : list caction) (V : serverCall) (B : list saction)
    (rt : option route) (u1 u2 d1 d2 : list sframe) : account :=
  Account (credit_n (cc_inputCredit C)) (sum_with c_held A)
    (sum_with (fun a => items (c_write a)) A + items (tokens "client" u1))
    (sum_with (fun a => items (s_read a)) B + items (tokens "client" u2))
    (sum_with s_window B + windows "client" d1)
    (sum_with c_grant A + windows "client" d2)
    (rt_clientCredit <$> rt) (sc_inputAllowance V)
    (sum_with s_room B + queued_items (sc_inputQueue V)).

Definition down_account (C : clientCall) (A : list caction) (V : serverCall) (B : list saction)
    (rt : option route) (u1 u2 d1 d2 : list sframe) : account :=
  Account (cw_n (sc_credit V)) (sum_with s_held B)
    (items (tokens "server" d1))
    (sum_with (fun a => items (c_read a)) A + items (tokens "server" d2))
    (sum_with c_window A + windows "server" u1)
    (sum_with s_grant B + windows "server" u2)
    (rt_serverCredit <$> rt) (cc_outputAllowance C)
    (sum_with c_room A + sum_with item_kind (cc_queue C)).

Definition capacity (open : bool) : Z := if open then initialStreamCredit else 0.

(** *** Order *)

Fixpoint items_from (i : nat) (payloads : list (option string)) : list token :=
  match payloads with
  | [] => []
  | p :: payloads => TItem (int64 (Z.of_nat i)) p :: items_from (S i) payloads
  end.

Record stream := Stream {
  st_sent : list token;       (* put on the wire *)
  st_pending : list token;    (* numbered, not yet on the wire *)
  st_closed : bool;
  st_next : Z;                (* the next sequence number *)
  st_line1 : list token;
  st_line2 : list token;
  st_got : list token;        (* accepted *)
  st_expected : Z;
  st_live : bool }.           (* nothing was lost on the way *)

#[global] Instance stream_eta : Eta stream := fun s =>
  Stream (st_sent s) (st_pending s) (st_closed s) (st_next s) (st_line1 s) (st_line2 s)
    (st_got s) (st_expected s) (st_live s).

Record stream_ok (s : stream) : Prop := {
  sk_planned : exists payloads,
    st_sent s ++ st_pending s = items_from 0 payloads ++ (if st_closed s then [TEnd] else []) /\
    st_next s = int64 (Z.of_nat (length payloads));
  sk_line : exists lost,
    st_sent s = st_got s ++ st_line2 s ++ lost ++ st_line1 s /\
    (st_live s = true -> lost = []);
  sk_expected : st_expected s = int64 (items (st_got s)) }.

(** Something other than the end of input ended the input. *)
Definition broken (call : serverCall) : bool :=
  existsb (fun e => match e with Broken _ => true | _ => false end) (sc_inputQueue call).
Definition is_some {A} (o : option A) : bool := match o with Some _ => true | None => false end.

Definition reads (B : list saction) : list token := concat (s_read <$> B).
Definition up_stream (C : clientCall) (S : list caction) (V : serverCall) (B : list saction)
    (rt : option route) (u1 u2 hu : list sframe) (gu : list token) : stream :=
  Stream (tokens "client" hu) (concat (c_write <$> S)) (cc_inputClosed C) (cc_inputSeq C)
    (tokens "client" u1)
    (if broken V then []
     else reads B ++ if sc_listed V then tokens "client" u2 else [])
    gu (sc_inputSequence V) (is_some rt && sc_listed V && negb (broken V)).

Definition down_stream (C : clientCall) (R : list caction) (V : serverCall)
    (rt : option route) (d1 d2 hd : list sframe) (gd : list token) : stream :=
  Stream (tokens "server" hd) [] (sc_outputClosed V) (sc_outputSequence V)
    (tokens "server" d1)
    (concat (c_read <$> R) ++ if cc_listed C then tokens "server" d2 else [])
    gd (cc_expectedSeq C) (is_some rt && cc_listed C).

(** *** Shape *)

Definition window_ok (direction : string) (f : sframe) : bool :=
  String.eqb (sf_Direction f) direction && match sf_Credit f with Some n => 0 <? n | None => false end.
Definition item_ok (direction : string) (f : sframe) : bool :=
  String.eqb (sf_Direction f) direction && is_some (sf_Sequence f).

(** What the client and the server put on the wire. *)
Definition up_frame (f : sframe) : bool :=
  let kind k := String.eqb (sf_Kind f) k in
  (kind "stream.item"%string && item_ok "client" f)
  || (kind "stream.end"%string && String.eqb (sf_Direction f) "client")
  || (kind "stream.window"%string && window_ok "server" f)
  || kind "call.cancel"%string.
Definition down_frame (f : sframe) : bool :=
  let kind k := String.eqb (sf_Kind f) k in
  (kind "stream.item"%string && item_ok "server" f)
  || (kind "stream.end"%string && String.eqb (sf_Direction f) "server")
  || (kind "stream.window"%string && window_ok "client" f)
  || kind "call.result"%string || kind "call.error"%string.

Definition protocol_error (e : Error) : bool := String.eqb (er_Code e) CodeProtocolError.

Definition kind_of (k : string) (f : sframe) : bool := String.eqb (sf_Kind f) k.
Definition terminal_frame (f : sframe) : bool := kind_of "call.result" f || kind_of "call.error" f.

(** Actions as their goroutines may hold them: the frames in them, and which
    goroutine they belong to. *)
Definition creader_ok (a : caction) : bool :=
  match a with
  | CAccept f => kind_of "stream.item" f && item_ok "server" f
  | CGrant n => 0 <? n
  | CEndOutput | CTerminal _ | CEnqueue _ | CStopIdle | CCloseCredit | CUnlist | CArm => true
  | _ => false
  end.
Definition csend_ok (a : caction) : bool :=
  match a with
  | CCheckOpen _ | CAcquire _ | CNumber _ | CCloseInput => true
  | CSendItem f => kind_of "stream.item" f && item_ok "client" f
  | CSend f => kind_of "stream.end" f && String.eqb (sf_Direction f) "client"
  | _ => false
  end.
Definition cother_ok (a : caction) : bool :=
  match a with
  | CSend f => kind_of "call.cancel" f && is_empty (sf_Direction f)
               || kind_of "stream.window" f && window_ok "server" f
  | COpenOutput | CArm | CRecv _ | CResult | CFail _ | CAbort _ _ | CStopIdle | CCloseCredit
  | CUnlist | CConsumed => true
  | _ => false
  end.
Definition send_ok (f : sframe) : bool :=
  terminal_frame f && is_empty (sf_Direction f) || kind_of "stream.window" f && window_ok "client" f.
Definition finish_ok (f : sframe) : bool := terminal_frame f && is_empty (sf_Direction f).
Definition saction_ok (a : saction) : bool :=
  match a with
  | SFinish f | SSendFinal f => finish_ok f
  | SSend f => send_ok f
  | SGrant n => 0 <? n
  | SAccept f => kind_of "stream.item" f && item_ok "client" f
  | SEndInput f => kind_of "stream.end" f && String.eqb (sf_Direction f) "client"
  | _ => true
  end.
Definition sother_ok (a : saction) : bool :=
  match a with
  | SAccept _ | SEndInput _ | SGrant _ | SPush EndOfInput => false
  | _ => saction_ok a
  end.
(** The reader of the server gave up on a frame. *)
Definition s_rejects (a : saction) : bool :=
  match a with SCancel e => protocol_error e | _ => false end.

(** The ends agree on the shape of the call. *)
Definition shape_ok (C : clientCall) (V : serverCall) : Prop :=
  cc_stream C = sm_stream (sc_method V) /\
  sm_input (sc_method V) = hasInput (cc_stream C) /\
  sm_output (sc_method V) = hasOutput (cc_stream C) /\
  is_some (cc_inputCredit C) = hasInput (cc_stream C) /\
  (cc_inputClosed C = true -> hasInput (cc_stream C) = true).
Definition can_send (C : clientCall) (S : list caction) : Prop :=
  (length S <= 1)%nat /\ (S <> [] -> hasInput (cc_stream C) = true) /\
  match S with (CAcquire _ | CNumber _) :: _ => cc_inputClosed C = false | _ => True end.
Definition closed_ok (V : serverCall) (B : list saction) (gu : list token) : Prop :=
  (sc_inputClosed V = true -> broken V = true \/ TEnd ∈ gu) /\
  (broken V = true -> sc_inputClosed V = true) /\
  (SPush EndOfInput ∈ B -> sc_inputClosed V = true) /\
  (existsb s_rejects B = true -> broken V = true).
Definition ended_ok (C : clientCall) (gd : list token) : Prop :=
  cc_outputEnded C = true -> TEnd ∈ gd.

Definition all {A} (p : A -> bool) (l : list A) : Prop := Forall (fun a => p a = true) l.

Record flow_ok (C : clientCall) (R S O : list caction) (V : serverCall) (B : list saction)
    (rt : option route) (u1 u2 d1 d2 hu hd : list sframe) (gu gd : list token) : Prop := {
  fk_shape : shape_ok C V;
  fk_up_frames : all up_frame u1 /\ all up_frame u2;
  fk_down_frames : all down_frame d1 /\ all down_frame d2;
  fk_client : all creader_ok R /\ all csend_ok S /\ all cother_ok O;
  fk_server : all saction_ok B;
  fk_send : can_send C S;
  fk_closed : closed_ok V B gu;
  fk_ended : ended_ok C gd;
  fk_up : account_ok (capacity (hasInput (cc_stream C)))
    (up_account C (R ++ S ++ O) V B rt u1 u2 d1 d2);
  fk_down : account_ok (capacity (hasOutput (cc_stream C)))
    (down_account C (R ++ S ++ O) V B rt u1 u2 d1 d2);
  fk_up_stream : stream_ok (up_stream C S V B rt u1 u2 hu gu);
  fk_down_stream : stream_ok (down_stream C R V rt d1 d2 hd gd) }.

Definition link_ok (k : link) : Prop :=
  all sother_ok (concat (k_sothers k)) /\
  exists S, k_csenders k = [S] /\
  flow_ok (k_client k) (k_creader k) S (concat (k_cothers k)) (k_server k)
    (k_sreader k ++ concat (k_sothers k)) (k_route k) (k_up1 k) (k_up2 k) (k_down1 k)
    (k_down2 k) (k_hup k) (k_hdown k) (k_gup k) (k_gdown k).

#[global] Hint Extern 0 (_ ∉ []) => apply not_elem_of_nil : core.
#[global] Arguments tokens : simpl never.
#[global] Arguments sum_with : simpl never.
#[global] Arguments items : simpl never.
#[global] Arguments windows : simpl never.
#[global] Arguments window : simpl never.
#[global] Arguments item_kind : simpl never.
#[global] Arguments queued_items : simpl never.
#[global] Arguments token_of : simpl never.
#[global] Arguments reads : simpl never.
#[global] Arguments broken : simpl never.
#[global] Arguments itemFrame : simpl never.
#[global] Arguments endFrame : simpl never.
#[global] Arguments windowFrame : simpl never.
#[global] Arguments cancelFrame : simpl never.

(** ** Sums and tokens *)

Lemma items_plus l k : items (l ++ k) = items l + items k.
Proof. apply sum_with_app. Qed.
Lemma sum_with_nil {A} (g : A -> Z) : sum_with g [] = 0.
Proof. done. Qed.
Lemma items_more t l : items (t :: l) = one_item t + items l.
Proof. apply sum_with_cons. Qed.
Lemma items_none : items [] = 0.
Proof. done. Qed.
Lemma items_nonneg l : 0 <= items l.
Proof. apply sum_with_nonneg. intros [] _; simpl; lia. Qed.
Lemma tokens_app d l k : tokens d (l ++ k) = tokens d l ++ tokens d k.
Proof. apply omap_app. Qed.
Lemma tokens_cons d f l : tokens d (f :: l) = tokens d [f] ++ tokens d l.
Proof. apply (tokens_app d [f] l). Qed.
Lemma windows_app d l k : windows d (l ++ k) = windows d l + windows d k.
Proof. apply sum_with_app. Qed.
Lemma windows_cons d f l : windows d (f :: l) = window d f + windows d l.
Proof. apply sum_with_cons. Qed.
Lemma int64_succ n : int64 (int64 n + 1) = int64 (n + 1).
Proof. apply int64_plus. Qed.

Lemma items_from_app i l k :
  items_from i (l ++ k) = items_from i l ++ items_from (i + length l) k.
Proof.
  revert i. induction l as [|p l IH]; intros i; cbn [app length items_from].
  - by rewrite Nat.add_0_r.
  - rewrite IH. cbn [app]. do 3 f_equal. lia.
Qed.

(** What was accepted, and what follows it, stand where they were planned. *)
Lemma planned_at i payloads closed got t rest :
  got ++ t :: rest = items_from i payloads ++ (if closed : bool then [TEnd] else []) ->
  items got = Z.of_nat (length got) /\ (TEnd ∉ got) /\
  match t with
  | TItem s _ => s = int64 (Z.of_nat (i + length got))
  | TEnd => rest = []
  end.
Proof.
  revert i payloads. induction got as [|g got IH]; intros i payloads H.
  - split; [done|]. split; [apply not_elem_of_nil|]. destruct payloads as [|p payloads]; simpl in H.
    + destruct closed; [|done]. by injection H as -> ->.
    + injection H as -> _. simpl. f_equal. lia.
  - destruct payloads as [|p payloads]; simpl in H.
    + destruct closed; [|done]. injection H as -> H. by destruct got.
    + injection H as -> H. apply IH in H as (Hi & Hn & Ht). split; [|split].
      * unfold items in *. rewrite sum_with_cons, Hi. simpl. lia.
      * set_solver.
      * destruct t; [|done]. rewrite Ht. f_equal. simpl. lia.
Qed.

(** ** Moves of a stream *)

(** The stream with other components; the rest of the system may move freely. *)
Lemma stream_same s s' : stream_ok s ->
  st_sent s' = st_sent s -> st_pending s' = st_pending s -> st_closed s' = st_closed s ->
  st_next s' = st_next s -> st_line1 s' = st_line1 s -> st_line2 s' = st_line2 s ->
  st_got s' = st_got s -> st_expected s' = st_expected s ->
  (st_live s' = true -> st_live s = true) -> stream_ok s'.
Proof.
  intros [P (lost & L1 & L2) E] H1 H2 H3 H4 H5 H6 H7 H8 H9.
  split; [by rewrite H1, H2, H3, H4| |by rewrite H7, H8].
  exists lost. rewrite H1, H5, H6, H7. auto.
Qed.

(** A frame is put on the wire. *)
Lemma stream_write s s' ts : stream_ok s ->
  st_sent s' = st_sent s ++ ts -> st_pending s = ts ++ st_pending s' ->
  st_closed s' = st_closed s -> st_next s' = st_next s ->
  st_line1 s' = st_line1 s ++ ts -> st_line2 s' = st_line2 s ->
  st_got s' = st_got s -> st_expected s' = st_expected s ->
  st_live s' = st_live s -> stream_ok s'.
Proof.
  intros [(ps & P & N) (lost & L1 & L2) E] H1 H2 H3 H4 H5 H6 H7 H8 H9.
  split; [|exists lost; rewrite H1, H5, H6, H7, H9, L1; split; [by rewrite <- !app_assoc|done]|by rewrite H7, H8].
  exists ps. rewrite H1, H3, H4, <- P, H2. by rewrite <- app_assoc.
Qed.

(** An item is numbered, or the end is announced. *)
Lemma stream_number s s' p : stream_ok s -> st_closed s = false ->
  st_sent s' = st_sent s -> st_pending s' = st_pending s ++ [TItem (st_next s) p] ->
  st_closed s' = false -> st_next s' = int64 (st_next s + 1) ->
  st_line1 s' = st_line1 s -> st_line2 s' = st_line2 s ->
  st_got s' = st_got s -> st_expected s' = st_expected s -> st_live s' = st_live s -> stream_ok s'.
Proof.
  intros [(ps & P & N) (lost & L1 & L2) E] Hc H1 H2 H3 H4 H5 H6 H7 H8 H9.
  split; [|exists lost; by rewrite H1, H5, H6, H7, H9|by rewrite H7, H8].
  exists (ps ++ [p]). rewrite H1, H2, H3, H4, app_assoc, P, Hc, !app_nil_r, items_from_app, N. cbn.
  split; [done|]. rewrite int64_succ. f_equal. rewrite length_app. simpl. lia.
Qed.

Lemma stream_close s s' : stream_ok s -> st_closed s = false ->
  st_sent s' = st_sent s -> st_pending s' = st_pending s ++ [TEnd] ->
  st_closed s' = true -> st_next s' = st_next s ->
  st_line1 s' = st_line1 s -> st_line2 s' = st_line2 s ->
  st_got s' = st_got s -> st_expected s' = st_expected s -> st_live s' = st_live s -> stream_ok s'.
Proof.
  intros [(ps & P & N) (lost & L1 & L2) E] Hc H1 H2 H3 H4 H5 H6 H7 H8 H9.
  split; [|exists lost; by rewrite H1, H5, H6, H7, H9|by rewrite H7, H8].
  exists ps. rewrite H1, H2, H3, H4, app_assoc, P, Hc, app_nil_r. done.
Qed.

(** The Router takes a frame off the first line: it passes it on, or not. *)
Lemma stream_hop s s' ts : stream_ok s ->
  st_sent s' = st_sent s -> st_pending s' = st_pending s -> st_closed s' = st_closed s ->
  st_next s' = st_next s -> st_line1 s = ts ++ st_line1 s' ->
  (st_live s = true /\ st_line2 s' = st_line2 s ++ ts \/
   st_live s' = false /\ st_line2 s' = st_line2 s) ->
  st_got s' = st_got s -> st_expected s' = st_expected s ->
  (st_live s' = true -> st_live s = true) -> stream_ok s'.
Proof.
  intros [P (lost & L1 & L2) E] H1 H2 H3 H4 H5 H6 H7 H8 H9.
  split; [by rewrite H1, H2, H3, H4| |by rewrite H7, H8]. rewrite H1, H7, L1, H5.
  destruct H6 as [[Hl ->]|[Hl ->]].
  - rewrite (L2 Hl). exists []. by rewrite !app_nil_l, <- !app_assoc.
  - exists (lost ++ ts). rewrite <- !app_assoc. split; [done|congruence].
Qed.

(** The receiver accepts the first token. *)
Lemma stream_accept s s' t : stream_ok s ->
  st_sent s' = st_sent s -> st_pending s' = st_pending s -> st_closed s' = st_closed s ->
  st_next s' = st_next s -> st_line1 s' = st_line1 s ->
  st_line2 s = t :: st_line2 s' -> st_got s' = st_got s ++ [t] ->
  st_expected s' = int64 (st_expected s + one_item t) ->
  (st_live s' = true -> st_live s = true) -> stream_ok s'.
Proof.
  intros [P (lost & L1 & L2) E] H1 H2 H3 H4 H5 H6 H7 H8 H9.
  split; [by rewrite H1, H2, H3, H4| |].
  - exists lost. rewrite H1, H5, H7, L1, H6, <- app_assoc. auto.
  - rewrite H7, H8, E, items_plus. destruct t; unfold items at 2; simpl.
    + by rewrite int64_succ.
    + rewrite !Z.add_0_r. apply int64_id, int64_range.
Qed.

(** What is on the second line is lost from some point on. *)
Lemma stream_cut s s' ts : stream_ok s ->
  st_sent s' = st_sent s -> st_pending s' = st_pending s -> st_closed s' = st_closed s ->
  st_next s' = st_next s -> st_line1 s' = st_line1 s -> st_line2 s = st_line2 s' ++ ts ->
  st_got s' = st_got s -> st_expected s' = st_expected s -> st_live s' = false -> stream_ok s'.
Proof.
  intros [P (lost & L1 & L2) E] H1 H2 H3 H4 H5 H6 H7 H8 H9.
  split; [by rewrite H1, H2, H3, H4| |by rewrite H7, H8].
  exists (ts ++ lost). rewrite H1, H5, H7, L1, H6, H9, <- !app_assoc. done.
Qed.

(** The token the receiver reads next. *)
Lemma stream_next s t rest : stream_ok s -> st_line2 s = t :: rest ->
  (TEnd ∉ st_got s) /\
  match t with TItem n _ => n = st_expected s | TEnd => rest = [] end.
Proof.
  intros [(ps & P & N) (lost & L1 & L2) E] H. rewrite L1, H, <- !app_assoc in P. simpl in P.
  apply planned_at in P as (Hi & Hn & Ht). split; [done|].
  destruct t; [by rewrite Ht, E, Hi|]. by apply app_nil in Ht as [-> _].
Qed.

(** What arrived is what was planned, up to some point; behind the end nothing is. *)
Lemma stream_order s : stream_ok s ->
  (exists payloads, st_got s `prefix_of` items_from 0 payloads ++ [TEnd]) /\
  st_got s `prefix_of` st_sent s /\ (TEnd ∈ st_got s -> st_got s = st_sent s).
Proof.
  intros [(ps & P & N) (lost & L & _) E]. set (rest := st_line2 s ++ lost ++ st_line1 s) in L.
  split_and!.
  - exists ps. rewrite L, <- app_assoc in P. destruct (st_closed s).
    + rewrite <- P. by apply prefix_app_r.
    + rewrite app_nil_r in P. rewrite <- P, <- app_assoc. by apply prefix_app_r.
  - rewrite L. by apply prefix_app_r.
  - intros Hin. rewrite L. destruct rest as [|t r]; [by rewrite app_nil_r|].
    rewrite L, <- app_assoc in P. by destruct (planned_at _ _ _ _ _ _ P) as (_ & Hn & _).
Qed.

(** ** One section of the client *)

Lemma window_nonneg d f : 0 <= window d f.
Proof. unfold window. case_match; lia. Qed.
Lemma windows_nonneg d l : 0 <= windows d l.
Proof. apply sum_with_nonneg. intros f _. apply window_nonneg. Qed.

(** Every part of an account but the credit is a sum of natural numbers. *)
Ltac nonneg := repeat first
  [ apply Z.add_nonneg_nonneg | apply items_nonneg | apply windows_nonneg
  | (apply sum_with_nonneg; let a := fresh in intros a _; destruct a; cbn;
     unfold item_kind, initialStreamCredit;
     first [apply items_nonneg | apply window_nonneg | lia | case_match; lia]) ].
Lemma item_kind_nonneg l : 0 <= sum_with item_kind l.
Proof. apply sum_with_nonneg. intros f _. unfold item_kind. case_match; lia. Qed.

Lemma up_nonneg C A V B rt u1 u2 d1 d2 : let a := up_account C A V B rt u1 u2 d1 d2 in
  0 <= ac_held a /\ 0 <= ac_line1 a /\ 0 <= ac_line2 a /\ 0 <= ac_win1 a /\ 0 <= ac_win2 a /\ 0 <= ac_room a.
Proof. cbn. split_and!; nonneg. Qed.
Lemma down_nonneg C A V B rt u1 u2 d1 d2 : let a := down_account C A V B rt u1 u2 d1 d2 in
  0 <= ac_held a /\ 0 <= ac_line1 a /\ 0 <= ac_line2 a /\ 0 <= ac_win1 a /\ 0 <= ac_win2 a /\ 0 <= ac_room a.
Proof.
  cbn. split_and!; nonneg; try apply item_kind_nonneg.
Qed.
(** An account after a move follows from the account before by arithmetic: sums
    over lists are put into normal form first. *)
Ltac sums_in H :=
  repeat first [rewrite sum_with_app in H | rewrite sum_with_cons in H | rewrite sum_with_nil in H
    | rewrite items_plus in H | rewrite items_more in H | rewrite tokens_app in H
    | rewrite windows_app in H | rewrite items_none in H].
Ltac sums :=
  repeat first [rewrite sum_with_app | rewrite sum_with_cons | rewrite sum_with_nil
    | rewrite items_plus | rewrite items_more | rewrite tokens_app
    | rewrite windows_app | rewrite items_none].
Ltac open_account H :=
  unfold account_ok, up_account, down_account, queued_items in H;
  cbn [ac_credit ac_held ac_line1 ac_line2 ac_win1 ac_win2 ac_counter ac_allowance ac_room app] in H;
  sums_in H; cbn in H; sums_in H; cbn in H.
Ltac account H Hn :=
  open_account H; open_account Hn; unfold account_ok, up_account, down_account, queued_items;
  cbn [ac_credit ac_held ac_line1 ac_line2 ac_win1 ac_win2 ac_counter ac_allowance ac_room app];
  sums; cbn; sums; cbn; let Hcounter := fresh in destruct H as (?&Hcounter&?&?);
  destruct Hn as (?&?&?&?&?&?); split_and!; try lia;
  try (let c := fresh in let Hc := fresh in intros c Hc;
       first [discriminate Hc | apply Hcounter in Hc; lia
             | injection Hc as <-; pose proof (Hcounter _ eq_refl); lia]).

Lemma capacity_range b : 0 <= capacity b <= 16.
Proof. destruct b; done. Qed.

Lemma small_int64 n : -1 <= n <= 17 -> int64 n = n.
Proof. intros. apply int64_id. unfold MinInt64, MaxInt64. lia. Qed.

Lemma grant_credit_n n w : 0 <= credit_n w -> 0 < n -> credit_n w + n <= 16 ->
  credit_n (grantCredit n <$> w) = credit_n w + n \/ credit_n (grantCredit n <$> w) = credit_n w.
Proof.
  destruct w as [w|]; cbn; [|auto]. intros. left. apply small_int64. lia.
Qed.

(** The token of an item and of an end. *)
Lemma item_token d f : kind_of "stream.item" f && item_ok d f = true ->
  exists n, sf_Sequence f = Some n /\ sf_Direction f = d /\ tokens d [f] = [TItem n (sf_Payload f)].
Proof.
  intros [Hk [Hd Hs]%andb_true_iff]%andb_true_iff. apply String.eqb_eq in Hk, Hd.
  destruct (sf_Sequence f) as [n|] eqn:E; [|done]. exists n. split_and!; [done..|].
  unfold tokens, token_of. cbn [omap list_omap]. by rewrite Hd, Hk, E, !String.eqb_refl.
Qed.
Lemma end_token d f : kind_of "stream.end" f && String.eqb (sf_Direction f) d = true ->
  tokens d [f] = [TEnd].
Proof.
  intros [Hk Hd]%andb_true_iff. apply String.eqb_eq in Hk, Hd.
  unfold tokens, token_of. cbn [omap list_omap]. by rewrite Hd, Hk, String.eqb_refl.
Qed.

Lemma stream_expected s : stream_ok s -> int64 (st_expected s + 0) = st_expected s.
Proof. intros [_ _ ->]. rewrite Z.add_0_r. apply int64_id, int64_range. Qed.

(** Sections that touch neither credit nor order. *)
Lemma arm_idle_same C : exists b, armIdle C = C {{ cc_idleTimer := b }}.
Proof.
  unfold armIdle. destruct (cc_idle C <=? 0); [|by eexists]. exists (cc_idleTimer C). by destruct C.
Qed.

Lemma close_same C : exists o, closeInputCredit C = C {{ cc_inputCredit := o }} /\
  credit_n o = credit_n (cc_inputCredit C) /\ is_some o = is_some (cc_inputCredit C).
Proof.
  unfold closeInputCredit, closeCredit. destruct (cc_inputCredit C) as [w|] eqn:E.
  - by destruct (cw_closed w); eexists.
  - exists None. split; [|done]. rewrite <- E. by destruct C.
Qed.

Lemma flow_closed C o R S O V B rt u1 u2 d1 d2 hu hd gu gd :
  flow_ok C R S O V B rt u1 u2 d1 d2 hu hd gu gd ->
  credit_n o = credit_n (cc_inputCredit C) -> is_some o = is_some (cc_inputCredit C) ->
  flow_ok (C {{ cc_inputCredit := o }}) R S O V B rt u1 u2 d1 d2 hu hd gu gd.
Proof.
  intros [] Hn Hs. split; try done.
  - unfold shape_ok in *. cbn. by rewrite Hs.
  - unfold up_account in *. cbn. by rewrite Hn.
Qed.

(** The reader of the client accepts every item it reads. *)
Lemma client_accepts C f R S O V B rt u1 u2 d1 d2 hu hd gu gd :
  flow_ok C (CAccept f :: R) S O V B rt u1 u2 d1 d2 hu hd gu gd ->
  acceptable f C = true /\ tokens "server" [f] = [TItem (cc_expectedSeq C) (sf_Payload f)].
Proof.
  intros []. destruct fk_client0 as ([Ha _]%Forall_cons & _ & _).
  destruct (item_token _ _ Ha) as (n & Hn & Hd & Ht).
  destruct (stream_next _ (TItem n (sf_Payload f)) (concat (c_read <$> R) ++
    (if cc_listed C then tokens "server" d2 else [])) fk_down_stream0) as [Hnot He].
  { cbn [st_line2 down_stream fmap list_fmap concat c_read]. by rewrite Ht. }
  cbn in He. subst n. split; [|done]. unfold acceptable.
  assert (cc_outputEnded C = false) as ->.
  { destruct (cc_outputEnded C) eqn:E; [|done]. by apply fk_ended0 in E. }
  assert (0 < cc_outputAllowance C) as Hal.
  { pose proof (down_nonneg C (R ++ S ++ O) V B rt u1 u2 d1 d2) as Hnn.
    clear - fk_down0 Ht Hnn. unfold account_ok in fk_down0. cbn in fk_down0, Hnn.
    rewrite !sum_with_cons in fk_down0. cbn in fk_down0. rewrite Ht, items_more, items_none in fk_down0. cbn in fk_down0. lia. }
  rewrite Hd, Hn, Z.eqb_refl. cbn. destruct (Z.ltb_spec 0 (cc_outputAllowance C)); [done|lia].
Qed.

Lemma creader_step C a R S O V B rt u1 u2 d1 d2 hu hd gu gd :
  flow_ok C (a :: R) S O V B rt u1 u2 d1 d2 hu hd gu gd ->
  let '(C', next, out) := cexec Sent a C in
  flow_ok C' (next ++ R) S O V B rt (u1 ++ out) u2 d1 d2 (hu ++ out) hd gu (gd ++ caccepts a C).
Proof.
  intros Hok. pose proof Hok as []. destruct fk_client0 as ([Ha HR]%Forall_cons & HS & HO).
  pose proof (capacity_range (hasInput (cc_stream C))). pose proof (capacity_range (hasOutput (cc_stream C))).
  pose proof (up_nonneg C (R ++ S ++ O) V B rt u1 u2 d1 d2) as Hun.
  pose proof (down_nonneg C (R ++ S ++ O) V B rt u1 u2 d1 d2) as Hdn.
  destruct a; try discriminate; cbn [cexec caccepts app]; rewrite ?app_nil_r.
  - (* CGrant *) split; try done; cbn.
    + destruct fk_shape0 as (?&?&?&?&?). split_and!; try done. cbn. by destruct (cc_inputCredit C).
    + apply Z.ltb_lt in Ha.
      assert (0 <= credit_n (cc_inputCredit C) /\ credit_n (cc_inputCredit C) + n <= 16) as [Hc0 Hc16].
      { clear Hdn. open_account fk_up0. open_account Hun. lia. }
      destruct (grant_credit_n n (cc_inputCredit C) Hc0 Ha Hc16) as [Hg|Hg];
        account fk_up0 Hun.
  - (* CAccept *) destruct (client_accepts _ _ _ _ _ _ _ _ _ _ _ _ _ _ _ _ Hok) as [Hacc Ht].
    rewrite Hacc. cbn [app]. rewrite ?app_nil_r.
    assert (items (tokens "server" [f]) = 1) as Hi by (by rewrite Ht).
    assert (item_kind f = 1) as Hk.
    { unfold item_kind. unfold creader_ok, kind_of in Ha. by destruct (String.eqb _ _). }
    assert (int64 (cc_outputAllowance C - 1) = cc_outputAllowance C - 1) as H64.
    { apply small_int64. clear Hun. open_account fk_down0. open_account Hdn. lia. }
    split; try done.
    + split_and!; [|done..]. by repeat constructor.
    + intros He. apply elem_of_app. left. by apply fk_ended0.
    + account fk_down0 Hdn.
    + apply (stream_accept _ _ (TItem (cc_expectedSeq C) (sf_Payload f)) fk_down_stream0); try done; cbn.
      * by rewrite Ht.
      * by rewrite Ht.
  - (* CEndOutput *) split; try done.
    + intros _. apply elem_of_app. right. by left.
    + apply (stream_accept _ _ TEnd fk_down_stream0); try done.
      symmetry. apply (stream_expected _ fk_down_stream0).
  - (* CTerminal *) by split.
  - (* CEnqueue *) split; try done. account fk_down0 Hdn.
  - (* CStopIdle *) by split.
  - (* CCloseCredit *) destruct (close_same C) as (o & -> & Hn & Hs).
    apply flow_closed; [by split|done..].
  - (* CUnlist *) split; try done.
    apply (stream_cut _ _ (if cc_listed C then tokens "server" d2 else []) fk_down_stream0); try done; cbn.
    + by rewrite app_nil_r.
    + by rewrite andb_false_r.
  - (* CArm *) destruct (arm_idle_same C) as [b ->]. by split.
Qed.

(** Frames as they go on the wire: the call id changes nothing here. *)
Lemma sendCall_same f C : exists f', sendCall Sent f C = [f'] /\
  (forall d, tokens d [f'] = tokens d [f]) /\ (forall d, windows d [f'] = window d f) /\
  up_frame f' = up_frame f.
Proof.
  eexists. split; [reflexivity|]. split_and!; try done.
  intros d. unfold windows. rewrite sum_with_cons, sum_with_nil, Z.add_0_r. done.
Qed.
Lemma ssendCall_same f V : exists f', ssendCall Sent f V = [f'] /\
  (forall d, tokens d [f'] = tokens d [f]) /\ (forall d, windows d [f'] = window d f) /\
  down_frame f' = down_frame f.
Proof.
  eexists. split; [reflexivity|]. split_and!; try done.
  intros d. unfold windows. rewrite sum_with_cons, sum_with_nil, Z.add_0_r. done.
Qed.

Lemma kind_eq k f : kind_of k f = true -> sf_Kind f = k.
Proof. apply String.eqb_eq. Qed.
Lemma no_window d f : sf_Kind f <> "stream.window"%string -> window d f = 0.
Proof. intros H. unfold window. by destruct (String.eqb_spec (sf_Kind f) "stream.window"). Qed.
Lemma no_token d f : sf_Kind f <> "stream.item"%string -> sf_Kind f <> "stream.end"%string ->
  tokens d [f] = [].
Proof.
  intros H1 H2. unfold tokens, token_of. cbn [omap list_omap].
  destruct (String.eqb (sf_Direction f) d); [|done].
  destruct (String.eqb_spec (sf_Kind f) "stream.item"); [done|].
  destruct (String.eqb_spec (sf_Kind f) "stream.end"); done.
Qed.
Lemma other_token d f : sf_Direction f <> d -> tokens d [f] = [].
Proof.
  intros H. unfold tokens, token_of. cbn [omap list_omap].
  destruct (String.eqb_spec (sf_Direction f) d); done.
Qed.

(** What a sender puts on the wire: a token of its direction and no window. *)
Lemma send_item_frame f : csend_ok (CSendItem f) = true ->
  up_frame f = true /\ (forall d, window d f = 0) /\ tokens "server" [f] = [].
Proof.
  cbn. intros H. pose proof H as [Hk Hi]%andb_true_iff. apply kind_eq in Hk.
  split_and!.
  - unfold up_frame. unfold kind_of in H. by rewrite H.
  - intros d. apply no_window. by rewrite Hk.
  - apply other_token. apply andb_true_iff in Hi as [Hd%String.eqb_eq _]. by rewrite Hd.
Qed.
Lemma send_end_frame f : csend_ok (CSend f) = true ->
  up_frame f = true /\ (forall d, window d f = 0) /\ tokens "server" [f] = [].
Proof.
  cbn. intros H. pose proof H as [Hk Hd]%andb_true_iff. apply kind_eq in Hk.
  apply String.eqb_eq in Hd. split_and!.
  - unfold up_frame. rewrite Hk, Hd. by rewrite orb_true_r.
  - intros d. apply no_window. by rewrite Hk.
  - apply other_token. by rewrite Hd.
Qed.

Lemma all_app {A} (p : A -> bool) l k : all p l -> all p k -> all p (l ++ k).
Proof. intros. by apply Forall_app. Qed.
Lemma all_one {A} (p : A -> bool) a : p a = true -> all p [a].
Proof. by repeat constructor. Qed.

(** The fields of the invariant that a section leaves alone, or that follow by
    arithmetic from those before it. *)
Ltac flow Hu Hun Hd Hdn :=
  rewrite ?app_nil_r; split; try done;
  try match goal with
  | |- account_ok _ (up_account _ _ _ _ _ _ _ _ _) => account Hu Hun; fail
  | |- account_ok _ (down_account _ _ _ _ _ _ _ _ _) => account Hd Hdn; fail
  | |- shape_ok _ _ => unfold shape_ok in *; cbn; tauto
  | H : can_send _ _ |- can_send _ _ => destruct H as (?&?&?); split_and!; [simpl; lia|done|done]
  | |- all _ _ /\ _ => split_and!; try done; by repeat constructor
  end.

Lemma credit_id C : C {{ cc_inputCredit := cc_inputCredit C }} = C.
Proof. by destruct C. Qed.

Lemma csend_step C a R S O V B rt u1 u2 d1 d2 hu hd gu gd :
  flow_ok C R (a :: S) O V B rt u1 u2 d1 d2 hu hd gu gd ->
  let '(C', next, out) := cexec Sent a C in
  flow_ok C' R (next ++ S) O V B rt (u1 ++ out) u2 d1 d2 (hu ++ out) hd gu (gd ++ caccepts a C).
Proof.
  intros Hok. pose proof Hok as []. destruct fk_client0 as (HR & [Ha HS]%Forall_cons & HO).
  pose proof fk_send0 as (Hlen & Hinput & Hopen). specialize (Hinput ltac:(done)). destruct S as [|b S]; [clear HS Hlen|simpl in Hlen; lia].
  pose proof (up_nonneg C (R ++ O) V B rt u1 u2 d1 d2) as Hun.
  pose proof (down_nonneg C (R ++ O) V B rt u1 u2 d1 d2) as Hdn.
  assert (all csend_ok []) as Hnil by constructor.
  destruct a; try discriminate; cbn [cexec caccepts app]; rewrite ?app_nil_r.
  - (* CCheckOpen *) destruct (cc_inputClosed C) eqn:Hc; flow fk_up0 Hun fk_down0 Hdn.
  - (* CAcquire *) destruct (cc_inputCredit C) as [w|] eqn:E;
      [|rewrite !app_nil_r; flow fk_up0 Hun fk_down0 Hdn].
    assert (credit_n (cc_inputCredit C) = cw_n w) as Hn by (by rewrite E).
    unfold acquire. destruct (cw_closed w).
    { rewrite <- E, credit_id, !app_nil_r. flow fk_up0 Hun fk_down0 Hdn. }
    destruct (Z.ltb_spec 0 (cw_n w)).
    + rewrite !app_nil_r. flow fk_up0 Hun fk_down0 Hdn. unfold shape_ok in *. cbn. by rewrite E in fk_shape0.
    + rewrite <- E, credit_id, !app_nil_r. flow fk_up0 Hun fk_down0 Hdn.
  - (* CNumber *) assert (tokens "client" [itemFrame "client" (cc_inputSeq C) (Some payload)]
      = [TItem (cc_inputSeq C) (Some payload)]) as Ht by done.
    assert (items (tokens "client" [itemFrame "client" (cc_inputSeq C) (Some payload)]) = 1) as Hi by done.
    flow fk_up0 Hun fk_down0 Hdn.
    apply (stream_number _ _ (Some payload) fk_up_stream0); done.
  - (* CSendItem *) destruct (send_item_frame f Ha) as (Hup & Hw & Ht).
    destruct (sendCall_same f C) as (f' & -> & Hft & Hfw & Hfu). destruct fk_up_frames0 as [Hu1 Hu2].
    pose proof (Hfw "server"%string) as Hs. rewrite (Hw "server"%string) in Hs.
    pose proof (f_equal items (Hft "client"%string)).
    flow fk_up0 Hun fk_down0 Hdn.
    + split; [apply all_app; [done|apply all_one; by rewrite Hfu]|done].
    + apply (stream_write _ _ (tokens "client" [f']) fk_up_stream0); try done; cbn.
      * by rewrite tokens_app.
      * by rewrite Hft, app_nil_r.
      * by rewrite tokens_app.
  - (* CCloseInput *) assert (items (tokens "client" [endFrame "client"]) = 0) as Hi by done.
    assert (window "server" (endFrame "client") = 0) as Hw by done.
    destruct (cc_inputClosed C) eqn:Hc; flow fk_up0 Hun fk_down0 Hdn.
    + apply (stream_same _ _ fk_up_stream0); try done; cbn; by rewrite Hc.
    + by apply (stream_close _ _ fk_up_stream0).
  - (* CSend *) destruct (send_end_frame f Ha) as (Hup & Hw & Ht).
    destruct (sendCall_same f C) as (f' & -> & Hft & Hfw & Hfu). destruct fk_up_frames0 as [Hu1 Hu2].
    pose proof (Hfw "server"%string) as Hs. pose proof (Hw "server"%string) as Hws.
    pose proof (f_equal items (Hft "client"%string)).
    flow fk_up0 Hun fk_down0 Hdn.
    + split; [apply all_app; [done|apply all_one; by rewrite Hfu]|done].
    + apply (stream_write _ _ (tokens "client" [f']) fk_up_stream0); try done; cbn.
      * by rewrite tokens_app.
      * by rewrite Hft, app_nil_r.
      * by rewrite tokens_app.
Qed.

(** What the other goroutines of the client put on the wire: no token. *)
Lemma other_frame f : cother_ok (CSend f) = true -> up_frame f = true /\ tokens "client" [f] = [].
Proof.
  cbn. intros [[Hk Hd]%andb_true_iff|[Hk Hw]%andb_true_iff]%orb_true_iff; apply kind_eq in Hk.
  - split; [|by apply no_token; rewrite Hk]. unfold up_frame. by rewrite Hk, !orb_true_r.
  - split; [|by apply no_token; rewrite Hk]. unfold up_frame. by rewrite Hk, Hw, orb_true_r.
Qed.

Lemma item_kind_spec f : item_kind f = if kind_of "stream.item" f then 1 else 0.
Proof. done. Qed.

Lemma recv_ok u f : all cother_ok (recv u f) /\ sum_with c_room (recv u f) <= item_kind f /\
  0 <= sum_with c_room (recv u f) /\
  (forall (w : caction -> Z), w (CConsumed) = 0 -> (forall e r, w (CAbort e r) = 0) ->
     (forall e, w (CRecv e) = 0) -> sum_with w (recv u f) = 0).
Proof.
  unfold recv, item_kind. destruct (String.eqb (sf_Kind f) "stream.item").
  - destruct u; (split; [by repeat constructor|]); rewrite ?sum_with_cons, ?sum_with_nil; cbn; split_and!; try lia;
      intros w H1 H2 H3; rewrite sum_with_cons, sum_with_nil, ?H1, ?H2; lia.
  - destruct (_ || _); (split; [by repeat constructor|]); rewrite ?sum_with_cons, ?sum_with_nil; cbn; split_and!; try lia;
      intros w H1 H2 H3; rewrite ?sum_with_cons, ?sum_with_nil, ?H3; lia.
Qed.

Lemma cother_step C a R S X Y V B rt u1 u2 d1 d2 hu hd gu gd :
  flow_ok C R S (X ++ a :: Y) V B rt u1 u2 d1 d2 hu hd gu gd ->
  let '(C', next, out) := cexec Sent a C in
  flow_ok C' R S (X ++ next ++ Y) V B rt (u1 ++ out) u2 d1 d2 (hu ++ out) hd gu (gd ++ caccepts a C).
Proof.
  intros Hok. pose proof Hok as [].
  destruct fk_client0 as (HR & HS & [HX [Ha HY]%Forall_cons]%Forall_app).
  assert (forall next, all cother_ok next -> all creader_ok R /\ all csend_ok S /\ all cother_ok (X ++ next ++ Y)) as Hall.
  { intros next Hn. split_and!; [done..|]. apply all_app; [done|by apply all_app]. }
  pose proof (up_nonneg C (R ++ S ++ X ++ Y) V B rt u1 u2 d1 d2) as Hun.
  pose proof (down_nonneg C (R ++ S ++ X ++ Y) V B rt u1 u2 d1 d2) as Hdn.
  pose proof (capacity_range (hasInput (cc_stream C))). pose proof (capacity_range (hasOutput (cc_stream C))).
  assert (initialStreamCredit = 16) as H16 by done.
  pose proof (Hall [] (Forall_nil_2 _)) as Hall0.
  destruct a; try discriminate; cbn [cexec caccepts]; rewrite ?app_nil_r.
  - (* COpenOutput *)
    assert (window "server" (windowFrame "server" initialStreamCredit) = 16) as Hw by done.
    assert (items (tokens "client" [windowFrame "server" initialStreamCredit]) = 0) as Hi by done.
    flow fk_up0 Hun fk_down0 Hdn. apply Hall. by repeat constructor.
  - (* CRecv *) unfold dequeue. destruct (cc_queue C) as [|f q] eqn:Hq.
    + destruct (cc_failure C); flow fk_up0 Hun fk_down0 Hdn; apply Hall; by repeat constructor.
    + destruct (recv_ok undecodable f) as (Hr & Hroom & Hroom0 & Hsum).
      pose proof (Hsum c_held eq_refl ltac:(done) ltac:(done)).
      pose proof (Hsum (fun a => items (c_write a)) eq_refl ltac:(done) ltac:(done)).
      pose proof (Hsum (fun a => items (c_read a)) eq_refl ltac:(done) ltac:(done)).
      pose proof (Hsum c_grant eq_refl ltac:(done) ltac:(done)).
      pose proof (Hsum c_window eq_refl ltac:(done) ltac:(done)).
      pose proof (f_equal (sum_with item_kind) Hq) as Hk. rewrite sum_with_cons in Hk.
      flow fk_up0 Hun fk_down0 Hdn. by apply Hall.
  - (* CResult *) unfold dequeue. destruct (cc_queue C) as [|f q] eqn:Hq.
    + destruct (cc_failure C); flow fk_up0 Hun fk_down0 Hdn; apply Hall; by repeat constructor.
    + pose proof (f_equal (sum_with item_kind) Hq) as Hk. rewrite sum_with_cons in Hk.
      pose proof (item_kind_nonneg [f]) as Hf. rewrite sum_with_cons, sum_with_nil in Hf.
      destruct (_ || _); flow fk_up0 Hun fk_down0 Hdn; apply Hall; by repeat constructor.
  - (* CFail *) unfold fail, done_. destruct (cc_failure C); [flow fk_up0 Hun fk_down0 Hdn|].
    destruct (_ && _); flow fk_up0 Hun fk_down0 Hdn. apply Hall. by repeat constructor.
  - (* CAbort *)
    assert (window "server" (cancelFrame (cc_id C) reason) = 0) as Hw by done.
    assert (items (tokens "client" [cancelFrame (cc_id C) reason]) = 0) as Hi by done.
    destruct (cc_terminal C); flow fk_up0 Hun fk_down0 Hdn. apply Hall. by repeat constructor.
  - (* CStopIdle *) flow fk_up0 Hun fk_down0 Hdn.
  - (* CCloseCredit *) destruct (close_same C) as (o & -> & Hn & Hs).
    apply flow_closed; [|done..]. flow fk_up0 Hun fk_down0 Hdn.
  - (* CUnlist *) flow fk_up0 Hun fk_down0 Hdn.
    apply (stream_cut _ _ (if cc_listed C then tokens "server" d2 else []) fk_down_stream0); try done; cbn.
    + by rewrite app_nil_r.
    + by rewrite andb_false_r.
  - (* CArm *) destruct (arm_idle_same C) as [b ->]. flow fk_up0 Hun fk_down0 Hdn.
  - (* CConsumed *)
    assert (window "server" (windowFrame "server" 1) = 1) as Hw by done.
    assert (items (tokens "client" [windowFrame "server" 1]) = 0) as Hi by done.
    assert (int64 (cc_outputAllowance C + 1) = cc_outputAllowance C + 1) as H64.
    { apply small_int64. clear Hun. open_account fk_down0. open_account Hdn. lia. }
    unfold consumed. destruct (_ && _); flow fk_up0 Hun fk_down0 Hdn. apply Hall. by repeat constructor.
  - (* CSend *) destruct (other_frame f Ha) as (Hup & Ht).
    destruct (sendCall_same f C) as (f' & -> & Hft & Hfw & Hfu). destruct fk_up_frames0 as [Hu1 Hu2].
    pose proof (Hfw "server"%string) as Hs.
    assert (tokens "client" [f'] = []) as Ht' by (by rewrite Hft).
    pose proof (f_equal items Ht') as Hi. pose proof (f_equal items Ht) as Hi'.
    flow fk_up0 Hun fk_down0 Hdn.
    + split; [apply all_app; [done|apply all_one; by rewrite Hfu]|done].
    + apply (stream_same _ _ fk_up_stream0); try done; cbn; rewrite tokens_app, Ht'; apply app_nil_r.
Qed.

(** ** One section of the server *)

Lemma reads_app l k : reads (l ++ k) = reads l ++ reads k.
Proof. unfold reads. by rewrite fmap_app, concat_app. Qed.
Lemma reads_cons a l : reads (a :: l) = s_read a ++ reads l.
Proof. done. Qed.

(** Actions that hold nothing. *)
Definition inert (a : saction) : bool :=
  match a with
  | SArm | SNext | SAcquire _ | SCloseOutput | SInvoked _ | SReturn _ | SFinish _ | SSendFinal _
  | SStopIdle | SUnlist | SRelease | SCloseCredit _ | SPush (Broken _) => true
  | SCancel e => negb (protocol_error e)
  | _ => false
  end.

Lemma inert_sum (w : saction -> Z) l : all inert l ->
  (forall a, inert a = true -> w a = 0) -> sum_with w l = 0.
Proof. intros Hl Hw. induction Hl; [done|]. rewrite sum_with_cons, Hw, IHHl; done. Qed.
Lemma inert_zero a : inert a = true ->
  s_held a = 0 /\ s_window a = 0 /\ s_grant a = 0 /\ s_room a = 0 /\ s_read a = [].
Proof. destruct a as [| | | |[]| | | | | | | | | | | | | | | |]; cbn; try discriminate; done. Qed.
Lemma inert_sums l : all inert l ->
  sum_with s_held l = 0 /\ sum_with s_window l = 0 /\ sum_with s_grant l = 0 /\
  sum_with s_room l = 0 /\ sum_with (fun a => items (s_read a)) l = 0 /\ reads l = [].
Proof.
  intros Hl. split_and!; try (apply inert_sum; [done|]; intros a Ha; pose proof (inert_zero a Ha); tauto).
  - apply inert_sum; [done|]. intros a Ha. destruct (inert_zero a Ha) as (_&_&_&_&->). done.
  - induction Hl as [|a l Ha _ IH]; [done|]. rewrite reads_cons, IH.
    destruct (inert_zero a Ha) as (_&_&_&_&->). done.
Qed.
Lemma inert_closed l : all inert l -> (SPush EndOfInput ∉ l) /\ existsb s_rejects l = false.
Proof.
  induction 1 as [|a l Ha _ [IH1 IH2]]; [split; [apply not_elem_of_nil|done]|]. split.
  - intros [<-|]%elem_of_cons; [discriminate|done].
  - simpl. rewrite IH2, orb_false_r. destruct a; try done. by apply negb_true_iff in Ha.
Qed.

Lemma closed_next V V' X a next Y gu gu' : closed_ok V (X ++ a :: Y) gu ->
  sc_inputClosed V' = sc_inputClosed V -> broken V' = broken V ->
  (TEnd ∈ gu -> TEnd ∈ gu') ->
  (SPush EndOfInput ∉ next) -> existsb s_rejects next = false ->
  closed_ok V' (X ++ next ++ Y) gu'.
Proof.
  intros (C1 & C4 & C2 & C3) Hi Hb Hg Hn Hr. split_and!; rewrite ?Hi, ?Hb.
  - intros H. destruct (C1 H); auto.
  - done.
  - intros [H|[H|H]%elem_of_app]%elem_of_app; [|done|]; apply C2; rewrite elem_of_app, elem_of_cons; auto.
  - intros H. apply C3. rewrite !existsb_app, Hr in H. rewrite existsb_app. simpl.
    apply orb_true_iff in H as [->|H]; [done|]. simpl in H. by rewrite H, !orb_true_r.
Qed.

(** Two states of a server call that differ in nothing the invariant reads. *)
Definition same_server (V V' : serverCall) : Prop :=
  sc_method V' = sc_method V /\ cw_n (sc_credit V') = cw_n (sc_credit V) /\
  sc_inputQueue V' = sc_inputQueue V /\ sc_inputAllowance V' = sc_inputAllowance V /\
  sc_inputSequence V' = sc_inputSequence V /\ sc_inputClosed V' = sc_inputClosed V /\
  sc_outputSequence V' = sc_outputSequence V /\ sc_outputClosed V' = sc_outputClosed V /\
  sc_listed V' = sc_listed V.

Lemma same_broken V V' : sc_inputQueue V' = sc_inputQueue V -> broken V' = broken V.
Proof. unfold broken. by intros ->. Qed.

Lemma server_quiet C R S O V V' a X next Y rt u1 u2 d1 d2 hu hd gu gd :
  flow_ok C R S O V (X ++ a :: Y) rt u1 u2 d1 d2 hu hd gu gd ->
  s_held a = 0 -> s_window a = 0 -> s_grant a = 0 -> s_room a = 0 -> s_read a = [] ->
  same_server V V' -> all inert next -> all saction_ok next ->
  flow_ok C R S O V' (X ++ next ++ Y) rt u1 u2 d1 d2 hu hd gu gd.
Proof.
  intros [] H1 H2 H3 H4 H5 (M1&M2&M3&M4&M5&M6&M7&M8&M9) Hin Hok.
  destruct (inert_sums next Hin) as (N1&N2&N3&N4&N5&N6). destruct (inert_closed next Hin) as [N7 N8].
  pose proof (up_nonneg C (R ++ S ++ O) V (X ++ Y) rt u1 u2 d1 d2) as Hun.
  pose proof (down_nonneg C (R ++ S ++ O) V (X ++ Y) rt u1 u2 d1 d2) as Hdn.
  assert (items (s_read a) = 0) as H5' by (by rewrite H5).
  split; try done.
  - unfold shape_ok in *. by rewrite M1.
  - apply Forall_app in fk_server0 as [HX [_ HY]%Forall_cons]. apply all_app; [done|by apply all_app].
  - eapply closed_next; [exact fk_closed0|done|by rewrite (same_broken _ _ M3)|done..].
  - account fk_up0 Hun; rewrite ?M3, ?M4; lia.
  - account fk_down0 Hdn.
  - apply (stream_same _ _ fk_up_stream0); cbn; rewrite ?(same_broken _ _ M3), ?M5, ?M9; try done.
    by rewrite !reads_app, reads_cons, N6, H5.
  - apply (stream_same _ _ fk_down_stream0); cbn; by rewrite ?M7, ?M8.
Qed.

(** The reader of the server accepts what it reads, unless the input was broken off. *)
Lemma server_accepts C R S O V a X Y rt u1 u2 d1 d2 hu hd gu gd t :
  flow_ok C R S O V (X ++ a :: Y) rt u1 u2 d1 d2 hu hd gu gd ->
  s_read a = [t] -> reads X = [] -> broken V = false ->
  sc_inputClosed V = false /\ 0 < sc_inputAllowance V + 1 - one_item t /\
  match t with TItem n _ => n = sc_inputSequence V | TEnd => True end.
Proof.
  intros [] Ha HX Hb.
  assert (reads (X ++ a :: Y) = t :: reads Y) as Hr by (by rewrite reads_app, reads_cons, HX, Ha).
  destruct (stream_next _ t (reads Y ++ if sc_listed V then tokens "client" u2 else []) fk_up_stream0)
    as [Hnot Ht].
  { cbn [st_line2 up_stream]. by rewrite Hb, Hr. }
  split_and!.
  - destruct (sc_inputClosed V) eqn:E; [|done]. destruct (proj1 fk_closed0 E); [congruence|done].
  - pose proof (up_nonneg C (R ++ S ++ O) V (X ++ Y) rt u1 u2 d1 d2) as Hnn.
    assert (items (s_read a) = one_item t) as Hi by (rewrite Ha, items_more, items_none; lia).
    assert (s_window a = 0) as Hw by (clear - Ha; by destruct a).
    clear fk_down0. open_account fk_up0. open_account Hnn. lia.
  - by destruct t.
Qed.

Lemma ended_keeps gu ts : TEnd ∈ gu -> TEnd ∈ gu ++ ts.
Proof. intros. apply elem_of_app. by left. Qed.

(** The order of the input when nothing is read or accepted. *)
Lemma up_stream_next C S V V' X a next Y rt u1 u2 hu gu :
  stream_ok (up_stream C S V (X ++ a :: Y) rt u1 u2 hu gu) ->
  reads next = s_read a -> broken V' = broken V -> sc_listed V' = sc_listed V ->
  sc_inputSequence V' = sc_inputSequence V ->
  stream_ok (up_stream C S V' (X ++ next ++ Y) rt u1 u2 hu gu).
Proof.
  intros H Hr Hb Hl Hs. apply (stream_same _ _ H); cbn; rewrite ?Hb, ?Hl, ?Hs; try done.
  by rewrite !reads_app, reads_cons, Hr.
Qed.

(** A frame of the server without tokens leaves the output stream as it is. *)
Lemma down_stream_frame C R V rt d1 d2 hd gd f :
  stream_ok (down_stream C R V rt d1 d2 hd gd) -> tokens "server" [f] = [] ->
  stream_ok (down_stream C R V rt (d1 ++ [f]) d2 (hd ++ [f]) gd).
Proof.
  intros H Hf. apply (stream_same _ _ H); cbn; rewrite ?tokens_app, ?Hf, ?app_nil_r; done.
Qed.

(** What the server sends beside its stream. *)
Lemma plain_frame f : send_ok f = true -> down_frame f = true /\ forall d, tokens d [f] = [].
Proof.
  unfold send_ok, terminal_frame, down_frame, kind_of.
  intros [[[Hk|Hk]%orb_true_iff _]%andb_true_iff|[Hk Hw]%andb_true_iff]%orb_true_iff;
    apply String.eqb_eq in Hk; rewrite Hk; (split; [|intros d; apply no_token; by rewrite Hk]).
  - by rewrite !orb_true_r.
  - by rewrite !orb_true_r.
  - by rewrite Hw, !orb_true_r.
Qed.
Lemma finish_frame f : finish_ok f = true -> send_ok f = true /\ forall d, window d f = 0.
Proof.
  intros H. split; [by unfold send_ok, finish_ok in *; rewrite H|]. intros d. apply no_window.
  unfold finish_ok, terminal_frame, kind_of in H. apply andb_true_iff in H as [[Hk|Hk]%orb_true_iff _];
    apply String.eqb_eq in Hk; by rewrite Hk.
Qed.

Lemma endWith_ok e : all saction_ok (endWith e).
Proof. by repeat constructor. Qed.


(** A goroutine of the server is at action [a]; a section moves the call to [V']. *)
Section Server.
Context (C : clientCall) (R S O : list caction) (V : serverCall) (X Y : list saction)
  (rt : option route) (u1 u2 d1 d2 hu hd : list sframe) (gu gd : list token).

Definition at_action (a : saction) : Prop :=
  flow_ok C R S O V (X ++ a :: Y) rt u1 u2 d1 d2 hu hd gu gd.
Definition moved (V' : serverCall) (next : list saction) (out : list sframe)
    (accepted : list token) : Prop :=
  flow_ok C R S O V' (X ++ next ++ Y) rt u1 u2 (d1 ++ out) d2 hu (hd ++ out) (gu ++ accepted) gd.

(** What every case starts from. *)
Ltac begin Hok :=
  pose proof Hok as [];
  pose proof (up_nonneg C (R ++ S ++ O) V (X ++ Y) rt u1 u2 d1 d2) as Hun;
  pose proof (down_nonneg C (R ++ S ++ O) V (X ++ Y) rt u1 u2 d1 d2) as Hdn;
  pose proof (capacity_range (hasInput (cc_stream C)));
  pose proof (capacity_range (hasOutput (cc_stream C)));
  assert (initialStreamCredit = 16) as H16 by done;
  unfold moved; rewrite ?app_nil_r.

Lemma next_ok a next : at_action a -> all saction_ok next -> all saction_ok (X ++ next ++ Y).
Proof.
  intros [] Hn. apply Forall_app in fk_server0 as [HX [_ HY]%Forall_cons].
  apply all_app; [done|by apply all_app].
Qed.
Lemma action_ok a : at_action a -> saction_ok a = true.
Proof. intros []. by apply Forall_app in fk_server0 as [_ [Ha _]%Forall_cons]. Qed.

Lemma s_quiet a V' next : at_action a ->
  s_held a = 0 -> s_window a = 0 -> s_grant a = 0 -> s_room a = 0 -> s_read a = [] ->
  same_server V V' -> all inert next -> all saction_ok next -> moved V' next [] [].
Proof. intros. unfold moved. rewrite !app_nil_r. by eapply server_quiet. Qed.

Lemma s_grant_step n : at_action (SGrant n) ->
  moved (V {{ sc_credit ::= grantCredit n }}) [] [] [].
Proof.
  intros Hok. begin Hok. pose proof (action_ok _ Hok) as Ha. apply Z.ltb_lt in Ha.
  assert (int64 (cw_n (sc_credit V) + n) = cw_n (sc_credit V) + n) as H64.
  { apply small_int64. clear Hun. open_account fk_down0. open_account Hdn. lia. }
  flow fk_up0 Hun fk_down0 Hdn.
  - apply (next_ok _ [] Hok), Forall_nil_2.
  - eapply closed_next; try done.
  - by apply (up_stream_next _ _ _ _ _ _ [] _ _ _ _ _ _ fk_up_stream0).
Qed.

(** A frame beside the stream goes out. *)
Lemma s_frame_step a f next : at_action a -> send_ok f = true ->
  s_held a = 0 -> s_window a = window "client" f -> s_grant a = 0 -> s_room a = 0 -> s_read a = [] ->
  all inert next -> all saction_ok next -> moved V next (ssendCall Sent f V) [].
Proof.
  intros Hok Hf H1 H2 H3 H4 H5 Hin Hn. begin Hok. destruct (plain_frame f Hf) as [Hdown Ht].
  destruct (ssendCall_same f V) as (f' & -> & Hft & Hfw & Hfu). destruct fk_down_frames0 as [Hd1 Hd2].
  destruct (inert_sums next Hin) as (N1&N2&N3&N4&N5&N6). destruct (inert_closed next Hin) as [N7 N8].
  pose proof (Hfw "client"%string) as Hw.
  assert (tokens "server" [f'] = []) as Ht' by (by rewrite Hft).
  assert (items (tokens "server" [f']) = 0) as Hi by (by rewrite Ht').
  assert (items (s_read a) = 0) as Hi' by (by rewrite H5).
  flow fk_up0 Hun fk_down0 Hdn.
  - split; [apply all_app; [done|apply all_one; by rewrite Hfu]|done].
  - by apply (next_ok _ next Hok).
  - by eapply closed_next.
  - apply (up_stream_next _ _ _ _ _ _ next _ _ _ _ _ _ fk_up_stream0); by rewrite ?N6, ?H5.
  - by apply down_stream_frame.
Qed.

Lemma s_open_step : at_action SOpenInput ->
  let '(V', next, out) := sexec Sent SOpenInput V in moved V' next out (saccepts SOpenInput V).
Proof.
  intros Hok. cbn [sexec saccepts]. begin Hok.
  assert (window "client" (windowFrame "client" initialStreamCredit) = 16) as Hw by done.
  flow fk_up0 Hun fk_down0 Hdn.
  - apply (next_ok _ _ Hok). by repeat constructor.
  - eapply closed_next; try done. set_solver.
  - by apply (up_stream_next _ _ _ _ _ _ [SSend _; SArm] _ _ _ _ _ _ fk_up_stream0).
Qed.

Lemma s_allow_step : at_action SAllow ->
  let '(V', next, out) := sexec Sent SAllow V in moved V' next out (saccepts SAllow V).
Proof.
  intros Hok. cbn [sexec saccepts]. begin Hok.
  assert (window "client" (windowFrame "client" 1) = 1) as Hw by done.
  assert (int64 (sc_inputAllowance V + 1) = sc_inputAllowance V + 1) as H64.
  { apply small_int64. clear Hdn. open_account fk_up0. open_account Hun. lia. }
  flow fk_up0 Hun fk_down0 Hdn.
  - apply (next_ok _ _ Hok). by repeat constructor.
  - eapply closed_next; try done. set_solver.
  - by apply (up_stream_next _ _ _ _ _ _ [SSend _] _ _ _ _ _ _ fk_up_stream0).
Qed.

Lemma s_next_step : at_action SNext ->
  let '(V', next, out) := sexec Sent SNext V in moved V' next out (saccepts SNext V).
Proof.
  intros Hok. cbn [sexec saccepts].
  assert (forall next, all inert next -> all saction_ok next -> moved V next [] []) as Hsame.
  { intros. by apply (s_quiet _ _ _ Hok). }
  destruct (sc_inputQueue V) as [|[data| |e] q] eqn:Hq.
  - apply Hsame; destruct (sc_cause V); by repeat constructor.
  - begin Hok. pose proof (f_equal queued_items Hq) as Hk. unfold queued_items in Hk.
    rewrite sum_with_cons in Hk.
    assert (forall g, broken (V {{ sc_inputQueue := q }}) = g -> broken V = g) as Hb.
    { intros g <-. unfold broken. by rewrite Hq. }
    destruct (sc_inputClosed V) eqn:Hc; flow fk_up0 Hun fk_down0 Hdn.
    + apply (next_ok _ [] Hok), Forall_nil_2.
    + eapply (closed_next V _ X SNext []); try done. symmetry. by apply Hb.
    + eapply (up_stream_next _ _ V _ X SNext []); try done. symmetry. by apply Hb.
    + apply (next_ok _ _ Hok). by repeat constructor.
    + eapply (closed_next V _ X SNext [SAllow]); try done; [symmetry; by apply Hb|set_solver].
    + eapply (up_stream_next _ _ V _ X SNext [SAllow]); try done. symmetry. by apply Hb.
  - apply Hsame; constructor.
  - apply Hsame; constructor.
Qed.

Lemma queued_items_snoc e : queued_items (sc_inputQueue V ++ [e]) =
  queued_items (sc_inputQueue V) + match e with Item _ => 1 | _ => 0 end.
Proof. unfold queued_items. by rewrite sum_with_app, sum_with_cons, sum_with_nil, Z.add_0_r. Qed.
Lemma broken_push e : broken (pushInput e V) =
  broken V || match e with Broken _ => true | _ => false end.
Proof. unfold broken. cbn. rewrite existsb_app. cbn. by rewrite orb_false_r. Qed.

Lemma s_push_step event : at_action (SPush event) -> moved (pushInput event V) [] [] [].
Proof.
  intros Hok. begin Hok. pose proof (queued_items_snoc event) as Hk. unfold queued_items in Hk.
  pose proof (broken_push event) as Hb. destruct fk_closed0 as (C1 & C2 & C3 & C4) eqn:HC.
  assert (sc_inputClosed (pushInput event V) = true -> broken (pushInput event V) = true \/ TEnd ∈ gu) as Hin.
  { rewrite Hb. cbn. destruct event; rewrite ?orb_false_r, ?orb_true_r; [done| |by left].
    intros _. apply C1, C3. set_solver. }
  assert (broken (pushInput event V) = true -> sc_inputClosed (pushInput event V) = true) as Hbc.
  { rewrite Hb. cbn. destruct event; rewrite ?orb_false_r; done. }
  assert (stream_ok (up_stream C S (pushInput event V) (X ++ Y) rt u1 u2 hu gu)) as Hstream.
  { destruct event as [data| |e]; rewrite ?orb_false_r in Hb;
      [by apply (up_stream_next _ _ _ _ _ _ [] _ _ _ _ _ _ fk_up_stream0)..|].
    rewrite orb_true_r in Hb. eapply (stream_cut _ _ _ fk_up_stream0); try done; cbn -[pushInput]; rewrite Hb; [done|].
    by rewrite !andb_false_r. }
  assert (closed_ok (pushInput event V) (X ++ Y) gu) as Hclosed.
  { split_and!; [done..| |].
    - intros H'. cbn. destruct event; [|done..]. apply C3. set_solver.
    - rewrite Hb. intros H'. apply orb_true_iff. left. apply C4. rewrite existsb_app in *. cbn.
      apply orb_true_iff in H' as [-> | ->]; [done|]. by rewrite !orb_true_r. }
  destruct event as [data| |e]; flow fk_up0 Hun fk_down0 Hdn; apply (next_ok _ [] Hok), Forall_nil_2.
Qed.

Lemma s_acquire_step payload : at_action (SAcquire payload) ->
  let '(V', next, out) := sexec Sent (SAcquire payload) V in moved V' next out (saccepts (SAcquire payload) V).
Proof.
  intros Hok. cbn [sexec saccepts]. unfold acquire.
  assert (forall w next, cw_n w = cw_n (sc_credit V) -> all inert next -> all saction_ok next ->
    moved (V {{ sc_credit := w }}) next [] []) as Hsame.
  { intros. by apply (s_quiet _ _ _ Hok). }
  destruct (cw_closed (sc_credit V)); [apply Hsame; by repeat constructor|].
  destruct (Z.ltb_spec 0 (cw_n (sc_credit V))).
  - begin Hok. flow fk_up0 Hun fk_down0 Hdn.
    + apply (next_ok _ _ Hok). by repeat constructor.
    + eapply (closed_next V _ X (SAcquire payload) [SOutput payload]); try done. set_solver.
    + by eapply (up_stream_next _ _ V _ X (SAcquire payload) [SOutput payload]).
  - apply Hsame; destruct (sc_cause V); by repeat constructor.
Qed.

(** An item of the output: under outputMu it is numbered and sent at once. *)
Lemma s_output_step payload : at_action (SOutput payload) ->
  let '(V', next, out) := sexec Sent (SOutput payload) V in moved V' next out [].
Proof.
  intros Hok. cbn [sexec saccepts]. unfold output. begin Hok.
  destruct (sc_outputClosed V || sc_terminal V) eqn:Hc.
  - rewrite !app_nil_r. flow fk_up0 Hun fk_down0 Hdn.
    + apply (next_ok _ [] Hok), Forall_nil_2.
    + by eapply (closed_next V _ X (SOutput payload) []).
    + by eapply (up_stream_next _ _ V _ X (SOutput payload) []).
  - apply orb_false_iff in Hc as [Hc _]. destruct fk_down_frames0 as [Hd1 Hd2].
    set (f := itemFrame "server" (sc_outputSequence V) (Some payload)).
    destruct (ssendCall_same f V) as (f' & -> & Hft & Hfw & Hfu).
    assert (tokens "server" [f'] = [TItem (sc_outputSequence V) (Some payload)]) as Ht by (by rewrite Hft).
    assert (items (tokens "server" [f']) = 1) as Hi by (by rewrite Ht).
    assert (windows "client" [f'] = 0) as Hw by (by rewrite Hfw).
    flow fk_up0 Hun fk_down0 Hdn.
    + split; [apply all_app; [done|apply all_one; by rewrite Hfu]|done].
    + apply (next_ok _ [] Hok), Forall_nil_2.
    + by eapply (closed_next V _ X (SOutput payload) []).
    + by eapply (up_stream_next _ _ V _ X (SOutput payload) []).
    + pose proof (stream_number _ ((down_stream C R (V {{ sc_outputSequence ::= fun n => int64 (n + 1) }})
        rt d1 d2 hd gd) {{ st_pending := [TItem (sc_outputSequence V) (Some payload)] }})
        (Some payload) fk_down_stream0 Hc) as Hs.
      apply (stream_write _ _ (tokens "server" [f']) (Hs eq_refl eq_refl Hc eq_refl eq_refl eq_refl eq_refl eq_refl eq_refl));
        try done; cbn; by rewrite ?tokens_app, ?Ht.
Qed.

(** The end of the output, if it was not announced yet. *)
Lemma s_close_step a next : at_action a ->
  s_held a = 0 -> s_window a = 0 -> s_grant a = 0 -> s_room a = 0 -> s_read a = [] ->
  all inert next -> all saction_ok next ->
  let '(V', out) := closeOutput Sent V in moved V' next out [].
Proof.
  intros Hok H1 H2 H3 H4 H5 Hin Hn. unfold closeOutput.
  destruct (sc_outputClosed V || sc_terminal V) eqn:Hc; [by apply (s_quiet a)|].
  apply orb_false_iff in Hc as [Hc _]. begin Hok. destruct fk_down_frames0 as [Hd1 Hd2].
  destruct (inert_sums next Hin) as (N1&N2&N3&N4&N5&N6). destruct (inert_closed next Hin) as [N7 N8].
  destruct (ssendCall_same (endFrame "server") V) as (f' & -> & Hft & Hfw & Hfu).
  assert (tokens "server" [f'] = [TEnd]) as Ht by (by rewrite Hft).
  assert (items (tokens "server" [f']) = 0) as Hi by (by rewrite Ht).
  assert (windows "client" [f'] = 0) as Hw by (by rewrite Hfw).
  assert (items (s_read a) = 0) as Hi' by (by rewrite H5).
  flow fk_up0 Hun fk_down0 Hdn.
  - split; [apply all_app; [done|apply all_one; by rewrite Hfu]|done].
  - by apply (next_ok _ _ Hok).
  - by eapply (closed_next V _ X a next).
  - eapply (up_stream_next _ _ V _ X a next); try done. by rewrite H5.
  - pose proof (stream_close _ ((down_stream C R (V {{ sc_outputClosed := true }})
      rt d1 d2 hd gd) {{ st_pending := [TEnd] }}) fk_down_stream0 Hc) as Hs.
    apply (stream_write _ _ (tokens "server" [f']) (Hs eq_refl eq_refl eq_refl eq_refl eq_refl eq_refl eq_refl eq_refl eq_refl));
      try done; cbn; by rewrite ?tokens_app, ?Ht.
Qed.

Lemma s_return_step payload : at_action (SReturn payload) ->
  let '(V', next, out) := sexec Sent (SReturn payload) V in moved V' next out [].
Proof.
  intros Hok. cbn [sexec saccepts]. unfold return_. set (open := _ && _).
  assert (all inert [SFinish (callResultFrame payload)]
    /\ all saction_ok [SFinish (callResultFrame payload)]) as [Hin Hn] by (split; by repeat constructor).
  destruct open.
  - pose proof (s_close_step _ _ Hok eq_refl eq_refl eq_refl eq_refl eq_refl Hin Hn).
    by destruct (closeOutput Sent V).
  - by apply (s_quiet _ _ _ Hok).
Qed.

Lemma s_unlist_step : at_action SUnlist -> moved (V {{ sc_listed := false }}) [] [] [].
Proof.
  intros Hok. set (V1 := _ : serverCall). begin Hok. flow fk_up0 Hun fk_down0 Hdn.
  - apply (next_ok _ [] Hok), Forall_nil_2.
  - by eapply (closed_next V _ X SUnlist []).
  - eapply (stream_cut _ _ _ fk_up_stream0); try done; cbn [up_stream st_line2 st_live];
      rewrite (same_broken V V1 eq_refl); [|by rewrite andb_false_r].
    instantiate (1 := if broken V then [] else if sc_listed V then tokens "client" u2 else []).
    destruct (broken V); [done|]. by rewrite app_nil_r, !reads_app, reads_cons.
Qed.

Lemma endWith_rejects message : all saction_ok (sprotocolError message) /\
  (SPush EndOfInput ∉ sprotocolError message) /\
  let B := sprotocolError message in
  sum_with s_held B = 0 /\ sum_with s_window B = 0 /\ sum_with s_grant B = 0 /\
  sum_with s_room B = 0 /\ sum_with (fun a => items (s_read a)) B = 0.
Proof. split_and!; try done; [by repeat constructor|]. unfold sprotocolError, endWith, sabort. set_solver. Qed.

(** A frame the reader gives up on, the input being broken off. *)
Lemma s_reject_step a V' message : at_action a -> same_server (V {{ sc_inputClosed := true }}) V' ->
  s_held a = 0 -> s_window a = 0 -> s_grant a = 0 -> s_room a = 0 ->
  broken V = true -> moved V' (sprotocolError message) [] [].
Proof.
  intros Hok Hsame H1 H2 H3 H4 Hb. begin Hok. destruct fk_closed0 as (C1 & C2 & C3 & C4).
  destruct Hsame as (M1&M2&M3&M4&M5&M6&M7&M8&M9). cbn in M1, M2, M3, M4, M5, M6, M7, M8, M9.
  assert (broken V' = true) as Hb' by (by rewrite (same_broken V V')).
  assert (items (s_read a) >= 0) by (pose proof (items_nonneg (s_read a)); lia).
  destruct (endWith_rejects message) as (Hn & He & N1 & N2 & N3 & N4 & N5).
  split; try done.
  - unfold shape_ok in *. by rewrite M1.
  - by apply (next_ok _ _ Hok).
  - split_and!; rewrite ?M6; [by left|done..].
  - account fk_up0 Hun; rewrite ?M3, ?M4, ?items_none; lia.
  - account fk_down0 Hdn.
  - apply (stream_same _ _ fk_up_stream0); cbn; rewrite ?Hb, ?Hb', ?M5, ?andb_false_r; done.
  - apply (stream_same _ _ fk_down_stream0); cbn; by rewrite ?M7, ?M8.
Qed.

(** The input is declared whenever a token of the client is read. *)
Lemma s_input a t rest : at_action a -> broken V = false -> reads X = [] ->
  s_read a = [t] -> rest = reads Y -> sm_input (sc_method V) = true.
Proof.
  intros [] Hb HX Ha _. destruct fk_shape0 as (_ & Hin & _ & _ & Hclosed). rewrite Hin.
  destruct t.
  - destruct (hasInput (cc_stream C)); [done|exfalso].
    pose proof (up_nonneg C (R ++ S ++ O) V (X ++ Y) rt u1 u2 d1 d2) as Hnn.
    assert (items (s_read a) = 1) as Hi by (by rewrite Ha).
    clear fk_down0. open_account fk_up0. open_account Hnn.
    assert (s_window a = 0 /\ s_room a = 0) as [? ?] by (clear - Ha; by destruct a). lia.
  - apply Hclosed. destruct fk_up_stream0 as [(ps & P & _) (lost & L & _) _]. cbn in P, L.
    rewrite Hb, reads_app, reads_cons, HX, Ha in L. destruct (cc_inputClosed C); [done|exfalso].
    assert (TEnd ∈ items_from 0 ps) as Hin'.
    { rewrite app_nil_r in P. rewrite <- P, L. set_solver. }
    clear - Hin'. revert Hin'. generalize 0%nat. induction ps as [|p ps IH]; intros i; cbn [items_from].
    + apply not_elem_of_nil.
    + intros [|H]%elem_of_cons; [done|by eapply IH].
Qed.

(** An item the reader of the server is at is accepted. *)
Lemma s_accepts f : at_action (SAccept f) -> reads X = [] -> broken V = false ->
  sacceptable f V = true /\ sc_inputClosed V = false /\
  tokens "client" [f] = [TItem (sc_inputSequence V) (sf_Payload f)].
Proof.
  intros Hok HX Hb. pose proof (action_ok _ Hok) as Ha. cbn in Ha.
  destruct (item_token _ _ Ha) as (n & Hn & Hd & Ht).
  destruct (server_accepts _ _ _ _ _ _ _ _ _ _ _ _ _ _ _ _ _ (TItem n (sf_Payload f)) Hok Ht HX Hb)
    as (Hc & Hal & ->).
  pose proof (s_input _ _ _ Hok Hb HX Ht eq_refl) as Hin. split_and!; [|done..].
  unfold sacceptable. rewrite Hin, Hd, Hc, Hn, Z.eqb_refl. cbn in *.
  destruct (Z.ltb_spec 0 (sc_inputAllowance V)); [done|lia].
Qed.

Lemma s_accept_step f : at_action (SAccept f) -> reads X = [] ->
  let '(V', next, out) := sexec Sent (SAccept f) V in moved V' next out (saccepts (SAccept f) V).
Proof.
  intros Hok HX. cbn [sexec saccepts]. pose proof (action_ok _ Hok) as Ha. cbn in Ha.
  destruct (broken V) eqn:Hb.
  - assert (sc_inputClosed V = true) as Hc by (destruct Hok as []; exact (proj1 (proj2 fk_closed0) Hb)).
    replace (sacceptable f V) with false by (unfold sacceptable; by rewrite Hc, !andb_false_r).
    apply (s_reject_step _ _ _ Hok); try done.
  - destruct (s_accepts f Hok HX Hb) as (Hacc & Hc & Ht).
    rewrite Hacc, Ht. begin Hok.
    assert (items (tokens "client" [f]) = 1) as Hi by (by rewrite Ht).
    assert (int64 (sc_inputAllowance V - 1) = sc_inputAllowance V - 1) as H64.
    { apply small_int64. clear Hdn. open_account fk_up0. open_account Hun. lia. }
    set (V1 := _ : serverCall). set (next := [SArm; _]). unfold V1, next.
    flow fk_up0 Hun fk_down0 Hdn.
    + apply (next_ok _ _ Hok). by repeat constructor.
    + eapply (closed_next V _ X _ next); try done; [apply ended_keeps|set_solver].
    + eapply (stream_accept _ _ (TItem (sc_inputSequence V) (sf_Payload f)) fk_up_stream0); try done; cbn [up_stream st_line2 st_live];
        fold V1; rewrite (same_broken V V1 eq_refl), Hb.
      rewrite !reads_app, reads_cons, HX. unfold next. cbn [s_read]. by rewrite Ht.
Qed.

Lemma s_end_step f : at_action (SEndInput f) -> reads X = [] ->
  let '(V', next, out) := sexec Sent (SEndInput f) V in moved V' next out (saccepts (SEndInput f) V).
Proof.
  intros Hok HX. cbn [sexec saccepts]. pose proof (action_ok _ Hok) as Ha. cbn in Ha.
  pose proof (end_token _ _ Ha) as Ht. apply andb_true_iff in Ha as [Hk Hd].
  destruct (broken V) eqn:Hb.
  - assert (sc_inputClosed V = true) as Hc by (destruct Hok as []; exact (proj1 (proj2 fk_closed0) Hb)).
    rewrite Hc, !andb_false_r. by apply (s_reject_step _ _ _ Hok).
  - destruct (server_accepts _ _ _ _ _ _ _ _ _ _ _ _ _ _ _ _ _ TEnd Hok Ht HX Hb) as (Hc & _ & _).
    rewrite (s_input _ _ _ Hok Hb HX Ht eq_refl), Hd, Hc, Ht. cbn [andb negb].
    begin Hok. assert (items (tokens "client" [f]) = 0) as Hi by (by rewrite Ht).
    set (V1 := _ : serverCall). unfold V1. flow fk_up0 Hun fk_down0 Hdn.
    + apply (next_ok _ _ Hok). by repeat constructor.
    + destruct fk_closed0 as (C1 & C2 & C3 & C4). split_and!; [|done..|].
      * intros _. right. set_solver.
      * fold V1; rewrite (same_broken V V1 eq_refl), !existsb_app. intros H'. apply C4.
        rewrite existsb_app. exact H'.
    + eapply (stream_accept _ _ TEnd fk_up_stream0); try done; cbn [up_stream st_line2 st_live st_expected];
        fold V1; rewrite ?(same_broken V V1 eq_refl), ?Hb; [|symmetry; apply (stream_expected _ fk_up_stream0)].
      rewrite !reads_app, reads_cons, HX. cbn [s_read]. by rewrite Ht.
Qed.

Lemma server_step a : at_action a -> (s_read a <> [] -> reads X = []) ->
  let '(V', next, out) := sexec Sent a V in moved V' next out (saccepts a V).
Proof.
  intros Hok HX.
  assert (all inert [] /\ all saction_ok []) as [Hin Hn] by (split; constructor).
  destruct a.
  - by apply s_open_step.
  - by apply s_grant_step.
  - apply s_accept_step; [done|]. apply HX. cbn [s_read].
    pose proof (action_ok _ Hok) as Ha. by destruct (item_token _ _ Ha) as (n & _ & _ & ->).
  - apply s_end_step; [done|]. apply HX. cbn [s_read]. by rewrite (end_token _ _ (action_ok _ Hok)).
  - by apply s_push_step.
  - cbn [sexec saccepts]. apply (s_quiet _ _ _ Hok); try done.
    unfold sarmIdle. by destruct (sc_idleTimeout V).
  - by apply s_next_step.
  - by apply s_allow_step.
  - by apply s_acquire_step.
  - by apply s_output_step.
  - pose proof (s_close_step _ _ Hok eq_refl eq_refl eq_refl eq_refl eq_refl Hin Hn).
    cbn [sexec]. by destruct (closeOutput Sent V).
  - cbn [sexec saccepts]. apply (s_quiet _ _ _ Hok); try done;
      destruct result, (sc_cause V); by repeat constructor.
  - by apply s_return_step.
  - by apply (s_quiet _ _ _ Hok).
  - cbn [sexec saccepts]. apply (s_quiet _ _ _ Hok); try done.
    unfold closeCredit. unfold same_server. cbn. by destruct (cw_closed (sc_credit V)).
  - cbn [sexec saccepts]. destruct (sc_terminal V); apply (s_quiet _ _ _ Hok); try done.
    + by repeat constructor.
    + pose proof (action_ok _ Hok). repeat constructor. by destruct (sc_trailers V).
  - pose proof (action_ok _ Hok) as Ha. destruct (finish_frame f Ha) as [Hf Hw].
    by apply (s_frame_step _ f [] Hok).
  - by apply (s_quiet _ _ _ Hok).
  - by apply s_unlist_step.
  - by apply (s_quiet _ _ _ Hok).
  - by apply (s_frame_step _ f [] Hok); try done; apply (action_ok _ Hok).
Qed.

End Server.
