(* ===== verification/SdkStream.v ===== *)
(** * What a streaming call guarantees from end to end

    The steps of the system of SdkLink.v keep the invariant of SdkFlow.v; from it:
    no flow violation, items in order, bounded queues, for one sender of the
    client.  Two senders of one call are the counterexample at the end. *)
From S2P Require Import Prelude GoStd Json LocalSock Protocol Outbox Breaker Libs Auth State.
From S2P Require Import Deadline Dedup Contract Balance Management OpenApi Router.
From S2P Require Import SdkRuntime SdkClient SdkServer SdkLink SdkFlow.
#[local] Open Scope Z_scope.

(** ** What the readers make of a frame *)

Lemma down_frame_cases f : down_frame f = true ->
  kind_of "stream.item" f && item_ok "server" f = true \/
  kind_of "stream.end" f && String.eqb (sf_Direction f) "server" = true \/
  kind_of "stream.window" f && window_ok "client" f = true \/ terminal_frame f = true.
Proof.
  unfold down_frame, terminal_frame, kind_of.
  repeat (intros [H|H]%orb_true_iff; revert H); rewrite ?orb_true_iff; tauto.
Qed.
Lemma up_frame_cases f : up_frame f = true ->
  kind_of "stream.item" f && item_ok "client" f = true \/
  kind_of "stream.end" f && String.eqb (sf_Direction f) "client" = true \/
  kind_of "stream.window" f && window_ok "server" f = true \/ kind_of "call.cancel" f = true.
Proof. unfold up_frame, kind_of. rewrite !orb_true_iff. tauto. Qed.

Lemma window_frame d f : kind_of "stream.window" f && window_ok d f = true ->
  exists n, sf_Kind f = "stream.window"%string /\ sf_Direction f = d /\ sf_Credit f = Some n /\
    0 < n /\ window d f = n /\ (forall d', tokens d' [f] = []).
Proof.
  intros [Hk%kind_eq [Hd%String.eqb_eq Hn]%andb_true_iff]%andb_true_iff.
  destruct (sf_Credit f) as [n|] eqn:E; [|done]. apply Z.ltb_lt in Hn. exists n.
  split_and!; try done.
  - unfold window. rewrite Hk, Hd, E, !String.eqb_refl. simpl. lia.
  - intros d'. apply no_token; by rewrite Hk.
Qed.
Lemma terminal_frame_spec f : terminal_frame f = true ->
  (forall d, tokens d [f] = []) /\ (forall d, window d f = 0) /\ item_kind f = 0.
Proof.
  unfold terminal_frame, kind_of. intros [H|H]%orb_true_iff; apply String.eqb_eq in H;
    (split_and!; [intros; apply no_token; by rewrite H|intros; apply no_window; by rewrite H|]);
    unfold item_kind; by rewrite H.
Qed.

Lemma deliver_spec f C : down_frame f = true ->
  (0 < window "client" f -> is_some (cc_inputCredit C) = true) ->
  let acts := deliver f C in
  all creader_ok acts /\ concat (c_read <$> acts) = tokens "server" [f] /\
  sum_with c_held acts = 0 /\ sum_with (fun a => items (c_write a)) acts = 0 /\
  sum_with (fun a => items (c_read a)) acts = items (tokens "server" [f]) /\
  sum_with c_window acts = 0 /\ sum_with c_grant acts = window "client" f /\
  sum_with c_room acts = 0.
Proof.
  intros Hf Hcredit. unfold deliver.
  destruct (down_frame_cases f Hf) as [H|[H|[H|H]]].
  - destruct (item_token _ _ H) as (n & Hs & Hd & Ht).
    pose proof H as [Hk%kind_eq _]%andb_true_iff.
    rewrite Hk. simpl. rewrite no_window by (by rewrite Hk).
    unfold sum_with. cbn. rewrite app_nil_r, Z.add_0_r. split_and!; try done; try lia; by repeat constructor.
  - pose proof (end_token _ _ H) as Ht. pose proof H as [Hk%kind_eq _]%andb_true_iff.
    rewrite Hk, Ht. simpl. rewrite no_window by (by rewrite Hk).
    split_and!; try done. by repeat constructor.
  - destruct (window_frame _ _ H) as (n & Hk & Hd & Hs & Hn & Hw & Ht).
    rewrite Hk, Hd, Hs, Ht, Hw in *. simpl. specialize (Hcredit Hn).
    destruct (cc_inputCredit C); [|done]. destruct (Z.leb_spec n 0); [lia|].
    split_and!; try done.
    + constructor; [|constructor]. by apply Z.ltb_lt.
    + unfold sum_with. cbn. lia.
  - destruct (terminal_frame_spec f H) as (Ht & Hw & Hi). rewrite Ht, Hw.
    unfold terminal_frame, kind_of in H. pose proof H as H'. apply orb_true_iff in H' as [Hk|Hk];
      apply String.eqb_eq in Hk; rewrite Hk; simpl; unfold sum_with; cbn; rewrite Hi;
      split_and!; try done; by repeat constructor.
Qed.

Lemma client_reads C S O V B rt u1 u2 d1 f d2 hu hd gu gd :
  flow_ok C [] S O V B rt u1 u2 d1 (f :: d2) hu hd gu gd ->
  flow_ok C (if cc_listed C then deliver f C else []) S O V B rt u1 u2 d1 d2 hu hd gu gd.
Proof.
  intros []. destruct fk_down_frames as [Hd1 [Hf Hd2]%Forall_cons].
  pose proof (up_nonneg C (S ++ O) V B rt u1 u2 d1 d2) as Hun.
  pose proof (down_nonneg C (S ++ O) V B rt u1 u2 d1 d2) as Hdn.
  pose proof (window_nonneg "client" f). pose proof (items_nonneg (tokens "server" [f])).
  assert (tokens "server" (f :: d2) = tokens "server" [f] ++ tokens "server" d2) as Ht by apply tokens_cons.
  assert (windows "client" (f :: d2) = window "client" f + windows "client" d2) as Hw by apply windows_cons.
  assert (items (tokens "server" (f :: d2)) = items (tokens "server" [f]) + items (tokens "server" d2)) as Hi
    by (by rewrite Ht, items_plus).
  destruct (deliver_spec f C Hf) as (Ha & Hr & N1 & N2 & N3 & N4 & N5 & N6).
  { intros Hpos. destruct fk_shape as (_&_&_&->&_). destruct (hasInput (cc_stream C)); [done|exfalso].
    clear fk_down. open_account fk_up. open_account Hun. lia. }
  destruct (cc_listed C) eqn:Hl.
  - flow fk_up Hun fk_down Hdn.
    + by destruct fk_client as (_&?&?).
    + apply (stream_same _ _ fk_down_stream); try done. cbn -[deliver]. by rewrite Hl, Ht, Hr.
  - flow fk_up Hun fk_down Hdn.
    apply (stream_same _ _ fk_down_stream); try done. cbn. by rewrite Hl.
Qed.

Lemma receive_spec f V : up_frame f = true ->
  (0 < window "server" f -> sm_output (sc_method V) = true) ->
  let acts := receive f V in
  all saction_ok acts /\ (SPush EndOfInput ∉ acts) /\ existsb s_rejects acts = false /\
  reads acts = tokens "client" [f] /\
  sum_with s_held acts = 0 /\ sum_with (fun a => items (s_read a)) acts = items (tokens "client" [f]) /\
  sum_with s_window acts = 0 /\ sum_with s_grant acts = window "server" f /\
  sum_with s_room acts = 0.
Proof.
  intros Hf Houtput. unfold receive.
  destruct (up_frame_cases f Hf) as [H|[H|[H|H]]].
  - destruct (item_token _ _ H) as (n & Hs & Hd & Ht).
    pose proof H as [Hk%kind_eq _]%andb_true_iff.
    rewrite Hk. simpl. rewrite no_window by (by rewrite Hk).
    unfold sum_with, reads. cbn. rewrite app_nil_r, Z.add_0_r.
    split_and!; try done; try lia; [by repeat constructor|set_solver].
  - pose proof (end_token _ _ H) as Ht. pose proof H as [Hk%kind_eq _]%andb_true_iff.
    rewrite Hk. simpl. rewrite no_window by (by rewrite Hk).
    unfold sum_with, reads. cbn. rewrite app_nil_r, Z.add_0_r.
    split_and!; try done; try lia; [by repeat constructor|set_solver].
  - destruct (window_frame _ _ H) as (n & Hk & Hd & Hs & Hn & Hw & Ht).
    rewrite Hk, Hd, Hs, Ht, Hw in *. simpl. rewrite (Houtput Hn).
    destruct (Z.leb_spec n 0); [lia|]. simpl. split_and!; try done; [|set_solver|unfold sum_with; cbn; lia].
    constructor; [|constructor]. by apply Z.ltb_lt.
  - apply kind_eq in H. rewrite H, no_token, no_window by (by rewrite H). simpl.
    split_and!; try done; [apply endWith_ok|unfold endWith, sabort; set_solver].
Qed.

Lemma others_read l : all sother_ok l -> reads l = [].
Proof. induction 1 as [|a l Ha _ IH]; [done|]. rewrite reads_cons, IH. by destruct a. Qed.

Lemma server_reads C R S O V Y rt u1 u2 d1 f d2 hu hd gu gd : all sother_ok Y ->
  flow_ok C R S O V Y rt u1 (f :: u2) d1 d2 hu hd gu gd ->
  flow_ok C R S O V ((if sc_listed V then receive f V else []) ++ Y) rt u1 u2 d1 d2 hu hd gu gd.
Proof.
  intros HY []. destruct fk_up_frames as [Hu1 [Hf Hu2]%Forall_cons].
  pose proof (up_nonneg C (R ++ S ++ O) V Y rt u1 u2 d1 d2) as Hun.
  pose proof (down_nonneg C (R ++ S ++ O) V Y rt u1 u2 d1 d2) as Hdn.
  pose proof (window_nonneg "server" f). pose proof (items_nonneg (tokens "client" [f])).
  assert (tokens "client" (f :: u2) = tokens "client" [f] ++ tokens "client" u2) as Ht by apply tokens_cons.
  assert (windows "server" (f :: u2) = window "server" f + windows "server" u2) as Hw by apply windows_cons.
  assert (items (tokens "client" (f :: u2)) = items (tokens "client" [f]) + items (tokens "client" u2)) as Hi
    by (by rewrite Ht, items_plus).
  destruct (receive_spec f V Hf) as (Ha & Hp & Hj & Hr & N1 & N2 & N3 & N4 & N5).
  { intros Hpos. destruct fk_shape as (_&_&->&_). destruct (hasOutput (cc_stream C)); [done|exfalso].
    clear fk_up. open_account fk_down. open_account Hdn. lia. }
  destruct fk_closed as (C1 & C2 & C3 & C4).
  destruct (sc_listed V) eqn:Hl; flow fk_up Hun fk_down Hdn.
  - by apply all_app.
  - split_and!; try done.
    + intros [H'|H']%elem_of_app; [done|auto].
    + rewrite existsb_app, Hj. exact C4.
  - apply (stream_same _ _ fk_up_stream); try done. cbn -[receive].
    by rewrite Hl, Ht, reads_app, Hr, (others_read Y HY), app_nil_r.
  - apply (stream_same _ _ fk_up_stream); try done. cbn. by rewrite Hl.
Qed.

(** ** The Router *)

(** What the credit check does to the two counters. *)
Lemma credit_item rt f d : kind_of "stream.item" f && item_ok d f = true ->
  d = "client"%string \/ d = "server"%string ->
  let server := String.eqb d "server" in
  (if server then rt_serverCredit rt else rt_clientCredit rt) <> 0 ->
  exists rt', credit rt (routed f) = (rt', true) /\
    rt_clientCredit rt' = (if server then rt_clientCredit rt else rt_clientCredit rt - 1) /\
    rt_serverCredit rt' = (if server then rt_serverCredit rt - 1 else rt_serverCredit rt).
Proof.
  intros [Hk%kind_eq [Hd%String.eqb_eq _]%andb_true_iff]%andb_true_iff Hds server Hc.
  unfold credit, routed. cbn. rewrite Hk, Hd. destruct Hds as [-> | ->]; cbn in *;
    apply Z.eqb_neq in Hc; rewrite Hc; by eexists.
Qed.
Lemma credit_window rt f d : kind_of "stream.window" f && window_ok d f = true ->
  d = "client"%string \/ d = "server"%string ->
  let server := String.eqb d "server" in
  let add := window d f in
  exists rt', credit rt (routed f) = (rt', true) /\
    rt_clientCredit rt' = (if server then rt_clientCredit rt else grant (rt_clientCredit rt) add) /\
    rt_serverCredit rt' = (if server then grant (rt_serverCredit rt) add else rt_serverCredit rt).
Proof.
  intros Hf Hds. destruct (window_frame _ _ Hf) as (n & Hk & Hd & Hn & _ & -> & _).
  unfold credit, routed. cbn. rewrite Hk, Hd, Hn. destruct Hds as [-> | ->]; by eexists.
Qed.
Lemma credit_other rt f : sf_Kind f <> "stream.window"%string -> sf_Kind f <> "stream.item"%string ->
  credit rt (routed f) = (rt, true).
Proof.
  intros Hw Hi. unfold credit, routed. cbn.
  by destruct (String.eqb_spec (sf_Kind f) "stream.window"), (String.eqb_spec (sf_Kind f) "stream.item").
Qed.
Lemma grant_min counter add : Z.min MaxInt64 (counter + add) <= grant counter add.
Proof. unfold grant. intros. destruct (Z.ltb_spec (MaxInt64 - add) counter); lia. Qed.

Section Router.
Context (C : clientCall) (R S O : list caction) (V : serverCall) (B : list saction)
  (u1 u2 d1 d2 hu hd : list sframe) (gu gd : list token).

Definition flow_at (rt : option route) (u1 u2 d1 d2 : list sframe) : Prop :=
  flow_ok C R S O V B rt u1 u2 d1 d2 hu hd gu gd.

(** Without a route nothing is forwarded. *)
Lemma drop_up f : flow_at None (f :: u1) u2 d1 d2 -> flow_at None u1 u2 d1 d2.
Proof.
  intros []. destruct fk_up_frames as [[Hf Hu1]%Forall_cons Hu2].
  pose proof (up_nonneg C (R ++ S ++ O) V B None u1 u2 d1 d2) as Hun.
  pose proof (down_nonneg C (R ++ S ++ O) V B None u1 u2 d1 d2) as Hdn.
  pose proof (window_nonneg "server" f). pose proof (items_nonneg (tokens "client" [f])).
  pose proof (tokens_cons "client" f u1) as Ht. pose proof (windows_cons "server" f u1) as Hw.
  assert (items (tokens "client" (f :: u1)) = items (tokens "client" [f]) + items (tokens "client" u1)) as Hi
    by (by rewrite Ht, items_plus).
  flow fk_up Hun fk_down Hdn.
  eapply (stream_hop _ _ (tokens "client" [f]) fk_up_stream); try done. by right.
Qed.
Lemma drop_down f : flow_at None u1 u2 (f :: d1) d2 -> flow_at None u1 u2 d1 d2.
Proof.
  intros []. destruct fk_down_frames as [[Hf Hd1]%Forall_cons Hd2].
  pose proof (up_nonneg C (R ++ S ++ O) V B None u1 u2 d1 d2) as Hun.
  pose proof (down_nonneg C (R ++ S ++ O) V B None u1 u2 d1 d2) as Hdn.
  pose proof (window_nonneg "client" f). pose proof (items_nonneg (tokens "server" [f])).
  pose proof (tokens_cons "server" f d1) as Ht. pose proof (windows_cons "client" f d1) as Hw.
  assert (items (tokens "server" (f :: d1)) = items (tokens "server" [f]) + items (tokens "server" d1)) as Hi
    by (by rewrite Ht, items_plus).
  flow fk_up Hun fk_down Hdn.
  eapply (stream_hop _ _ (tokens "server" [f]) fk_down_stream); try done. by right.
Qed.

(** The Router may end the call at any time. *)
Lemma end_route rt err id reason : flow_at rt u1 u2 d1 d2 ->
  flow_at None u1 (u2 ++ [cancelFrame id reason]) d1 (d2 ++ [callErrorFrame err]).
Proof.
  intros []. destruct fk_down_frames as [Hd1 Hd2], fk_up_frames as [Hu1 Hu2].
  pose proof (up_nonneg C (R ++ S ++ O) V B rt u1 u2 d1 d2) as Hun.
  pose proof (down_nonneg C (R ++ S ++ O) V B rt u1 u2 d1 d2) as Hdn.
  set (c := cancelFrame id reason). set (e := callErrorFrame err).
  assert (forall d, tokens d [c] = []) as Ht by (by intros; apply no_token).
  assert (forall d, tokens d [e] = []) as Hte by (by intros; apply no_token).
  assert (forall d, window d c = 0 /\ window d e = 0) as Hw by (by split; apply no_window).
  destruct (Hw "client"%string), (Hw "server"%string).
  assert (items (tokens "client" [c]) = 0 /\ items (tokens "server" [e]) = 0) as [Hi1 Hi2] by (by rewrite Ht, Hte).
  assert (windows "server" [c] = window "server" c) as Hw1 by (unfold windows, sum_with; cbn; lia).
  assert (windows "client" [e] = window "client" e) as Hw2 by (unfold windows, sum_with; cbn; lia).
  assert (up_frame c = true /\ down_frame e = true) as [Hc He] by done. clearbody c e.
  flow fk_up Hun fk_down Hdn.
  - split; [done|by apply all_app, all_one].
  - split; [done|by apply all_app, all_one].
  - eapply (stream_same _ _ fk_up_stream); try done. cbn. by rewrite tokens_app, Ht, app_nil_r.
  - eapply (stream_same _ _ fk_down_stream); try done. cbn. by rewrite tokens_app, Hte, app_nil_r.
Qed.

(** A frame of the client passes the Router: the credit check holds. *)
Lemma credit_up rt f : flow_at (Some rt) (f :: u1) u2 d1 d2 ->
  exists rt', credit rt (routed f) = (rt', true) /\
    rt_clientCredit rt' + items (tokens "client" [f]) = rt_clientCredit rt /\
    Z.min MaxInt64 (rt_serverCredit rt + window "server" f) <= rt_serverCredit rt'.
Proof.
  intros []. destruct fk_up_frames as [[Hf _]%Forall_cons _].
  pose proof (up_nonneg C (R ++ S ++ O) V B None u1 u2 d1 d2) as Hun.
  assert (items (tokens "client" (f :: u1)) = items (tokens "client" [f]) + items (tokens "client" u1)) as Hi
    by (by rewrite tokens_cons, items_plus).
  destruct (up_frame_cases f Hf) as [H|[H|[H|H]]].
  - destruct (item_token _ _ H) as (n & _ & _ & Ht). rewrite Ht in *.
    assert (items [TItem n (sf_Payload f)] = 1) as H1 by done.
    destruct (credit_item rt f _ H (or_introl eq_refl)) as (rt' & Hc & H2 & H3).
    { clear fk_down. open_account fk_up. open_account Hun. destruct fk_up as (? & Hcn & _).
      specialize (Hcn _ eq_refl). cbn. lia. }
    exists rt'. cbn in H2, H3. apply andb_true_iff in H as [Hk%kind_eq _].
    rewrite no_window by (by rewrite Hk). split_and!; [done|lia|lia].
  - pose proof (end_token _ _ H) as Ht. apply andb_true_iff in H as [Hk%kind_eq _]. exists rt.
    rewrite Ht, credit_other by (by rewrite Hk). rewrite no_window by (by rewrite Hk).
    rewrite items_more, items_none. cbn. split_and!; [done|lia|lia].
  - destruct (credit_window rt f _ H (or_intror eq_refl)) as (rt' & Hc & H2 & H3).
    destruct (window_frame _ _ H) as (n & _ & _ & _ & Hn & Hw & Ht). cbn in H2, H3.
    exists rt'. rewrite Ht, items_none. split_and!; [done|lia|]. rewrite H3, Hw. apply grant_min.
  - apply kind_eq in H. exists rt. rewrite credit_other by (by rewrite H).
    rewrite no_token, no_window by (by rewrite H). rewrite items_none.
    split_and!; [done|lia|lia].
Qed.

Lemma hop_up rt f : flow_at (Some rt) (f :: u1) u2 d1 d2 ->
  exists rt', credit rt (routed f) = (rt', true) /\
    (forall end_, flow_at (if end_ : bool then None else Some rt') u1 (u2 ++ [f]) d1 d2).
Proof.
  intros Hok. destruct (credit_up rt f Hok) as (rt' & Hc & Hcl & Hsv). exists rt'. split; [done|].
  destruct Hok. destruct fk_up_frames as [[Hf Hu1]%Forall_cons Hu2]. intros end_.
  pose proof (up_nonneg C (R ++ S ++ O) V B None u1 u2 d1 d2) as Hun.
  pose proof (down_nonneg C (R ++ S ++ O) V B None u1 u2 d1 d2) as Hdn.
  pose proof (window_nonneg "server" f). pose proof (items_nonneg (tokens "client" [f])).
  pose proof (tokens_cons "client" f u1) as Ht. pose proof (windows_cons "server" f u1) as Hw.
  assert (windows "server" [f] = window "server" f) as Hw1 by (unfold windows, sum_with; cbn; lia).
  assert (items (tokens "client" (f :: u1)) = items (tokens "client" [f]) + items (tokens "client" u1)) as Hi
    by (by rewrite Ht, items_plus).
  pose proof (capacity_range (hasOutput (cc_stream C))).
  assert (MaxInt64 = 9223372036854775807) as Hmax by done.
  split; try done; try by repeat constructor.
  - split; [done|by apply all_app, all_one].
  - destruct end_; account fk_up Hun.
  - destruct end_; account fk_down Hdn.
  - apply (stream_hop _ _ (tokens "client" [f]) fk_up_stream); try done; cbn.
    + destruct (broken V); [right; by rewrite andb_false_r|].
      destruct (sc_listed V); [left|right; by rewrite andb_false_r].
      by rewrite tokens_app, app_assoc.
    + by destruct end_.
  - apply (stream_same _ _ fk_down_stream); try done; cbn. by destruct end_.
Qed.

(** The same for a frame of the server. *)
Lemma credit_down rt f : flow_at (Some rt) u1 u2 (f :: d1) d2 ->
  exists rt', credit rt (routed f) = (rt', true) /\
    rt_serverCredit rt' + items (tokens "server" [f]) = rt_serverCredit rt /\
    Z.min MaxInt64 (rt_clientCredit rt + window "client" f) <= rt_clientCredit rt'.
Proof.
  intros []. destruct fk_down_frames as [[Hf _]%Forall_cons _].
  pose proof (down_nonneg C (R ++ S ++ O) V B None u1 u2 d1 d2) as Hdn.
  assert (items (tokens "server" (f :: d1)) = items (tokens "server" [f]) + items (tokens "server" d1)) as Hi
    by (by rewrite tokens_cons, items_plus).
  destruct (down_frame_cases f Hf) as [H|[H|[H|H]]].
  - destruct (item_token _ _ H) as (n & _ & _ & Ht). rewrite Ht in *.
    assert (items [TItem n (sf_Payload f)] = 1) as H1 by done.
    destruct (credit_item rt f _ H (or_intror eq_refl)) as (rt' & Hc & H2 & H3).
    { clear fk_up. open_account fk_down. open_account Hdn. destruct fk_down as (? & Hcn & _).
      specialize (Hcn _ eq_refl). cbn. lia. }
    exists rt'. cbn in H2, H3. apply andb_true_iff in H as [Hk%kind_eq _].
    rewrite no_window by (by rewrite Hk). split_and!; [done|lia|lia].
  - pose proof (end_token _ _ H) as Ht. apply andb_true_iff in H as [Hk%kind_eq _]. exists rt.
    rewrite Ht, credit_other by (by rewrite Hk). rewrite no_window by (by rewrite Hk).
    rewrite items_more, items_none. cbn. split_and!; [done|lia|lia].
  - destruct (credit_window rt f _ H (or_introl eq_refl)) as (rt' & Hc & H2 & H3).
    destruct (window_frame _ _ H) as (n & _ & _ & _ & Hn & Hw & Ht). cbn in H2, H3.
    exists rt'. rewrite Ht, items_none. split_and!; [done|lia|]. rewrite H2, Hw. apply grant_min.
  - destruct (terminal_frame_spec f H) as (Ht & Hw & _). exists rt. rewrite Ht, Hw, items_none.
    rewrite credit_other; [split_and!; [done|lia|lia]|..];
      intros Hk; unfold terminal_frame, kind_of in H; by rewrite Hk in H.
Qed.

Lemma hop_down rt f : flow_at (Some rt) u1 u2 (f :: d1) d2 ->
  exists rt', credit rt (routed f) = (rt', true) /\
    (forall end_, flow_at (if end_ : bool then None else Some rt') u1 u2 d1 (d2 ++ [f])).
Proof.
  intros Hok. destruct (credit_down rt f Hok) as (rt' & Hc & Hsv & Hcl). exists rt'. split; [done|].
  destruct Hok. destruct fk_down_frames as [[Hf Hd1]%Forall_cons Hd2]. intros end_.
  pose proof (up_nonneg C (R ++ S ++ O) V B None u1 u2 d1 d2) as Hun.
  pose proof (down_nonneg C (R ++ S ++ O) V B None u1 u2 d1 d2) as Hdn.
  pose proof (window_nonneg "client" f). pose proof (items_nonneg (tokens "server" [f])).
  pose proof (tokens_cons "server" f d1) as Ht. pose proof (windows_cons "client" f d1) as Hw.
  assert (windows "client" [f] = window "client" f) as Hw1 by (unfold windows, sum_with; cbn; lia).
  assert (items (tokens "server" (f :: d1)) = items (tokens "server" [f]) + items (tokens "server" d1)) as Hi
    by (by rewrite Ht, items_plus).
  pose proof (capacity_range (hasInput (cc_stream C))).
  assert (MaxInt64 = 9223372036854775807) as Hmax by done.
  split; try done; try by repeat constructor.
  - split; [done|by apply all_app, all_one].
  - destruct end_; account fk_up Hun.
  - destruct end_; account fk_down Hdn.
  - apply (stream_same _ _ fk_up_stream); try done; cbn. by destruct end_.
  - apply (stream_hop _ _ (tokens "server" [f]) fk_down_stream); try done; cbn.
    + destruct (cc_listed C); [left|right; by rewrite andb_false_r].
      by rewrite tokens_app, app_assoc.
    + by destruct end_.
Qed.

End Router.

(** ** New goroutines *)

Lemma start_sender C R O V B rt u1 u2 d1 d2 hu hd gu gd acts :
  hasInput (cc_stream C) = true -> acts = closeInput \/ (exists p, acts = sendInput p) ->
  flow_ok C R [] O V B rt u1 u2 d1 d2 hu hd gu gd ->
  flow_ok C R acts O V B rt u1 u2 d1 d2 hu hd gu gd.
Proof.
  intros Hin Hacts []. pose proof (up_nonneg C (R ++ O) V B rt u1 u2 d1 d2) as Hun.
  pose proof (down_nonneg C (R ++ O) V B rt u1 u2 d1 d2) as Hdn.
  destruct fk_client as (?&_&?).
  destruct Hacts as [-> | [p ->]]; unfold closeInput, sendInput; flow fk_up Hun fk_down Hdn;
    split_and!; simpl; try done; lia.
Qed.

Lemma stop_sender C R p S O V B rt u1 u2 d1 d2 hu hd gu gd :
  flow_ok C R (CAcquire p :: S) O V B rt u1 u2 d1 d2 hu hd gu gd ->
  flow_ok C R S O V B rt u1 u2 d1 d2 hu hd gu gd.
Proof.
  intros []. destruct fk_send as (Hlen & _ & _). destruct S as [|b S]; [|simpl in Hlen; lia].
  pose proof (up_nonneg C (R ++ O) V B rt u1 u2 d1 d2) as Hun.
  pose proof (down_nonneg C (R ++ O) V B rt u1 u2 d1 d2) as Hdn.
  destruct fk_client as (?&_&?). flow fk_up Hun fk_down Hdn; split_and!; simpl; try done; lia.
Qed.

Lemma start_client C R S O V B rt u1 u2 d1 d2 hu hd gu gd acts : cspawn acts ->
  flow_ok C R S O V B rt u1 u2 d1 d2 hu hd gu gd ->
  flow_ok C R S (O ++ acts) V B rt u1 u2 d1 d2 hu hd gu gd.
Proof.
  intros Hacts []. pose proof (up_nonneg C (R ++ S ++ O) V B rt u1 u2 d1 d2) as Hun.
  pose proof (down_nonneg C (R ++ S ++ O) V B rt u1 u2 d1 d2) as Hdn.
  destruct fk_client as (?&?&?).
  destruct Hacts; flow fk_up Hun fk_down Hdn; split_and!; try done; by apply all_app, all_one.
Qed.

Lemma start_server C R S O V B rt u1 u2 d1 d2 hu hd gu gd acts :
  all inert acts -> all saction_ok acts ->
  flow_ok C R S O V B rt u1 u2 d1 d2 hu hd gu gd ->
  flow_ok C R S O V (B ++ acts) rt u1 u2 d1 d2 hu hd gu gd.
Proof.
  intros Hin Hok []. pose proof (up_nonneg C (R ++ S ++ O) V B rt u1 u2 d1 d2) as Hun.
  pose proof (down_nonneg C (R ++ S ++ O) V B rt u1 u2 d1 d2) as Hdn.
  destruct (inert_sums acts Hin) as (N1&N2&N3&N4&N5&N6). destruct (inert_closed acts Hin) as [N7 N8].
  flow fk_up Hun fk_down Hdn.
  - by apply all_app.
  - destruct fk_closed as (C1 & C2 & C3 & C4). split_and!; try done.
    + intros [H'|H']%elem_of_app; [auto|done].
    + by rewrite existsb_app, N8, orb_false_r.
  - apply (stream_same _ _ fk_up_stream); try done; cbn. by rewrite reads_app, N6, app_nil_r.
Qed.
Lemma sspawn_ok V acts : sspawn V acts -> all inert acts /\ all saction_ok acts /\ all sother_ok acts.
Proof. intros []; split_and!; by repeat constructor. Qed.

(** What the other goroutines of the server do next is theirs to do. *)
Lemma others_next a V : sother_ok a = true -> all sother_ok (snd (fst (sexec Sent a V))).
Proof.
  intros Ha. destruct a; try discriminate; cbn [sexec];
    unfold acquire, output, return_, closeOutput;
    repeat (case_match; simplify_eq/=); repeat constructor; try done.
Qed.

(** ** The invariant *)

Lemma link_client_other k a acts i : link_ok k -> k_cothers k !! i = Some (a :: acts) ->
  link_ok (crun a acts (set_cother i) k).
Proof.
  intros (Ho & S & HS & Hf) Hi. destruct (concat_at _ _ _ _ Hi) as (X & Y & HX & Hn).
  rewrite HX in Hf. pose proof (cother_step _ _ _ _ _ _ _ _ _ _ _ _ _ _ _ _ _ Hf) as H.
  unfold crun. destruct (cexec Sent a (k_client k)) as [[C' next] out].
  split; [done|]. exists S. split; [done|]. cbn. by rewrite Hn.
Qed.
Lemma link_server_other k a acts i : link_ok k -> k_sothers k !! i = Some (a :: acts) ->
  link_ok (srun a acts (set_sother i) k).
Proof.
  intros (Ho & S & HS & Hf) Hi. destruct (concat_at _ _ _ _ Hi) as (X & Y & HX & Hn).
  rewrite HX, app_assoc in Hf. rewrite HX in Ho. pose proof Ho as [HoX [Ha HoY]%Forall_cons]%Forall_app.
  pose proof (server_step _ _ _ _ _ (k_sreader k ++ X) Y _ _ _ _ _ _ _ _ _ a Hf) as H.
  pose proof (others_next a (k_server k) Ha) as Hnext.
  unfold srun. destruct (sexec Sent a (k_server k)) as [[V' next] out].
  assert (all sother_ok (concat (<[i := next ++ acts]> (k_sothers k)))) as Ho'.
  { rewrite Hn. apply all_app; [done|]. by apply all_app. }
  split; [done|]. exists S. split; [done|]. cbn. rewrite Hn, app_assoc. apply H.
  by destruct a.
Qed.

Lemma up_allowed f : up_frame f = true -> allowedFrame "client" (routed f) = true.
Proof.
  intros H. unfold allowedFrame, routed. cbn.
  destruct (up_frame_cases f H) as [H1|[H1|[H1|H1]]].
  - pose proof H1 as [Hk%kind_eq [Hd%String.eqb_eq _]%andb_true_iff]%andb_true_iff. by rewrite Hk, Hd.
  - apply andb_true_iff in H1 as [Hk%kind_eq Hd%String.eqb_eq]. by rewrite Hk, Hd.
  - destruct (window_frame _ _ H1) as (n & Hk & Hd & _). by rewrite Hk, Hd.
  - apply kind_eq in H1. by rewrite H1.
Qed.
Lemma down_allowed f : down_frame f = true -> allowedFrame "server" (routed f) = true.
Proof.
  intros H. unfold allowedFrame, routed. cbn.
  destruct (down_frame_cases f H) as [H1|[H1|[H1|H1]]].
  - pose proof H1 as [Hk%kind_eq [Hd%String.eqb_eq _]%andb_true_iff]%andb_true_iff. by rewrite Hk, Hd.
  - apply andb_true_iff in H1 as [Hk%kind_eq Hd%String.eqb_eq]. by rewrite Hk, Hd.
  - destruct (window_frame _ _ H1) as (n & Hk & Hd & _). by rewrite Hk, Hd.
  - apply orb_true_iff in H1 as [H1|H1]; apply kind_eq in H1; by rewrite H1.
Qed.

Lemma link_route_up k f rest : link_ok k -> k_up1 k = f :: rest ->
  link_ok (route_up f (k {{ k_up1 := rest }})).
Proof.
  intros (Ho & S & HS & Hf) Hu. rewrite Hu in Hf. unfold route_up. cbn -[credit routed allowedFrame].
  destruct (k_route k) as [rt|] eqn:Hr.
  - destruct (hop_up _ _ _ _ _ _ _ _ _ _ _ _ _ _ _ _ Hf) as (rt' & -> & Hn).
    destruct Hf. destruct fk_up_frames as [[Hup _]%Forall_cons _]. rewrite (up_allowed _ Hup). cbn.
    split; [done|]. exists S. split; [done|]. apply Hn.
  - split; [done|]. exists S. split; [done|]. cbn. rewrite ?Hr. by eapply drop_up.
Qed.
Lemma link_route_down k f rest : link_ok k -> k_down1 k = f :: rest ->
  link_ok (route_down f (k {{ k_down1 := rest }})).
Proof.
  intros (Ho & S & HS & Hf) Hu. rewrite Hu in Hf. unfold route_down. cbn -[credit routed allowedFrame].
  destruct (k_route k) as [rt|] eqn:Hr.
  - destruct (hop_down _ _ _ _ _ _ _ _ _ _ _ _ _ _ _ _ Hf) as (rt' & -> & Hn).
    destruct Hf. destruct fk_down_frames as [[Hup _]%Forall_cons _]. rewrite (down_allowed _ Hup). cbn.
    split; [done|]. exists S. split; [done|]. apply Hn.
  - split; [done|]. exists S. split; [done|]. cbn. rewrite ?Hr. by eapply drop_down.
Qed.

Lemma link_step_ok k k' : link_ok k -> link_step k k' -> link_ok k'.
Proof.
  intros Hok Hstep. pose proof Hok as (Ho & S & HS & Hf). destruct Hstep.
  - rewrite H, H0 in Hf. split; [done|]. exists S. split; [done|]. by apply client_reads.
  - rewrite H in Hf. pose proof (creader_step _ _ _ _ _ _ _ _ _ _ _ _ _ _ _ _ Hf) as Hn.
    unfold crun. destruct (cexec Sent a (k_client k)) as [[C' next] out].
    split; [done|]. by exists S.
  - rewrite HS in H. destruct i as [|i]; [|done]. injection H as ->.
    pose proof (csend_step _ _ _ _ _ _ _ _ _ _ _ _ _ _ _ _ Hf) as Hn.
    unfold crun. destruct (cexec Sent a (k_client k)) as [[C' next] out].
    split; [done|]. exists (next ++ acts). split; [|done]. cbn. by rewrite HS.
  - by apply link_client_other.
  - rewrite HS in H. destruct i as [|i]; [|done]. injection H as ->.
    split; [done|]. exists (sendInput payload). split; [cbn; by rewrite HS|].
    apply start_sender; [done| |done]. right. by eexists.
  - rewrite HS in H. destruct i as [|i]; [|done]. injection H as ->.
    split; [done|]. exists closeInput. split; [cbn; by rewrite HS|].
    apply start_sender; [done| |done]. by left.
  - rewrite HS in H. destruct i as [|i]; [|done]. injection H as ->.
    split; [done|]. exists acts. split; [cbn; by rewrite HS|]. by eapply stop_sender.
  - split; [done|]. exists S. split; [done|]. cbn. rewrite concat_app. cbn. rewrite app_nil_r.
    by apply start_client.
  - rewrite H, H0 in Hf. split; [done|]. exists S. split; [done|]. by apply server_reads.
  - rewrite H in Hf. pose proof (server_step _ _ _ _ _ [] (acts ++ concat (k_sothers k)) _ _ _ _ _ _ _ _ _ a Hf) as Hn.
    unfold srun. destruct (sexec Sent a (k_server k)) as [[V' next] out].
    split; [done|]. exists S. split; [done|]. cbn. rewrite <- app_assoc. by apply Hn.
  - by apply link_server_other.
  - destruct (sspawn_ok _ _ H) as (H1 & H2 & H3). unfold link_ok. cbn. rewrite concat_app. cbn.
    rewrite app_nil_r. split; [by apply all_app|]. exists S. split; [done|].
    rewrite app_assoc. by apply start_server.
  - by apply link_route_up.
  - by apply link_route_down.
  - split; [done|]. exists S. split; [done|]. by apply (end_route _ _ _ _ _ _ _ _ _ _ _ _ _ _ (k_route k)).
Qed.

Lemma stream0_ok : stream_ok (Stream [] [] false 0 [] [] [] 0 true).
Proof. split; [by exists []|by exists []|done]. Qed.

Lemma all_nil {A} (p : A -> bool) : all p [].
Proof. apply Forall_nil_2. Qed.
#[local] Hint Resolve all_nil all_one stream0_ok : core.

Lemma link0_ok open idle m :
  m ∈ [unaryMethod; serverStreamMethod; clientStreamMethod; duplexMethod] ->
  link_ok (link0 1 open idle m).
Proof.
  intros Hm. unfold link_ok.
  assert (m = unaryMethod \/ m = serverStreamMethod \/ m = clientStreamMethod \/ m = duplexMethod)
    as [-> |[-> |[-> | ->]]] by set_solver;
    (split; [cbn; auto|]; exists []; split; [done|]; cbn; split; try done; auto;
     split_and!; auto; try done; try (by intros c [= <-]); simpl; try lia; set_solver).
Qed.

Lemma linked_ok k : linked 1 k -> link_ok k.
Proof. induction 1 as [open idle m Hm|k k' _ IH Hs]; [by apply link0_ok|by eapply link_step_ok]. Qed.

(** ** Schedules

    A schedule names the goroutine whose turn it is; [play] runs it. *)
Inductive turn :=
  | TCRead | TCReader | TCSender (i : nat) | TCOther (i : nat) | TSend (i : nat) (payload : string)
  | TSRead | TSReader | TSOther (i : nat) | TSStart (acts : list saction) | TSIdle
  | TUp | TDown.

Definition take (t : turn) (k : link) : option link :=
  match t with
  | TCRead =>
      match k_creader k, k_down2 k with
      | [], f :: rest => Some (k {{ k_down2 := rest;
          k_creader := if cc_listed (k_client k) then deliver f (k_client k) else [] }})
      | _, _ => None
      end
  | TCReader => match k_creader k with a :: acts => Some (crun a acts set_creader k) | [] => None end
  | TCSender i =>
      match k_csenders k !! i with
      | Some (a :: acts) => Some (crun a acts (set_csender i) k) | _ => None end
  | TCOther i =>
      match k_cothers k !! i with
      | Some (a :: acts) => Some (crun a acts (set_cother i) k) | _ => None end
  | TSend i payload =>
      match k_csenders k !! i with
      | Some [] => if hasInput (cc_stream (k_client k))
                   then Some (set_csender i (sendInput payload) k) else None
      | _ => None
      end
  | TSRead =>
      match k_sreader k, k_up2 k with
      | [], f :: rest => Some (k {{ k_up2 := rest;
          k_sreader := if sc_listed (k_server k) then receive f (k_server k) else [] }})
      | _, _ => None
      end
  | TSReader => match k_sreader k with a :: acts => Some (srun a acts set_sreader k) | [] => None end
  | TSOther i =>
      match k_sothers k !! i with
      | Some (a :: acts) => Some (srun a acts (set_sother i) k) | _ => None end
  | TSStart acts =>
      match acts with
      | [SAcquire _] | [SNext] => Some (k {{ k_sothers ::= fun l => l ++ [acts] }})
      | _ => None
      end
  | TSIdle =>
      if sc_idleTimer (k_server k) then Some (k {{ k_sothers ::= fun l => l ++ [idleExpired] }}) else None
  | TUp => match k_up1 k with f :: rest => Some (route_up f (k {{ k_up1 := rest }})) | [] => None end
  | TDown =>
      match k_down1 k with f :: rest => Some (route_down f (k {{ k_down1 := rest }})) | [] => None end
  end.
Fixpoint play (ts : list turn) (k : link) : option link :=
  match ts with [] => Some k | t :: ts => match take t k with Some k => play ts k | None => None end end.

Lemma take_step t k k' : take t k = Some k' -> link_step k k'.
Proof.
  destruct t; unfold take; intros H.
  - destruct (k_creader k) eqn:E1, (k_down2 k) eqn:E2; simplify_eq. by apply CRead.
  - destruct (k_creader k) eqn:E1; simplify_eq. by apply CReader.
  - destruct (k_csenders k !! i) as [[|a acts]|] eqn:E1; simplify_eq. by apply CSender.
  - destruct (k_cothers k !! i) as [[|a acts]|] eqn:E1; simplify_eq. by apply COther.
  - destruct (k_csenders k !! i) as [[|a acts]|] eqn:E1; [|done..].
    destruct (hasInput _) eqn:E2; simplify_eq. by apply CStartSend.
  - destruct (k_sreader k) eqn:E1, (k_up2 k) eqn:E2; simplify_eq. by apply SRead.
  - destruct (k_sreader k) eqn:E1; simplify_eq. by apply SReader.
  - destruct (k_sothers k !! i) as [[|a acts]|] eqn:E1; simplify_eq. by apply SOther.
  - destruct acts as [|[] [|? ?]]; simplify_eq; apply SStart; constructor.
  - destruct (sc_idleTimer (k_server k)) eqn:E1; simplify_eq. by apply SStart, SpawnIdle.
  - destruct (k_up1 k) eqn:E1; simplify_eq. by apply RouteUp.
  - destruct (k_down1 k) eqn:E1; simplify_eq. by apply RouteDown.
Qed.
Lemma play_linked n ts k k' : linked n k -> play ts k = Some k' -> linked n k'.
Proof.
  revert k. induction ts as [|t ts IH]; intros k Hk H; cbn in H; [by injection H as <-|].
  destruct (take t k) as [k1|] eqn:E; [|done]. eapply IH; [|done]. econstructor; [done|by eapply take_step].
Qed.

(** ** The guarantees *)



Lemma room_nonneg A B : 0 <= sum_with c_room A /\ 0 <= sum_with s_room B.
Proof. split; nonneg. Qed.


(** *** A call that runs through both directions *)

(** The server announces input credit; the client takes it. *)
Definition announce : list turn := [TSOther 0; TSOther 0; TDown; TCRead; TCReader].
Definition one_input (payload : string) : list turn :=
  [TSend 0 payload; TCSender 0; TCSender 0; TCSender 0; TCSender 0; TUp; TSRead; TSReader;
   TSReader; TSReader].
Definition one_output (payload : string) : list turn :=
  [TCOther 0; TCOther 0; TUp; TSRead; TSReader; TSStart [SAcquire payload]; TSOther 1; TSOther 1;
   TDown; TCRead; TCReader].
Definition opening : sframe := (sframe0 "call.open") {{ sf_CallID := "c1"; sf_IdleTimeout := Some 50 }}.
Definition started (senders : nat) : link := link0 senders opening 0 duplexMethod.
Definition exchange : link :=
  default (started 1) (play (announce ++ one_input "1" ++ one_output "2") (started 1)).

Lemma started_linked n : linked n (started n).
Proof. apply Linked0. set_solver. Qed.
Lemma exchange_linked : linked 1 exchange.
Proof.
  apply (play_linked 1 (announce ++ one_input "1" ++ one_output "2") (started 1)).
  - apply started_linked.
  - by vm_compute.
Qed.


(** ** Where the guarantees end *)

(** Two goroutines of one client call: [sendInput] numbers an item under call.mu
    and sends it behind the lock. *)
Definition race : list turn :=
  announce ++ [TSend 0 "a"; TSend 1 "b"; TCSender 0; TCSender 0; TCSender 0;
               TCSender 1; TCSender 1; TCSender 1; TCSender 1; TCSender 0; TUp; TSRead].
(** With two senders the guarantees fail: the items go out in the wrong
    order, and the server is about to end the call with a protocol error. *)
Theorem two_senders_out_of_order : exists k f acts, linked 2 k /\
  tokens "client" (k_hup k) = [TItem 1 (Some "b"%string); TItem 0 (Some "a"%string)] /\
  k_sreader k = SAccept f :: acts /\ broken (k_server k) = false /\ sacceptable f (k_server k) = false /\
  snd (fst (sexec Sent (SAccept f) (k_server k)))
    = sprotocolError "Invalid input stream item, sequence, or credit".
Proof.
  destruct (play race (started 2)) as [k|] eqn:E; [|by vm_compute in E].
  pose proof (play_linked 2 race _ _ (started_linked 2) E) as Hk.
  vm_compute in E. injection E as <-. eexists _, _, _. split; [exact Hk|]. by vm_compute.
Qed.

(** The idle timer of the input fires while an item is on its way: abort has closed
    the input, but the terminal frame is not out yet. *)
Definition idle_race : list turn :=
  announce ++ [TSOther 0; TSend 0 "a"; TCSender 0; TCSender 0; TCSender 0; TCSender 0; TUp; TSRead;
               TSIdle; TSOther 1; TSOther 1; TSOther 1;
               TSReader; TSReader; TSReader; TSReader; TSReader; TSReader].
(** A call whose input idle timer expires may end with protocol_error
    instead of deadline_exceeded, though no peer broke the protocol. *)
Theorem idle_race_protocol_error : exists k f e, linked 1 k /\ broken (k_server k) = true /\
  sc_cause (k_server k) = Some (detailed CodeDeadlineExceeded "Input stream idle timeout" "server" "idle" false) /\
  k_hdown k = [(windowFrame "client" 16) {{ sf_CallID := "c1" }}; f] /\
  sf_Kind f = "call.error"%string /\ sf_Error f = Some e /\ eb_code e = CodeProtocolError.
Proof.
  destruct (play idle_race (started 1)) as [k|] eqn:E; [|by vm_compute in E].
  pose proof (play_linked 1 idle_race _ _ (started_linked 1) E) as Hk.
  vm_compute in E. injection E as <-. eexists _, _, _. split; [exact Hk|]. by vm_compute.
Qed.

Lemma int64_moves n : int64 (n + 1) <> n.
Proof.
  unfold int64. intros H. pose proof (Z.div_mod (n + 1 + 2 ^ 63) (2 ^ 64) ltac:(lia)). lia.
Qed.

(** An output item over the size limit takes a sequence number but is not
    sent, so the next item a handler sends all the same makes the client end the
    call with a protocol error; the server meant frame_too_large. *)
Theorem oversized_output_gap V C text big item :
  sc_outputClosed V = false -> sc_terminal V = false ->
  cc_expectedSeq C = sc_outputSequence V ->
  let '(V1, next, out) := sexec (TooLarge text) (SOutput big) V in
  out = [] /\ next = [SCancel (frameTooLarge "server" text)] /\
  exists f, snd (sexec Sent (SOutput item) V1) = [f] /\ deliver f C = [CAccept f] /\
    snd (fst (cexec Sent (CAccept f) C))
      = [CFail (protocolFailure "Invalid output stream item, sequence, or credit")].
Proof.
  intros Hc Ht He. cbn [sexec]. unfold output. rewrite Hc, Ht. cbn. split_and!; [done..|].
  rewrite Hc, Ht. cbn. eexists. split; [done|]. split; [done|].
  cbn [cexec fst snd]. replace (acceptable _ C) with false; [done|].
  unfold acceptable, itemFrame. cbn. rewrite He.
  destruct (Z.eqb_spec (int64 (sc_outputSequence V + 1)) (sc_outputSequence V)) as [H|_];
    [by apply int64_moves in H|by rewrite andb_false_r].
Qed.
Lemma oversized_output_gap_witness :
  let V := newServerCall opening duplexMethod in
  let C := newClientCall "c1" "duplex" 0 in
  let '(V1, _, out) := sexec (TooLarge "x") (SOutput "1") V in
  out = [] /\ exists f, snd (sexec Sent (SOutput "2") V1) = [f] /\
    snd (fst (cexec Sent (CAccept f) C))
      = [CFail (protocolFailure "Invalid output stream item, sequence, or credit")].
Proof.
  destruct (oversized_output_gap (newServerCall opening duplexMethod) (newClientCall "c1" "duplex" 0)
    "x" "1" "2" eq_refl eq_refl eq_refl) as (H & _ & f & Hf & _ & Hg).
  split; [exact H|]. exists f. split; [exact Hf|exact Hg].
Defined.
