(* ===== verification/SdkRetry.v ===== *)
(** * The retry of unary calls: src/meshcall-go/client.go

    [Client.retry] runs the rest of the chain until it succeeds or may not be
    repeated.  What an attempt answers, how long it takes, which delay
    [RetryPolicy.delay] draws (floating point, with random jitter) and whether the
    context ends during the pause are the environment of the loop. *)
From S2P Require Import Prelude GoStd Json SdkRuntime.
#[local] Open Scope Z_scope.

Section Retry.
Context {float : Type} (two fifth : float).   (* 2 and 0.2 *)

(** ** Policies *)

Record RetryPolicy := MkRetryPolicy {
  rp_Disabled : bool;
  rp_MaxAttempts : Z;
  rp_InitialDelay : Z;
  rp_MaxDelay : Z;
  rp_Multiplier : float;
  rp_Jitter : float;
  rp_RetryCodes : option (list string) }.   (* nil or a slice *)

Definition DefaultRetry : RetryPolicy :=
  MkRetryPolicy false 3 (100 * Millisecond) (2 * Second) two fifth
    (Some [CodeUnavailable; CodeResourceExhausted]).

(** The policy with its zero values replaced. *)
Definition effective (p : RetryPolicy) : RetryPolicy :=
  let attempts := if rp_MaxAttempts p =? 0 then rp_MaxAttempts DefaultRetry else rp_MaxAttempts p in
  let d := if rp_InitialDelay p =? 0 then DefaultRetry else p in
  let codes := match rp_RetryCodes p with None => rp_RetryCodes DefaultRetry | Some l => Some l end in
  MkRetryPolicy (rp_Disabled p) attempts (rp_InitialDelay d) (rp_MaxDelay d) (rp_Multiplier d)
    (rp_Jitter d) codes.

(** ** The loop *)

(** The options of the call that the loop reads or changes. *)
Record CallOptions := MkCallOptions {
  co_Timeout : Z;
  co_IdempotencyKey : string;
  co_Idempotent : bool }.

Inductive outcome :=
  | Success
  | Failure (e : Error)             (* AsError finds a MeshCall error *)
  | OtherFailure.

(** An attempt: when it answers and what, the delay drawn behind it, and the error
    of the context if that ends during the pause. *)
Record attempt_env := MkAttempt {
  at_end : Z;
  at_result : outcome;
  at_delay : Z;
  at_interrupt : option Error }.

Definition with_attempts (n : Z) (e : Error) : Error :=
  e {{ er_Details ::= set_detail "attempts" (JNumber (marshal_int n)) }}.

Definition mayRetry (o : CallOptions) : bool :=
  co_Idempotent o || negb (is_empty (co_IdempotencyKey o)).
(** Whether an attempt may be followed by another. *)
Definition repeatable (p : RetryPolicy) (o : CallOptions) (n : Z) (e : Error) : bool :=
  mayRetry o && er_Retryable e && existsb (String.eqb (er_Code e)) (default [] (rp_RetryCodes p))
  && (n <? rp_MaxAttempts p).

(** The loop from attempt [n]: what [retry] returns, and the timeouts that the
    attempts were given; [None] when the fuel runs out.  [env] tells attempt by
    attempt what happens. *)
Fixpoint retry_loop (fuel : nat) (p : RetryPolicy) (o : CallOptions) (deadline : option Z)
    (n : Z) (timeout : Z) (env : Z -> attempt_env) : option (outcome * list Z) :=
  match fuel with
  | O => None
  | S fuel =>
      let a := env n in
      match at_result a with
      | Failure e =>
          if negb (repeatable p o n e)
          then Some (Failure (if 1 <? n then with_attempts n e else e), [timeout])
          else
            let again timeout' :=
              match at_interrupt a with
              | Some e => Some (Failure e, [timeout])
              | None =>
                  match retry_loop fuel p o deadline (n + 1) timeout' env with
                  | Some (r, ts) => Some (r, timeout :: ts)
                  | None => None
                  end
              end in
            match deadline with
            | None => again timeout
            | Some d =>
                let remaining := d - at_end a in
                if remaining <=? at_delay a then Some (Failure e, [timeout])
                else again (remaining - at_delay a)
            end
      | r => Some (r, [timeout])
      end
  end.

Definition retry (fuel : nat) (policy : RetryPolicy) (o : CallOptions) (now : Z)
    (env : Z -> attempt_env) : option (outcome * list Z) :=
  let p := effective policy in
  let deadline := if 0 <? co_Timeout o then Some (now + co_Timeout o) else None in
  retry_loop fuel p o deadline 1 (co_Timeout o) env.

(** [runChain]: unary calls are retried unless the policy is disabled. *)
Definition retried (stream : string) (policy : RetryPolicy) : bool :=
  String.eqb stream "unary" && negb (rp_Disabled policy).

(** ** What the loop does *)

(** Attempts a policy allows. *)
Definition allowed_attempts (p : RetryPolicy) : Z := Z.max 1 (rp_MaxAttempts (effective p)).

(** Why attempt [k] was the last one, and what it makes of the result. *)
Inductive last_attempt (p : RetryPolicy) (o : CallOptions) (deadline : option Z)
    (env : Z -> attempt_env) (k : Z) : outcome -> Prop :=
  | LastSuccess : at_result (env k) = Success -> last_attempt p o deadline env k Success
  | LastOther : at_result (env k) = OtherFailure -> last_attempt p o deadline env k OtherFailure
  | LastFinal e : at_result (env k) = Failure e -> repeatable p o k e = false ->
      last_attempt p o deadline env k (Failure (if 1 <? k then with_attempts k e else e))
  | LastDeadline e d : at_result (env k) = Failure e -> repeatable p o k e = true ->
      deadline = Some d -> d - at_end (env k) <= at_delay (env k) ->
      last_attempt p o deadline env k (Failure e)
  | LastInterrupt e c : at_result (env k) = Failure e -> repeatable p o k e = true ->
      at_interrupt (env k) = Some c -> last_attempt p o deadline env k (Failure c).

(** Attempts [n] to [n + length ts], given [timeout] and then [ts], with result [r]. *)
Record retry_run (p : RetryPolicy) (o : CallOptions) (deadline : option Z)
    (env : Z -> attempt_env) (n timeout : Z) (r : outcome) (ts : list Z) : Prop := {
  rr_bound : n + Z.of_nat (length ts) <= Z.max n (rp_MaxAttempts p);
  rr_last : last_attempt p o deadline env (n + Z.of_nat (length ts)) r;
  rr_again : forall i, n <= i < n + Z.of_nat (length ts) ->
    exists e, at_result (env i) = Failure e /\ repeatable p o i e = true;
  rr_timeouts : forall i t, ts !! i = Some t ->
    match deadline with
    | Some d => 0 < t /\ at_end (env (n + Z.of_nat i)) + at_delay (env (n + Z.of_nat i)) + t = d
    | None => t = timeout
    end }.

Lemma run_last p o deadline env n timeout r :
  last_attempt p o deadline env n r -> retry_run p o deadline env n timeout r [].
Proof. intros H. split; cbn; rewrite ?Z.add_0_r; try done; lia. Qed.

Lemma run_again p o deadline env n timeout t r ts e :
  at_result (env n) = Failure e -> repeatable p o n e = true ->
  match deadline with
  | Some d => 0 < t /\ at_end (env n) + at_delay (env n) + t = d
  | None => t = timeout
  end ->
  retry_run p o deadline env (n + 1) t r ts -> retry_run p o deadline env n timeout r (t :: ts).
Proof.
  intros He Hr Ht [B L A T]. assert (n < rp_MaxAttempts p) as Hn.
  { apply andb_true_iff in Hr as [_ Hr]. by apply Z.ltb_lt. }
  assert (n + Z.of_nat (length (t :: ts)) = n + 1 + Z.of_nat (length ts)) as Hl by (cbn [length]; lia).
  split; rewrite ?Hl; [lia|done|..].
  - intros i Hi. destruct (decide (i = n)) as [->|]; [eauto|]. apply A. lia.
  - intros [|i] t' Hi; cbn in Hi.
    + injection Hi as <-. by rewrite Z.add_0_r.
    + specialize (T i t' Hi). replace (n + Z.of_nat (S i)) with (n + 1 + Z.of_nat i) by lia.
      destruct deadline; [done|]. by rewrite T.
Qed.

Lemma retry_loop_run p o deadline env fuel n timeout :
  Z.max n (rp_MaxAttempts p) - n < Z.of_nat fuel ->
  exists r ts, retry_loop fuel p o deadline n timeout env = Some (r, timeout :: ts) /\
    retry_run p o deadline env n timeout r ts.
Proof.
  revert n timeout. induction fuel as [|fuel IH]; intros n timeout Hf; [lia|]. cbn [retry_loop].
  destruct (at_result (env n)) as [|e|] eqn:Ha;
    [exists Success, []; split; [done|apply run_last; by constructor]| |
     exists OtherFailure, []; split; [done|apply run_last; by constructor]].
  destruct (repeatable p o n e) eqn:Hr; cbn [negb];
    [|eexists _, []; split; [done|apply run_last; by constructor]].
  assert (n < rp_MaxAttempts p) as Hn.
  { pose proof Hr as [_ Hlt]%andb_true_iff. by apply Z.ltb_lt. }
  assert (forall t, match deadline with
      | Some d => 0 < t /\ at_end (env n) + at_delay (env n) + t = d | None => t = timeout end ->
    exists r ts, match at_interrupt (env n) with
      | Some e => Some (Failure e, [timeout])
      | None => match retry_loop fuel p o deadline (n + 1) t env with
                | Some (r, ts) => Some (r, timeout :: ts) | None => None end
      end = Some (r, timeout :: ts) /\ retry_run p o deadline env n timeout r ts) as Hagain.
  { intros t Ht. destruct (at_interrupt (env n)) as [c|] eqn:Hi.
    - exists (Failure c), []. split; [done|]. by eapply run_last, LastInterrupt.
    - destruct (IH (n + 1) t ltac:(lia)) as (r & ts & -> & Hrun).
      exists r, (t :: ts). split; [done|]. by eapply run_again. }
  destruct deadline as [d|]; [|by apply Hagain].
  destruct (Z.leb_spec (d - at_end (env n)) (at_delay (env n))).
  - exists (Failure e), []. split; [done|]. by eapply run_last, LastDeadline.
  - apply Hagain. lia.
Qed.

End Retry.

(** ** Where the report ends *)

Definition lost_connection : Error := error CodeUnavailable "Connection was lost" true.
(** Two attempts of 40 ms, pauses of 30 ms, 100 ms in all. *)
Definition short_of_time (n : Z) : attempt_env :=
  MkAttempt ((n * 70 - 30) * Millisecond) (Failure lost_connection) (30 * Millisecond) None.
Definition keyed_call : CallOptions := MkCallOptions (100 * Millisecond) "k" false.

(** A retried call whose timeout leaves no room for another pause ends
    with the plain error of its last attempt, without the number of attempts. *)
Theorem retry_deadline_drops_attempts :
  let policy := DefaultRetry tt tt in
  retry tt tt 3 policy keyed_call 0 short_of_time
    = Some (Failure lost_connection, [100 * Millisecond; 30 * Millisecond]) /\
  lookup_last "attempts" (er_Details lost_connection) = None /\
  repeatable (effective tt tt policy) keyed_call 2 lost_connection = true.
Proof. by vm_compute. Qed.
