(* ===== verification/SdkServe.v ===== *)
(** * The Go server's sessions: src/meshcall-go/server.go

    [session.open] decides on a call.open in several sections (the table of the
    session, the counter of the server, the table again, the counter again); the
    readers of other sessions and the goroutines of the calls run in between. *)
From S2P Require Import Prelude GoStd Json SdkRuntime SdkClient SdkServer SdkLink.
#[local] Open Scope Z_scope.

(** ** State *)

(** Of a service: whether it is targeted, and its methods by name. *)
Record Service := MkService {
  sv_targeted : bool;
  sv_byName : gmap string smethod }.
Record ServerOptions := MkServerOptions {
  so_InstanceID : string;
  so_MaxInflight : Z }.

(** A call with its goroutines: what the session's reader does inside
    [serverCall.receive], and the others.  [en_out] and [en_lost] record the
    terminal frames that were sent and those that could not be. *)
Record entry := Entry {
  en_session : nat;
  en_id : string;
  en_call : serverCall;
  en_reader : list saction;
  en_progs : list (list saction);
  en_started : bool;
  en_out : Z;
  en_lost : Z }.
#[global] Instance entry_eta : Eta entry := fun e =>
  Entry (en_session e) (en_id e) (en_call e) (en_reader e) (en_progs e) (en_started e)
    (en_out e) (en_lost e).

(** What the reader of a session does about a call.open. *)
Inductive raction :=
  | ROpen (f : sframe)
  | RLimit (f : sframe)
  | RInsert (f : sframe) (m : smethod)
  | RCount (call : nat) (m : smethod)
  | RReject (f : sframe) (e : Error).

Record session := Session {
  ss_alive : bool;
  ss_prog : list raction;
  ss_sent : list sframe }.
#[global] Instance session_eta : Eta session := fun s => Session (ss_alive s) (ss_prog s) (ss_sent s).

Record Server := MkServer {
  sr_opts : ServerOptions;
  sr_services : gmap string Service;
  sr_inflight : Z;
  sr_entries : list entry;          (* every call that was opened *)
  sr_sessions : list session }.
#[global] Instance Server_eta : Eta Server := fun s =>
  MkServer (sr_opts s) (sr_services s) (sr_inflight s) (sr_entries s) (sr_sessions s).

(** ** [session.open] *)

(** The entry of [sess.calls] for an id. *)
Definition listed_at (i : nat) (id : string) (e : entry) : bool :=
  (en_session e =? i)%nat && String.eqb (en_id e) id && sc_listed (en_call e).
Definition duplicate (i : nat) (id : string) (s : Server) : bool :=
  existsb (listed_at i id) (sr_entries s).

(** The checks behind the capacity check; they read nothing that changes. *)
Definition refusal (f : sframe) (s : Server) : Error + smethod :=
  let id := so_InstanceID (sr_opts s) in
  match sr_services s !! sf_Service f with
  | None => inl (error CodeMethodNotFound ("Unknown method " +:+ sf_Service f +:+ "." +:+ sf_Method f) false)
  | Some svc =>
      match sv_byName svc !! sf_Method f with
      | None => inl (error CodeMethodNotFound ("Unknown method " +:+ sf_Service f +:+ "." +:+ sf_Method f) false)
      | Some m =>
          if negb (is_empty (sf_InstanceID f)) && negb (String.eqb (sf_InstanceID f) id)
          then let e := detailed CodeUnavailable
                 ("Instance " +:+ sf_InstanceID f +:+ " is not this server (" +:+ id +:+ ")")
                 "server" "instance_unknown" false in
               inl (e {{ er_Details ::= set_detail "instance_id" (JString (sf_InstanceID f)) }})
          else if is_empty (sf_InstanceID f) && sv_targeted svc
          then inl (detailed CodeInvalidArgument
                 (sf_Service f +:+ " is a targeted service: call.open needs instance_id")
                 "server" "instance_required" false)
          else if String.eqb (sm_stream m) "duplex" && negb (is_empty (sf_Idempotency f))
          then inl (detailed CodeInvalidArgument
                 "Duplex calls are never replayed and take no idempotency key"
                 "server" "idempotency_key_on_duplex" false)
          else inr m
      end
  end.

Definition overloaded (s : Server) : bool :=
  (0 <? so_MaxInflight (sr_opts s)) && (so_MaxInflight (sr_opts s) <=? sr_inflight s).

Definition upd_session (i : nat) (g : session -> session) (s : Server) : Server :=
  s {{ sr_sessions ::= alter g i }}.
Definition upd_entry (k : nat) (g : entry -> entry) (s : Server) : Server :=
  s {{ sr_entries ::= alter g k }}.

Definition rejectFrame (f : sframe) (e : Error) : sframe :=
  (sframe0 "call.error") {{ sf_CallID := sf_CallID f; sf_Error := Some (payload e) }}.

(** One section of [session.open] of session [i]. *)
Definition rexec (i : nat) (a : raction) (s : Server) : Server :=
  let next p := upd_session i (fun x => x {{ ss_prog := p }}) in
  match a with
  | ROpen f =>
      if duplicate i (sf_CallID f) s
      then next [RReject f (error CodeProtocolError "Duplicate call_id" false)] s
      else next [RLimit f] s
  | RLimit f =>
      if overloaded s
      then next [RReject f (detailed CodeResourceExhausted "Instance is at its max_inflight"
                              "server" "overloaded" true)] s
      else match refusal f s with
           | inl e => next [RReject f e] s
           | inr m => next [RInsert f m] s
           end
  | RInsert f m =>
      let e := Entry i (sf_CallID f) ((newServerCall f m) {{ sc_listed := true }}) [] [] false 0 0 in
      next [RCount (length (sr_entries s)) m] (s {{ sr_entries ::= fun l => l ++ [e] }})
  | RCount k m =>
      next [] (upd_entry k (fun e => e {{ en_call ::= fun c => c {{ sc_counted := true }};
                                          en_started := true; en_progs := [running m] }})
        (s {{ sr_inflight ::= fun n => int64 (n + 1) }}))
  | RReject f e =>
      upd_session i (fun x => x {{ ss_prog := []; ss_sent ::= fun l => l ++ [rejectFrame f e] }}) s
  end.

(** ** Calls in their sessions *)

(** A terminal frame, and what a section sent of them or lost. *)
Definition ending (f : sframe) : Z :=
  if String.eqb (sf_Kind f) "call.result" || String.eqb (sf_Kind f) "call.error" then 1 else 0.
Definition lost (o : sendOutcome) (a : saction) : Z :=
  match o, a with
  | Lost, (SSend f | SSendFinal f) => ending f
  | TooLarge _, SSend f => ending f
  | _, _ => 0
  end.

(** Whether a section lowers [server.inflight]. *)
Definition releases (a : saction) : bool := match a with SRelease => true | _ => false end.

(** One section of a goroutine of call [k]; [set] puts the rest of it back. *)
Definition call_section (k : nat) (o : sendOutcome) (a : saction) (rest : list saction)
    (set : list saction -> entry -> entry) (s : Server) : Server :=
  match sr_entries s !! k with
  | None => s
  | Some e =>
      let '(call, next, out) := sexec o a (en_call e) in
      let s := upd_entry k (fun e => (set (next ++ rest) e)
        {{ en_call := call; en_out ::= Z.add (sum_with ending out); en_lost ::= Z.add (lost o a) }}) s in
      if releases a then s {{ sr_inflight ::= fun n => int64 (n - 1) }} else s
  end.

(** [session.handle] of a frame for a call of the session. *)
Definition hand (i : nat) (f : sframe) (s : Server) : Server :=
  s {{ sr_entries ::= fmap (fun e =>
         if listed_at i (sf_CallID f) e then e {{ en_reader := SdkServer.receive f (en_call e) }} else e) }}.

(** The reader of a session takes the next frame when it is done with the last. *)
Definition idle_reader (i : nat) (s : Server) : Prop :=
  (exists x, sr_sessions s !! i = Some x /\ ss_alive x = true /\ ss_prog x = []) /\
  Forall (fun e => en_session e = i -> en_reader e = []) (sr_entries s).

(** The end of [session.serve]: its calls are aborted. *)
Definition serve_end (i : nat) (s : Server) : Server :=
  upd_session i (fun x => x {{ ss_alive := false }})
    (s {{ sr_entries ::= fmap (fun e =>
            if (en_session e =? i)%nat && sc_listed (en_call e)
            then e {{ en_reader := connectionLost }} else e) }}).

Definition set_reader (acts : list saction) (e : entry) : entry := e {{ en_reader := acts }}.
Definition set_prog (j : nat) (acts : list saction) (e : entry) : entry :=
  e {{ en_progs ::= <[j := acts]> }}.

Inductive server_step (s : Server) : Server -> Prop :=
  | SvConnect : server_step s (s {{ sr_sessions ::= fun l => l ++ [Session true [] []] }})
  | SvCallOpen i f : idle_reader i s ->
      server_step s (upd_session i (fun x => x {{ ss_prog := [ROpen f] }}) s)
  | SvFrame i f : idle_reader i s -> server_step s (hand i f s)
  | SvOpen i x a acts : sr_sessions s !! i = Some x -> ss_prog x = a :: acts ->
      server_step s (rexec i a s)
  | SvEnd i : idle_reader i s -> server_step s (serve_end i s)
  | SvReader k e o a acts : sr_entries s !! k = Some e -> en_reader e = a :: acts ->
      server_step s (call_section k o a acts set_reader s)
  | SvProg k e j o a acts : sr_entries s !! k = Some e -> en_progs e !! j = Some (a :: acts) ->
      server_step s (call_section k o a acts (set_prog j) s)
  | SvStart k e acts : sr_entries s !! k = Some e -> en_started e = true -> sspawn (en_call e) acts ->
      server_step s (upd_entry k (fun e => e {{ en_progs ::= fun l => l ++ [acts] }}) s).

Definition server0 (opts : ServerOptions) (services : gmap string Service) : Server :=
  MkServer opts services 0 [] [].
Inductive serving (opts : ServerOptions) (services : gmap string Service) : Server -> Prop :=
  | Serving0 : serving opts services (server0 opts services)
  | ServingStep s s' : serving opts services s -> server_step s s' -> serving opts services s'.
