(* ===== verification/SdkSessions.v ===== *)
(** * What the Go server's sessions guarantee

    The counter of calls in flight is exact and returns to zero, the capacity
    holds up to one call per further connection, a session never lists two calls
    under one id, and a call is answered exactly once. *)
From S2P Require Import Prelude GoStd Json SdkRuntime SdkClient SdkServer SdkLink SdkServe.
#[local] Open Scope Z_scope.

(** ** What one section does to the accounts of its call *)

Definition bit (b : bool) : Z := if b then 1 else 0.
Definition acts (e : entry) : list saction := en_reader e ++ concat (en_progs e).

(** The last sections of a call that are still to run. *)
Definition release_of (a : saction) : Z := match a with SRelease => 1 | _ => 0 end.
Definition unlist_of (a : saction) : Z := match a with SUnlist => 1 | _ => 0 end.
Definition answer_of (a : saction) : Z :=
  match a with SSendFinal _ => 1 | SSend f => ending f | _ => 0 end.
(** Terminal frames are call.result or call.error. *)
Definition terminal_ok (a : saction) : bool :=
  match a with SFinish f | SSendFinal f => ending f =? 1 | _ => true end.

#[local] Arguments ending : simpl never.
#[local] Arguments sum_with : simpl never.

Lemma sum_none {A} (g : A -> Z) : sum_with g [] = 0.
Proof. done. Qed.

Lemma ending_same f g : sf_Kind f = sf_Kind g -> ending f = ending g.
Proof. unfold ending. by intros ->. Qed.
Lemma ending_call f call o : sum_with ending (ssendCall o f call) = match o with Sent => ending f | _ => 0 end.
Proof. destruct o; cbn; [|done..]. by rewrite sum_with_cons, sum_none, Z.add_0_r. Qed.

Lemma section_accounts o a call : terminal_ok a = true ->
  let '(call', next, out) := sexec o a call in
  let ended := bit (sc_terminal call') - bit (sc_terminal call) in
  Forall (fun a => terminal_ok a = true) next /\
  (sc_terminal call = true -> sc_terminal call' = true) /\
  sc_counted call' = (if releases a then false else sc_counted call) /\
  sc_listed call' = (match a with SUnlist => false | _ => sc_listed call end) /\
  sum_with release_of next + match a with SRelease => 1 | _ => 0 end = release_of a + ended /\
  sum_with unlist_of next + match a with SUnlist => 1 | _ => 0 end = unlist_of a + ended /\
  sum_with ending out + lost o a + sum_with answer_of next = answer_of a + ended.
Proof.
  intros Ha.
  assert (forall c, sum_with ending (ssendCall o (endFrame "server") c) = 0) as Hend
    by (intros c; rewrite ending_call; by destruct o).
  assert (forall n p c, sum_with ending (ssendCall o (itemFrame "server" n p) c) = 0) as Hitem
    by (intros n p c; rewrite ending_call; by destruct o).
  destruct a; cbn [sexec]; unfold acquire, output, return_, closeOutput, sarmIdle, closeCredit, sprotocolError,
    endWith, sabort, cleanup;
    repeat (case_match; simplify_eq/=);
    repeat (rewrite ?sum_with_cons, ?sum_none, ?Hend, ?Hitem, ?ending_call; cbn);
    split_and!; try done; try lia.
  all: try (by repeat constructor); try (unfold ending; cbn; lia);
    try (replace (lost o _) with 0 by (by destruct o)); try (unfold ending; cbn; lia).
  all: try match goal with H : sc_terminal _ = true |- _ => rewrite H end; try (cbn; lia).
  - apply Z.eqb_eq in Ha. change (ending f + 0 + 0 + 0 = 1 + (bit (sc_terminal call) - bit (sc_terminal call))). lia.
  - destruct o; cbn; lia.
Qed.


(** ** The invariant *)

Record entry_ok (e : entry) : Prop := {
  eo_terminal : Forall (fun a => terminal_ok a = true) (acts e);
  eo_release : sum_with release_of (acts e) = bit (sc_terminal (en_call e) && sc_counted (en_call e));
  eo_unlist : sum_with unlist_of (acts e) = bit (sc_terminal (en_call e) && sc_listed (en_call e));
  eo_answer : en_out e + en_lost e + sum_with answer_of (acts e) = bit (sc_terminal (en_call e));
  eo_fresh : en_started e = false -> acts e = [] /\ sc_counted (en_call e) = false /\
    sc_listed (en_call e) = true /\ sc_terminal (en_call e) = false;
  eo_started : en_started e = true ->
    (sc_counted (en_call e) = true \/ sc_terminal (en_call e) = true) /\
    (sc_listed (en_call e) = true \/ sc_terminal (en_call e) = true) }.

Definition counted (s : Server) : Z := sum_with (fun e => bit (sc_counted (en_call e))) (sr_entries s).
(** Readers that passed the capacity check and have not counted their call yet. *)
Definition past_check (x : session) : Z :=
  match ss_prog x with (RInsert _ _ | RCount _ _) :: _ => 1 | _ => 0 end.
Definition sessions (s : Server) : Z := Z.of_nat (length (sr_sessions s)).
Definition max_inflight (s : Server) : Z := so_MaxInflight (sr_opts s).

Definition prog_ok (s : Server) (i : nat) (p : list raction) : Prop :=
  match p with
  | [] | [ROpen _] | [RReject _ _] => True
  | [RLimit f] | [RInsert f _] => duplicate i (sf_CallID f) s = false
  | [RCount k _] =>
      exists e, sr_entries s !! k = Some e /\ en_session e = i /\ en_started e = false
  | _ => False
  end.

Record serve_ok (s : Server) : Prop := {
  sv_entries : Forall entry_ok (sr_entries s);
  sv_count : sr_inflight s = int64 (counted s);
  sv_progs : forall i x, sr_sessions s !! i = Some x -> prog_ok s i (ss_prog x);
  sv_fresh : forall k e, sr_entries s !! k = Some e -> en_started e = false ->
    exists x m, sr_sessions s !! en_session e = Some x /\ ss_prog x = [RCount k m];
  sv_unique : forall k1 k2 e1 e2, sr_entries s !! k1 = Some e1 -> sr_entries s !! k2 = Some e2 ->
    sc_listed (en_call e1) = true -> listed_at (en_session e1) (en_id e1) e2 = true -> k1 = k2;
  sv_limit : 0 < max_inflight s -> max_inflight s + sessions s - 1 <= MaxInt64 ->
    counted s + sum_with past_check (sr_sessions s) <= max_inflight s + sessions s - 1 }.

(** ** Moves of the calls *)

(** An entry that moves on: it stays what it is, and never gets listed again. *)
Definition moves (e e' : entry) : Prop :=
  en_session e' = en_session e /\ en_id e' = en_id e /\ en_started e' = en_started e /\
  (sc_listed (en_call e') = true -> sc_listed (en_call e) = true) /\ entry_ok e'.

Lemma moves_listed i id e e' : moves e e' -> listed_at i id e' = true -> listed_at i id e = true.
Proof.
  intros (H1 & H2 & _ & H3 & _). unfold listed_at. rewrite H1, H2.
  intros [-> H]%andb_true_iff. by rewrite (H3 H).
Qed.
Lemma moves_duplicate i id l l' : Forall2 moves l l' ->
  existsb (listed_at i id) l = false -> existsb (listed_at i id) l' = false.
Proof.
  induction 1 as [|e e' l l' He _ IH]; [done|]. cbn. intros [H1 H2]%orb_false_iff.
  rewrite (IH H2), orb_false_r. destruct (listed_at i id e') eqn:E; [|done].
  by rewrite (moves_listed _ _ _ _ He E) in H1.
Qed.

Lemma moves_ok s s' : serve_ok s -> Forall2 moves (sr_entries s) (sr_entries s') ->
  sr_sessions s' = sr_sessions s -> sr_opts s' = sr_opts s ->
  sr_inflight s' = int64 (counted s') -> counted s' <= counted s -> serve_ok s'.
Proof.
  intros [E C P F U L] Hm Hs Ho Hi Hc. split.
  - apply Forall_forall. intros e He. apply list_elem_of_lookup in He as [k Hk].
    destruct (Forall2_lookup_r _ _ _ _ _ Hm Hk) as (e0 & _ & (_&_&_&_&H)). done.
  - done.
  - intros i x Hx. rewrite Hs in Hx. specialize (P i x Hx). unfold prog_ok in *.
    destruct (ss_prog x) as [|[f|f|f m|k m|f err] [|? ?]]; try done.
    + by eapply moves_duplicate.
    + by eapply moves_duplicate.
    + destruct P as (e & Hk & H1 & H2). destruct (Forall2_lookup_l _ _ _ _ _ Hm Hk) as (e' & Hk' & (M1&_&M2&_)).
      exists e'. by rewrite M1, M2.
  - intros k e' Hk Hf. destruct (Forall2_lookup_r _ _ _ _ _ Hm Hk) as (e & Hk0 & (M1&_&M2&_)).
    rewrite Hs, M1. apply (F k e Hk0). by rewrite <- M2.
  - intros k1 k2 e1 e2 H1 H2 Hl Ha.
    destruct (Forall2_lookup_r _ _ _ _ _ Hm H1) as (e10 & H10 & M1).
    destruct (Forall2_lookup_r _ _ _ _ _ Hm H2) as (e20 & H20 & M2).
    pose proof (moves_listed _ _ _ _ M2 Ha) as Ha'. destruct M1 as (S1 & I1 & _ & L1 & _).
    rewrite S1, I1 in Ha'. by apply (U k1 k2 e10 e20 H10 H20 (L1 Hl)).
  - unfold max_inflight, sessions in *. rewrite Hs, Ho. intros Hpos Hmax. specialize (L Hpos Hmax). lia.
Qed.

Lemma section_moves o a X Y e e' : entry_ok e -> acts e = X ++ a :: Y ->
  let '(call, next, out) := sexec o a (en_call e) in
  en_session e' = en_session e -> en_id e' = en_id e -> en_started e' = en_started e ->
  en_call e' = call -> acts e' = X ++ next ++ Y ->
  en_out e' = sum_with ending out + en_out e -> en_lost e' = lost o a + en_lost e ->
  moves e e' /\
  bit (sc_counted call) = bit (sc_counted (en_call e)) - bit (releases a).
Proof.
  intros [T R U A F St] HA.
  assert (terminal_ok a = true) as Ha.
  { rewrite HA in T. by apply Forall_app in T as [_ [Ha _]%Forall_cons]. }
  pose proof (section_accounts o a (en_call e) Ha) as Hacc.
  destruct (sexec o a (en_call e)) as [[call next] out].
  destruct Hacc as (Hn & Hterm & Hcnt & Hlst & S1 & S2 & S3).
  intros E1 E2 E3 E4 E5 E6 E7. rewrite HA in T, R, U, A.
  rewrite !sum_with_app, !sum_with_cons in R, U, A.
  assert (Forall (fun a => terminal_ok a = true) (acts e')) as T'.
  { rewrite E5. apply Forall_app in T as [TX [_ TY]%Forall_cons].
    apply Forall_app. split; [done|]. by apply Forall_app. }
  assert (en_started e = true) as Hst.
  { destruct (en_started e) eqn:E; [done|]. destruct (F eq_refl) as (H & _). rewrite H in HA. by destruct X. }
  destruct (St Hst) as [C L].
  assert (0 <= sum_with release_of X /\ 0 <= sum_with release_of Y /\
    0 <= sum_with unlist_of X /\ 0 <= sum_with unlist_of Y) as Hnn
    by (split_and!; apply sum_with_nonneg; intros [] _; cbn; lia).
  split.
  - split_and!; try done.
    + rewrite E4, Hlst. by destruct a.
    + split; rewrite ?E4, ?E3, ?E5, ?E6, ?E7, ?sum_with_app; [by rewrite <- E5|..].
      * rewrite Hcnt. destruct a, (sc_terminal (en_call e)), (sc_terminal call), (sc_counted (en_call e));
          cbn in *; try lia; try (by specialize (Hterm eq_refl)); by destruct C.
      * rewrite Hlst. destruct a, (sc_terminal (en_call e)), (sc_terminal call), (sc_listed (en_call e));
          cbn in *; try lia; try (by specialize (Hterm eq_refl)); by destruct L.
      * lia.
      * by rewrite Hst.
      * intros _. rewrite Hcnt, Hlst. destruct (sc_terminal (en_call e)) eqn:Et;
          [split; right; by apply Hterm|].
        destruct C as [C|C], L as [L|L]; try done.
        destruct a; cbn in *; try (split; by left); exfalso; lia.
  - rewrite Hcnt. destruct a; cbn in *; try lia.
    destruct (sc_terminal (en_call e)), (sc_counted (en_call e)); cbn in *; lia.
Qed.

(** ** Steps of the calls *)

Lemma moves_refl l : Forall entry_ok l -> Forall2 moves l l.
Proof. induction 1; constructor; [by split_and!|done]. Qed.
Lemma moves_alter l k e g : Forall entry_ok l -> l !! k = Some e -> moves e (g e) ->
  Forall2 moves l (alter g k l).
Proof.
  intros Hl Hk He. apply Forall2_alter_r; [by apply moves_refl|].
  intros x y Hx Hy. by simplify_eq.
Qed.
Lemma sum_with_alter {A} (h : A -> Z) (g : A -> A) l k x : l !! k = Some x ->
  sum_with h (alter g k l) = sum_with h l - h x + h (g x).
Proof.
  revert k. induction l as [|y l IH]; intros [|k] H; [done|done|injection H as ->|cbn in H].
  - change (alter g 0%nat (x :: l)) with (g x :: l). rewrite !sum_with_cons. lia.
  - change (alter g (S k) (y :: l)) with (y :: alter g k l). rewrite !sum_with_cons, (IH k H). lia.
Qed.

(** Putting the rest of a goroutine back changes its program only. *)
Definition program_only (set : list saction -> entry -> entry) : Prop :=
  forall p e, en_session (set p e) = en_session e /\ en_id (set p e) = en_id e /\
    en_started (set p e) = en_started e /\ en_out (set p e) = en_out e /\
    en_lost (set p e) = en_lost e.

Lemma call_section_ok k o a rest set s e X Y : serve_ok s -> sr_entries s !! k = Some e ->
  acts e = X ++ a :: Y -> program_only set ->
  (forall next call n m, acts ((set (next ++ rest) e) {{ en_call := call; en_out ::= n; en_lost ::= m }})
     = X ++ next ++ Y) ->
  serve_ok (call_section k o a rest set s).
Proof.
  intros Hok Hk HA Hset Hacts. unfold call_section. rewrite Hk.
  assert (entry_ok e) as He by (destruct Hok; by eapply Forall_lookup_1).
  destruct (sexec o a (en_call e)) as [[call next] out] eqn:Hx.
  destruct (Hset (next ++ rest) e) as (S1 & S2 & S3 & S4 & S5).
  set (g := fun e : entry => _).
  pose proof (section_moves o a X Y e (g e) He HA) as Hm. rewrite Hx in Hm.
  destruct Hm as [Hmv Hcnt]; [unfold g; cbn; by rewrite ?S1, ?S2, ?S3, ?S4, ?S5|..|];
    try (unfold g; cbn; by rewrite ?S1, ?S2, ?S3, ?S4, ?S5); [by apply Hacts|].
  assert (counted (upd_entry k g s) = counted s - bit (releases a)) as Hc.
  { unfold counted, upd_entry. cbn. rewrite (sum_with_alter _ _ _ _ _ Hk). unfold g at 1. cbn. lia. }
  pose proof (sv_count _ Hok) as Hcount.
  destruct (releases a).
  - eapply (moves_ok s); try done.
    + cbn. apply moves_alter with e; [by destruct Hok|done|done].
    + cbn. rewrite Hcount. unfold Z.sub. rewrite int64_plus. f_equal. cbn in Hc. unfold counted in *. cbn in *. lia.
    + unfold counted in *. cbn in *. lia.
  - eapply (moves_ok s); try done.
    + cbn. apply moves_alter with e; [by destruct Hok|done|done].
    + cbn. rewrite Hcount. f_equal. cbn in Hc. unfold counted in *. cbn in *. lia.
    + unfold counted in *. cbn in *. lia.
Qed.

(** *** New work for a call *)

(** Actions that neither end a call nor answer it. *)
Definition plain (a : saction) : bool :=
  terminal_ok a &&
  match a with SRelease | SUnlist | SSendFinal _ => false | SSend f => ending f =? 0 | _ => true end.

Lemma plain_sums l : Forall (fun a => plain a = true) l ->
  Forall (fun a => terminal_ok a = true) l /\ sum_with release_of l = 0 /\
  sum_with unlist_of l = 0 /\ sum_with answer_of l = 0.
Proof.
  induction 1 as [|a l Ha _ (IH1 & IH2 & IH3 & IH4)]; [done|].
  apply andb_true_iff in Ha as [Ht Hp]. rewrite !sum_with_cons, IH2, IH3, IH4.
  split; [by constructor|]. destruct a; cbn in *; try done. apply Z.eqb_eq in Hp. lia.
Qed.
Lemma endWith_plain e : Forall (fun a => plain a = true) (endWith e).
Proof. by repeat constructor. Qed.
Lemma receive_plain f call : Forall (fun a => plain a = true) (SdkServer.receive f call).
Proof.
  unfold SdkServer.receive, sprotocolError. repeat case_match; try apply endWith_plain; by repeat constructor.
Qed.
Lemma sspawn_plain call l : sspawn call l -> Forall (fun a => plain a = true) l.
Proof. intros []; by repeat constructor. Qed.

(** An entry whose goroutines got plain work in addition. *)
Lemma moves_plain e e' l : entry_ok e -> Forall (fun a => plain a = true) l ->
  en_started e = true -> en_session e' = en_session e -> en_id e' = en_id e ->
  en_started e' = en_started e -> en_call e' = en_call e -> en_out e' = en_out e ->
  en_lost e' = en_lost e -> acts e' ≡ₚ l ++ acts e -> moves e e'.
Proof.
  intros [T R U A F St] Hl Hst E1 E2 E3 E4 E5 E6 HA.
  destruct (plain_sums l Hl) as (P1 & P2 & P3 & P4).
  split_and!; try done; [by rewrite E4|].
  split; rewrite ?E3, ?E4, ?E5, ?E6, ?(sum_with_perm _ _ _ HA), ?sum_with_app, ?P2, ?P3, ?P4; try lia.
  - rewrite HA. by apply Forall_app.
  - by rewrite Hst.
  - done.
Qed.

(** While a session's reader is idle, its calls are all started. *)
Lemma idle_started s i k e : serve_ok s -> idle_reader i s -> sr_entries s !! k = Some e ->
  en_session e = i -> en_started e = true /\ en_reader e = [].
Proof.
  intros Hok [(x & Hx & _ & Hp) Hi] Hk He. split.
  - destruct (en_started e) eqn:E; [done|].
    destruct (sv_fresh _ Hok k e Hk E) as (y & m & Hy & Hq). rewrite He, Hx in Hy.
    injection Hy as <-. by rewrite Hp in Hq.
  - eapply Forall_lookup_1 in Hi; [|exact Hk]. by apply Hi.
Qed.

(** The reader gives work to some of its calls. *)
Lemma reader_work_ok s s' i (p : entry -> bool) (w : entry -> list saction) :
  serve_ok s -> idle_reader i s ->
  (forall e, p e = true -> en_session e = i) ->
  (forall e, p e = true -> Forall (fun a => plain a = true) (w e)) ->
  sr_entries s' = (fun e => if p e then e {{ en_reader := w e }} else e) <$> sr_entries s ->
  sr_sessions s' = sr_sessions s -> sr_opts s' = sr_opts s -> sr_inflight s' = sr_inflight s ->
  serve_ok s'.
Proof.
  intros Hok Hidle Hp Hw He Hs Ho Hi.
  assert (counted s' = counted s) as Hc.
  { unfold counted. rewrite He. clear. induction (sr_entries s) as [|e l IH]; [done|].
    rewrite fmap_cons, !sum_with_cons, IH. by destruct (p e). }
  eapply (moves_ok s); try done; [|by rewrite Hi, Hc, (sv_count _ Hok)|lia].
  rewrite He. apply Forall2_fmap_r, Forall2_same_length_lookup. split; [done|].
  intros k e e' Hk Hk'. rewrite Hk in Hk'. injection Hk' as <-.
  assert (entry_ok e) as Hoke by (destruct Hok; by eapply Forall_lookup_1).
  unfold compose. destruct (p e) eqn:E; [|by split_and!].
  destruct (idle_started s i k e Hok Hidle Hk (Hp e E)) as [Hst Hr].
  apply (moves_plain e _ (w e)); try done; [by apply Hw|]. unfold acts. cbn. by rewrite Hr.
Qed.

Lemma hand_ok s i f : serve_ok s -> idle_reader i s -> serve_ok (hand i f s).
Proof.
  intros Hok Hi. apply (reader_work_ok s _ i (listed_at i (sf_CallID f))
    (fun e => SdkServer.receive f (en_call e))); try done.
  - intros e [[->%Nat.eqb_eq _]%andb_true_iff _]%andb_true_iff. done.
  - intros. apply receive_plain.
Qed.

(** *** Moves of a reader *)

Lemma lookup_alter_cases {A} (g : A -> A) (l : list A) i j x : alter g i l !! j = Some x ->
  (i = j /\ exists y, l !! i = Some y /\ x = g y) \/ (i <> j /\ l !! j = Some x).
Proof.
  destruct (decide (i = j)) as [->|Hne]; [|rewrite list_lookup_alter_ne by done; auto].
  rewrite list_lookup_alter_eq. intros (y & Hy & ->)%fmap_Some. left. eauto.
Qed.

Lemma session_ok s i x g : serve_ok s -> sr_sessions s !! i = Some x ->
  prog_ok s i (ss_prog (g x)) ->
  (forall k m, ss_prog x = [RCount k m] -> ss_prog (g x) = [RCount k m]) ->
  (0 < max_inflight s -> max_inflight s + sessions s - 1 <= MaxInt64 ->
     counted s + (sum_with past_check (sr_sessions s) - past_check x + past_check (g x))
       <= max_inflight s + sessions s - 1) ->
  serve_ok (upd_session i g s).
Proof.
  intros [E C P F U L] Hx Hp Hc Hl. split; try done.
  - intros j y Hy. apply lookup_alter_cases in Hy as [(<- & y0 & Hy0 & ->)|(_ & Hy)].
    + rewrite Hx in Hy0. by injection Hy0 as <-.
    + by apply P.
  - intros k e Hk He. destruct (F k e Hk He) as (y & m & Hy & Hq). cbn.
    destruct (decide (i = en_session e)) as [Heq|Hne].
    + rewrite <- Heq in *. rewrite Hx in Hy. injection Hy as <-.
      exists (g x), m. rewrite list_lookup_alter_eq, Hx. split; [done|]. by apply Hc.
    + exists y, m. by rewrite list_lookup_alter_ne.
  - unfold max_inflight, sessions, counted in *. cbn. rewrite length_alter, (sum_with_alter _ _ _ _ _ Hx).
    exact Hl.
Qed.

(** A reader whose capacity check stays where it is. *)
Lemma session_stays s i x g : serve_ok s -> sr_sessions s !! i = Some x ->
  prog_ok s i (ss_prog (g x)) ->
  (forall k m, ss_prog x = [RCount k m] -> ss_prog (g x) = [RCount k m]) ->
  past_check (g x) = past_check x -> serve_ok (upd_session i g s).
Proof.
  intros Hok Hx Hp Hc Hl. apply (session_ok s i x g); try done.
  rewrite Hl. intros H1 H2. pose proof (sv_limit _ Hok H1 H2). lia.
Qed.

Lemma serve_end_ok s i : serve_ok s -> idle_reader i s -> serve_ok (serve_end i s).
Proof.
  intros Hok Hi. pose proof Hi as [(x & Hx & _ & Hp) _].
  set (s1 := s {{ sr_entries ::= fmap (fun e =>
    if (en_session e =? i)%nat && sc_listed (en_call e)
    then e {{ en_reader := connectionLost }} else e) }}).
  assert (serve_ok s1) as Hok1.
  { apply (reader_work_ok s s1 i (fun e => (en_session e =? i)%nat && sc_listed (en_call e))
      (fun _ => connectionLost)); try done.
    - by intros e [->%Nat.eqb_eq _]%andb_true_iff.
    - intros e _. by repeat constructor. }
  apply (session_stays s1 i x); try done; cbn; by rewrite Hp.
Qed.

Lemma counted_nonneg s : 0 <= counted s.
Proof. apply sum_with_nonneg. intros e _. by destruct (sc_counted _). Qed.
Lemma past_bound s i x : sr_sessions s !! i = Some x -> past_check x = 0 ->
  0 <= sum_with past_check (sr_sessions s) <= sessions s - 1.
Proof.
  intros Hx H0. unfold sessions. revert i Hx.
  assert (forall l : list session, 0 <= sum_with past_check l <= Z.of_nat (length l)) as Hall.
  { induction l as [|y l IH]; [done|]. rewrite sum_with_cons. cbn [length].
    assert (0 <= past_check y <= 1) by (unfold past_check; repeat case_match; lia). lia. }
  induction (sr_sessions s) as [|y l IH]; intros [|i] Hx; [done|done|injection Hx as ->|cbn in Hx];
    rewrite sum_with_cons; cbn [length]; pose proof (Hall l).
  - lia.
  - specialize (IH i Hx). assert (0 <= past_check y <= 1) by (unfold past_check; repeat case_match; lia). lia.
Qed.

(** The capacity check: whoever passes it finds room. *)
Lemma room s i x : serve_ok s -> sr_sessions s !! i = Some x -> past_check x = 0 ->
  overloaded s = false ->
  0 < max_inflight s -> max_inflight s + sessions s - 1 <= MaxInt64 ->
  counted s + sum_with past_check (sr_sessions s) + 1 <= max_inflight s + sessions s - 1.
Proof.
  intros Hok Hx Hp Hov Hpos Hmax. pose proof (sv_limit _ Hok Hpos Hmax) as Hlim.
  destruct (past_bound s i x Hx Hp) as [Hp0 Hp1]. pose proof (counted_nonneg s).
  unfold overloaded in Hov. rewrite (sv_count _ Hok) in Hov. fold (max_inflight s) in Hov.
  rewrite int64_id in Hov by (unfold MinInt64; lia).
  destruct (Z.ltb_spec 0 (max_inflight s)); [|lia].
  destruct (Z.leb_spec (max_inflight s) (counted s)); [done|]. lia.
Qed.

(** *** The reader opens a call *)

Lemma lookup_snoc_cases {A} (l : list A) e k y : (l ++ [e]) !! k = Some y ->
  l !! k = Some y \/ (k = length l /\ y = e).
Proof.
  intros H. apply lookup_app_Some in H as [H|[Hle H]]; [by left|right].
  destruct (k - length l)%nat eqn:E; [|done]. cbn in H. injection H as <-. split; [lia|done].
Qed.

Lemma not_duplicate s i id : duplicate i id s = false ->
  forall k y, sr_entries s !! k = Some y -> listed_at i id y = false.
Proof.
  intros Hdup k y Hy. destruct (listed_at i id y) eqn:Ey; [|done].
  assert (existsb (listed_at i id) (sr_entries s) = true); [|unfold duplicate in Hdup; congruence].
  apply existsb_exists. exists y. split; [|done].
  apply list_elem_of_In. by eapply list_elem_of_lookup_2.
Qed.

Lemma insert_ok s i x f m : serve_ok s -> sr_sessions s !! i = Some x ->
  ss_prog x = [RInsert f m] -> serve_ok (rexec i (RInsert f m) s).
Proof.
  intros Hok Hx Hp. pose proof Hok as [E C P F U L]. cbn [rexec].
  set (e := Entry i _ _ _ _ _ _ _). set (s1 := s {{ sr_entries ::= fun l => l ++ [e] }}).
  pose proof (P i x Hx) as Hdup. rewrite Hp in Hdup. cbn in Hdup.
  assert (entry_ok e) as He by (split; cbn; try done; by constructor).
  assert (counted s1 = counted s) as Hc.
  { unfold counted. cbn. rewrite sum_with_app, sum_with_cons, sum_none. cbn. lia. }
  assert (forall j id, j <> i -> duplicate j id s1 = duplicate j id s) as Hd.
  { intros j id Hj. unfold duplicate. cbn. rewrite existsb_app. cbn. unfold listed_at at 2. cbn.
    destruct (Nat.eqb_spec i j); [done|]. cbn. by rewrite !orb_false_r. }
  split.
  - cbn. apply Forall_app. split; [done|]. by constructor.
  - change (sr_inflight s = int64 (counted s1)). by rewrite Hc.
  - intros j y Hy. apply lookup_alter_cases in Hy as [(<- & y0 & _ & ->)|(Hne & Hy)]; cbn.
    + exists e. split; [|done]. rewrite lookup_app_r, Nat.sub_diag by lia. done.
    + specialize (P j y Hy). unfold prog_ok in *.
      destruct (ss_prog y) as [|[g|g|g m'|k m'|g err] [|? ?]]; try done.
      * change (duplicate j (sf_CallID g) s1 = false). by rewrite Hd.
      * change (duplicate j (sf_CallID g) s1 = false). by rewrite Hd.
      * destruct P as (e0 & Hk & H1 & H2). exists e0. split; [|done]. cbn. by apply lookup_app_l_Some.
  - intros k e0 Hk Hs. cbn in Hk. apply lookup_snoc_cases in Hk as [Hk|[-> ->]].
    + destruct (F k e0 Hk Hs) as (y & m' & Hy & Hq). exists y, m'. cbn.
      rewrite list_lookup_alter_ne; [done|]. intros Heq. rewrite <- Heq, Hx in Hy.
      injection Hy as <-. by rewrite Hp in Hq.
    + eexists _, m. cbn. rewrite list_lookup_alter_eq, Hx. cbn. split; reflexivity.
  - intros k1 k2 e1 e2 H1 H2 Hl Ha. cbn in H1, H2.
    pose proof (not_duplicate _ _ _ Hdup) as Hno.
    apply lookup_snoc_cases in H1 as [H1|[-> ->]], H2 as [H2|[-> ->]]; [by eapply U| | |done].
    + unfold listed_at in Ha. cbn in Ha. apply andb_true_iff in Ha as [[Hs Hi]%andb_true_iff _].
      apply Nat.eqb_eq in Hs. apply String.eqb_eq in Hi. specialize (Hno k1 e1 H1).
      unfold listed_at in Hno. rewrite <- Hs, <- Hi, Nat.eqb_refl, String.eqb_refl, Hl in Hno. done.
    + cbn in Ha. by rewrite (Hno k2 e2 H2) in Ha.
  - unfold max_inflight, sessions in *. cbn. rewrite length_alter, (sum_with_alter _ _ _ _ _ Hx).
    change (counted _) with (counted s1). rewrite Hc. unfold past_check at 2 3. cbn. rewrite Hp.
    intros H1 H2. specialize (L H1 H2). lia.
Qed.

Lemma existsb_alter {A} (p : A -> bool) (g : A -> A) (l : list A) k :
  (forall x, p (g x) = p x) -> existsb p (alter g k l) = existsb p l.
Proof.
  intros Hg. revert k. induction l as [|y l IH]; intros [|k]; [done..| |].
  - cbn. by rewrite Hg.
  - change (alter g (S k) (y :: l)) with (y :: alter g k l). cbn. by rewrite IH.
Qed.

Lemma count_ok s i x k m : serve_ok s -> sr_sessions s !! i = Some x ->
  ss_prog x = [RCount k m] -> serve_ok (rexec i (RCount k m) s).
Proof.
  intros Hok Hx Hp. pose proof Hok as [E C P F U L]. cbn [rexec].
  pose proof (P i x Hx) as Hk. rewrite Hp in Hk. destruct Hk as (e & Hk & He & Hs).
  set (g := fun e : entry => _). set (s1 := upd_entry k g _).
  assert (entry_ok e) as Hoke by by eapply Forall_lookup_1.
  destruct (eo_fresh _ Hoke Hs) as (Ha & Hc & Hl & Ht).
  assert (entry_ok (g e)) as Hg.
  { destruct Hoke. assert (acts (g e) = running m) as Hacts.
    { unfold acts, g. cbn. apply app_eq_nil in Ha as [-> _]. cbn. apply app_nil_r. }
    assert (Forall (fun a => plain a = true) (running m)) as Hr
      by (unfold running; destruct (hasInput _); by repeat constructor).
    destruct (plain_sums _ Hr) as (Q1 & Q2 & Q3 & Q4).
    rewrite Ha, Ht in *. split; rewrite ?Hacts; unfold g; cbn; rewrite ?Ht, ?Q2, ?Q3, ?Q4; try done.
    by rewrite Hl; auto. }
  assert (counted s1 = counted s + 1) as Hcnt.
  { unfold counted, s1, upd_entry. cbn. rewrite (sum_with_alter _ _ _ _ _ Hk). unfold g. cbn.
    rewrite Hc. cbn. lia. }
  split.
  - cbn. apply Forall_alter; [done|]. intros e0 Hk0 _. rewrite Hk in Hk0. by injection Hk0 as <-.
  - change (int64 (sr_inflight s + 1) = int64 (counted s1)). by rewrite C, int64_plus, Hcnt.
  - intros j y Hy. cbn in Hy. apply lookup_alter_cases in Hy as [(<- & y0 & _ & ->)|(Hne & Hy)]; [done|].
    specialize (P j y Hy). unfold prog_ok in *.
    destruct (ss_prog y) as [|[f|f|f m'|k' m'|f err] [|? ?]]; try done.
    + unfold duplicate. cbn. by rewrite existsb_alter.
    + unfold duplicate. cbn. by rewrite existsb_alter.
    + destruct P as (e0 & Hk0 & H1 & H2). exists e0. split; [|done]. cbn.
      rewrite list_lookup_alter_ne; [done|]. intros <-. congruence.
  - intros k' e0 Hk0 Hs0. cbn in Hk0.
    apply lookup_alter_cases in Hk0 as [(<- & y0 & _ & ->)|(Hne & Hk0)]; [done|].
    destruct (F k' e0 Hk0 Hs0) as (y & m' & Hy & Hq). exists y, m'. cbn.
    rewrite list_lookup_alter_ne; [done|]. intros Heq. rewrite <- Heq, Hx in Hy. injection Hy as <-.
    rewrite Hp in Hq. by injection Hq as ->.
  - intros k1 k2 e1 e2 H1 H2. cbn in H1, H2.
    apply lookup_alter_cases in H1 as [(<- & y1 & H1 & ->)|(N1 & H1)],
      H2 as [(<- & y2 & H2 & ->)|(N2 & H2)]; [done|..]; intros Hl1 Ha2; by eapply U.
  - unfold max_inflight, sessions in *. cbn. rewrite length_alter, (sum_with_alter _ _ _ _ _ Hx).
    change (counted _) with (counted s1). rewrite Hcnt. unfold past_check at 2 3. cbn. rewrite Hp.
    intros H1 H2. specialize (L H1 H2). lia.
Qed.

Lemma rexec_ok s i x a p : serve_ok s -> sr_sessions s !! i = Some x -> ss_prog x = a :: p ->
  serve_ok (rexec i a s).
Proof.
  intros Hok Hx Hp. pose proof (sv_progs _ Hok i x Hx) as Hprog. rewrite Hp in Hprog.
  destruct a as [f|f|f m|k m|f err]; destruct p; try done; cbn [rexec].
  - destruct (duplicate i (sf_CallID f) s) eqn:Hd; apply (session_stays s i x); try done;
      unfold past_check; by rewrite Hp.
  - assert (past_check x = 0) as Hp0 by (unfold past_check; by rewrite Hp).
    destruct (overloaded s) eqn:Ho; [|destruct (refusal f s) as [err|m]].
    + apply (session_stays s i x); try done; by rewrite Hp.
    + apply (session_stays s i x); try done; by rewrite Hp.
    + apply (session_ok s i x); try done; [by rewrite Hp|]. intros H1 H2.
      pose proof (room s i x Hok Hx Hp0 Ho H1 H2). rewrite Hp0. cbn. lia.
  - by apply (insert_ok s i x).
  - by apply (count_ok s i x).
  - apply (session_stays s i x); try done; unfold past_check; by rewrite Hp.
Qed.

(** *** Every step *)

Lemma new_session_ok s : serve_ok s ->
  serve_ok (s {{ sr_sessions ::= fun l => l ++ [Session true [] []] }}).
Proof.
  intros [E C P F U L]. split; try done.
  - intros i x Hx. cbn in Hx. apply lookup_snoc_cases in Hx as [Hx|[_ ->]]; [by apply P|done].
  - intros k e Hk Hs. destruct (F k e Hk Hs) as (x & m & Hx & Hp). exists x, m. split; [|done].
    cbn. by apply lookup_app_l_Some.
  - unfold max_inflight, sessions, counted in *. cbn.
    rewrite length_app, sum_with_app, sum_with_cons, sum_none. cbn.
    intros H1 H2. specialize (L H1). lia.
Qed.

Lemma spawn_ok s k e l : serve_ok s -> sr_entries s !! k = Some e -> en_started e = true ->
  sspawn (en_call e) l ->
  serve_ok (upd_entry k (fun e => e {{ en_progs ::= fun p => p ++ [l] }}) s).
Proof.
  intros Hok Hk Hst Hl. set (g := fun e : entry => _).
  assert (entry_ok e) as He by (destruct Hok; by eapply Forall_lookup_1).
  assert (counted (upd_entry k g s) = counted s) as Hc.
  { unfold counted, upd_entry. cbn. rewrite (sum_with_alter _ _ _ _ _ Hk). unfold g. cbn. lia. }
  eapply (moves_ok s); try done; [|by rewrite Hc, <- (sv_count _ Hok)|lia].
  apply moves_alter with e; [by destruct Hok|done|].
  apply (moves_plain e _ l); try done; [by eapply sspawn_plain|].
  unfold acts, g. cbn. rewrite concat_app. cbn. rewrite app_nil_r, app_assoc. apply Permutation_app_comm.
Qed.

Lemma server_step_ok s s' : serve_ok s -> server_step s s' -> serve_ok s'.
Proof.
  intros Hok Hstep. destruct Hstep.
  - by apply new_session_ok.
  - pose proof H as [(x & Hx & _ & Hp) _]. apply (session_stays s i x); try done; cbn;
      [by rewrite Hp|unfold past_check; by rewrite Hp].
  - by apply hand_ok.
  - by eapply rexec_ok.
  - by apply serve_end_ok.
  - apply (call_section_ok k o a acts0 set_reader s e [] (acts0 ++ concat (en_progs e))); try done.
    + unfold acts. by rewrite H0.
    + intros. unfold acts. cbn. by rewrite <- app_assoc.
  - destruct (concat_at _ _ _ _ H0) as (X & Y & HX & Hn).
    apply (call_section_ok k o a acts0 (set_prog j) s e (en_reader e ++ X) Y); try done.
    + unfold acts. by rewrite HX, app_assoc.
    + intros. unfold acts. cbn. by rewrite Hn, app_assoc.
  - by apply (spawn_ok s k e).
Qed.

Lemma step_opts s s' : server_step s s' -> sr_opts s' = sr_opts s.
Proof.
  assert (forall k o a acts set s, sr_opts (call_section k o a acts set s) = sr_opts s) as Hcall.
  { intros. unfold call_section. destruct (_ !! k); [|done].
    destruct (sexec _ _ _) as [[? ?] ?]. by destruct (releases a). }
  intros []; try done; [|apply Hcall..].
  destruct a; cbn; try done; [by destruct (duplicate _ _ _)|].
  destruct (overloaded _); [done|]. by destruct (refusal _ _).
Qed.

Lemma serving_ok opts services s : serving opts services s -> serve_ok s /\ sr_opts s = opts.
Proof.
  induction 1 as [|s s' _ [IH Ho] Hs].
  - split; [|done]. split; try done.
    unfold max_inflight, sessions, counted. cbn. rewrite !sum_none. lia.
  - split; [by eapply server_step_ok|]. rewrite <- Ho. by apply step_opts.
Qed.

(** ** The guarantees *)

(** C14: [server.inflight] is exact: in every reachable state it is the
    number of calls that were counted and not released; a call is counted until
    its cleanup ran, and a call whose goroutines are done with their work and that
    has ended is neither counted nor listed in its session. *)
Theorem inflight_exact opts services s : serving opts services s ->
  sr_inflight s = int64 (sum_with (fun e => bit (sc_counted (en_call e))) (sr_entries s)) /\
  (forall e, e ∈ sr_entries s -> en_started e = true -> sc_terminal (en_call e) = false ->
     sc_counted (en_call e) = true /\ sc_listed (en_call e) = true) /\
  (forall e, e ∈ sr_entries s -> sc_terminal (en_call e) = true -> acts e = [] ->
     sc_counted (en_call e) = false /\ sc_listed (en_call e) = false).
Proof.
  intros [Hok _]%serving_ok. split; [by destruct Hok|].
  assert (forall e, e ∈ sr_entries s -> entry_ok e) as He
    by (intros e He; destruct Hok as [E _ _ _ _ _]; by eapply Forall_forall in E).
  split; intros e Hin; destruct (He e Hin) as [_ Hr Hu _ _ Hst].
  - intros Hs Ht. destruct (Hst Hs) as [[C|C] [L|L]]; split; congruence.
  - intros Ht Ha. rewrite Ha, Ht, !sum_none in *. cbn in *.
    by destruct (sc_counted (en_call e)), (sc_listed (en_call e)).
Qed.

(** C16: the capacity holds up to the readers that may be between the
    check and the counting: with one session never more than max_inflight calls
    are counted, and each further session adds at most one. *)
Theorem capacity_bounded opts services s : serving opts services s ->
  0 < so_MaxInflight opts ->
  so_MaxInflight opts + Z.of_nat (length (sr_sessions s)) - 1 <= MaxInt64 ->
  sum_with (fun e => bit (sc_counted (en_call e))) (sr_entries s)
    <= so_MaxInflight opts + Z.of_nat (length (sr_sessions s)) - 1.
Proof.
  intros [Hok Ho]%serving_ok. rewrite <- Ho. intros Hpos Hmax.
  pose proof (sv_limit _ Hok Hpos Hmax).
  assert (0 <= sum_with past_check (sr_sessions s)).
  { apply sum_with_nonneg. intros x _. unfold past_check. repeat case_match; lia. }
  unfold counted, max_inflight, sessions in *. lia.
Qed.

(** C15: a call is answered once: it has sent, or failed to send, at most one
    terminal frame, and exactly one when its goroutines are done and it has ended;
    and a session never lists two calls under one id. *)
Theorem answered_exactly_once opts services s : serving opts services s ->
  (forall e, e ∈ sr_entries s -> en_out e + en_lost e <= 1) /\
  (forall e, e ∈ sr_entries s -> sc_terminal (en_call e) = true -> acts e = [] ->
     en_out e + en_lost e = 1) /\
  (forall k1 k2 e1 e2, sr_entries s !! k1 = Some e1 -> sr_entries s !! k2 = Some e2 ->
     en_session e1 = en_session e2 -> en_id e1 = en_id e2 ->
     sc_listed (en_call e1) = true -> sc_listed (en_call e2) = true -> k1 = k2).
Proof.
  intros [Hok _]%serving_ok.
  assert (forall e, e ∈ sr_entries s -> entry_ok e) as He
    by (intros e He; destruct Hok as [E _ _ _ _ _]; by eapply Forall_forall in E).
  split_and!.
  - intros e Hin. destruct (He e Hin) as [_ _ _ Ha _ _].
    assert (0 <= sum_with answer_of (acts e)).
    { apply sum_with_nonneg. intros [] _; cbn; try lia. unfold ending. case_match; lia. }
    destruct (sc_terminal (en_call e)); cbn in *; lia.
  - intros e Hin Ht Hacts. destruct (He e Hin) as [_ _ _ Ha _ _]. rewrite Hacts, Ht, sum_none in Ha. cbn in *. lia.
  - intros k1 k2 e1 e2 H1 H2 Hs Hi L1 L2. apply (sv_unique _ Hok k1 k2 e1 e2 H1 H2 L1).
    unfold listed_at. by rewrite Hs, Hi, Nat.eqb_refl, String.eqb_refl.
Qed.

(** ** Schedules *)

Inductive srvturn :=
  | GoConnect
  | GoOpen (i : nat) (f : sframe)
  | GoReader (i : nat)
  | GoReturn (k : nat) (payload : option string)
  | GoProg (k j : nat) (o : sendOutcome).

Definition reader_free (i : nat) (s : Server) : bool :=
  match sr_sessions s !! i with
  | Some (Session true [] _) =>
      forallb (fun e => negb (en_session e =? i)%nat || match en_reader e with [] => true | _ => false end)
        (sr_entries s)
  | _ => false
  end.
Definition srv_take (t : srvturn) (s : Server) : option Server :=
  match t with
  | GoConnect => Some (s {{ sr_sessions ::= fun l => l ++ [Session true [] []] }})
  | GoOpen i f =>
      if reader_free i s then Some (upd_session i (fun x => x {{ ss_prog := [ROpen f] }}) s) else None
  | GoReader i =>
      match sr_sessions s !! i with
      | Some x => match ss_prog x with a :: _ => Some (rexec i a s) | [] => None end
      | None => None
      end
  | GoReturn k payload =>
      match sr_entries s !! k with
      | Some e => if en_started e
                  then Some (upd_entry k (fun e => e {{ en_progs ::= fun l => l ++ [invoked (inr payload)] }}) s)
                  else None
      | None => None
      end
  | GoProg k j o =>
      match sr_entries s !! k with
      | Some e => match en_progs e !! j with
                  | Some (a :: acts) => Some (call_section k o a acts (set_prog j) s)
                  | _ => None
                  end
      | None => None
      end
  end.
Fixpoint srv_play (ts : list srvturn) (s : Server) : option Server :=
  match ts with [] => Some s | t :: ts => match srv_take t s with Some s => srv_play ts s | None => None end end.

Lemma reader_free_idle i s : reader_free i s = true -> idle_reader i s.
Proof.
  unfold reader_free, idle_reader. destruct (sr_sessions s !! i) as [[[] [|? ?] sent]|]; try done.
  intros H. split; [by eexists|]. apply Forall_forall. intros e He%list_elem_of_In Hs.
  eapply forallb_forall in H; [|exact He]. rewrite Hs, Nat.eqb_refl in H. cbn in H.
  by destruct (en_reader e).
Qed.
Lemma srv_take_step t s s' : srv_take t s = Some s' -> server_step s s'.
Proof.
  destruct t; unfold srv_take; intros H.
  - injection H as <-. constructor.
  - destruct (reader_free i s) eqn:E; simplify_eq. by apply SvCallOpen, reader_free_idle.
  - destruct (sr_sessions s !! i) eqn:E; [|done]. destruct (ss_prog s0) eqn:Ep; simplify_eq.
    by eapply SvOpen.
  - destruct (sr_entries s !! k) eqn:E; [|done]. destruct (en_started e) eqn:Es; simplify_eq.
    eapply SvStart; [done..|]. constructor.
  - destruct (sr_entries s !! k) eqn:E; [|done]. destruct (en_progs e !! j) as [[|a acts0]|] eqn:Ep; simplify_eq.
    by eapply SvProg.
Qed.
Lemma srv_play_serving opts services ts s s' :
  serving opts services s -> srv_play ts s = Some s' -> serving opts services s'.
Proof.
  revert s. induction ts as [|t ts IH]; intros s Hs H; cbn in H; [by injection H as <-|].
  destruct (srv_take t s) as [s1|] eqn:E; [|done].
  eapply IH; [|done]. econstructor; [done|by eapply srv_take_step].
Qed.

Definition one_call : ServerOptions := MkServerOptions "a" 1.
Definition greeter : gmap string Service :=
  {[ "greet.v1"%string := MkService false {[ "Hello"%string := unaryMethod ]} ]}.
Definition hello (id : string) : sframe :=
  (sframe0 "call.open") {{ sf_CallID := id; sf_Service := "greet.v1"; sf_Method := "Hello" }}.

(** One session: a call is opened and answered; a second one meanwhile is refused. *)
Definition answered_run : list srvturn :=
  [GoConnect; GoOpen 0 (hello "c1"); GoReader 0; GoReader 0; GoReader 0; GoReader 0;
   GoOpen 0 (hello "c2"); GoReader 0; GoReader 0; GoReader 0;
   GoReturn 0 None; GoProg 0 1 Sent; GoProg 0 1 Sent; GoProg 0 1 Sent; GoProg 0 1 Sent;
   GoProg 0 1 Sent; GoProg 0 1 Sent; GoProg 0 1 Sent; GoProg 0 1 Sent; GoProg 0 1 Sent].
Definition answered_state : Server :=
  default (server0 one_call greeter) (srv_play answered_run (server0 one_call greeter)).
Lemma answered_serving : serving one_call greeter answered_state.
Proof. apply (srv_play_serving _ _ answered_run (server0 one_call greeter)); [constructor|by vm_compute]. Qed.

Lemma inflight_exact_witness :
  map en_id (sr_entries answered_state) = ["c1"%string] /\ sr_inflight answered_state = 0 /\
  sr_inflight answered_state
    = int64 (sum_with (fun e => bit (sc_counted (en_call e))) (sr_entries answered_state)).
Proof.
  split; [by vm_compute|]. split; [by vm_compute|].
  apply (inflight_exact one_call greeter answered_state answered_serving).
Defined.
Lemma capacity_bounded_witness :
  map (fun x => length (ss_sent x)) (sr_sessions answered_state) = [1%nat] /\
  sum_with (fun e => bit (sc_counted (en_call e))) (sr_entries answered_state) <= 1.
Proof.
  split; [by vm_compute|].
  apply (capacity_bounded one_call greeter answered_state answered_serving); by vm_compute.
Defined.
Lemma answered_exactly_once_witness :
  map (fun e => (en_out e, en_lost e)) (sr_entries answered_state) = [(1, 0)] /\
  (forall e, e ∈ sr_entries answered_state -> en_out e + en_lost e <= 1).
Proof.
  split; [by vm_compute|].
  apply (answered_exactly_once one_call greeter answered_state answered_serving).
Defined.

(** ** Where the capacity ends *)

Definition capacity_run : list srvturn :=
  [GoConnect; GoConnect; GoOpen 0 (hello "c1"); GoReader 0; GoOpen 1 (hello "c2"); GoReader 1;
   GoReader 0; GoReader 1; GoReader 0; GoReader 0; GoReader 1; GoReader 1].
(** Two connections (two clients in direct mode, or two Routers) can pass the
    capacity check together: a server with max_inflight 1 runs two calls at once. *)
Theorem capacity_race : exists s, serving one_call greeter s /\
  so_MaxInflight one_call = 1 /\ sr_inflight s = 2 /\
  Forall (fun e => en_started e = true /\ sc_terminal (en_call e) = false) (sr_entries s) /\
  length (sr_entries s) = 2%nat.
Proof.
  destruct (srv_play capacity_run (server0 one_call greeter)) as [s|] eqn:E; [|by vm_compute in E].
  pose proof (srv_play_serving _ _ _ _ _ (Serving0 one_call greeter) E) as Hs.
  vm_compute in E. injection E as <-. eexists. split; [exact Hs|].
  split; [done|]. split; [done|]. split; [|done]. by repeat constructor.
Qed.
