(* ===== verification/Connection.v ===== *)
(** * Connections: handle, writeLoop and readFrame of internal/router/router.go

    [connect] is everything up to the accepted WebSocket (admission limits,
    authentication, the new peer); [receive] is one turn of the reading
    goroutine, a state machine over [phase]; [write] is one turn of
    [writeLoop]; [disconnect] is the deferred cleanup.  A [System] is the
    Router with the phases of its connections, and which of them hold an
    anonymous slot. *)
From S2P Require Import Prelude GoStd Json Protocol Outbox Breaker Libs Auth State Deadline Dedup.
From S2P Require Import Balance Management Router.
#[local] Open Scope Z_scope.

Inductive phase :=
  | AwaitHello
  | AwaitRegister (instanceID : string)
  | Serving
  | Closing            (* returned from the frame loop *)
  | Gone.              (* removed; or never a WebSocket connection *)
#[global] Instance phase_eq_dec : EqDecision phase.
Proof. solve_decision. Defined.

Record System := MkSystem {
  sy_router : Router;
  sy_phase : nat -> phase;
  sy_anonymous : nat -> bool (* the deferred r.anonymous.Add(-1) *) }.
#[global] Instance System_eta : Eta System :=
  fun x => MkSystem (sy_router x) (sy_phase x) (sy_anonymous x).

Definition on_router (g : Router -> Router) (s : System) : System := s {{ sy_router ::= g }}.
Definition set_phase (p : nat) (ph : phase) (s : System) : System :=
  s {{ sy_phase ::= update p (fun _ => ph) }}.

(** ** Upgrade requests *)

Inductive upgrade_result :=
  | Rejected (status : Z) (message : string) (retryAfter challenge : bool)
  | UpgradeFailed               (* websocket.Accept returned an error *)
  | Dropped                     (* closed without a close frame *)
  | Connected (p : nat).

Definition is_anonymous (u : option User) : bool :=
  match u with Some u => bool_decide (u_kind u = identityAnonymous) | None => false end.

(** A fresh peer in the Router's set. *)
Definition new_peer (u : option User) (role id : string) (r : Router) : Router :=
  let p := r_next r in
  let x := peer0 {{ p_user := u; p_role := role; p_id := id;
                    p_ctxDeadline := match u with Some u => u_expires u | None => None end;
                    p_out := newOutbox (c_OutboxSize (r_config r)) }} in
  upd_peer p (fun _ => x) (r {{ r_next ::= S; r_peers ::= union {[p]} }}).

Section connection.
Context `{Crypto, Floats}.

(** The upgrade of one request with this Authorization header; [accepted]
    is whether websocket.Accept succeeds. *)
Definition connect (header : string) (accepted : bool) (e : Env) (s : System)
    : System * upgrade_result :=
  let r := sy_router s in
  if r_stopping r then (s, Rejected 503 "router is shutting down" true false)
  else if c_MaxConnections (r_config r) <? r_connections r + 1
  then (s, Rejected 503 "connection limit reached" true false)
  else
    let '(auth, checked) := check (r_auth r) header (e_now e) in
    let r := r {{ r_auth := auth }} in
    match checked with
    | inr fl => (on_router (fun _ => r) s,
                 Rejected (af_status fl) (af_message fl) false (af_challenge fl))
    | inl user =>
        let anon := is_anonymous user in
        if anon && (c_MaxAnonymousConnections (r_config r) <? r_anonymous r + 1)
        then (on_router (fun _ => r) s,
              Rejected 503 "anonymous connection limit reached" true false)
        else if negb accepted then (on_router (fun _ => r) s, UpgradeFailed)
        else if r_draining r || negb (valid (r_auth r) user (e_now e))
        then (on_router (fun _ => r) s, Dropped)
        else
          let p := r_next r in
          let r := new_peer user EmptyString EmptyString r in
          let r := r {{ r_connections ::= Z.add 1 }} in
          let r := if anon then r {{ r_anonymous ::= Z.add 1 }} else r in
          let s := s {{ sy_anonymous ::= update p (fun _ => anon) }} in
          (set_phase p AwaitHello (on_router (fun _ => r) s), Connected p)
    end.

(** ** The reading goroutine *)

(** [readFrame]: of a frame that does not decode, kind and call id remain. *)
Definition readFrame (data : string) : frame * option decode_error :=
  let '(f, err) := decode data in
  match err with
  | Some _ => (frame0 {{ f_kind := f_kind f; f_callID := f_callID f }}, err)
  | None => (f, None)
  end.

Definition receive_hello (p : nat) (data : string) (e : Env) (s : System) : System :=
  let '(f, err) := readFrame data in
  if negb (bool_decide (err = None)) || negb (String.eqb (f_kind f) "hello")
  then set_phase p Closing s
  else if negb (allowsRole (p_user (peerOf (sy_router s) p)) (f_role f))
  then set_phase p Closing s
  else match e_secret e with
  | None => set_phase p Closing s
  | Some secret =>
      let id := hex_encode secret in
      let s := on_router (upd_peer p (fun x => x {{ p_id := id; p_role := f_role f }})) s in
      let s := on_router (send p (frame0 {{ f_kind := "hello.ack"; f_protocol := Protocol;
                                            f_connection := id }})) s in
      set_phase p (if String.eqb (f_role f) "server" then AwaitRegister (f_instanceID f)
                   else Serving) s
  end.

Definition receive_registration (p : nat) (instanceID data : string) (s : System) : System :=
  let '(f, err) := readFrame data in
  if negb (bool_decide (err = None)) || negb (String.eqb (f_kind f) "server.register")
     || is_empty instanceID || negb (String.eqb instanceID (f_instanceID f))
  then set_phase p Closing s
  else
    let '(r, refused) := register p f (sy_router s) in
    let s := on_router (fun _ => r) s in
    match refused with
    | Some _ => set_phase p Closing s
    | None => set_phase p Serving s
    end.

Definition receive_frame (p : nat) (data : string) (e : Env) (s : System) : System :=
  let role := p_role (peerOf (sy_router s) p) in
  let '(f, err) := readFrame data in
  match err with
  | Some _ =>
      if negb (is_empty (f_callID f)) && String.eqb role "client" && negb (is_empty (f_kind f))
      then on_router (send p (callError (f_callID f) "protocol_error"
             ("Invalid " +:+ f_kind f +:+ " frame") false)) s
      else set_phase p Closing s
  | None =>
      if String.eqb (f_kind f) "ping" then
        on_router (send p (frame0 {{ f_kind := "pong"; f_nonce := f_nonce f }})) s
      else if String.eqb (f_kind f) "pong" then s
      else if String.eqb (f_kind f) "server.drain" then
        if negb (String.eqb role "server") then set_phase p Closing s
        else
          let s := on_router (drain p) s in
          on_router (send p (frame0 {{ f_kind := "server.drain.ack";
            f_instanceID := p_instanceID (peerOf (sy_router s) p) }})) s
      else if negb (allowedFrame role f) then set_phase p Closing s
      else on_router (forward p f e) s
  end.

(** One message, or a read that ends in an error or a timeout ([None]). *)
Definition receive (p : nat) (message : option string) (e : Env) (s : System) : System :=
  match sy_phase s p, message with
  | Gone, _ | Closing, _ => s
  | _, None => set_phase p Closing s
  | AwaitHello, Some data => receive_hello p data e s
  | AwaitRegister id, Some data => receive_registration p id data s
  | Serving, Some data => receive_frame p data e s
  end.
End connection.

(** ** The writing goroutine *)

Inductive write_result := Wrote (raw : string) | Idle | Stopped.

(** One turn; [ok] is whether the WebSocket write succeeds in time. *)
Definition write (p : nat) (ok : bool) (now : Z) (r : Router) : Router * write_result :=
  match pop (p_out (peerOf r p)) with
  | None =>
      if goingAway p r then (cancel p r, Stopped)
      else if ctxErr r now p then (r, Stopped)
      else (upd_peer p (fun x => x {{ p_out ::= fun q => q {{ q_ready := false }} }}) r, Idle)
  | Some (f, q) =>
      let r := upd_peer p (fun x => x {{ p_out := q }}) r in
      if c_MaxFrameSize (r_config r) <? slen (bytes f) then (cancel p r, Stopped)
      else if ok then (r, Wrote (bytes f))
      else (cancel p r, Stopped)
  end.

(** ** The deferred cleanup of handle *)

Definition close_peer (p : nat) (e : Env) (r : Router) : Router :=
  let r := cancel p r in
  let r := upd_peer p (fun x => x {{ p_out ::= close }}) r in
  remove p e r.

Definition disconnect (p : nat) (e : Env) (s : System) : System :=
  let s := on_router (close_peer p e) s in
  let s := on_router (fun r => r {{ r_connections ::= Z.add (-1) }}) s in
  let s := if sy_anonymous s p
           then on_router (fun r => r {{ r_anonymous ::= Z.add (-1) }}) s else s in
  set_phase p Gone s.
