(* ===== verification/Http.v ===== *)
(** * HTTP calls: internal/router/httpapi.go

    A request is admitted and authenticated ([serve_begin]), then its call.open
    is built and forwarded from a virtual client ([serve_open]); a call in
    progress answers the frames the Router queues for that peer with [unary],
    [server_stream] and [client_stream] steps, which write a [Response] and hand
    frames back to [forward].  [next] is [Outbox.pop]. *)
From S2P Require Import Prelude GoStd LocalSock Json Protocol Outbox Breaker Libs Auth State.
From S2P Require Import Deadline Dedup Contract Balance Management OpenApi Router Connection.
#[local] Open Scope Z_scope.

(** ** Headers and responses *)

(** [textproto.CanonicalMIMEHeaderKey]. *)
Definition header_byte (c : ascii) : bool := is_alnum c || ContainsByte "!#$%&'*+-.^_`|~" c.
Definition upper_byte (c : ascii) : ascii :=
  let n := nat_of_ascii c in
  if (97 <=? n)%nat && (n <=? 122)%nat then ascii_of_nat (n - 32) else c.
Fixpoint canonical_from (upper : bool) (s : string) : string :=
  match s with
  | EmptyString => EmptyString
  | String c s =>
      String (if upper then upper_byte c else lower_byte c) (canonical_from (Ascii.eqb c "-") s)
  end.
Definition CanonicalHeaderKey (s : string) : string :=
  if all_bytes header_byte s then canonical_from true s else s.

Definition Header : Type := list (string * list string).
Definition header_get (h : Header) (name : string) : string :=
  match List.find (fun kv => String.eqb kv.1 (CanonicalHeaderKey name)) h with
  | Some (_, v :: _) => v
  | _ => EmptyString
  end.

Record Response := MkResponse {
  rs_header : gmap string (list string);
  rs_status : option Z;
  rs_body : string }.
#[global] Instance Response_eta : Eta Response :=
  fun w => MkResponse (rs_header w) (rs_status w) (rs_body w).
Definition response0 : Response := MkResponse ∅ None EmptyString.

Definition set_header (k v : string) (w : Response) : Response :=
  w {{ rs_header ::= insert (CanonicalHeaderKey k) [v] }}.
Definition add_header (k v : string) (w : Response) : Response :=
  let k := CanonicalHeaderKey k in
  w {{ rs_header ::= fun h => <[k := default [] (h !! k) ++ [v]]> h }}.
Definition WriteHeader (status : Z) (w : Response) : Response :=
  match rs_status w with Some _ => w | None => w {{ rs_status := Some status }} end.
Definition Write (s : string) (w : Response) : Response :=
  WriteHeader 200 w {{ rs_body ::= fun b => b +:+ s }}.
Definition newline : string := chr 10.

(** ** Errors *)

Definition duplex_reason (details : option string) : bool :=
  match d ← details; unmarshal d with
  | Some (JObject kvs) =>
      match lookup_last "reason" kvs with
      | Some (JString s) => String.eqb s "duplex_over_http"
      | _ => false
      end
  | _ => false
  end.

Definition httpStatus (e : errorPayload) : Z :=
  let code c := String.eqb (e_code e) c in
  if code "invalid_argument"%string then 400
  else if code "unauthenticated"%string then 401
  else if code "permission_denied"%string then 403
  else if code "method_not_found"%string then if duplex_reason (e_details e) then 405 else 404
  else if code "resource_exhausted"%string then 429
  else if code "cancelled"%string then 499
  else if code "unavailable"%string then 503
  else if code "deadline_exceeded"%string then 504
  else 500.

Definition writeHTTPErrorStatus (status : Z) (e : errorPayload) (w : Response) : Response :=
  w |> set_header "Content-Type" "application/json" |> WriteHeader status
    |> Write (braces [member "error" (marshal_error e)] +:+ newline).
Definition writeHTTPError (e : errorPayload) (w : Response) : Response :=
  writeHTTPErrorStatus (httpStatus e) e w.

Definition routerHTTPError (code message reason : string) : errorPayload :=
  ErrorPayload code message
    (String.eqb code "unavailable" || String.eqb code "resource_exhausted")
    (Some (marshal_string_map [("source", "router"); ("reason", reason)])).

(** ** Health checks and CORS *)

Record Request := MkRequest {
  rq_method : string;
  rq_path : string;
  rq_header : Header;
  rq_body : string;              (* the bytes that can be read *)
  rq_error : option string       (* what reading past them returns; None: io.EOF *) }.

Definition status_body (s : string) : string := braces [member "status" (quote s)] +:+ newline.

Definition serveHealth (path : string) (r : Router) : Response :=
  let w := response0 |> set_header "Content-Type" "application/json"
                     |> set_header "Cache-Control" "no-store" in
  if String.eqb path "/readyz" then
    if r_stopping r then w |> WriteHeader 503 |> Write (status_body "stopping")
    else w |> Write (status_body "ready")
  else w |> Write (status_body "ok").

Definition origin_allowed (c : Config) (origin : string) : bool :=
  negb (is_empty origin) &&
  ContainsFunc (c_HTTPCORSOrigins c) (fun o => String.eqb o "*" || String.eqb o origin).

(** The headers so far, and whether the request goes on. *)
Definition cors (req : Request) (r : Router) : Response * bool :=
  let origin := header_get (rq_header req) "Origin" in
  let allowed := origin_allowed (r_config r) origin in
  let w := if allowed
           then response0 |> set_header "Access-Control-Allow-Origin" origin
                          |> add_header "Vary" "Origin"
                          |> set_header "Access-Control-Expose-Headers" "*"
           else response0 in
  if negb (String.eqb (rq_method req) "OPTIONS") then (w, true)
  else if negb allowed then (WriteHeader 403 w, false)
  else (w |> set_header "Access-Control-Allow-Methods" "GET, POST"
          |> set_header "Access-Control-Allow-Headers" "Authorization, *"
          |> set_header "Access-Control-Max-Age" "600"
          |> WriteHeader 204, false).

(** ** Reading bodies *)

(** Up to and with the newline, and the rest; [None]: no newline. *)
Fixpoint span_line (s : string) : string * option string :=
  match s with
  | EmptyString => (EmptyString, None)
  | String c s =>
      if byte c =? 10 then (String c EmptyString, Some s)
      else let '(line, rest) := span_line s in (String c line, rest)
  end.

Fixpoint trim_crlf_front (s : string) : string :=
  match s with
  | String c s' => if (byte c =? 10) || (byte c =? 13) then trim_crlf_front s' else s
  | EmptyString => EmptyString
  end.
(** [bytes.TrimRight(out, "\r\n")]. *)
Definition TrimRightCRLF (s : string) : string := string_rev (trim_crlf_front (string_rev s)).

(** A line that was read: complete, ended by the end of the body, or failed. *)
Inductive line_end := LineOk | LineEOF | LineFailed (message : string).
Definition body_end (err : option string) : line_end :=
  match err with None => LineEOF | Some e => LineFailed e end.

(** [readLine]: the line, how it ended, and the rest of the body. *)
Definition readLine (limit : Z) (body : string) (err : option string) : string * line_end * string :=
  let '(line, rest) := span_line body in
  if limit <? slen line
  then (EmptyString, LineFailed "line exceeds the maximum frame size", EmptyString)
  else match rest with
  | Some rest => (TrimRightCRLF line, LineOk, rest)
  | None => (TrimRightCRLF line, body_end err, EmptyString)
  end.

(** The reading goroutine skips blank lines; every round consumes a byte. *)
Fixpoint read_item (fuel : nat) (limit : Z) (body : string) (err : option string)
    : string * line_end * string :=
  let '(data, how, rest) := readLine limit body err in
  match fuel, how with
  | S fuel, LineOk => if is_empty (TrimSpace data) then read_item fuel limit rest err
                      else (data, how, rest)
  | _, _ => (data, how, rest)
  end.

Definition compactJSON (raw : string) : string :=
  if is_empty raw then "null" else if Valid raw then compact raw else raw.

(** ** From the request to call.open *)

(** What a request asks for, by its path and method. *)
Inductive route_result :=
  | OpenAPIDoc
  | CallOf (service method : string) (payload : option string)
  | BadRequest (w : Response).

Definition httpPrefix : string := "/v1/".
Definition httpCallPath : string := "/v1/call/".
Definition httpServicePath : string := "/v1/services".

Definition route_request (req : Request) (w : Response) : route_result :=
  let path := rq_path req in
  let get := String.eqb (rq_method req) "GET" in
  if String.eqb path "/v1/openapi.json" && get then OpenAPIDoc
  else if String.eqb path httpServicePath && get then CallOf RegistryService "list" (Some "{}"%string)
  else if HasPrefix path (httpServicePath +:+ "/") && get then
    CallOf RegistryService "describe" (Some (braces [member "service"
      (quote (TrimPrefix path (httpServicePath +:+ "/")))]))
  else if HasPrefix path httpCallPath then
    if negb (String.eqb (rq_method req) "POST") then
      BadRequest (writeHTTPError (routerHTTPError "invalid_argument" "calls are POST requests"
        "http_method") (set_header "Allow" "POST" w))
    else
      let rest := TrimPrefix path httpCallPath in
      let slash := LastIndexByte rest "/" in
      if (slash <=? 0) || (slash =? slen rest - 1) then
        BadRequest (writeHTTPError (routerHTTPError "invalid_argument"
          "expected /v1/call/{service}/{method}" "http_path") w)
      else CallOf (take_bytes (Z.to_nat slash) rest) (drop_bytes (S (Z.to_nat slash)) rest) None
  else BadRequest (writeHTTPError (routerHTTPError "method_not_found" ("unknown path " +:+ path)
         "http_path") w).

Definition ms_of (d : Z) : Z := Z.quot d Millisecond.

(** The two timeout headers; Go visits them in either order. *)
Definition timeout_fields : list (string * string) :=
  [("MeshCall-Timeout-Ms", "timeout_ms"); ("MeshCall-Idle-Timeout-Ms", "idle_timeout_ms")].
Fixpoint read_timeouts (h : Header) (headers : list string) (got : list (string * Z))
    : string + list (string * Z) :=
  match headers with
  | [] => inr got
  | header :: headers =>
      let v := header_get h header in
      if is_empty v then read_timeouts h headers got
      else match parse_int64 v with
      | Some ms =>
          if ms <=? 0 then inl (header +:+ " must be a positive integer")
          else read_timeouts h headers
                 ((default EmptyString (lookup_last header timeout_fields), ms) :: got)
      | None => inl (header +:+ " must be a positive integer")
      end
  end.

Definition metaHeader : string := "Meshcall-Meta-".
Definition read_metadata (h : Header) (names : list string) : gmap string string :=
  fold_left (fun md name =>
    match lookup_last name h with
    | Some (v :: _) =>
        if HasPrefix name metaHeader && (slen metaHeader <? slen name)
        then <[lower_ascii (TrimPrefix name metaHeader) := v]> md else md
    | _ => md
    end) names ∅.

(** [err.Error()] of [decode], for the frames built here. *)
Definition decode_error_text (err : decode_error) : string :=
  match err with
  | InvalidFrame => "invalid frame" | NotOneFrame => "expected one JSON frame"
  | InvalidHello => "invalid hello or unsupported protocol"
  | InvalidRegistration => "invalid registration" | InvalidCallOpen => "invalid call.open"
  | TimeoutsMustBePositive => "timeouts must be positive"
  | IdempotencyTooLong => "idempotency_key exceeds 128 bytes"
  | InvalidMetadata => "invalid metadata" | InvalidCallError => "invalid call.error"
  | InvalidStreamDirection => "invalid stream direction"
  | InvalidStreamItem => "invalid stream item" | InvalidStreamCredit => "invalid stream credit"
  | InvalidNonce => "missing or invalid nonce"
  | UnexpectedKind k => "unexpected frame kind " +:+ quote k
  | MissingCallID => "missing call_id"
  end.

(** The value of timeout_ms: given, or the Router's default. *)
Definition open_timeout (c : Config) (stream : string) (given : list (string * Z)) : option Z :=
  match lookup_last "timeout_ms" given with
  | Some ms => Some ms
  | None => if String.eqb stream "server_stream" then None
            else Some (ms_of (c_HTTPDefaultTimeout c))
  end.

Definition opt_entry (k : string) (v : option string) : list (string * string) :=
  match v with Some v => [(k, v)] | None => [] end.
Definition given_entry (k v : string) : list (string * string) :=
  if is_empty v then [] else [(k, quote v)].

Definition httpOpenFrame (c : Config) (service method stream payload : string) (h : Header)
    (e : Env) : string + frame :=
  match e_secret e with
  | None => inl "no random bytes"%string
  | Some secret =>
      match read_timeouts h (e_iter e (fst <$> timeout_fields)) [] with
      | inl err => inl err
      | inr given =>
          let timeout := open_timeout c stream given in
          let maximum := c_HTTPMaxTimeout c in
          if match timeout with
             | Some ms => (0 <? maximum) && (ms_of maximum <? ms)
             | None => false
             end
          then inl ("MeshCall-Timeout-Ms exceeds the Router's maximum of "
                    +:+ marshal_int (ms_of maximum))
          else
            let key := header_get h "Idempotency-Key" in
            if 128 <? slen key then inl "Idempotency-Key must be at most 128 bytes"%string
            else
              let metadata := read_metadata h (e_iter e (fst <$> h)) in
              let members := SortBy fst
                ([("kind", quote "call.open"); ("call_id", quote ("http-" +:+ hex_encode secret));
                  ("service", quote service); ("method", quote method);
                  ("payload", compact_html payload)]
                 ++ opt_entry "timeout_ms" (marshal_int <$> timeout)
                 ++ opt_entry "idle_timeout_ms"
                      (marshal_int <$> lookup_last "idle_timeout_ms" given)
                 ++ given_entry "idempotency_key" key
                 ++ given_entry "instance_id" (header_get h "MeshCall-Instance")
                 ++ (if bool_decide (metadata = ∅) then []
                     else [("metadata"%string, marshal_string_map (map_to_list metadata))])) in
              let '(f, err) := decode (braces ((fun kv => member kv.1 kv.2) <$> members)) in
              match err with
              | Some err => inl (decode_error_text err)
              | None => inr f
              end
      end
  end.

(** The peer of one request; [id] are its random bytes. *)
Definition virtualClient (user : option User) (id : string) (e : Env) (r : Router)
    : Router * option nat :=
  if r_closed r || negb (valid (r_auth r) user (e_now e)) then (r, None)
  else (new_peer user "client" (hex_encode id) r, Some (r_next r)).

(** ** Serving a request *)

Record http_pending := MkPending {
  pd_req : Request;
  pd_w : Response;
  pd_user : option User;
  pd_service : string;
  pd_method : string;
  pd_payload : option string;
  pd_stream : string }.

Record httpCall := MkCall {
  hc_peer : nat;
  hc_id : string;
  hc_w : Response;
  hc_stream : string;
  hc_body : string;              (* what a client stream has left to read *)
  hc_error : option string }.

Section serve.
Context `{Crypto, Floats}.

Definition http_auth_failure (fl : authFailure) (w : Response) : Response :=
  let w := if af_challenge fl
           then set_header "WWW-Authenticate" ("Basic realm=" +:+ dqs +:+ "meshcall" +:+ dqs
                  +:+ ", charset=" +:+ dqs +:+ "UTF-8" +:+ dqs) w else w in
  let code := if af_status fl =? 503 then "unavailable"%string else "unauthenticated"%string in
  writeHTTPError (ErrorPayload code (af_message fl) (String.eqb code "unavailable") None) w.

Definition serveOpenAPI (user : option User) (w : Response) (r : Router) : Response :=
  if negb (openapi_allowed user) then
    writeHTTPError (ErrorPayload "permission_denied" "Call is not permitted" false None) w
  else w |> set_header "Content-Type" "application/json"
         |> Write (Encode (JObject (openAPI user r))).

(** The request's path, identity and stream kind, behind the admission. *)
Definition authorize_request (req : Request) (w : Response) (e : Env) (r : Router)
    : Router * (Response + http_pending) :=
  match route_request req w with
  | BadRequest w => (r, inl w)
  | target =>
      let '(auth, checked) := check (r_auth r) (header_get (rq_header req) "Authorization") (e_now e) in
      let r := r {{ r_auth := auth }} in
      match checked with
      | inr fl => (r, inl (http_auth_failure fl w))
      | inl user =>
          if negb (allowsRole user "client") then
            (r, inl (writeHTTPError (ErrorPayload "permission_denied"
               "the identity may not act as a client" false None) w))
          else match target with
          | CallOf service method payload =>
              let stream := methodStream r service method in
              if String.eqb stream "duplex" then
                (r, inl (writeHTTPError (routerHTTPError "method_not_found"
                   "duplex methods are WebSocket-only" "duplex_over_http") w))
              else (r, inr (MkPending req w user service method payload stream))
          | _ => (r, inl (serveOpenAPI user w r))
          end
      end
  end.

(** [serveHTTP] up to the request's body: an answer, or a call to open, which
    then holds one of the HTTP slots until [http_done]. *)
Definition serve_begin (req : Request) (e : Env) (r : Router) : Router * (Response + http_pending) :=
  let '(w, go) := cors req r in
  if negb (go : bool) then (r, inl w)
  else if c_HTTPMaxInflight (r_config r) <? r_httpInflight r + 1 then
    (r, inl (writeHTTPErrorStatus 429 (routerHTTPError "resource_exhausted"
       "Router HTTP call limit reached" "overloaded") (set_header "Retry-After" "1" w)))
  else
    let '(r, res) := authorize_request req w e r in
    match res with
    | inl w => (r, inl w)
    | inr pd => (r {{ r_httpInflight ::= Z.add 1 }}, inr pd)
    end.

(** The payload and the rest of the body, or the refusal. *)
Definition read_payload (c : Config) (pd : http_pending) : Response + (string * string) :=
  let req := pd_req pd in
  let bad message := inl (writeHTTPError (routerHTTPError "invalid_argument" message "http_body") (pd_w pd)) in
  if String.eqb (pd_stream pd) "client_stream" then
    let contentType := TrimSpace (Cut ";" (header_get (rq_header req) "Content-Type")).1.1 in
    if negb (String.eqb contentType ndjson) then
      inl (writeHTTPErrorStatus 415 (routerHTTPError "invalid_argument"
        ("a client stream takes " +:+ ndjson) "http_content_type") (pd_w pd))
    else
      let '(line, how, rest) := readLine (c_MaxFrameSize c) (rq_body req) (rq_error req) in
      match how with
      | LineFailed err => bad ("the first line must be the request payload: " +:+ err)
      | _ => inr (line, rest)
      end
  else match pd_payload pd with
  | Some payload => inr (payload, EmptyString)
  | None =>
      if (c_MaxFrameSize c <? slen (rq_body req)) || bool_decide (is_Some (rq_error req))
      then bad "the request body is unreadable or too large"%string
      else inr (rq_body req, EmptyString)
  end.

(** The rest of [serveHTTP] up to the forwarded call.open; [id] are the virtual
    client's random bytes. *)
Definition serve_open (pd : http_pending) (id : string) (e : Env) (r : Router)
    : Router * (Response + httpCall) :=
  let c := r_config r in
  match read_payload c pd with
  | inl w => (r, inl w)
  | inr (payload, rest) =>
      let payload := if is_empty (TrimSpace payload) then "{}"%string else payload in
      if negb (Valid payload) then
        (r, inl (writeHTTPError (routerHTTPError "invalid_argument"
           "the request payload is not JSON" "http_body") (pd_w pd)))
      else match httpOpenFrame c (pd_service pd) (pd_method pd) (pd_stream pd) payload
                   (rq_header (pd_req pd)) e with
      | inl err => (r, inl (writeHTTPError (routerHTTPError "invalid_argument" err "http_header") (pd_w pd)))
      | inr open =>
          let '(r, p) := virtualClient (pd_user pd) id e r in
          match p with
          | None => (r, inl (writeHTTPError (ErrorPayload "unavailable" "Router is shutting down"
                       true None) (pd_w pd)))
          | Some p => (forward p open e r,
                       inr (MkCall p (f_callID open) (pd_w pd) (pd_stream pd) rest
                              (rq_error (pd_req pd))))
          end
      end
  end.
End serve.

(** The deferred release of the slot. *)
Definition http_done (r : Router) : Router := r {{ r_httpInflight ::= Z.add (-1) }}.

(** ** Answering a call in progress *)

(** [setTrailerHeaders] with no prefix; [iter] is the order of the map. *)
Definition trailerHeader : string := "MeshCall-Trailer-".
Definition setTrailerHeaders (iter : list string -> list string) (metadata : option string)
    (w : Response) : Response :=
  match raw ← metadata; unmarshal_string_map raw with
  | Some kvs =>
      fold_left (fun w k => set_header (trailerHeader +:+ k) (default EmptyString (lookup_last k kvs)) w)
        (iter (remove_dups (fst <$> kvs))) w
  | None => w
  end.

Definition payload_of (f : frame) : string := default EmptyString (f_payload f).

Definition write_result_body (iter : list string -> list string) (f : frame) (w : Response) : Response :=
  w |> setTrailerHeaders iter (f_metadata f) |> set_header "Content-Type" "application/json"
    |> WriteHeader 200 |> Write (compactJSON (payload_of f)) |> Write newline.

(** [f.Error] of a call.error that decoded is never nil. *)
Definition write_error_body (iter : list string -> list string) (f : frame) (w : Response) : Response :=
  match f_error f with
  | Some e => writeHTTPError e (setTrailerHeaders iter (f_metadata f) w)
  | None => w
  end.

(** The frames that end a unary or client-stream call. *)
Definition finish_plain (iter : list string -> list string) (f : frame) (w : Response)
    : option Response :=
  if String.eqb (f_kind f) "call.result" then Some (write_result_body iter f w)
  else if String.eqb (f_kind f) "call.error" then Some (write_error_body iter f w)
  else None.

(** One round of [unary]: [inr] is the finished response. *)
Definition unary_step (iter : list string -> list string) (f : frame) (w : Response)
    : Response + Response :=
  match finish_plain iter f w with Some w => inr w | None => inl w end.

(** ** Server streams *)

Definition streamCredit : Z := 128.
Definition window_frame (credit : Z) : frame :=
  frame0 {{ f_kind := "stream.window"; f_direction := "server"; f_credit := Some credit }}.

Record ss_state := MkSS { ss_started : bool; ss_written : Z; ss_w : Response }.
#[global] Instance ss_state_eta : Eta ss_state :=
  fun s => MkSS (ss_started s) (ss_written s) (ss_w s).

(** What [serverStream] does before its loop. *)
Definition ss_open (w : Response) : ss_state * list frame :=
  (MkSS false 0 w, [window_frame streamCredit]).

(** [line]: the headers with the first one, then the parts and a newline. *)
Definition ss_line (text : string) (s : ss_state) : ss_state :=
  let w := if ss_started s then ss_w s
           else ss_w s |> set_header "Content-Type" ndjson
                       |> set_header "X-Accel-Buffering" "no" |> WriteHeader 200 in
  s {{ ss_started := true; ss_w := w |> Write text |> Write newline }}.

Definition ss_trailers (metadata : option string) : string :=
  match metadata with
  | None => "{}"
  | Some m => if is_empty m || String.eqb m "null" then "{}" else compactJSON m
  end.

(** One frame: the new state, the frames sent, and whether the call is over. *)
Definition ss_step (iter : list string -> list string) (f : frame) (s : ss_state)
    : ss_state * list frame * bool :=
  let kind k := String.eqb (f_kind f) k in
  if kind "stream.item"%string then
    let s := ss_line ("{" +:+ dqs +:+ "item" +:+ dqs +:+ ":" +:+ compactJSON (payload_of f) +:+ "}") s in
    let s := s {{ ss_written ::= Z.add 1 }} in
    (s, if Z.rem (ss_written s) (Z.quot streamCredit 2) =? 0
        then [window_frame (Z.quot streamCredit 2)] else [], false)
  else if kind "stream.end"%string then (s, [], false)
  else if kind "call.result"%string then
    (ss_line ("{" +:+ dqs +:+ "end" +:+ dqs +:+ ":{" +:+ dqs +:+ "trailers" +:+ dqs +:+ ":"
              +:+ ss_trailers (f_metadata f) +:+ "}}") s, [], true)
  else if kind "call.error"%string then
    if negb (ss_started s) then (s {{ ss_w := write_error_body iter f (ss_w s) }}, [], true)
    else
      let e := match f_error f with Some e => marshal_error e | None => "null"%string end in
      (ss_line ("{" +:+ dqs +:+ "error" +:+ dqs +:+ ":" +:+ e +:+ "," +:+ dqs +:+ "trailers"
                +:+ dqs +:+ ":" +:+ ss_trailers (f_metadata f) +:+ "}") s, [], true)
  else (s, [], false).

(** ** Client streams *)

Record cs_state := MkCS {
  cs_credit : Z;
  cs_sequence : Z;
  cs_ended : bool;
  cs_reading : bool;
  cs_w : Response }.
#[global] Instance cs_state_eta : Eta cs_state := fun s =>
  MkCS (cs_credit s) (cs_sequence s) (cs_ended s) (cs_reading s) (cs_w s).

Definition cs_open (w : Response) : cs_state := MkCS 0 0 false false w.

(** The top of the loop: whether a line is wanted from the reader now. *)
Definition cs_want (s : cs_state) : cs_state :=
  if (0 <? cs_credit s) && negb (cs_ended s) && negb (cs_reading s)
  then s {{ cs_reading := true }} else s.

Definition end_frame : frame := frame0 {{ f_kind := "stream.end"; f_direction := "client" }}.
Definition item_frame (sequence : Z) (data : string) : frame :=
  frame0 {{ f_kind := "stream.item"; f_direction := "client"; f_sequence := Some sequence;
            f_payload := Some (compactJSON data) }}.

(** [fail]: the frames sent, the response, and the end. *)
Definition cs_fail (message : string) (s : cs_state) : cs_state * list frame * bool :=
  (s {{ cs_w := writeHTTPError (routerHTTPError "invalid_argument" message "http_body") (cs_w s) }},
   [frame0 {{ f_kind := "call.cancel"; f_reason := "invalid_input" }}], true).

(** A line from the reader. *)
Definition cs_line (data : string) (how : line_end) (s : cs_state) : cs_state * list frame * bool :=
  let s := s {{ cs_reading := false }} in
  let eof := match how with LineEOF => true | _ => false end in
  if eof && is_empty (TrimSpace data) then (s {{ cs_ended := true }}, [end_frame], false)
  else match how with
  | LineFailed err => cs_fail ("input stream: " +:+ err) s
  | _ =>
      if negb (Valid data) then
        cs_fail ("input item " +:+ marshal_int (cs_sequence s) +:+ " is not JSON") s
      else
        let item := item_frame (cs_sequence s) data in
        let s := s {{ cs_sequence ::= Z.add 1; cs_credit ::= Z.add (-1) }} in
        if eof then (s {{ cs_ended := true }}, [item; end_frame], false) else (s, [item], false)
  end.

(** A frame popped from the outbox. *)
Definition cs_frame (iter : list string -> list string) (f : frame) (s : cs_state) : cs_state * bool :=
  if String.eqb (f_kind f) "stream.window" then
    (match f_credit f with
     | Some c => s {{ cs_credit ::= fun credit => int64 (credit + c) }} | None => s end, false)
  else match finish_plain iter f (cs_w s) with
  | Some w => (s {{ cs_w := w }}, true)
  | None => (s, false)
  end.

(** [httpCall.send]: a frame of the call goes back through the Router. *)
Definition http_send (c : httpCall) (f : frame) `{Crypto, Floats} (e : Env) (r : Router) : Router :=
  forward (hc_peer c) (f {{ f_callID := hc_id c }}) e r.
