(* ===== verification/Streams.v ===== *)
(** * HTTP streams and bodies

    The credit and framing discipline of httpapi.go: how much a server stream
    asks for, what a client stream sends, how bodies are cut into lines, and who
    gets to open a call. *)
From S2P Require Import Prelude GoStd LocalSock Json Protocol Outbox Breaker Libs Auth State.
From S2P Require Import Deadline Dedup Contract Balance Management OpenApi Router Connection Http.
#[local] Open Scope Z_scope.

(** ** Definitions *)

(** The credit in the frames a handler sent. *)
Definition credit_of (f : frame) : Z := default 0 (f_credit f).
Definition granted (fs : list frame) : Z := sum_with credit_of fs.

(** A server stream over a list of frames: the state, what was sent, done. *)
Fixpoint ss_run (iter : list string -> list string) (fs : list frame) (s : ss_state)
    (sent : list frame) : ss_state * list frame * bool :=
  match fs with
  | [] => (s, sent, false)
  | f :: fs =>
      let '(s, out, over) := ss_step iter f s in
      if over : bool then (s, sent ++ out, true) else ss_run iter fs s (sent ++ out)
  end.

(** What a client stream waits for: a line from its reader, or frames in its
    outbox. *)
Inductive cs_event :=
  | GotLine (data : string) (how : line_end)
  | GotFrames (fs : list frame).

(** The frames of one wake-up, until one ends the call. *)
Fixpoint cs_frames (iter : list string -> list string) (fs : list frame) (s : cs_state)
    : cs_state * bool :=
  match fs with
  | [] => (s, false)
  | f :: fs =>
      let '(s, over) := cs_frame iter f s in
      if over : bool then (s, true) else cs_frames iter fs s
  end.

(** One round of the loop; a line arrives only when one is wanted. *)
Definition cs_round (iter : list string -> list string) (ev : cs_event) (s : cs_state)
    : cs_state * list frame * bool :=
  let s := cs_want s in
  match ev with
  | GotLine data how => if cs_reading s then cs_line data how s else (s, [], false)
  | GotFrames fs => let '(s, over) := cs_frames iter fs s in (s, [], over)
  end.
Fixpoint cs_run (iter : list string -> list string) (evs : list cs_event) (s : cs_state)
    (sent : list frame) : cs_state * list frame * bool :=
  match evs with
  | [] => (s, sent, false)
  | ev :: evs =>
      let '(s, out, over) := cs_round iter ev s in
      if over : bool then (s, sent ++ out, true) else cs_run iter evs s (sent ++ out)
  end.

(** The credit the instance granted in these events. *)
Definition frame_credit (f : frame) : Z :=
  if String.eqb (f_kind f) "stream.window" then credit_of f else 0.
Definition frames_of (evs : list cs_event) : list frame :=
  concat ((fun ev => match ev with GotFrames fs => fs | GotLine _ _ => [] end) <$> evs).
Definition window_credit (evs : list cs_event) : Z := sum_with frame_credit (frames_of evs).
Definition is_item (f : frame) : bool := String.eqb (f_kind f) "stream.item".
Definition is_end (f : frame) : bool := String.eqb (f_kind f) "stream.end".
Definition items (fs : list frame) : list frame := filter (fun f => is_item f = true) fs.

(** ** Server streams *)

Lemma ss_step_credit iter f s s' out over : 0 <= ss_written s ->
  ss_step iter f s = (s', out, over) ->
  ss_written s <= ss_written s' /\
  granted out = 64 * (ss_written s' / 64) - 64 * (ss_written s / 64).
Proof.
  intros Hw. unfold ss_step.
  assert (forall t x, ss_written (ss_line t x) = ss_written x) as Hl by done.
  destruct (String.eqb _ "stream.item").
  - intros [= <- <- <-]. cbn [ss_written ss_line]. rewrite ?Hl. split; [simpl; lia|].
    change (Z.quot streamCredit 2) with 64. rewrite Z.rem_mod_nonneg by lia.
    destruct ((1 + ss_written s) mod 64 =? 0) eqn:E; unbool; simpl;
      pose proof (Z.div_mod (1 + ss_written s) 64 ltac:(lia));
      pose proof (Z.div_mod (ss_written s) 64 ltac:(lia));
      pose proof (Z.mod_pos_bound (ss_written s) 64 ltac:(lia));
      pose proof (Z.mod_pos_bound (1 + ss_written s) 64 ltac:(lia)); unfold credit_of; simpl; lia.
  - destruct (String.eqb _ "stream.end"); [intros [= <- <- <-]; simpl; lia|].
    destruct (String.eqb _ "call.result"); [intros [= <- <- <-]; rewrite Hl; simpl; lia|].
    destruct (String.eqb _ "call.error"); [|intros [= <- <- <-]; simpl; lia].
    destruct (negb _); intros [= <- <- <-]; rewrite ?Hl; simpl; lia.
Qed.

Lemma granted_app l k : granted (l ++ k) = granted l + granted k.
Proof. apply sum_with_app. Qed.

Lemma ss_run_credit iter fs s sent : 0 <= ss_written s ->
  let '(s', sent', _) := ss_run iter fs s sent in
  0 <= ss_written s' /\
  granted sent' = granted sent + 64 * (ss_written s' / 64) - 64 * (ss_written s / 64).
Proof.
  revert s sent. induction fs as [|f fs IH]; intros s sent Hw; cbn [ss_run]; [lia|].
  destruct (ss_step iter f s) as [[s1 out] over] eqn:E.
  destruct (ss_step_credit _ _ _ _ _ _ Hw E) as [H1 H2].
  destruct over; [rewrite granted_app; lia|].
  specialize (IH s1 (sent ++ out) ltac:(lia)). destruct (ss_run iter fs s1 (sent ++ out)) as [[s' sent'] b].
  rewrite granted_app in IH. lia.
Qed.

(** At every moment of an HTTP server stream the instance may
    send between 65 and 128 more items than were written to the response: the
    credit never runs out while the caller reads, and never exceeds the window. *)
Theorem server_stream_credit iter w fs :
  let '(s0, first) := ss_open w in
  let '(s, sent, _) := ss_run iter fs s0 first in
  streamCredit / 2 < granted sent - ss_written s <= streamCredit.
Proof.
  unfold ss_open. pose proof (ss_run_credit iter fs (MkSS false 0 w) [window_frame streamCredit]) as Hr.
  destruct (ss_run _ _ _ _) as [[s sent] b]. simpl in Hr. destruct Hr as [H1 H2]; [lia|].
  change (streamCredit / 2) with 64. unfold streamCredit in *. unfold credit_of in H2. simpl in H2.
  pose proof (Z.div_mod (ss_written s) 64 ltac:(lia)).
  pose proof (Z.mod_pos_bound (ss_written s) 64 ltac:(lia)).
  change (0 / 64) with 0 in H2. lia.
Qed.

(** ** Client streams *)

(** The credit discipline, over the frames sent so far; [g] was granted. *)
Record cs_ok (g : Z) (s : cs_state) (sent : list frame) : Prop := {
  ck_credit : cs_credit s = g - Z.of_nat (length (items sent));
  ck_nonneg : 0 <= cs_credit s;
  ck_reading : cs_reading s = true -> 0 < cs_credit s /\ cs_ended s = false;
  ck_sequence : f_sequence <$> items sent = (fun i => Some (Z.of_nat i)) <$> seq 0 (length (items sent));
  ck_next : cs_sequence s = Z.of_nat (length (items sent));
  ck_end : exists pre, sent = pre ++ (if cs_ended s then [end_frame] else []) /\
    Forall (fun f => is_end f = false) pre }.

Lemma items_app l k : items (l ++ k) = items l ++ items k.
Proof. apply filter_app. Qed.

(** A frame that is neither an item nor an end, and no frame at all. *)
Lemma cs_ok_quiet g s s' sent out : cs_ok g s sent ->
  items out = [] -> Forall (fun f => is_end f = false) out -> (out <> [] -> cs_ended s = false) ->
  cs_credit s' = cs_credit s -> cs_sequence s' = cs_sequence s -> cs_ended s' = cs_ended s ->
  (cs_reading s' = true -> 0 < cs_credit s /\ cs_ended s = false) -> cs_ok g s' (sent ++ out).
Proof.
  intros [K1 K2 K3 K4 K5 (pre & K6 & K7)] Hi He Hx H1 H2 H3 H4.
  split; rewrite ?items_app, ?Hi, ?app_nil_r, ?H1, ?H2, ?H3; try done.
  destruct out as [|f out]; [exists pre; by rewrite app_nil_r|].
  rewrite (Hx ltac:(done)) in *. exists (pre ++ f :: out). rewrite K6, !app_nil_r.
  split; [done|]. by apply Forall_app.
Qed.

Lemma cs_want_ok g s sent : cs_ok g s sent -> cs_ok g (cs_want s) sent.
Proof.
  intros H. unfold cs_want. destruct (_ && _) eqn:E; [|done]. unbool.
  rewrite <- (app_nil_r sent). by apply (cs_ok_quiet g s).
Qed.

(** An item goes out. *)
Lemma cs_item_ok g s sent data : cs_ok g s sent -> cs_reading s = true ->
  cs_ok g (s {{ cs_reading := false; cs_sequence ::= Z.add 1; cs_credit ::= Z.add (-1) }})
    (sent ++ [item_frame (cs_sequence s) data]).
Proof.
  intros [K1 K2 K3 K4 K5 (pre & K6 & K7)] Hr. destruct (K3 Hr) as [Hc He].
  assert (items [item_frame (cs_sequence s) data] = [item_frame (cs_sequence s) data]) as Hi by done.
  split; rewrite ?items_app, ?Hi, ?length_app; cbn [length cs_credit cs_sequence cs_reading cs_ended]; try lia; try done.
  - simpl. lia.
  - simpl. lia.
  - rewrite fmap_app, K4, seq_app, fmap_app. simpl. by rewrite K5.
  - simpl. lia.
  - simpl. rewrite He in *. exists (pre ++ [item_frame (cs_sequence s) data]). rewrite K6, !app_nil_r.
    split; [done|]. apply Forall_app. split; [done|]. by constructor.
Qed.

(** The end goes out. *)
Lemma cs_end_ok g s sent : cs_ok g s sent -> cs_ended s = false -> cs_reading s = false ->
  cs_ok g (s {{ cs_ended := true }}) (sent ++ [end_frame]).
Proof.
  intros [K1 K2 K3 K4 K5 (pre & K6 & K7)] He Hr.
  split; rewrite ?items_app; cbn [length cs_credit cs_sequence cs_reading cs_ended]; try done;
    try (change (items [end_frame]) with (@nil frame); by rewrite app_nil_r).
  - simpl. by rewrite Hr.
  - exists pre. rewrite He, app_nil_r in K6. by rewrite K6.
Qed.

Lemma cs_line_ok g s sent data how : cs_ok g s sent -> cs_reading s = true ->
  let '(s', out, _) := cs_line data how s in cs_ok g s' (sent ++ out).
Proof.
  intros Hk Hr. destruct (ck_reading _ _ _ Hk Hr) as [Hc He]. unfold cs_line.
  set (s0 := s {{ cs_reading := false }}).
  assert (cs_ok g s0 sent) as H0.
  { rewrite <- (app_nil_r sent). by apply (cs_ok_quiet g s). }
  assert (forall m, cs_ok g (s0 {{ cs_w := writeHTTPError (routerHTTPError "invalid_argument" m "http_body") (cs_w s0) }})
    (sent ++ [frame0 {{ f_kind := "call.cancel"; f_reason := "invalid_input" }}])) as Hfail.
  { intros m. by apply (cs_ok_quiet g s0); [done|done|by constructor|..]. }
  destruct (_ && _) eqn:Eb; [by apply cs_end_ok|].
  destruct how as [| |err]; simpl.
  - destruct (negb (Valid data)); [apply Hfail|]. apply (cs_item_ok g s sent data Hk Hr).
  - destruct (negb (Valid data)); [apply Hfail|].
    pose proof (cs_item_ok g s sent data Hk Hr) as Hi. apply cs_end_ok in Hi; [|done|done].
    by rewrite <- app_assoc in Hi.
  - apply Hfail.
Qed.

Lemma cs_frame_ok g s sent iter f : cs_ok g s sent ->
  0 <= frame_credit f -> g + frame_credit f < 2 ^ 63 -> cs_ok (g + frame_credit f) (cs_frame iter f s).1 sent.
Proof.
  intros Hk Hc Hg. unfold cs_frame, frame_credit in *. destruct (String.eqb _ "stream.window").
  - unfold credit_of in *. destruct (f_credit f) as [n|]; simpl in *; [|by rewrite Z.add_0_r].
    destruct Hk as [K1 K2 K3 K4 K5 K6].
    assert (int64 (cs_credit s + n) = cs_credit s + n) as Hi.
    { unfold int64. rewrite Z.mod_small; lia. }
    split; simpl; rewrite ?Hi; try done; try lia. intros Hr. destruct (K3 Hr). split; [lia|done].
  - rewrite Z.add_0_r. destruct (finish_plain iter f (cs_w s)); simpl; [|done].
    destruct Hk. by split.
Qed.

Lemma credit_nonneg fs : Forall (fun f => 0 <= frame_credit f) fs -> 0 <= sum_with frame_credit fs.
Proof. intros H. apply sum_with_nonneg. by rewrite <- Forall_forall. Qed.

Lemma cs_frames_ok g s sent iter fs : cs_ok g s sent ->
  Forall (fun f => 0 <= frame_credit f) fs -> g + sum_with frame_credit fs < 2 ^ 63 ->
  exists g', g <= g' <= g + sum_with frame_credit fs /\ cs_ok g' (cs_frames iter fs s).1 sent.
Proof.
  revert g s. induction fs as [|f fs IH]; intros g s Hk Hpos Hg; cbn [cs_frames].
  - exists g. simpl. split; [lia|done].
  - apply Forall_cons in Hpos as [Hf Hpos]. rewrite sum_with_cons in *.
    pose proof (credit_nonneg _ Hpos).
    pose proof (cs_frame_ok g s sent iter f Hk Hf ltac:(lia)) as H1.
    destruct (cs_frame iter f s) as [s1 over]. simpl in H1.
    destruct over; [exists (g + frame_credit f); split; [lia|done]|].
    destruct (IH _ _ H1 Hpos ltac:(lia)) as (g' & Hb & Hk'). exists g'. split; [lia|done].
Qed.

Lemma cs_round_ok g s sent iter ev : cs_ok g s sent ->
  Forall (fun f => 0 <= frame_credit f) (frames_of [ev]) -> g + window_credit [ev] < 2 ^ 63 ->
  let '(s', out, _) := cs_round iter ev s in
  exists g', g <= g' <= g + window_credit [ev] /\ cs_ok g' s' (sent ++ out).
Proof.
  intros Hk Hc Hg. apply cs_want_ok in Hk. unfold cs_round. set (s0 := cs_want s) in *. clearbody s0.
  unfold window_credit, frames_of in *. destruct ev as [data how|fs]; simpl in *.
  - destruct (cs_reading s0) eqn:Hr; [|exists g; rewrite app_nil_r; split; [lia|done]].
    pose proof (cs_line_ok g s0 sent data how Hk Hr) as Hl.
    destruct (cs_line data how s0) as [[s' out] b]. exists g. split; [lia|done].
  - rewrite app_nil_r in *.
    pose proof (cs_frames_ok g s0 sent iter fs Hk Hc Hg) as Hf.
    destruct (cs_frames iter fs s0) as [s' b]. by rewrite app_nil_r in *.
Qed.

Lemma frames_of_cons ev evs : frames_of (ev :: evs) = frames_of [ev] ++ frames_of evs.
Proof. unfold frames_of. simpl. by rewrite app_nil_r. Qed.

Lemma cs_run_ok g iter evs s sent : cs_ok g s sent ->
  Forall (fun f => 0 <= frame_credit f) (frames_of evs) -> g + window_credit evs < 2 ^ 63 ->
  let '(s', sent', _) := cs_run iter evs s sent in
  exists g', g <= g' <= g + window_credit evs /\ cs_ok g' s' sent'.
Proof.
  revert g s sent. induction evs as [|ev evs IH]; intros g s sent Hk Hpos Hg; cbn [cs_run].
  - exists g. unfold window_credit. simpl. split; [lia|done].
  - unfold window_credit in *. rewrite frames_of_cons, sum_with_app in *.
    apply Forall_app in Hpos as [Hev Hpos].
    pose proof (credit_nonneg _ Hpos). pose proof (credit_nonneg _ Hev).
    pose proof (cs_round_ok g s sent iter ev Hk Hev) as Hr. unfold window_credit in Hr.
    destruct (cs_round iter ev s) as [[s1 out] over]. destruct (Hr ltac:(lia)) as (g1 & Hb1 & Hk1).
    destruct over; [exists g1; split; [lia|done]|].
    specialize (IH _ _ _ Hk1 Hpos ltac:(lia)). destruct (cs_run iter evs s1 (sent ++ out)) as [[s' sent'] b].
    destruct IH as (g' & Hb & Hg'). exists g'. split; [lia|done].
Qed.

(** An HTTP client stream never sends an item without credit: it
    sends at most as many items as the instance granted, numbered 0, 1, 2, ...
    without gaps, and at most one stream.end, after which it sends nothing. *)
Theorem client_stream_discipline iter w evs :
  Forall (fun f => 0 <= frame_credit f) (frames_of evs) -> window_credit evs < 2 ^ 63 ->
  let '(s, sent, _) := cs_run iter evs (cs_open w) [] in
  Z.of_nat (length (items sent)) <= window_credit evs /\
  f_sequence <$> items sent = (fun i => Some (Z.of_nat i)) <$> seq 0 (length (items sent)) /\
  exists pre, sent = pre ++ (if cs_ended s then [end_frame] else []) /\
    Forall (fun f => is_end f = false) pre.
Proof.
  intros Hpos Hsum. pose proof (cs_run_ok 0 iter evs (cs_open w) []) as Hr.
  destruct (cs_run iter evs (cs_open w) []) as [[s sent] b].
  destruct Hr as (g & Hg & [K1 K2 K3 K4 K5 K6]); [|done|lia|].
  - split; try done. by exists [].
  - split_and!; [lia|done|done].
Qed.

(** the credit of an HTTP client stream is not the Router's: the
    Router's saturates at the largest int64, the handler's wraps around, so after two
    windows whose sum exceeds it the handler holds a negative credit and asks its
    reader for nothing more, although the Router would still forward. *)
Theorem client_credit_wraps iter w :
  let window c := frame0 {{ f_kind := "stream.window"; f_direction := "client"; f_credit := Some c }} in
  let '(s, _, _) := cs_run iter [GotFrames [window MaxInt64; window 1]] (cs_open w) [] in
  cs_credit s = MinInt64 /\ cs_reading (cs_want s) = false /\ grant (grant 0 MaxInt64) 1 = MaxInt64.
Proof. vm_compute. done. Qed.

(** ** Witnesses *)

Lemma client_stream_discipline_witness :
  let window c := frame0 {{ f_kind := "stream.window"; f_direction := "client"; f_credit := Some c }} in
  let evs := [GotFrames [window 2]; GotLine "1" LineOk; GotLine "2" LineOk; GotLine "3" LineOk] in
  let '(_, sent, _) := cs_run (fun l => l) evs (cs_open response0) [] in
  length (items sent) = 2%nat /\ Z.of_nat (length (items sent)) <= window_credit evs.
Proof.
  intros window evs.
  assert (Forall (fun f => 0 <= frame_credit f) (frames_of evs)) as Hpos
    by (vm_compute; repeat constructor; discriminate).
  assert (window_credit evs < 2 ^ 63) as Hsum by (vm_compute; reflexivity).
  pose proof (client_stream_discipline (fun l => l) response0 evs Hpos Hsum) as Hd.
  assert (length (items (cs_run (fun l => l) evs (cs_open response0) []).1.2) = 2%nat) as Hl
    by (vm_compute; reflexivity).
  destruct (cs_run (fun l => l) evs (cs_open response0) []) as [[s sent] b].
  split; [exact Hl|apply Hd].
Defined.
