(* ===== verification/Calls.v ===== *)
(** * The accounting of calls

    [calls_ok] is the invariant behind the counters of router.go, deadline.go
    and dedup.go: an instance's [inflight] is the number of its routes, a
    client's [calls] is its routes plus its joined calls, every tracked
    deadline belongs to a live route, and the deduplication table and its
    eviction order agree.  Each operation that opens, ends or joins a call
    preserves it. *)
From S2P Require Import Prelude GoStd GoHeap Protocol Breaker Libs Auth State Deadline Dedup.
From S2P Require Import Balance Management Router.
#[local] Open Scope Z_scope.

Definition one (b : bool) : Z := if b then 1 else 0.

(** How many live routes have [p] as their client (instance). *)
Definition routes_by (g : route -> nat) (r : Router) (p : nat) : Z :=
  sum_with (fun kv => one (g (r_rstore r kv.2) =? p)%nat) (map_to_list (r_routes r)).

Definition waits (ws : list (nat * string)) (p : nat) : Z :=
  sum_with (fun w => one (w.1 =? p)%nat) ws.
(** How many joined calls [p] has. *)
Definition waiting (r : Router) (p : nat) : Z :=
  sum_with (fun d => waits (d_waiters (r_dstore r d)) p) (r_dedupOrder r).

Record entry_ok (r : Router) (d : nat) : Prop := {
  en_next : (d < r_next r)%nat;
  en_element : d_element (r_dstore r d) = true;
  en_key : r_dedup r !! d_key (r_dstore r d) = Some d;
  en_settled : d_route (r_dstore r d) = None -> d_waiters (r_dstore r d) = [] }.

(** [X] are routes about to end, whose entry may already be settled. *)
Record calls_ok_but (X : nat -> Prop) (r : Router) : Prop := {
  co_route id rt : r_routes r !! id = Some rt ->
    rt_id (r_rstore r rt) = id /\ (rt < r_next r)%nat;
  co_inflight p : p_inflight (peerOf r p) = routes_by rt_instance r p;
  co_calls p : p_calls (peerOf r p) = routes_by rt_client r p + waiting r p;
  co_fresh p : (r_next r <= p)%nat -> p_inflight (peerOf r p) = 0 /\ p_calls (peerOf r p) = 0;
  co_deadlines : deadlines_ok r;
  co_tracked rt : rt ∈ r_deadlines r -> r_routes r !! rt_id (r_rstore r rt) = Some rt;
  co_order : NoDup (r_dedupOrder r);
  co_entry d : d ∈ r_dedupOrder r -> entry_ok r d;
  co_key k d : r_dedup r !! k = Some d -> d ∈ r_dedupOrder r /\ d_key (r_dstore r d) = k;
  co_dedup id rt d : r_routes r !! id = Some rt -> ~ X rt ->
    rt_dedup (r_rstore r rt) = Some d -> d ∈ r_dedupOrder r /\ d_route (r_dstore r d) = Some rt }.
Abbreviation calls_ok := (calls_ok_but (fun _ => False)).

(** Two Routers with the same calls. *)
Definition rt_core (x : route) : route := x {{ rt_clientCredit := 0; rt_serverCredit := 0 }}.

Record calls_same (r r' : Router) : Prop := {
  cs_routes : r_routes r' = r_routes r;
  cs_deadlines : r_deadlines r' = r_deadlines r;
  cs_dedup : r_dedup r' = r_dedup r;
  cs_order : r_dedupOrder r' = r_dedupOrder r;
  cs_dstore : r_dstore r' = r_dstore r;
  cs_next : r_next r' = r_next r;
  cs_route p : rt_core (r_rstore r' p) = rt_core (r_rstore r p);
  cs_inflight p : p_inflight (peerOf r' p) = p_inflight (peerOf r p);
  cs_calls p : p_calls (peerOf r' p) = p_calls (peerOf r p) }.

(** ** Lemmas *)

#[global] Instance calls_same_preorder : PreOrder calls_same.
Proof.
  split; [by intros r; split|].
  intros x y z [] []. split; intros; etrans; eauto.
Qed.

Lemma rt_core_field {B} (g : route -> B) x y :
  (forall x, g (rt_core x) = g x) -> rt_core y = rt_core x -> g y = g x.
Proof. intros Hg H. by rewrite <- (Hg y), H, Hg. Qed.

Lemma quiet_calls r r' : quiet r r' -> calls_same r r'.
Proof.
  intros H. split; intros.
  1-6: by apply (quiet_field _ r r').
  - by rewrite (quiet_field r_rstore r r').
  - by apply (quiet_peer_field p_inflight).
  - by apply (quiet_peer_field p_calls).
Qed.

Lemma routes_by_ext g r r' p :
  r_routes r' = r_routes r ->
  (forall id rt, r_routes r !! id = Some rt -> g (r_rstore r' rt) = g (r_rstore r rt)) ->
  routes_by g r' p = routes_by g r p.
Proof.
  intros H1 H2. unfold routes_by. rewrite H1. apply sum_with_ext.
  intros [id rt] Hin%elem_of_map_to_list. simpl. by rewrite (H2 _ _ Hin).
Qed.

Lemma calls_ok_same X r r' : calls_same r r' -> calls_ok_but X r -> calls_ok_but X r'.
Proof.
  intros [Hro Hdl Hde Hor Hds Hn Hrt Hin Hca] H.
  assert (forall B (g : route -> B), (forall x, g (rt_core x) = g x) ->
            forall p, g (r_rstore r' p) = g (r_rstore r p)) as Hf.
  { intros B g Hg p. by apply rt_core_field. }
  split; intros *.
  - rewrite Hro, Hn, (Hf _ rt_id) by done. apply H.
  - rewrite Hin, (co_inflight _ r H). symmetry. apply routes_by_ext; [done|]. intros.
    by apply (Hf _ rt_instance).
  - rewrite Hca, (co_calls _ r H). f_equal.
    + symmetry. apply routes_by_ext; [done|]. intros. by apply (Hf _ rt_client).
    + unfold waiting. by rewrite Hor, Hds.
  - rewrite Hn, Hin, Hca. apply H.
  - apply (deadlines_ok_ext r); [done| | |apply H]; intros;
      [by apply (Hf _ rt_index)|by apply (Hf _ rt_deadline)].
  - rewrite Hdl, Hro, (Hf _ rt_id) by done. apply H.
  - rewrite Hor. apply H.
  - rewrite Hor. intros [? ? ? ?]%(co_entry _ r H). split; by rewrite ?Hn, ?Hds, ?Hde.
  - rewrite Hde, Hor, Hds. apply H.
  - rewrite Hro, Hor, Hds, (Hf _ rt_dedup) by done. apply H.
Qed.

Lemma calls_ok_quiet X r r' : quiet r r' -> calls_ok_but X r -> calls_ok_but X r'.
Proof. intros. by eapply calls_ok_same; [apply quiet_calls|]. Qed.

Lemma calls_ok_weaken (X Y : nat -> Prop) r :
  (forall rt, X rt -> Y rt) -> calls_ok_but X r -> calls_ok_but Y r.
Proof. intros HXY [? ? ? ? ? ? ? ? ? H]. split; try done. intros. eapply H; eauto. Qed.

(** The counters of an address nobody was given are zero. *)
Lemma routes_by_nonneg g r p : 0 <= routes_by g r p.
Proof. apply sum_with_nonneg. intros [] _. unfold one. case_match; lia. Qed.
Lemma waits_nonneg ws p : 0 <= waits ws p.
Proof. apply sum_with_nonneg. intros [] _. unfold one. case_match; lia. Qed.
Lemma waits_snoc ws w p : waits (ws ++ [w]) p = waits ws p + one (w.1 =? p)%nat.
Proof. unfold waits. rewrite sum_with_app, sum_with_cons. cbn. lia. Qed.
Lemma waiting_nonneg r p : 0 <= waiting r p.
Proof. apply sum_with_nonneg. intros d _. apply waits_nonneg. Qed.

(** ** Ending a call *)

Lemma routes_by_delete g r id rt p :
  r_routes r !! id = Some rt ->
  sum_with (fun kv => one (g (r_rstore r kv.2) =? p)%nat) (map_to_list (delete id (r_routes r)))
  = routes_by g r p - one (g (r_rstore r rt) =? p)%nat.
Proof.
  intros H. unfold routes_by. rewrite <- (sum_with_perm _ _ _ (map_to_list_delete _ _ _ H)).
  simpl. lia.
Qed.

(** [endRoute] up to quiet changes. *)
Definition forget_route (id : string) (rt : nat) (r : Router) : Router :=
  let instance := rt_instance (r_rstore r rt) in
  let client := rt_client (r_rstore r rt) in
  let r := r {{ r_routes ::= delete id }} in
  let r := upd_peer instance (fun x => x {{ p_inflight ::= Z.add (-1) }}) r in
  let r := untrack rt r in
  upd_peer client (fun x => x {{ p_calls ::= Z.add (-1) }}) r.

Lemma endRoute_forget id rt r : calls_same (forget_route id rt r) (endRoute id rt r).
Proof.
  unfold endRoute, callEnded, forget_route.
  set (r1 := upd_peer (rt_client _) _ _). set (q := rt_client _). set (i := rt_instance _).
  assert (calls_same r1 (if r_draining r1 then wake_peer q r1 else r1)) as H1.
  { destruct (r_draining r1); [|done]. apply quiet_calls. eauto with go. }
  set (r2 := if r_draining r1 then _ else _) in *.
  destruct (r_draining r2); [|done].
  etrans; [exact H1|]. etrans; [apply quiet_calls, (wake_peer_quiet i)|]. by case_match.
Qed.

(** Everything but the heap, the routes map and two counters stays. *)
Lemma forget_route_frame id rt r : deadlines_ok r ->
  let r' := forget_route id rt r in
  r_routes r' = delete id (r_routes r) /\ deadlines_ok r' /\
  (rt ∉ r_deadlines r') /\ (forall q, q ∈ r_deadlines r' -> q ∈ r_deadlines r) /\
  r_dedup r' = r_dedup r /\ r_dedupOrder r' = r_dedupOrder r /\ r_dstore r' = r_dstore r /\
  r_next r' = r_next r /\
  (forall q, (r_rstore r' q) = (r_rstore r q) {{ rt_index := rt_index (r_rstore r' q) }}) /\
  (forall q, p_inflight (peerOf r' q) =
     p_inflight (peerOf r q) - one (rt_instance (r_rstore r rt) =? q)%nat) /\
  (forall q, p_calls (peerOf r' q) =
     p_calls (peerOf r q) - one (rt_client (r_rstore r rt) =? q)%nat).
Proof.
  intros Hdl r'. subst r'. unfold forget_route.
  set (c := rt_client _). set (i := rt_instance _).
  set (r1 := upd_peer i _ _).
  assert (deadlines_ok r1) as Hdl1 by by apply (deadlines_ok_ext r).
  destruct (untrack_spec rt r1 Hdl1) as (Hok & Hre & Hneg & Hper).
  set (r2 := untrack rt r1) in *.
  assert (rt ∉ r_deadlines r2) as Hout.
  { intros [k Hk]%list_elem_of_lookup. apply (ok_index _ Hok) in Hk. lia. }
  split_and!.
  - apply (reindexed_field r_routes r1 r2); done.
  - by apply (deadlines_ok_ext r2).
  - done.
  - intros q Hq. change (q ∈ r_deadlines r2) in Hq. change (q ∈ r_deadlines r1).
    destruct Hper as [Hper|[_ ->]]; [|done]. rewrite Hper. set_solver.
  - by apply (reindexed_field r_dedup r1 r2).
  - by apply (reindexed_field r_dedupOrder r1 r2).
  - by apply (reindexed_field r_dstore r1 r2).
  - by apply (reindexed_field r_next r1 r2).
  - intros q. apply (re_route r1 r2 Hre).
  - intros q. transitivity (p_inflight (peerOf r2 q)).
    { by apply (update_field p_inflight). }
    unfold peerOf. rewrite (reindexed_field r_pstore r1 r2) by done.
    unfold r1, upd_peer, update. simpl. unfold one.
    repeat case_decide; repeat case_match; subst; simpl; rewrite ?Nat.eqb_eq, ?Nat.eqb_neq in *; lia.
  - intros q. unfold peerOf, upd_peer. simpl.
    rewrite (reindexed_field r_pstore r1 r2) by done. unfold r1, upd_peer, update. simpl. unfold one.
    repeat case_decide; repeat case_match; subst; simpl; rewrite ?Nat.eqb_eq, ?Nat.eqb_neq in *; lia.
Qed.

Lemma forget_route_ok X id rt r :
  calls_ok_but X r -> r_routes r !! id = Some rt ->
  calls_ok_but (fun q => X q /\ q <> rt) (forget_route id rt r).
Proof.
  intros H Hid. destruct (forget_route_frame id rt r (co_deadlines _ _ H))
    as (Hro & Hdl & Hout & Hsub & Hde & Hor & Hds & Hn & Hrt & Hin & Hca).
  set (r' := forget_route id rt r) in *.
  assert (forall B (g : route -> B), (forall x i, g (x {{ rt_index := i }}) = g x) ->
            forall q, g (r_rstore r' q) = g (r_rstore r q)) as Hf.
  { intros B g Hg q. by rewrite Hrt. }
  assert (forall g q, (forall x i, g (x {{ rt_index := i }}) = g x) ->
    routes_by g r' q = routes_by g r q - one (g (r_rstore r rt) =? q)%nat) as Hby.
  { intros g q Hg. rewrite <- (routes_by_delete g r id rt q Hid), <- Hro. unfold routes_by.
    apply sum_with_ext. intros kv _. by rewrite (Hf _ g). }
  split; intros *.
  - rewrite Hro, Hn, (Hf _ rt_id) by done. intros [_ ?]%lookup_delete_Some. by apply H.
  - by rewrite Hin, (co_inflight _ _ H), Hby.
  - rewrite Hca, (co_calls _ _ H), Hby by done. unfold waiting. rewrite Hor, Hds. lia.
  - rewrite Hn, Hin, Hca. intros Hp. destruct (co_fresh _ _ H _ Hp) as [Hi0 Hc0].
    pose proof (Hby rt_instance p ltac:(done)). pose proof (Hby rt_client p ltac:(done)).
    pose proof (co_inflight _ _ H p). pose proof (co_calls _ _ H p).
    pose proof (routes_by_nonneg rt_instance r' p). pose proof (routes_by_nonneg rt_client r' p).
    pose proof (waiting_nonneg r p). unfold one in *. repeat case_match; lia.
  - done.
  - intros Hq. rewrite Hro, (Hf _ rt_id) by done.
    pose proof (co_tracked _ _ H _ (Hsub _ Hq)) as Ht.
    rewrite lookup_delete_ne; [done|]. intros Hx. rewrite <- Hx, Hid in Ht. by simplify_eq.
  - rewrite Hor. apply H.
  - rewrite Hor. intros [? ? ? ?]%(co_entry _ _ H). split; by rewrite ?Hn, ?Hds, ?Hde.
  - rewrite Hde, Hor, Hds. apply H.
  - rewrite Hro, Hor, Hds, (Hf _ rt_dedup) by done. intros [Hne Hl]%lookup_delete_Some HX.
    apply (co_dedup _ _ H id0); [done|]. intros Hx. apply HX. split; [done|].
    intros ->. destruct (co_route _ _ H _ _ Hl). destruct (co_route _ _ H _ _ Hid). congruence.
Qed.

Lemma endRoute_ok X id rt r :
  calls_ok_but X r -> r_routes r !! id = Some rt ->
  calls_ok_but (fun q => X q /\ q <> rt) (endRoute id rt r).
Proof.
  intros H Hid. eapply calls_ok_same; [apply endRoute_forget|]. by apply forget_route_ok.
Qed.

(** Ending the only route that may already be settled. *)
Lemma endRoute_ok_last id rt r :
  calls_ok_but (fun q => q = rt) r -> r_routes r !! id = Some rt -> calls_ok (endRoute id rt r).
Proof.
  intros H Hid. eapply calls_ok_weaken; [|by apply endRoute_ok]. simpl. tauto.
Qed.

Lemma endRoute_ok_plain id rt r :
  calls_ok r -> r_routes r !! id = Some rt -> calls_ok (endRoute id rt r).
Proof.
  intros H Hid. eapply calls_ok_weaken; [|by apply endRoute_ok]. by intros ? [[] _].
Qed.

(** ** Answering joined calls *)

(** Quiet but for the clients' call counters, which drop by [delta]. *)
Record shifted (delta : nat -> Z) (r r' : Router) : Prop := {
  sh_rest : r' = r {{ r_pstore := r_pstore r'; r_metrics := r_metrics r' }};
  sh_inflight q : p_inflight (peerOf r' q) = p_inflight (peerOf r q);
  sh_calls q : p_calls (peerOf r' q) = p_calls (peerOf r q) - delta q;
  sh_reg q : core ((peerOf r' q) {{ p_calls := 0 }}) = core ((peerOf r q) {{ p_calls := 0 }}) }.

Lemma shifted_quiet r r' : quiet r r' -> shifted (fun _ => 0) r r'.
Proof.
  intros H. split; intros; [apply H| | |].
  - by apply (quiet_peer_field p_inflight).
  - rewrite (quiet_peer_field p_calls r r'); [lia|done|done].
  - by apply (quiet_peer_field (fun x => core (x {{ p_calls := 0 }}))).
Qed.

Lemma shifted_trans d1 d2 d r1 r2 r3 :
  (forall q, d q = d1 q + d2 q) -> shifted d1 r1 r2 -> shifted d2 r2 r3 -> shifted d r1 r3.
Proof.
  intros Hd [H1 H2 H3 H4] [H5 H6 H7 H8]. split.
  - rewrite H5, H1. done.
  - intros. by rewrite H6.
  - intros. rewrite H7, H3, Hd. lia.
  - intros. by rewrite H8.
Qed.

Lemma callEnded_shifted c r : shifted (fun q => one (c =? q)%nat) r (callEnded c r).
Proof.
  unfold callEnded. set (r1 := upd_peer c _ r).
  apply (shifted_trans (fun q => one (c =? q)%nat) (fun _ => 0) _ r r1); [intros; lia| |].
  - split; [done|..]; intros q; unfold r1.
    + by apply (update_field p_inflight).
    + unfold peerOf, upd_peer, update, one. simpl. repeat case_decide; repeat case_match; subst; simpl;
        rewrite ?Nat.eqb_eq, ?Nat.eqb_neq in *; lia.
    + apply (update_field (fun x => core (x {{ p_calls := 0 }}))). done.
  - apply shifted_quiet. destruct (r_draining r1); [apply wake_peer_quiet|done].
Qed.

Lemma answer_waiters_shifted f ws r : shifted (waits ws) r (answer_waiters f ws r).
Proof.
  revert r. induction ws as [|[c id] ws IH]; intros r; cbn [answer_waiters].
  - by apply shifted_quiet.
  - eapply (shifted_trans (fun q => one (c =? q)%nat)); [|clear IH|apply IH].
    + intros. done.
    + eapply (shifted_trans (fun _ => 0) (fun q => one (c =? q)%nat));
        [|apply shifted_quiet, send_quiet|apply callEnded_shifted]. intros. lia.
Qed.

Lemma shifted_field {B} (g : Router -> B) d r r' :
  (forall x ps m, g (x {{ r_pstore := ps; r_metrics := m }}) = g x) ->
  shifted d r r' -> g r' = g r.
Proof. intros Hg [-> _ _ _]. apply Hg. Qed.

(** ** Settling an entry *)

(** What [dedupSettle] and [dedupFail] do to entry [d]. *)
Record settled (d : nat) (r r' : Router) : Prop := {
  se_shift : shifted (waits (d_waiters (r_dstore r d))) r (r' {{ r_dstore := r_dstore r }});
  se_other d' : d' <> d -> r_dstore r' d' = r_dstore r d';
  se_key : d_key (r_dstore r' d) = d_key (r_dstore r d);
  se_element : d_element (r_dstore r' d) = d_element (r_dstore r d);
  se_route : d_route (r_dstore r' d) = None;
  se_waiters : d_waiters (r_dstore r' d) = [] }.

Lemma dedupSettle_settled d f now r : settled d r (dedupSettle d f now r).
Proof.
  unfold dedupSettle. set (r1 := upd_dedup d _ r).
  set (ws := d_waiters (entryOf r1 d)). set (r2 := answer_waiters _ ws r1).
  assert (shifted (waits ws) r1 r2) as Hs by apply answer_waiters_shifted.
  assert (ws = d_waiters (r_dstore r d)) as Hws.
  { unfold ws, entryOf, r1, upd_dedup. simpl. by apply (update_field d_waiters). }
  assert (forall d', r_dstore (upd_dedup d (fun x => x {{ d_waiters := [] }}) r2) d' =
                     update d (fun x => x {{ d_waiters := [] }}) (r_dstore r1) d') as Hd.
  { intros. unfold upd_dedup. simpl. by rewrite (shifted_field r_dstore (waits ws) r1 r2). }
  unfold upd_dedup in Hd. split.
  - rewrite <- Hws. destruct Hs as [H1 H2 H3 H4]. split; try done. simpl. rewrite H1. simpl. by destruct r.
  - intros. rewrite Hd. unfold r1, upd_dedup. simpl. by rewrite !update_ne.
  - rewrite Hd, update_eq. unfold r1, upd_dedup. simpl. by rewrite update_eq.
  - rewrite Hd, update_eq. unfold r1, upd_dedup. simpl. by rewrite update_eq.
  - rewrite Hd, update_eq. unfold r1, upd_dedup. simpl. by rewrite update_eq.
  - by rewrite Hd, update_eq.
Qed.

Lemma dedupFail_settled d err lost now r : settled d r (dedupFail d err lost now r).
Proof.
  unfold dedupFail, entryOf. set (ws := d_waiters _). set (r2 := answer_waiters _ ws r).
  assert (shifted (waits ws) r r2) as Hs by apply answer_waiters_shifted.
  unfold upd_dedup. split; simpl; rewrite ?(shifted_field r_dstore (waits ws) r r2), ?update_eq by done;
    try done.
  - destruct Hs as [H1 H2 H3 H4]. split; try done. simpl. rewrite H1. simpl. by destruct r.
  - intros. by rewrite update_ne.
Qed.

Lemma settled_field {B} (g : Router -> B) d r r' :
  (forall x ps m ds, g (x {{ r_pstore := ps; r_metrics := m; r_dstore := ds }}) = g x) ->
  settled d r r' -> g r' = g r.
Proof.
  intros Hg [[H _ _ _] _ _ _ _ _]. destruct r, r'. simpl in *.
  injection H. intros. subst. apply (Hg (MkRouter _ _ _ _ _ _ _ _ _ _ _ _ _ _ _ _ _ _ _ _ _ _ _ _)).
Qed.

Lemma sum_with_split_at {A} (f g : A -> Z) (x : A) (l : list A) :
  NoDup l -> x ∈ l -> (forall y, y ∈ l -> y <> x -> f y = g y) ->
  sum_with f l = sum_with g l + f x - g x.
Proof.
  induction 1 as [|y l Hy Hl IH]; intros Hx Hfg; [set_solver|]. simpl.
  apply elem_of_cons in Hx as [->|Hx].
  - rewrite (sum_with_ext f g l); [lia|]. intros z Hz. apply Hfg; [set_solver|]. by intros ->.
  - rewrite IH; [|done|intros; apply Hfg; set_solver].
    rewrite (Hfg y); [lia|set_solver|]. by intros ->.
Qed.

Lemma waiting_settled d r r' q : calls_ok_but (fun _ => True) r -> d ∈ r_dedupOrder r ->
  settled d r r' -> waiting r' q = waiting r q - waits (d_waiters (r_dstore r d)) q.
Proof.
  intros H Hd Hs. unfold waiting. rewrite (settled_field r_dedupOrder d r r') by done.
  rewrite (sum_with_split_at _ (fun d => waits (d_waiters (r_dstore r d)) q) d).
  - rewrite (se_waiters _ _ _ Hs). simpl. lia.
  - apply H.
  - done.
  - intros y _ Hy. by rewrite (se_other _ _ _ Hs).
Qed.

(** Settling the entry a live route owns. *)
Lemma settled_ok d rt r r' :
  calls_ok r -> d ∈ r_dedupOrder r -> d_route (r_dstore r d) = Some rt -> settled d r r' ->
  calls_ok_but (fun q => q = rt) r'.
Proof.
  intros H Hd Hrt Hs. pose proof (calls_ok_weaken _ (fun _ => True) _ ltac:(done) H) as HT.
  assert (forall {B} (g : Router -> B),
    (forall x ps m ds, g (x {{ r_pstore := ps; r_metrics := m; r_dstore := ds }}) = g x) ->
    g r' = g r) as Hf by (intros; by eapply settled_field).
  pose proof (waiting_settled d r r') as Hw.
  pose proof (sh_inflight _ _ _ (se_shift _ _ _ Hs)) as Hin.
  pose proof (sh_calls _ _ _ (se_shift _ _ _ Hs)) as Hca.
  assert (forall g q, routes_by g r' q = routes_by g r q) as Hby.
  { intros. apply routes_by_ext; [by apply Hf|]. intros. by rewrite (Hf _ r_rstore). }
  unfold peerOf in *. simpl in Hin, Hca.
  split; intros *; unfold peerOf.
  - rewrite (Hf _ r_routes), (Hf _ r_rstore), (Hf _ r_next) by done. apply H.
  - rewrite Hin, Hby. apply H.
  - rewrite Hca, Hby, Hw by done. pose proof (co_calls _ _ H p). unfold peerOf in *. lia.
  - rewrite (Hf _ r_next) by done. intros Hp. rewrite Hin, Hca.
    destruct (co_fresh _ _ H p Hp) as [H0 H1]. pose proof (co_calls _ _ H p) as H2.
    pose proof (routes_by_nonneg rt_client r p). pose proof (waiting_nonneg r' p).
    rewrite Hw in * by done. pose proof (waits_nonneg (d_waiters (r_dstore r d)) p).
    unfold peerOf in *. lia.
  - apply (deadlines_ok_ext r); intros; try apply H; [by apply Hf|..];
      unfold deadlineOf; by rewrite (Hf _ r_rstore).
  - rewrite (Hf _ r_deadlines), (Hf _ r_routes), (Hf _ r_rstore) by done. apply H.
  - rewrite (Hf _ r_dedupOrder) by done. apply H.
  - rewrite (Hf _ r_dedupOrder) by done. intros [He1 He2 He3 He4]%(co_entry _ _ H).
    destruct (decide (d0 = d)) as [->|Hne].
    + split; rewrite ?(Hf _ r_next), ?(Hf _ r_dedup), ?(se_key _ _ _ Hs), ?(se_element _ _ _ Hs)
        by done; try done. intros _. apply Hs.
    + split; by rewrite ?(Hf _ r_next), ?(Hf _ r_dedup), ?(se_other _ _ _ Hs).
  - rewrite (Hf _ r_dedup), (Hf _ r_dedupOrder) by done. intros [Hk1 Hk2]%(co_key _ _ H).
    split; [done|]. destruct (decide (d0 = d)) as [->|Hne].
    + by rewrite (se_key _ _ _ Hs).
    + by rewrite (se_other _ _ _ Hs).
  - rewrite (Hf _ r_routes), (Hf _ r_rstore), (Hf _ r_dedupOrder) by done. intros Hl Hne Hx.
    destruct (co_dedup _ _ H _ _ _ Hl (fun x => x) Hx) as [Ho Hr]. split; [done|].
    rewrite (se_other _ _ _ Hs); [done|]. intros ->. congruence.
Qed.

Lemma owns_dedup_spec r rt d : owns_dedup r rt = Some d <->
  rt_dedup (r_rstore r rt) = Some d /\ d_route (r_dstore r d) = Some rt.
Proof.
  unfold owns_dedup, entryOf. destruct (rt_dedup _) as [d'|]; [|naive_solver].
  case_bool_decide; naive_solver.
Qed.

Lemma fail_joined_ok id rt err lost now r :
  calls_ok r -> r_routes r !! id = Some rt -> calls_ok_but (fun q => q = rt) (fail_joined rt err lost now r).
Proof.
  intros H Hid. unfold fail_joined. destruct (owns_dedup r rt) as [d|] eqn:E.
  - apply owns_dedup_spec in E as [E1 E2].
    destruct (co_dedup _ _ H _ _ _ Hid (fun x => x) E1) as [Hd _].
    by eapply settled_ok; [..|apply dedupFail_settled].
  - eapply calls_ok_weaken; [|done]. by intros ? [].
Qed.

Lemma fail_joined_field {B} (g : Router -> B) rt err lost now r :
  (forall x ps m ds, g (x {{ r_pstore := ps; r_metrics := m; r_dstore := ds }}) = g x) ->
  g (fail_joined rt err lost now r) = g r.
Proof.
  intros Hg. unfold fail_joined. case_match; [|done].
  by eapply settled_field; [|apply dedupFail_settled].
Qed.

(** A route that ends with an error of the Router: its joined calls fail, some
    frames are queued, and it is forgotten. *)
Lemma end_failed_ok id rt err lost now r r1 r2 :
  calls_ok r -> r_routes r !! id = Some rt ->
  quiet r r1 -> quiet (fail_joined rt err lost now r1) r2 ->
  calls_ok (endRoute id rt r2).
Proof.
  intros H Hid H1 H2.
  assert (r_routes r1 !! id = Some rt) as Hid1 by by rewrite (quiet_field r_routes r r1).
  apply endRoute_ok_last.
  - eapply calls_ok_quiet; [done|]. eapply fail_joined_ok; [|done]. by eapply calls_ok_quiet.
  - rewrite (quiet_field r_routes _ r2) by done. by rewrite (fail_joined_field r_routes).
Qed.

(** ** The table *)

Lemma dedupRemove_ok X d r :
  calls_ok_but X r -> d ∈ r_dedupOrder r -> d_route (r_dstore r d) = None ->
  calls_ok_but X (dedupRemove d r).
Proof.
  intros H Hd Hrt. destruct (co_entry _ _ H d Hd) as [He1 He2 He3 He4].
  unfold dedupRemove, entryOf. rewrite He2.
  set (r' := _ {{ r_dedup ::= _ }}).
  assert (r_dedupOrder r' = filter (fun d' => d' <> d) (r_dedupOrder r)) as Hor by done.
  assert (r_dedup r' = delete (d_key (r_dstore r d)) (r_dedup r)) as Hde.
  { unfold r'. simpl. by rewrite (update_field d_key). }
  assert (forall d', d' <> d -> r_dstore r' d' = r_dstore r d') as Hds.
  { intros. unfold r'. simpl. by rewrite update_ne. }
  assert (forall q, waiting r' q = waiting r q) as Hw.
  { intros q. unfold waiting. rewrite Hor. pose proof (co_order _ _ H) as Hnd.
    clear -Hds He4 Hrt Hnd. specialize (He4 Hrt). induction (r_dedupOrder r) as [|y l IH]; [done|].
    apply NoDup_cons in Hnd as [Hy Hnd]. destruct (decide (y = d)) as [->|Hne].
    - rewrite filter_cons_False by (by intros []). by rewrite sum_with_cons, IH, He4.
    - rewrite filter_cons_True by done. by rewrite !sum_with_cons, IH, Hds. }
  split; intros *.
  - apply H.
  - apply H.
  - rewrite Hw. apply H.
  - apply H.
  - apply (deadlines_ok_ext r); try done. apply H.
  - apply H.
  - rewrite Hor. apply NoDup_filter, H.
  - rewrite Hor, list_elem_of_filter. intros [Hne [E1 E2 E3 E4]%(co_entry _ _ H)].
    split; rewrite ?Hds by done; try done.
    rewrite Hde, lookup_delete_ne; [done|]. congruence.
  - rewrite Hde, Hor, list_elem_of_filter. intros [Hk [Hk1 Hk2]%(co_key _ _ H)]%lookup_delete_Some.
    assert (d0 <> d) by congruence. by rewrite Hds.
  - intros Hl HX Hx. destruct (co_dedup _ _ H _ _ _ Hl HX Hx) as [Ho Hr].
    rewrite Hor, list_elem_of_filter. assert (d0 <> d) by congruence. by rewrite Hds.
Qed.

Lemma dedupRemove_field {B} (g : Router -> B) d r :
  (forall x ds de o, g (x {{ r_dstore := ds; r_dedup := de; r_dedupOrder := o }}) = g x) ->
  g (dedupRemove d r) = g r.
Proof.
  intros Hg. unfold dedupRemove. destruct (d_element _); destruct r; unfold upd_dedup; simpl;
    apply (Hg (MkRouter _ _ _ _ _ _ _ _ _ _ _ _ _ _ _ _ _ _ _ _ _ _ _ _)).
Qed.

Lemma dedup_evict_ok X fuel r : calls_ok_but X r -> calls_ok_but X (dedup_evict fuel r).
Proof.
  revert r. induction fuel as [|fuel IH]; intros r H; [done|]; cbn [dedup_evict].
  destruct (dedupCapacity <=? _)%nat; [|done]. destruct (r_dedupOrder r) as [|d l] eqn:E; [done|].
  destruct (d_route (entryOf r d)) eqn:Er; [done|].
  apply IH, dedupRemove_ok; [done|rewrite E; set_solver|done].
Qed.

Lemma dedup_evict_field {B} (g : Router -> B) fuel r :
  (forall x ds de o, g (x {{ r_dstore := ds; r_dedup := de; r_dedupOrder := o }}) = g x) ->
  g (dedup_evict fuel r) = g r.
Proof.
  intros Hg. revert r. induction fuel as [|fuel IH]; intros r; [done|]; cbn [dedup_evict].
  destruct (dedupCapacity <=? _)%nat; [|done]. destruct (r_dedupOrder r) as [|d l]; [done|].
  destruct (d_route _); [done|]. rewrite IH. by apply dedupRemove_field.
Qed.

Lemma dedup_evict_none fuel r k : r_dedup r !! k = None -> r_dedup (dedup_evict fuel r) !! k = None.
Proof.
  revert r. induction fuel as [|fuel IH]; intros r H; [done|]; cbn [dedup_evict].
  destruct (dedupCapacity <=? _)%nat; [|done]. destruct (r_dedupOrder r) as [|d l]; [done|].
  destruct (d_route _); [done|]. apply IH. unfold dedupRemove. destruct (d_element _); simpl;
    rewrite lookup_delete; case_decide; done.
Qed.

Lemma dedupInsert_ok id rt key r :
  calls_ok r -> r_routes r !! id = Some rt -> r_dedup r !! key = None ->
  calls_ok (dedupInsert key rt r).
Proof.
  intros H0 Hid0 Hkey0. unfold dedupInsert. cbv zeta.
  set (r1 := dedup_evict _ r).
  assert (calls_ok r1) as H by by apply dedup_evict_ok.
  assert (r_routes r1 !! id = Some rt) as Hid by by (unfold r1; rewrite (dedup_evict_field r_routes)).
  assert (r_dedup r1 !! key = None) as Hkey by by apply dedup_evict_none.
  clearbody r1. clear r H0 Hid0 Hkey0. set (d := r_next r1). set (r' := upd_route rt _ _).
  assert (r_dedupOrder r' = r_dedupOrder r1 ++ [d]) as Hor by done.
  assert (r_dedup r' = <[key := d]> (r_dedup r1)) as Hde by done.
  assert (r_next r' = S (r_next r1)) as Hn by done.
  assert (r_dstore r' d = DedupEntry key (Some rt) [] None 0 None true) as Hd by apply update_eq.
  assert (forall d', d' <> d -> r_dstore r' d' = r_dstore r1 d') as Hds by (intros; by apply update_ne).
  assert (forall d', d' ∈ r_dedupOrder r1 -> d' <> d) as Hlt.
  { intros d' Hd'%(co_entry _ _ H). pose proof (en_next _ _ Hd'). unfold d. lia. }
  assert (forall {B} (g : route -> B), (forall x o, g (x {{ rt_dedup := o }}) = g x) ->
    forall q, g (r_rstore r' q) = g (r_rstore r1 q)) as Hf.
  { intros B g Hg q. by apply (update_field g). }
  assert (forall g q, (forall x o, g (x {{ rt_dedup := o }}) = g x) ->
    routes_by g r' q = routes_by g r1 q) as Hby.
  { intros g q Hg. apply routes_by_ext; [done|]. intros. by apply Hf. }
  assert (forall q, waiting r' q = waiting r1 q) as Hw.
  { intros q. unfold waiting. rewrite Hor, sum_with_app, sum_with_cons, Hd.
    rewrite (sum_with_ext _ (fun d => waits (d_waiters (r_dstore r1 d)) q));
      [cbn; lia|intros d' Hd'; by rewrite Hds by auto]. }
  split; intros *.
  - rewrite (Hf _ rt_id), Hn by done. intros [? ?]%(co_route _ _ H). split; [done|lia].
  - rewrite Hby by done. apply H.
  - rewrite Hby, Hw by done. apply H.
  - rewrite Hn. intros. apply (co_fresh _ _ H p). lia.
  - apply (deadlines_ok_ext r1); intros; try apply H; [done|by apply (Hf _ rt_index)|by apply (Hf _ rt_deadline)].
  - rewrite (Hf _ rt_id) by done. apply H.
  - rewrite Hor. apply NoDup_app. split_and!; [apply H| |apply NoDup_singleton].
    intros y Hy%Hlt. set_solver.
  - rewrite Hor. intros [Hin|Hin]%elem_of_app; [|apply list_elem_of_singleton in Hin as ->].
    + pose proof (Hlt _ Hin). destruct (co_entry _ _ H _ Hin). split; rewrite ?Hds, ?Hn by done; try done; [lia|].
      rewrite Hde, lookup_insert_ne; [done|]. congruence.
    + split; rewrite ?Hd, ?Hn, ?Hde; try done; [unfold d; lia|apply lookup_insert_eq].
  - rewrite Hde, Hor. intros [[<- <-]|[Hne [Hk1 Hk2]%(co_key _ _ H)]]%lookup_insert_Some.
    + rewrite Hd. set_solver.
    + rewrite Hds by auto. set_solver.
  - intros Hl _ Hx. destruct (decide (rt0 = rt)) as [->|Hne].
    + assert (d0 = d) as ->.
      { unfold r' in Hx. simpl in Hx. rewrite update_eq in Hx. simpl in Hx. by injection Hx as <-. }
      rewrite Hd, Hor. set_solver.
    + assert (rt_dedup (r_rstore r1 rt0) = Some d0) as Hx1.
      { unfold r' in Hx. simpl in Hx. by rewrite update_ne in Hx. }
      destruct (co_dedup _ _ H _ _ _ Hl (fun x => x) Hx1) as [Ho Hr].
      rewrite Hds, Hor by auto. set_solver.
Qed.

(** ** Joining and opening *)

Definition join_call (p d : nat) (id : string) (r : Router) : Router :=
  r |> upd_dedup d (fun x => x {{ d_waiters := d_waiters x ++ [(p, id)] }})
    |> upd_peer p (fun x => x {{ p_calls ::= Z.add 1 }}).

Lemma bump_calls p q r : p_calls (peerOf (upd_peer p (fun x => x {{ p_calls ::= Z.add 1 }}) r) q)
  = p_calls (peerOf r q) + one (p =? q)%nat.
Proof.
  unfold peerOf, upd_peer, update, one. simpl.
  case_decide; case_match; subst; simpl; rewrite ?Nat.eqb_eq, ?Nat.eqb_neq in *; lia.
Qed.

Lemma bump_inflight p q r :
  p_inflight (peerOf (upd_peer p (fun x => x {{ p_inflight ::= Z.add 1 }}) r) q)
  = p_inflight (peerOf r q) + one (p =? q)%nat.
Proof.
  unfold peerOf, upd_peer, update, one. simpl.
  case_decide; case_match; subst; simpl; rewrite ?Nat.eqb_eq, ?Nat.eqb_neq in *; lia.
Qed.

Lemma join_call_ok p d id rt r :
  calls_ok r -> (p < r_next r)%nat -> d ∈ r_dedupOrder r -> d_route (r_dstore r d) = Some rt ->
  calls_ok (join_call p d id r).
Proof.
  intros H Hp Hd Hrt. set (r' := join_call p d id r).
  assert (forall q, q <> d -> r_dstore r' q = r_dstore r q) as Hds by (intros; by apply update_ne).
  assert (r_dstore r' d = (r_dstore r d) {{ d_waiters := d_waiters (r_dstore r d) ++ [(p, id)] }})
    as Hd' by apply (update_eq d (fun x => x {{ d_waiters := d_waiters x ++ [(p, id)] }})).
  assert (forall q, d_key (r_dstore r' q) = d_key (r_dstore r q)) as Hk by (intros; by apply (update_field d_key)).
  assert (forall q, waiting r' q = waiting r q + one (p =? q)%nat) as Hw.
  { intros q. unfold waiting. change (r_dedupOrder r') with (r_dedupOrder r).
    rewrite (sum_with_split_at _ (fun d => waits (d_waiters (r_dstore r d)) q) d);
      [|apply H|done|intros; by rewrite Hds].
    rewrite Hd'. simpl. rewrite waits_snoc. simpl. lia. }
  assert (forall q, p_calls (peerOf r' q) = p_calls (peerOf r q) + one (p =? q)%nat) as Hca
    by (intros; unfold r', join_call; by rewrite bump_calls).
  assert (forall q, p_inflight (peerOf r' q) = p_inflight (peerOf r q)) as Hin
    by (intros; by apply (update_field p_inflight)).
  split; intros *.
  - apply H.
  - rewrite Hin. apply H.
  - rewrite Hca, Hw, (co_calls _ _ H). unfold routes_by. simpl. lia.
  - intros Hq. rewrite Hca, Hin. destruct (co_fresh _ _ H p0 Hq). split; [done|].
    change (r_next r') with (r_next r) in Hq. unfold one. case_match; rewrite ?Nat.eqb_eq in *; lia.
  - apply (deadlines_ok_ext r); try done. apply H.
  - apply H.
  - apply H.
  - intros [E1 E2 E3 E4]%(co_entry _ _ H). destruct (decide (d0 = d)) as [->|].
    + split; rewrite ?Hd'; try done. simpl. congruence.
    + split; by rewrite ?Hds.
  - rewrite Hk. apply H.
  - intros Hl HX Hx. destruct (co_dedup _ _ H _ _ _ Hl HX Hx) as [Ho Hr]. split; [done|].
    destruct (decide (d0 = d)) as [->|]; [by rewrite Hd'|by rewrite Hds].
Qed.

(** The route of a new call, before its deadline and its entry. *)
Definition insert_route (p instance : nat) (x : route) (r : Router) : Router :=
  let rt := r_next r in
  let r := r {{ r_next ::= S }} in
  let r := upd_route rt (fun _ => x) r in
  let r := r {{ r_routes ::= insert (rt_id x) rt }} in
  let r := upd_peer instance (fun x => x {{ p_inflight ::= Z.add 1 }}) r in
  upd_peer p (fun x => x {{ p_calls ::= Z.add 1 }}) r.

Lemma insert_route_ok p i x r :
  calls_ok r -> (p < r_next r)%nat -> (i < r_next r)%nat ->
  rt_client x = p -> rt_instance x = i -> rt_index x = -1 -> rt_dedup x = None ->
  r_routes r !! rt_id x = None ->
  calls_ok (insert_route p i x r).
Proof.
  intros H Hp Hi Hxc Hxi Hxx Hxd Hid. set (r' := insert_route p i x r). set (rt := r_next r).
  assert (r_rstore r' rt = x) as Hrt by apply update_eq.
  assert (forall q, q <> rt -> r_rstore r' q = r_rstore r q) as Hrs by (intros; by apply update_ne).
  assert (r_routes r' = <[rt_id x := rt]> (r_routes r)) as Hro by done.
  assert (forall id q, r_routes r !! id = Some q -> q <> rt) as Hlt.
  { intros id q [_ ?]%(co_route _ _ H). unfold rt. lia. }
  assert (rt_index (r_rstore r rt) < 0) as Hneg.
  { destruct (decide (rt_index (r_rstore r rt) < 0)) as [|Hge]; [done|exfalso].
    assert (rt ∈ r_deadlines r) as Hin.
    { apply (list_elem_of_lookup_2 _ (Z.to_nat (rt_index (r_rstore r rt)))).
      apply (ok_index r (co_deadlines _ _ H)). lia. }
    apply (co_tracked _ _ H), Hlt in Hin. done. }
  assert (rt ∉ r_deadlines r) as Hnin.
  { intros Hin%(co_tracked _ _ H). by apply Hlt in Hin. }
  assert (forall g q, routes_by g r' q = routes_by g r q + one (g x =? q)%nat) as Hby.
  { intros g q. unfold routes_by. rewrite Hro.
    rewrite (sum_with_perm _ _ _ (map_to_list_insert _ _ _ Hid)), sum_with_cons. cbn [snd]. rewrite Hrt.
    rewrite (sum_with_ext _ (fun kv => one (g (r_rstore r kv.2) =? q)%nat)); [lia|].
    intros [id q'] Hin%elem_of_map_to_list. cbn [snd]. rewrite Hrs; [done|]. by apply Hlt in Hin. }
  assert (forall q, p_calls (peerOf r' q) = p_calls (peerOf r q) + one (p =? q)%nat) as Hca.
  { intros q. unfold r', insert_route. rewrite bump_calls. f_equal. by apply (update_field p_calls). }
  assert (forall q, p_inflight (peerOf r' q) = p_inflight (peerOf r q) + one (i =? q)%nat) as Hin.
  { intros q. etrans; [by apply (update_field p_inflight)|].
    change (p_inflight (peerOf r q)) with (p_inflight (peerOf (r {{ r_next ::= S }}) q)).
    rewrite <- bump_inflight. done. }
  split; intros *.
  - rewrite Hro. intros [[<- <-]|[Hne Hl]]%lookup_insert_Some.
    + rewrite Hrt. split; [done|]. simpl. unfold rt. lia.
    + rewrite Hrs by (by eapply Hlt). destruct (co_route _ _ H _ _ Hl). split; [done|]. simpl. lia.
  - rewrite Hin, Hby, (co_inflight _ _ H), Hxi. done.
  - rewrite Hca, Hby, (co_calls _ _ H), Hxc. unfold waiting. simpl. lia.
  - intros Hq. change (r_next r') with (S (r_next r)) in Hq. rewrite Hca, Hin.
    destruct (co_fresh _ _ H p0 ltac:(lia)). unfold one.
    repeat case_match; rewrite ?Nat.eqb_eq in *; lia.
  - apply (deadlines_ok_ext_neg r); [done| | |apply H].
    + intros q. destruct (decide (q = rt)) as [->|]; [|left; by rewrite Hrs].
      rewrite Hrt. right. split; [lia|done].
    + intros q Hq. unfold deadlineOf. rewrite Hrs; [done|]. by intros ->.
  - change (r_deadlines r') with (r_deadlines r). intros Hq.
    rewrite Hrs by (by intros ->). rewrite Hro, lookup_insert_ne; [by apply H|].
    intros E. pose proof (co_tracked _ _ H _ Hq). congruence.
  - apply H.
  - intros [E1 E2 E3 E4]%(co_entry _ _ H). split; try done. simpl. lia.
  - apply H.
  - rewrite Hro. intros [[<- <-]|[Hne Hl]]%lookup_insert_Some; [rewrite Hrt, Hxd; by intros|].
    rewrite Hrs by (by eapply Hlt). intros HX Hx. exact (co_dedup _ _ H _ _ _ Hl HX Hx).
Qed.

Lemma track_ok id rt timeout now r :
  calls_ok r -> r_routes r !! id = Some rt -> rt_index (r_rstore r rt) < 0 ->
  calls_ok (track rt timeout now r).
Proof.
  intros H Hid Hneg.
  destruct (track_spec rt timeout now r (co_deadlines _ _ H) Hneg) as (Hdl & Hper & _ & Hrt & Hr).
  set (r' := track rt timeout now r) in *.
  assert (forall {B} (g : Router -> B), (forall x rs ds w,
    g (x {{ r_rstore := rs; r_deadlines := ds; r_deadlineWake := w }}) = g x) -> g r' = g r) as Hf
    by (intros B g Hg; rewrite Hr; apply Hg).
  assert (forall {B} (g : route -> B), (forall x t i,
    g (x {{ rt_deadline := t }}) = g x /\ g (x {{ rt_index := i }}) = g x) ->
    forall q, g (r_rstore r' q) = g (r_rstore r q)) as Hg.
  { intros B g Hg q. rewrite Hrt. rewrite (proj2 (Hg _ 0 _)). case_decide; [|done].
    apply (proj1 (Hg _ _ 0)). }
  assert (forall g q, (forall x t i,
    g (x {{ rt_deadline := t }}) = g x /\ g (x {{ rt_index := i }}) = g x) ->
    routes_by g r' q = routes_by g r q) as Hby.
  { intros g q Hx. apply routes_by_ext; [by apply Hf|]. intros. by apply Hg. }
  split; intros *; unfold peerOf; rewrite ?(Hf _ r_routes), ?(Hf _ r_next), ?(Hf _ r_pstore),
    ?(Hf _ r_dedupOrder), ?(Hf _ r_dstore), ?(Hf _ r_dedup) by done.
  - rewrite (Hg _ rt_id) by done. apply H.
  - rewrite Hby by done. apply H.
  - rewrite Hby by done. unfold waiting. rewrite (Hf _ r_dedupOrder), (Hf _ r_dstore) by done. apply H.
  - apply H.
  - done.
  - rewrite (Hg _ rt_id) by done. rewrite Hper.
    intros [->|?]%elem_of_cons; [|by apply H]. by destruct (co_route _ _ H _ _ Hid) as [-> _].
  - apply H.
  - intros [? ? ? ?]%(co_entry _ _ H). split; by rewrite ?(Hf _ r_next), ?(Hf _ r_dstore), ?(Hf _ r_dedup).
  - apply H.
  - rewrite (Hg _ rt_dedup) by done. apply H.
Qed.

Lemma open_route_ok p f stream i now r :
  calls_ok r -> (p < r_next r)%nat -> (i < r_next r)%nat ->
  r_routes r !! f_callID f = None ->
  (keyed_unary f stream = true -> r_dedup r !! dedupKey f = None) ->
  calls_ok (open_route p f stream i now r).
Proof.
  intros H Hp Hi Hid Hkey. unfold open_route. cbv zeta.
  change (upd_peer p _ _) with (insert_route p i (new_route p f i now) r).
  set (r1 := insert_route _ _ _ _). set (rt := r_next r).
  assert (calls_ok r1) as H1 by by apply insert_route_ok.
  assert (r_routes r1 !! f_callID f = Some rt) as Hid1 by apply lookup_insert_eq.
  set (r2 := match f_timeoutMS f with Some ms => _ | None => _ end).
  assert (calls_ok r2 /\ r_routes r2 = r_routes r1 /\ r_dedup r2 = r_dedup r) as (H2 & Hr2 & Hd2).
  { unfold r2. destruct (f_timeoutMS f) as [ms|]; [|done].
    assert (rt_index (r_rstore r1 rt) < 0) as Hneg.
    { unfold r1, insert_route. simpl. rewrite update_eq. simpl. lia. }
    destruct (track_spec rt (timeout_ns ms) now r1 (co_deadlines _ _ H1) Hneg) as (_ & _ & _ & _ & Hr).
    split; [by eapply track_ok|]. rewrite Hr. done. }
  eapply calls_ok_quiet; [apply send_quiet|].
  destruct (keyed_unary f stream); [|done].
  apply (dedupInsert_ok (f_callID f)); [done|by rewrite Hr2|]. rewrite Hd2. auto.
Qed.

(** ** The handlers *)

Lemma upd_route_same rt x r :
  rt_core x = rt_core (r_rstore r rt) -> calls_same r (upd_route rt (fun _ => x) r).
Proof.
  intros Hx. split; try done. intros q. unfold upd_route. simpl. unfold update.
  case_decide; subst; done.
Qed.

Lemma credit_core x f x' ok : credit x f = (x', ok) -> rt_core x' = rt_core x.
Proof. unfold credit. intros. by case_all. Qed.

Lemma flowViolation_ok id rt b now r :
  calls_ok r -> r_routes r !! id = Some rt -> calls_ok (flowViolation rt b now r).
Proof.
  intros H Hid. unfold flowViolation.
  set (r1 := if b then observe_peer _ _ _ _ else r).
  assert (quiet r r1) as Hq by (unfold r1; destruct b; [apply observe_peer_quiet|done]).
  destruct (co_route _ _ H _ _ Hid) as [-> _].
  eapply (end_failed_ok id rt _ None now r r1); [done|done|done|].
  etrans; apply send_quiet.
Qed.

Lemma forward_client_ok p id rt f now r :
  calls_ok r -> r_routes r !! id = Some rt -> f_callID f = id ->
  calls_ok (forward_client p rt f now r).
Proof.
  intros H Hid Hf. unfold forward_client. destruct (credit _ _) as [x ok] eqn:Hx.
  assert (calls_ok (upd_route rt (fun _ => x) r)) as H1.
  { eapply calls_ok_same; [|done]. apply upd_route_same. by eapply credit_core. }
  destruct ok; simpl; [|by eapply flowViolation_ok].
  set (r2 := send _ _ _). assert (quiet (upd_route rt (fun _ => x) r) r2) as Hq by apply send_quiet.
  assert (calls_ok r2) as H2 by by eapply calls_ok_quiet.
  destruct (String.eqb _ _); [|done]. apply endRoute_ok_plain.
  - by eapply calls_ok_quiet; [apply finishRoute_quiet|].
  - rewrite (quiet_field r_routes r2) by eauto with go. rewrite (quiet_field r_routes _ r2) by done.
    by subst.
Qed.

Lemma forward_server_ok p id rt f now r :
  calls_ok r -> r_routes r !! id = Some rt -> f_callID f = id ->
  calls_ok (forward_server p rt f now r).
Proof.
  intros H Hid Hf. unfold forward_server. destruct (credit _ _) as [x ok] eqn:Hx.
  set (r1 := upd_route rt (fun _ => x) r).
  assert (calls_ok r1) as H1.
  { eapply calls_ok_same; [|done]. apply upd_route_same. by eapply credit_core. }
  destruct ok; simpl; [|by eapply flowViolation_ok].
  set (r2 := send _ _ _). assert (quiet r1 r2) as Hq2 by apply send_quiet.
  destruct (_ || _); [|by eapply calls_ok_quiet].
  set (r3 := observe_peer _ _ _ _). assert (quiet r1 r3) as Hq3.
  { etrans; [done|]. apply observe_peer_quiet. }
  assert (calls_ok r3) as H3 by by eapply calls_ok_quiet.
  assert (r_routes r3 !! id = Some rt) as Hid3 by by rewrite (quiet_field r_routes r1).
  assert (r_rstore r3 rt = x) as Hx3.
  { rewrite (quiet_field r_rstore r1) by done. apply (update_eq rt (fun _ => x)). }
  rewrite Hf. apply endRoute_ok_last.
  - eapply calls_ok_quiet; [apply finishRoute_quiet|].
    destruct (rt_dedup x) as [d|] eqn:Hd.
    + rewrite <- Hx3 in Hd. destruct (co_dedup _ _ H3 _ _ _ Hid3 (fun x => x) Hd) as [Ho Hr].
      by eapply settled_ok; [..|apply dedupSettle_settled].
    + eapply calls_ok_weaken; [|done]. by intros ? [].
  - change (r_routes (finishRoute ?a ?b ?c ?d)) with (r_routes d).
    destruct (rt_dedup x) as [d|]; [|done].
    by rewrite (settled_field r_routes d r3) by (try apply dedupSettle_settled; done).
Qed.

Lemma expire_route_ok rt now r : calls_ok r -> calls_ok (expire_route rt now r).
Proof.
  intros H. unfold expire_route. case_bool_decide as Hid; [done|].
  set (x := r_rstore r rt) in *.
  set (r1 := finishRoute _ _ _ (observe_peer _ _ _ _)).
  assert (quiet r r1) by (etrans; [apply observe_peer_quiet|apply finishRoute_quiet]).
  eapply (end_failed_ok (rt_id x) rt (deadlineError (rt_id x)) None now r r1); [done|done|done|].
  etrans; apply send_quiet.
Qed.

Lemma pop_deadline_ok rt r : calls_ok r -> head (r_deadlines r) = Some rt ->
  (pop_deadline r).1 = Some rt /\ calls_ok (pop_deadline r).2 /\
  length (r_deadlines r) = S (length (r_deadlines (pop_deadline r).2)).
Proof.
  intros H Hrt. destruct (pop_deadline_spec rt r (co_deadlines _ _ H) Hrt) as (H1 & Hok & Hre & Hper & Hx).
  set (r' := (pop_deadline r).2) in *. split; [done|]. split; [|by rewrite Hper].
  assert (forall {B} (g : Router -> B), (forall x ds rs,
    g (x {{ r_deadlines := ds; r_rstore := rs }}) = g x) -> g r' = g r) as Hf
    by (intros; by apply reindexed_field).
  assert (forall {B} (g : route -> B), (forall x i, g (x {{ rt_index := i }}) = g x) ->
    forall q, g (r_rstore r' q) = g (r_rstore r q)) as Hg by (intros; by apply reindexed_route).
  assert (forall g q, (forall x i, g (x {{ rt_index := i }}) = g x) ->
    routes_by g r' q = routes_by g r q) as Hby.
  { intros g q Hxx. apply routes_by_ext; [by apply Hf|]. intros. by apply Hg. }
  split; intros *; unfold peerOf; rewrite ?(Hf _ r_routes), ?(Hf _ r_next), ?(Hf _ r_pstore),
    ?(Hf _ r_dedupOrder), ?(Hf _ r_dstore), ?(Hf _ r_dedup) by done.
  - rewrite (Hg _ rt_id) by done. apply H.
  - rewrite Hby by done. apply H.
  - rewrite Hby by done. unfold waiting. rewrite (Hf _ r_dedupOrder), (Hf _ r_dstore) by done. apply H.
  - apply H.
  - done.
  - rewrite (Hg _ rt_id) by done. intros Hin. apply H. rewrite Hper. set_solver.
  - apply H.
  - intros [? ? ? ?]%(co_entry _ _ H). split; by rewrite ?(Hf _ r_next), ?(Hf _ r_dstore), ?(Hf _ r_dedup).
  - apply H.
  - rewrite (Hg _ rt_dedup) by done. apply H.
Qed.

Lemma expire_loop_ok fuel now r : calls_ok r -> calls_ok (expire_loop fuel now r).
Proof.
  revert r. induction fuel as [|fuel IH]; intros r H; [done|]. cbn [expire_loop].
  destruct (due now r) eqn:E; [|done]. unfold due in E.
  destruct (r_deadlines r) as [|rt l] eqn:Hl; [done|].
  destruct (pop_deadline_ok rt r H) as (H1 & H2 & _); [by rewrite Hl|].
  destruct (pop_deadline r) as [o r1]. simpl in *. subst. by apply IH, expire_route_ok.
Qed.

(** [rt.dedup = nil] on a route about to end. *)
Lemma clear_dedup_ok rt r : calls_ok_but (fun q => q = rt) r ->
  calls_ok_but (fun q => q = rt) (upd_route rt (fun x => x {{ rt_dedup := None }}) r).
Proof.
  intros H. set (r' := upd_route _ _ r).
  assert (forall {B} (g : route -> B), (forall x o, g (x {{ rt_dedup := o }}) = g x) ->
    forall q, g (r_rstore r' q) = g (r_rstore r q)) as Hg
    by (intros B g Hg q; by apply (update_field g)).
  split; intros *.
  - rewrite (Hg _ rt_id) by done. apply H.
  - rewrite (routes_by_ext _ r) by (intros; by first [done | apply (Hg _ rt_instance)]). apply H.
  - rewrite (routes_by_ext _ r) by (intros; by first [done | apply (Hg _ rt_client)]). apply H.
  - apply H.
  - apply (deadlines_ok_ext r); [done|..|apply H]; intros;
      [by apply (Hg _ rt_index)|by apply (Hg _ rt_deadline)].
  - rewrite (Hg _ rt_id) by done. apply H.
  - apply H.
  - intros [? ? ? ?]%(co_entry _ _ H). by split.
  - apply H.
  - intros Hl Hne Hx. apply (co_dedup _ _ H _ _ _ Hl Hne). rewrite <- Hx.
    unfold r', upd_route. simpl. by rewrite update_ne.
Qed.

Lemma remove_route_ok p now id r : calls_ok r -> calls_ok (remove_route p now id r).
Proof.
  intros H. unfold remove_route. destruct (r_routes r !! id) as [rt|] eqn:Hid; [|done].
  set (x := r_rstore r rt). case_match.
  - eapply calls_ok_quiet; [apply send_quiet|].
    apply endRoute_ok_plain; [|by rewrite (quiet_field r_routes r) by eauto with go].
    by eapply calls_ok_quiet; [apply finishRoute_quiet|].
  - case_match; [|done]. eapply calls_ok_quiet; [apply send_quiet|].
    destruct (owns_dedup r rt) as [d|] eqn:E.
    + apply owns_dedup_spec in E as [E1 E2].
      destruct (co_dedup _ _ H _ _ _ Hid (fun x => x) E1) as [Hd _].
      set (lost := routerError _ _ _ _ _ _).
      pose proof (dedupFail_settled d lost (Some p) now r) as Hs.
      pose proof (settled_ok _ _ _ _ H Hd E2 Hs) as H2.
      set (r2 := dedupFail _ _ _ _ _) in *.
      apply endRoute_ok_last.
      * eapply calls_ok_quiet; [apply finishRoute_quiet|]. by apply clear_dedup_ok.
      * change (r_routes (finishRoute ?a ?b ?c ?d)) with (r_routes d).
        change (r_routes r2 !! id = Some rt). by rewrite (settled_field r_routes d r) by done.
    + apply endRoute_ok_plain; [|by rewrite (quiet_field r_routes r) by eauto with go].
      by eapply calls_ok_quiet; [apply finishRoute_quiet|].
Qed.

Lemma close_route_ok now id r : calls_ok r -> calls_ok (close_route now id r).
Proof.
  intros H. unfold close_route. destruct (r_routes r !! id) as [rt|] eqn:Hid; [|done].
  eapply (end_failed_ok id rt _ None now r r); [done|done|done|].
  etrans; [apply finishRoute_quiet|]. etrans; apply send_quiet.
Qed.
