(* ===== verification/Registry.v ===== *)
(** * Who is registered, and the limits

    [registry_ok] is the invariant of [r_instances] and [r_services]: a pool
    holds exactly the live instances that offer its service, sorted by id.
    [limits_ok] bounds the counters: an instance's max_inflight, a connection's
    calls, the Router's routes.  [drained_ok] ties [r_drained] to the routes.
    [ending] relates two Routers between which calls only ended. *)
From S2P Require Import Prelude GoStd GoHeap Protocol Outbox Breaker Libs Auth State Deadline Dedup.
From S2P Require Import Balance Management Router Calls.
#[local] Open Scope Z_scope.

(** ** Definitions *)

Definition offers (x : peer) (name : string) : Prop := name ∈ s_name <$> p_services x.
#[global] Instance offers_dec x name : Decision (offers x name).
Proof. unfold offers. apply _. Defined.
Definition live (r : Router) (c : nat) : Prop :=
  r_instances r !! p_instanceID (peerOf r c) = Some c /\ p_draining (peerOf r c) = false.
Definition instance_id (r : Router) (c : nat) : string := p_instanceID (peerOf r c).

(** Every method of a pool is under its own name. *)
Definition named (ms : gmap string method) : Prop := map_Forall (fun k m => m_name m = k) ms.

Record pool_ok (r : Router) (name : string) (po : pool) : Prop := {
  pk_some : po_instances po <> [];
  pk_member c : c ∈ po_instances po <-> live r c /\ offers (peerOf r c) name;
  pk_nodup : NoDup (po_instances po);
  pk_sorted : StronglySorted (le_by (instance_id r)) (po_instances po);
  pk_methods c m : c ∈ po_instances po -> serves (peerOf r c) name m = true ->
    is_Some (po_methods po !! m);
  pk_named : named (po_methods po) }.

Record registry_ok (r : Router) : Prop := {
  rk_instance id p : r_instances r !! id = Some p ->
    p_instanceID (peerOf r p) = id /\ id <> EmptyString /\ (p < r_next r)%nat;
  rk_names p name : offers (peerOf r p) name ->
    validServiceName name = true /\ HasPrefix name reservedPrefix = false;
  rk_unique p : NoDup (s_name <$> p_services (peerOf r p));
  rk_pool name po : r_services r !! name = Some po -> pool_ok r name po;
  rk_offered p name : live r p -> offers (peerOf r p) name -> is_Some (r_services r !! name);
  rk_fresh p : (r_next r <= p)%nat -> p_instanceID (peerOf r p) = EmptyString;
  rk_blank p : p_instanceID (peerOf r p) = EmptyString ->
    p_services (peerOf r p) = [] /\ p_draining (peerOf r p) = false /\
    p_maxInflight (peerOf r p) = 0 }.

Record limits_ok (r : Router) : Prop := {
  lm_inflight p : 0 < p_maxInflight (peerOf r p) ->
    p_inflight (peerOf r p) <= p_maxInflight (peerOf r p);
  lm_calls p : 0 < c_MaxCallsPerConnection (r_config r) ->
    p_calls (peerOf r p) <= c_MaxCallsPerConnection (r_config r);
  lm_unregistered p : p_instanceID (peerOf r p) = EmptyString -> p_inflight (peerOf r p) <= 0;
  lm_routes : route_count r <= routeCapacity }.

Definition drained_ok (r : Router) : Prop :=
  r_drained r = true <-> r_draining r = true /\ r_routes r = ∅.

(** The fields of a peer that registration decides. *)
Definition registered_as (x : peer) : string * list service * bool * Z :=
  (p_instanceID x, p_services x, p_draining x, p_maxInflight x).

(** What a peer and a route are for as long as they exist. *)
Definition identity (x : peer) : option User * string := (p_user x, p_role x).
Definition route_as (x : route) : string * string * string * nat * nat :=
  (rt_id x, rt_service x, rt_method x, rt_client x, rt_instance x).

Record fewer_calls (r r' : Router) : Prop := {
  ed_rest : r' = r {{ r_pstore := r_pstore r'; r_rstore := r_rstore r'; r_dstore := r_dstore r';
    r_metrics := r_metrics r'; r_routes := r_routes r'; r_deadlines := r_deadlines r';
    r_deadlineWake := r_deadlineWake r'; r_drained := r_drained r'; r_dedup := r_dedup r';
    r_dedupOrder := r_dedupOrder r'; r_services := r_services r'; r_next := r_next r' }};
  ed_next : (r_next r <= r_next r')%nat;
  ed_pools : po_core <$> r_services r' = po_core <$> r_services r;
  ed_routes : r_routes r' ⊆ r_routes r;
  ed_peer q : registered_as (peerOf r' q) = registered_as (peerOf r q);
  ed_inflight q : p_inflight (peerOf r' q) <= p_inflight (peerOf r q);
  ed_calls q : p_calls (peerOf r' q) <= p_calls (peerOf r q);
  ed_identity q : identity (peerOf r' q) = identity (peerOf r q);
  ed_route rt : route_as (r_rstore r' rt) = route_as (r_rstore r rt) }.
Definition ending (r r' : Router) : Prop :=
  fewer_calls r r' /\ (drained_ok r -> drained_ok r').

(** The Router's fields that no call changes. *)
Definition fixed_by_calls {B} (g : Router -> B) : Prop :=
  forall x ps rs ds m ro dl w dr de o ss n,
    g (x {{ r_pstore := ps; r_rstore := rs; r_dstore := ds; r_metrics := m; r_routes := ro;
      r_deadlines := dl; r_deadlineWake := w; r_drained := dr; r_dedup := de;
      r_dedupOrder := o; r_services := ss; r_next := n }}) = g x.

(** ** Lemmas *)

#[global] Instance fewer_calls_preorder : PreOrder fewer_calls.
Proof.
  split.
  - intros r. split; try done. by destruct r.
  - intros x y z [H1 H0 H2 H3 H4 H5 H6 H7 H8] [K1 K0 K2 K3 K4 K5 K6 K7 K8]. split.
    + rewrite K1, H1. done.
    + lia.
    + by rewrite K2.
    + etrans; [exact K3|exact H3].
    + intros. by rewrite K4.
    + intros. etrans; [apply K5|apply H5].
    + intros. etrans; [apply K6|apply H6].
    + intros. by rewrite K7.
    + intros. by rewrite K8.
Qed.
#[global] Instance ending_preorder : PreOrder ending.
Proof.
  split; [by split|]. intros x y z [H1 H2] [K1 K2]. split; [by etrans|auto].
Qed.

Lemma fewer_calls_field {B} (g : Router -> B) r r' :
  fixed_by_calls g -> fewer_calls r r' -> g r' = g r.
Proof. intros Hg [-> _ _ _ _ _ _ _ _]. apply Hg. Qed.

Lemma ending_field {B} (g : Router -> B) r r' : fixed_by_calls g -> ending r r' -> g r' = g r.
Proof. intros ? [? _]. by apply fewer_calls_field. Qed.

(** Steps that only write queues, health, metrics, credits or dedup entries. *)
Lemma ending_selection r r' : selection_frame r r' -> ending r r'.
Proof.
  intros H. split; [split|].
  - destruct H as (r1 & ss & [Hq _] & -> & _). rewrite Hq. by destruct r.
  - by rewrite (selection_frame_field r_next r r').
  - by apply selection_frame_pools.
  - by rewrite (selection_frame_field r_routes r r').
  - intros q. by apply (selection_frame_peer registered_as).
  - intros q. by rewrite (selection_frame_peer p_inflight r r').
  - intros q. by rewrite (selection_frame_peer p_calls r r').
  - intros q. by apply (selection_frame_peer identity).
  - intros rt. by rewrite (selection_frame_field r_rstore r r').
  - unfold drained_ok. by rewrite (selection_frame_field r_routes r r'),
      (selection_frame_field r_drained r r'), (selection_frame_field r_draining r r').
Qed.

Lemma ending_quiet r r' : quiet r r' -> ending r r'.
Proof. intros. by apply ending_selection, selection_frame_quiet. Qed.

Lemma ending_shifted d r r' : (forall q, 0 <= d q) -> shifted d r r' -> ending r r'.
Proof.
  intros Hd H. pose proof (sh_rest _ _ _ H) as Hr. split; [split|].
  - rewrite Hr. by destruct r.
  - by rewrite (shifted_field r_next d r r').
  - by rewrite (shifted_field r_services d r r').
  - by rewrite (shifted_field r_routes d r r').
  - intros q. pose proof (sh_reg _ _ _ H q) as Hq. unfold registered_as.
    injection Hq. congruence.
  - intros q. by rewrite (sh_inflight _ _ _ H).
  - intros q. rewrite (sh_calls _ _ _ H). specialize (Hd q). lia.
  - intros q. pose proof (sh_reg _ _ _ H q) as Hq. unfold identity. injection Hq. congruence.
  - intros rt. by rewrite (shifted_field r_rstore d r r').
  - unfold drained_ok. by rewrite (shifted_field r_routes d r r'),
      (shifted_field r_drained d r r'), (shifted_field r_draining d r r').
Qed.

Lemma ending_reindexed r r' : reindexed r r' -> ending r r'.
Proof.
  intros H. pose proof (re_rest _ _ H) as Hr. split; [split|]; unfold peerOf, drained_ok;
    rewrite ?(reindexed_field r_next r r'), ?(reindexed_field r_services r r'), ?(reindexed_field r_routes r r'),
      ?(reindexed_field r_pstore r r'), ?(reindexed_field r_drained r r'),
      ?(reindexed_field r_draining r r') by done; try done.
  - rewrite Hr. by destruct r.
  - intros rt. by rewrite (re_route _ _ H rt).
Qed.

Lemma ending_upd_dedup d g r : ending r (upd_dedup d g r).
Proof. split; [split|]; done. Qed.
Lemma ending_upd_route rt g r :
  route_as (g (r_rstore r rt)) = route_as (r_rstore r rt) -> ending r (upd_route rt g r).
Proof.
  intros Hg. split; [split|]; try done. intros q. unfold upd_route, update. simpl.
  by case_decide; subst.
Qed.

Lemma ending_lower_inflight i r :
  ending r (upd_peer i (fun x => x {{ p_inflight ::= Z.add (-1) }}) r).
Proof.
  split; [split|]; try done.
  - intros q. by apply (update_field registered_as).
  - intros q. unfold peerOf, upd_peer, update. simpl. case_decide; simpl; lia.
  - intros q. apply Z.eq_le_incl. by apply (update_field p_calls).
  - intros q. by apply (update_field identity).
Qed.

#[export] Hint Resolve ending_quiet ending_upd_dedup ending_lower_inflight : go.

Lemma fewer_calls_delete id r : fewer_calls r (r {{ r_routes ::= delete id }}).
Proof. split; try done. apply delete_subseteq. Qed.

Lemma fewer_calls_drained b r : fewer_calls r (r {{ r_drained := b }}).
Proof. by split. Qed.

Lemma route_count_zero r : (route_count r =? 0) = true <-> r_routes r = ∅.
Proof. unfold route_count. rewrite Z.eqb_eq, <- map_size_empty_iff. lia. Qed.

Lemma endRoute_ending id rt r : deadlines_ok r -> ending r (endRoute id rt r).
Proof.
  intros Hdl. unfold endRoute. set (i := rt_instance _). set (c := rt_client _).
  set (r0 := r {{ r_routes ::= delete id }}).
  set (r1 := upd_peer i _ r0). set (r2 := untrack rt r1). set (r3 := callEnded c r2).
  assert (deadlines_ok r1) as Hdl1 by by apply (deadlines_ok_ext r).
  destruct (untrack_spec rt r1 Hdl1) as (_ & Hre & _ & _).
  assert (ending r0 r3) as H3.
  { etrans; [apply (ending_lower_inflight i)|]. etrans; [by apply ending_reindexed|].
    eapply ending_shifted; [|apply callEnded_shifted]. intros. unfold one. case_match; lia. }
  assert (r_draining r3 = r_draining r) as Hdr.
  { change (r_draining r) with (r_draining r0). by apply ending_field. }
  assert (fewer_calls r r3) as Hfew by (etrans; [apply fewer_calls_delete|apply H3]).
  destruct (r_draining r3) eqn:E.
  - set (r4 := wake_peer i r3). assert (quiet r3 r4) as Hq by apply wake_peer_quiet.
    destruct (ending_quiet _ _ Hq) as [Hf4 _].
    assert (r_draining r4 = true) as E4 by by rewrite (quiet_field r_draining r3).
    destruct (route_count r4 =? 0) eqn:E0.
    + apply route_count_zero in E0. split; [etrans; [|apply fewer_calls_drained]; by etrans|].
      intros _. unfold drained_ok, markDrained. simpl. done.
    + split; [by etrans|]. intros Hd. unfold drained_ok. rewrite <- route_count_zero, E0.
      split; [|by intros []]. rewrite (quiet_field r_drained r3) by done.
      intros Hx. exfalso.
      assert (r_drained r3 = r_drained r) as Hx'.
      { unfold r3. rewrite (shifted_field r_drained _ _ _ ltac:(done) (callEnded_shifted c r2)).
        by rewrite (reindexed_field r_drained r1 r2). }
      assert (r_routes r4 = ∅) as Hro; [|by apply route_count_zero in Hro; congruence].
      rewrite Hx' in Hx. apply Hd in Hx as [_ Hx].
      apply (anti_symm (⊆)); [|apply map_empty_subseteq].
      rewrite <- Hx. etrans; [apply Hf4|apply Hfew].
  - split; [done|]. intros Hd. unfold drained_ok. rewrite E.
    assert (r_drained r3 = r_drained r) as ->.
    { unfold r3. rewrite (shifted_field r_drained _ _ _ ltac:(done) (callEnded_shifted c r2)).
      by rewrite (reindexed_field r_drained r1 r2). }
    split; [|by intros []]. intros Hx%Hd. destruct Hx as [Hx _]. congruence.
Qed.

Lemma settled_ending d r r' : settled d r r' -> ending r r'.
Proof.
  intros H. assert (ending r (r' {{ r_dstore := r_dstore r }})) as H1.
  { eapply ending_shifted; [|apply H]. intros. apply waits_nonneg. }
  etrans; [exact H1|]. destruct r'. by split; [split|].
Qed.

Lemma fail_joined_ending rt err lost now r : ending r (fail_joined rt err lost now r).
Proof.
  unfold fail_joined. destruct (owns_dedup r rt); [|done].
  eapply settled_ending, dedupFail_settled.
Qed.

Lemma dedupRemove_ending d r : ending r (dedupRemove d r).
Proof. unfold dedupRemove. destruct (d_element _); by split; [split|]. Qed.

Lemma dedup_evict_ending fuel r : ending r (dedup_evict fuel r).
Proof.
  revert r. induction fuel as [|fuel IH]; intros r; [done|]. cbn [dedup_evict].
  destruct (dedupCapacity <=? _)%nat; [|done]. destruct (r_dedupOrder r) as [|d l]; [done|].
  destruct (d_route _); [done|]. etrans; [apply (dedupRemove_ending d)|apply IH].
Qed.

#[export] Hint Resolve settled_ending fail_joined_ending dedupRemove_ending dedup_evict_ending
  endRoute_ending ending_reindexed : go.
#[export] Hint Resolve co_deadlines : go.

(** Queue frames, fail the joined calls, forget the route: [ending] when the
    heap is in order before the last step. *)
Lemma end_failed_ending id rt err lost now r r1 r2 :
  calls_ok r -> quiet r r1 -> quiet (fail_joined rt err lost now r1) r2 ->
  r_routes r !! id = Some rt ->
  ending r (endRoute id rt r2).
Proof.
  intros H H1 H2 Hid. etrans; [by apply ending_quiet|].
  etrans; [apply (fail_joined_ending rt err lost now)|]. etrans; [by apply ending_quiet|].
  apply endRoute_ending. eapply co_deadlines, calls_ok_quiet; [exact H2|].
  eapply fail_joined_ok; [by eapply calls_ok_quiet|]. by rewrite (quiet_field r_routes r r1).
Qed.

Lemma flowViolation_ending id rt b now r :
  calls_ok r -> r_routes r !! id = Some rt -> ending r (flowViolation rt b now r).
Proof.
  intros H Hid. unfold flowViolation.
  set (r1 := if b then observe_peer _ _ _ _ else r).
  assert (quiet r r1) as Hq by (unfold r1; destruct b; [apply observe_peer_quiet|done]).
  destruct (co_route _ _ H _ _ Hid) as [-> _].
  eapply (end_failed_ending id rt _ None now r r1); [done|done| |done]. etrans; apply send_quiet.
Qed.

Lemma forward_client_ending p id rt f now r :
  calls_ok r -> r_routes r !! id = Some rt -> ending r (forward_client p rt f now r).
Proof.
  intros H Hid. unfold forward_client. destruct (credit _ _) as [x ok] eqn:Hx.
  assert (calls_ok (upd_route rt (fun _ => x) r)) as H1.
  { eapply calls_ok_same; [|done]. apply upd_route_same. by eapply credit_core. }
  etrans; [by apply (ending_upd_route rt (fun _ => x)), (rt_core_field route_as), (credit_core _ _ _ _ Hx)|].
  destruct ok; simpl; [|by eapply flowViolation_ending].
  etrans; [apply ending_quiet, send_quiet|]. destruct (String.eqb _ _); [|done].
  etrans; [apply ending_quiet, finishRoute_quiet|]. apply endRoute_ending.
  eapply co_deadlines, calls_ok_quiet; [apply finishRoute_quiet|].
  eapply calls_ok_quiet; [apply send_quiet|exact H1].
Qed.

Lemma forward_server_ending p id rt f now r :
  calls_ok r -> r_routes r !! id = Some rt -> f_callID f = id ->
  ending r (forward_server p rt f now r).
Proof.
  intros H Hid Hf. unfold forward_server. destruct (credit _ _) as [x ok] eqn:Hx.
  set (r1 := upd_route rt (fun _ => x) r).
  assert (calls_ok r1) as H1.
  { eapply calls_ok_same; [|done]. apply upd_route_same. by eapply credit_core. }
  etrans; [by apply (ending_upd_route rt (fun _ => x)), (rt_core_field route_as), (credit_core _ _ _ _ Hx)|].
  destruct ok; simpl; [|by eapply flowViolation_ending].
  etrans; [apply ending_quiet, send_quiet|]. destruct (_ || _); [|done].
  set (r3 := observe_peer _ _ _ _).
  assert (quiet r1 r3) as Hq3 by (etrans; [apply send_quiet|apply observe_peer_quiet]).
  assert (calls_ok r3) as H3 by by eapply calls_ok_quiet.
  assert (r_routes r3 !! id = Some rt) as Hid3 by by rewrite (quiet_field r_routes r1).
  assert (r_rstore r3 rt = x) as Hx3.
  { rewrite (quiet_field r_rstore r1) by done. apply (update_eq rt (fun _ => x)). }
  etrans; [apply ending_quiet, observe_peer_quiet|]. fold r3.
  destruct (rt_dedup x) as [d|] eqn:Hd.
  - rewrite <- Hx3 in Hd. destruct (co_dedup _ _ H3 _ _ _ Hid3 (fun x => x) Hd) as [Ho Hr].
    etrans; [eapply settled_ending, (dedupSettle_settled d f now)|].
    etrans; [apply ending_quiet, finishRoute_quiet|]. apply endRoute_ending.
    eapply co_deadlines, calls_ok_quiet; [apply finishRoute_quiet|].
    by eapply settled_ok; [..|apply dedupSettle_settled].
  - etrans; [apply ending_quiet, finishRoute_quiet|]. apply endRoute_ending.
    eapply co_deadlines, calls_ok_quiet; [apply finishRoute_quiet|done].
Qed.

Lemma expire_route_ending rt now r : calls_ok r -> ending r (expire_route rt now r).
Proof.
  intros H. unfold expire_route. case_bool_decide as Hid; [done|].
  set (x := r_rstore r rt) in *.
  set (r1 := finishRoute _ _ _ (observe_peer _ _ _ _)).
  assert (quiet r r1) by (etrans; [apply observe_peer_quiet|apply finishRoute_quiet]).
  eapply (end_failed_ending (rt_id x) rt (deadlineError (rt_id x)) None now r r1); [done|done| |].
  - etrans; apply send_quiet.
  - done.
Qed.

Lemma pop_deadline_reindexed r : reindexed r (pop_deadline r).2.
Proof.
  unfold pop_deadline. etrans; [|apply cut_reindexed].
  apply (heap_pop_ind (reindexed r)); [|done]. intros. etrans; [done|]. apply swap_reindexed.
Qed.

Lemma expire_loop_ending fuel now r : calls_ok r -> ending r (expire_loop fuel now r).
Proof.
  revert r. induction fuel as [|fuel IH]; intros r H; [done|]. cbn [expire_loop].
  destruct (due now r) eqn:E; [|done]. unfold due in E.
  destruct (r_deadlines r) as [|rt l] eqn:Hl; [done|].
  destruct (pop_deadline_ok rt r H) as (H1 & H2 & _); [by rewrite Hl|].
  pose proof (pop_deadline_reindexed r) as Hre.
  destruct (pop_deadline r) as [o r1]. simpl in *. subst.
  etrans; [by apply ending_reindexed|]. etrans; [by apply (expire_route_ending rt now)|].
  by apply IH, expire_route_ok.
Qed.

Lemma remove_route_ending p now id r : calls_ok r -> ending r (remove_route p now id r).
Proof.
  intros H. unfold remove_route. destruct (r_routes r !! id) as [rt|] eqn:Hid; [|done].
  set (x := r_rstore r rt). case_match.
  - etrans; [apply ending_quiet, finishRoute_quiet|].
    etrans; [|apply ending_quiet, send_quiet]. apply endRoute_ending.
    eapply co_deadlines, calls_ok_quiet; [apply finishRoute_quiet|done].
  - case_match; [|done]. etrans; [|apply ending_quiet, send_quiet].
    destruct (owns_dedup r rt) as [d|] eqn:E.
    + apply owns_dedup_spec in E as [E1 E2].
      destruct (co_dedup _ _ H _ _ _ Hid (fun x => x) E1) as [Hd _].
      set (lost := routerError _ _ _ _ _ _).
      pose proof (dedupFail_settled d lost (Some p) now r) as Hs.
      etrans; [by eapply settled_ending|].
      etrans; [by apply (ending_upd_route rt (fun x => x {{ rt_dedup := None }}))|].
      etrans; [apply ending_quiet, finishRoute_quiet|]. apply endRoute_ending.
      eapply co_deadlines, calls_ok_quiet; [apply finishRoute_quiet|]. apply clear_dedup_ok.
      by eapply settled_ok.
    + etrans; [apply ending_quiet, finishRoute_quiet|]. apply endRoute_ending.
      eapply co_deadlines, calls_ok_quiet; [apply finishRoute_quiet|done].
Qed.

Lemma close_route_ending now id r : calls_ok r -> ending r (close_route now id r).
Proof.
  intros H. unfold close_route. destruct (r_routes r !! id) as [rt|] eqn:Hid; [|done].
  eapply (end_failed_ending id rt _ None now r r); [done|done| |done].
  etrans; [apply finishRoute_quiet|]. etrans; apply send_quiet.
Qed.

(** A loop of steps that preserve the calls and end some. *)
Lemma fold_ending {A} (step : A -> Router -> Router) l r :
  (forall x r, calls_ok r -> calls_ok (step x r) /\ ending r (step x r)) ->
  calls_ok r ->
  calls_ok (fold_left (fun r x => step x r) l r) /\ ending r (fold_left (fun r x => step x r) l r).
Proof.
  intros Hs. revert r. induction l as [|x l IH]; intros r H; [done|]. simpl.
  destruct (Hs x r H) as [H1 H2]. destruct (IH _ H1) as [H3 H4]. split; [done|]. by etrans.
Qed.

(** ** What ending calls preserves *)

Lemma pools_lookup (ss ss' : gmap string pool) name po' :
  po_core <$> ss' = po_core <$> ss -> ss' !! name = Some po' ->
  exists po, ss !! name = Some po /\ po_core po' = po_core po.
Proof.
  intros H Hl. assert ((po_core <$> ss) !! name = Some (po_core po')) as Hx.
  { by rewrite <- H, lookup_fmap, Hl. }
  rewrite lookup_fmap in Hx. destruct (ss !! name) as [po|]; [|done].
  simpl in Hx. exists po. split; congruence.
Qed.

Lemma po_core_field {B} (g : pool -> B) x y :
  (forall x, g (po_core x) = g x) -> po_core x = po_core y -> g x = g y.
Proof. intros Hg H. by rewrite <- (Hg x), H, Hg. Qed.

(** Registries with the same registrations. *)
Record same_registry (r r' : Router) : Prop := {
  sr_instances : r_instances r' = r_instances r;
  sr_pools : po_core <$> r_services r' = po_core <$> r_services r;
  sr_next : (r_next r <= r_next r')%nat;
  sr_peer q : registered_as (peerOf r' q) = registered_as (peerOf r q) }.

#[global] Instance same_registry_preorder : PreOrder same_registry.
Proof.
  split; [by intros r; split|]. intros x y z [] [].
  split; [congruence|congruence|lia|congruence].
Qed.

Lemma ending_registry r r' : ending r r' -> same_registry r r'.
Proof.
  intros H. split.
  - by apply (ending_field r_instances).
  - apply H.
  - apply H.
  - apply H.
Qed.

Lemma registered_fields x y : registered_as x = registered_as y ->
  p_instanceID x = p_instanceID y /\ p_services x = p_services y /\
  p_draining x = p_draining y /\ p_maxInflight x = p_maxInflight y.
Proof. unfold registered_as. intros. by simplify_eq. Qed.

Lemma serves_services x y s m : p_services x = p_services y -> serves x s m = serves y s m.
Proof. unfold serves. by intros ->. Qed.

Lemma registry_ok_same r r' : same_registry r r' -> registry_ok r -> registry_ok r'.
Proof.
  intros [Hi Hp Hn Hpeer] H.
  assert (forall q, p_instanceID (peerOf r' q) = p_instanceID (peerOf r q)) as Hid
    by (intros q; apply registered_fields, Hpeer).
  assert (forall q, p_services (peerOf r' q) = p_services (peerOf r q)) as Hs
    by (intros q; destruct (registered_fields _ _ (Hpeer q)) as (_ & ? & _); done).
  assert (forall q, live r' q <-> live r q) as Hlive.
  { intros q. unfold live. rewrite Hi, Hid.
    by destruct (registered_fields _ _ (Hpeer q)) as (_ & _ & -> & _). }
  assert (forall q name, offers (peerOf r' q) name <-> offers (peerOf r q) name) as Hoff
    by (intros; unfold offers; by rewrite Hs).
  split; intros *.
  - rewrite Hi, Hid. intros (? & ? & ?)%(rk_instance _ H). split_and!; [done|done|lia].
  - rewrite Hoff. apply H.
  - rewrite Hs. apply H.
  - intros (po0 & Hpo & Hc)%(pools_lookup (r_services r)); [|done].
    destruct (rk_pool _ H _ _ Hpo) as [K1 K2 K3 K4 K5 K6].
    assert (po_instances po = po_instances po0) as Hin by by apply (po_core_field po_instances).
    split; rewrite ?Hin; try done.
    + intros c. by rewrite Hlive, Hoff.
    + clear -K4 Hid. induction K4 as [|x l Hl IH Hx]; constructor; [done|].
      eapply Forall_impl; [exact Hx|]. intros y. unfold le_by, instance_id. by rewrite !Hid.
    + intros c m Hc' Hsv. rewrite (po_core_field po_methods po po0) by done. apply (K5 c); [done|].
      by rewrite <- (serves_services (peerOf r' c)).
    + by rewrite (po_core_field po_methods po po0).
  - rewrite Hlive, Hoff. intros Hl Ho. destruct (rk_offered _ H _ _ Hl Ho) as [po Hpo].
    symmetry in Hp. destruct (pools_lookup _ _ _ _ Hp Hpo) as (po' & -> & _). done.
  - intros Hq. rewrite Hid. apply (rk_fresh _ H). lia.
  - rewrite Hid, Hs. destruct (registered_fields _ _ (Hpeer p)) as (_ & _ & -> & ->). apply H.
Qed.

Lemma registry_ok_ending r r' : ending r r' -> registry_ok r -> registry_ok r'.
Proof. intros. by eapply registry_ok_same; [apply ending_registry|]. Qed.

Lemma limits_ok_ending r r' : ending r r' -> limits_ok r -> limits_ok r'.
Proof.
  intros He H. pose proof (proj1 He) as [_ _ _ Hro Hpeer Hin Hca].
  assert (r_config r' = r_config r) as Hc by by apply (ending_field r_config).
  split; [intros p Hx..|].
  - destruct (registered_fields _ _ (Hpeer p)) as (_ & _ & _ & Hm). rewrite Hm in *.
    etrans; [apply Hin|]. by apply (lm_inflight _ H).
  - rewrite Hc in *. etrans; [apply Hca|]. by apply (lm_calls _ H).
  - etrans; [apply Hin|]. apply (lm_unregistered _ H).
    by destruct (registered_fields _ _ (Hpeer p)) as (<- & _).
  - etrans; [|apply (lm_routes _ H)]. unfold route_count. apply Nat2Z.inj_le. by apply map_subseteq_size.
Qed.
