(* ===== verification/Invariants.v ===== *)
(** * The Router's invariant

    [router_ok] joins the accounting of calls, the registry, the limits and
    the drain flag; every operation of router.go, deadline.go and
    management.go preserves it. *)
From S2P Require Import Prelude GoStd GoHeap Protocol Outbox Breaker Libs Auth State Deadline Dedup.
From S2P Require Import Balance Management Router Calls Registry.
#[local] Open Scope Z_scope.

Record router_ok (r : Router) : Prop := {
  ro_calls : calls_ok r;
  ro_registry : registry_ok r;
  ro_limits : limits_ok r;
  ro_drained : drained_ok r }.

(** ** Lemmas *)

Lemma router_ok_ending r r' : ending r r' -> calls_ok r' -> router_ok r -> router_ok r'.
Proof.
  intros He Hc [H1 H2 H3 H4]. split; [done| | |by apply He].
  - by eapply registry_ok_ending.
  - by eapply limits_ok_ending.
Qed.

Lemma router_ok_quiet r r' : quiet r r' -> router_ok r -> router_ok r'.
Proof.
  intros Hq H. apply (router_ok_ending r); [by apply ending_quiet| |done].
  eapply calls_ok_quiet; [done|apply H].
Qed.

(** Fields the invariant does not mention. *)
Lemma router_ok_auth a r : router_ok r -> router_ok (r {{ r_auth := a }}).
Proof.
  intros [H1 H2 H3 H4]. split; [| | |done].
  - by apply (calls_ok_same _ r); [split|].
  - by apply (registry_ok_same r); [split|].
  - by destruct H3.
Qed.

Lemma inflight_nonneg r p : calls_ok r -> 0 <= p_inflight (peerOf r p).
Proof. intros H. rewrite (co_inflight _ _ H). apply routes_by_nonneg. Qed.

(** ** Opening a call *)

Lemma track_ending rt timeout now r :
  deadlines_ok r -> rt_index (r_rstore r rt) < 0 -> ending r (track rt timeout now r).
Proof.
  intros Hd Hn. destruct (track_spec rt timeout now r Hd Hn) as (_ & _ & _ & Ho & Hr).
  rewrite Hr. split; [split|]; try done. intros q. simpl. rewrite Ho. by case_decide.
Qed.

Lemma dedupInsert_ending key rt r : ending r (dedupInsert key rt r).
Proof.
  unfold dedupInsert. etrans; [apply (dedup_evict_ending (length (r_dedupOrder r)))|]. cbv zeta.
  generalize (dedup_evict (length (r_dedupOrder r)) r). intros r1.
  split; [split|]; try done; [apply Nat.le_succ_diag_r|].
  intros q. by apply (update_field route_as).
Qed.

Lemma insert_route_registry p i x r : same_registry r (insert_route p i x r).
Proof.
  split; try done; [simpl; lia|]. intros q. unfold insert_route.
  etrans; [by apply (update_field registered_as)|]. by apply (update_field registered_as).
Qed.

Lemma insert_route_limits p i x r :
  limits_ok r -> at_cap (peerOf r i) = false -> p_instanceID (peerOf r i) <> EmptyString ->
  (0 < c_MaxCallsPerConnection (r_config r) ->
     p_calls (peerOf r p) < c_MaxCallsPerConnection (r_config r)) ->
  route_count r < routeCapacity ->
  limits_ok (insert_route p i x r).
Proof.
  intros H Hcap Hid Hlim Hcount. set (r' := insert_route p i x r).
  assert (forall q, registered_as (peerOf r' q) = registered_as (peerOf r q)) as Hreg
    by apply insert_route_registry.
  assert (forall q, p_calls (peerOf r' q) = p_calls (peerOf r q) + one (p =? q)%nat) as Hca.
  { intros q. unfold r', insert_route. rewrite bump_calls. f_equal. by apply (update_field p_calls). }
  assert (forall q, p_inflight (peerOf r' q) = p_inflight (peerOf r q) + one (i =? q)%nat) as Hin.
  { intros q. etrans; [by apply (update_field p_inflight)|].
    change (p_inflight (peerOf r q)) with (p_inflight (peerOf (r {{ r_next ::= S }}) q)).
    rewrite <- bump_inflight. done. }
  unfold one in *. split; [intros q Hx..|].
  - destruct (registered_fields _ _ (Hreg q)) as (_ & _ & _ & Hm). rewrite Hm, Hin in *.
    pose proof (lm_inflight _ H q Hx). destruct (i =? q)%nat eqn:E; [|lia].
    apply Nat.eqb_eq in E as ->. unfold at_cap in Hcap. apply andb_false_iff in Hcap as [Hc|Hc]; unbool; lia.
  - rewrite Hca. pose proof (lm_calls _ H q Hx). change (r_config r') with (r_config r) in *.
    destruct (p =? q)%nat eqn:E; [|lia]. apply Nat.eqb_eq in E as ->. specialize (Hlim Hx). lia.
  - destruct (registered_fields _ _ (Hreg q)) as (Hi & _). rewrite Hi in Hx.
    rewrite Hin. pose proof (lm_unregistered _ H q Hx). destruct (i =? q)%nat eqn:E; [|lia].
    apply Nat.eqb_eq in E as ->. done.
  - unfold route_count in *. change (r_routes r') with (<[rt_id x := r_next r]> (r_routes r)).
    rewrite map_size_insert. destruct (r_routes r !! rt_id x); simpl; lia.
Qed.

(** After the route is in the table, [open_route] sends and schedules only. *)
Lemma open_route_ending p f stream i now r :
  calls_ok r -> (p < r_next r)%nat -> (i < r_next r)%nat -> r_routes r !! f_callID f = None ->
  ending (insert_route p i (new_route p f i now) r) (open_route p f stream i now r).
Proof.
  intros H Hp Hi Hid. set (r1 := insert_route p i (new_route p f i now) r).
  assert (calls_ok r1) as Hc1 by by apply insert_route_ok.
  unfold open_route. cbv zeta. change (upd_peer p _ _) with r1.
  etrans; [|apply ending_quiet, send_quiet]. set (r2 := match f_timeoutMS f with Some _ => _ | None => _ end).
  assert (ending r1 r2) as H2.
  { unfold r2. destruct (f_timeoutMS f); [|done]. apply track_ending; [apply Hc1|].
    unfold r1, insert_route. simpl. rewrite update_eq. simpl. lia. }
  destruct (keyed_unary f stream); [|done]. etrans; [exact H2|apply dedupInsert_ending].
Qed.

(** What the checks in front of [open_route] establish. *)
Record may_open (p i : nat) (f : frame) (stream : string) (r : Router) : Prop := {
  mo_client : (p < r_next r)%nat;
  mo_instance : (i < r_next r)%nat;
  mo_registered : p_instanceID (peerOf r i) <> EmptyString;
  mo_cap : at_cap (peerOf r i) = false;
  mo_limit : 0 < c_MaxCallsPerConnection (r_config r) ->
    p_calls (peerOf r p) < c_MaxCallsPerConnection (r_config r);
  mo_count : route_count r < routeCapacity;
  mo_id : r_routes r !! f_callID f = None;
  mo_key : keyed_unary f stream = true -> r_dedup r !! dedupKey f = None;
  mo_draining : r_draining r = false }.

Lemma open_route_router_ok p i f stream now r :
  may_open p i f stream r -> router_ok r -> router_ok (open_route p f stream i now r).
Proof.
  intros [M1 M2 M3 M4 M5 M6 M7 M8 M9] H.
  assert (calls_ok (open_route p f stream i now r)) as Hc by (apply open_route_ok; [apply H|done..]).
  set (r1 := insert_route p i (new_route p f i now) r).
  assert (calls_ok r1) as Hc1 by (apply insert_route_ok; [apply H|done..]).
  assert (router_ok r1) as H1.
  { split; [done| | |].
    - eapply registry_ok_same; [apply insert_route_registry|apply H].
    - apply insert_route_limits; [apply H|done..].
    - destruct (ro_drained _ H) as [Hd _]. unfold drained_ok.
      change (r_drained r1) with (r_drained r). change (r_draining r1) with (r_draining r).
      rewrite M9 in *. split; [|by intros []]. intros Hx. by destruct (Hd Hx). }
  apply (router_ok_ending r1); [|done|done]. by apply open_route_ending; [apply H|..].
Qed.

Lemma join_call_router_ok p d id rt r :
  (p < r_next r)%nat -> d ∈ r_dedupOrder r -> d_route (r_dstore r d) = Some rt ->
  (0 < c_MaxCallsPerConnection (r_config r) ->
     p_calls (peerOf r p) < c_MaxCallsPerConnection (r_config r)) ->
  router_ok r -> router_ok (join_call p d id r).
Proof.
  intros Hp Hd Hrt Hlim H. set (r' := join_call p d id r).
  assert (forall q, registered_as (peerOf r' q) = registered_as (peerOf r q)) as Hreg
    by (intros q; by apply (update_field registered_as)).
  assert (forall q, p_calls (peerOf r' q) = p_calls (peerOf r q) + one (p =? q)%nat) as Hca
    by (intros q; unfold r', join_call; by rewrite bump_calls).
  assert (forall q, p_inflight (peerOf r' q) = p_inflight (peerOf r q)) as Hin
    by (intros q; by apply (update_field p_inflight)).
  split.
  - eapply join_call_ok; [apply H|done..].
  - apply (registry_ok_same r); [|apply H]. by split.
  - pose proof (ro_limits _ H) as HL. split; [intros q Hx..|apply (lm_routes _ HL)].
    + destruct (registered_fields _ _ (Hreg q)) as (_ & _ & _ & Hm). rewrite Hm, Hin in *.
      by apply (lm_inflight _ HL).
    + rewrite Hca. pose proof (lm_calls _ HL q Hx). change (r_config r') with (r_config r) in *.
      unfold one. destruct (p =? q)%nat eqn:E; [|lia]. apply Nat.eqb_eq in E as ->. specialize (Hlim Hx). lia.
    + rewrite Hin. apply (lm_unregistered _ HL).
      by destruct (registered_fields _ _ (Hreg q)) as (<- & _).
  - apply H.
Qed.

Lemma consult_dedup_spec f stream now r r' ans :
  calls_ok r -> consult_dedup f stream now r = (r', ans) ->
  ending r r' /\ calls_ok r' /\
  match ans with
  | Replay _ => True
  | Join d => d ∈ r_dedupOrder r' /\ is_Some (d_route (r_dstore r' d))
  | Execute _ => keyed_unary f stream = true -> r_dedup r' !! dedupKey f = None
  end.
Proof.
  intros H. unfold consult_dedup. destruct (keyed_unary f stream); [|intros Heq; injection Heq as <- <-; by split_and!].
  unfold dedupLookup. destruct (r_dedup r !! dedupKey f) as [d|] eqn:Hd; [|intros; simplify_eq; by split_and!].
  destruct (co_key _ _ H _ _ Hd) as [Ho Hk].
  assert (d_route (r_dstore r d) = None -> ending r (dedupRemove d r) /\ calls_ok (dedupRemove d r) /\
    r_dedup (dedupRemove d r) !! dedupKey f = None) as Hrem.
  { intros Hr. split_and!; [apply dedupRemove_ending|by apply dedupRemove_ok|].
    unfold dedupRemove. rewrite <- Hk. unfold entryOf. destruct (d_element _); simpl.
    - rewrite update_eq. simpl. apply lookup_delete_eq.
    - apply lookup_delete_eq. }
  unfold entryOf. destruct (d_route (r_dstore r d)) as [rt|] eqn:Hr.
  - rewrite Hr. destruct (d_result _); intros; simplify_eq; split_and!; try done.
  - destruct (Hrem eq_refl) as (R1 & R2 & R3).
    destruct (_ <? now); [intros; simplify_eq; by split_and!|]. rewrite Hr.
    destruct (d_result _); intros; simplify_eq; by split_and!.
Qed.

Lemma refuse_quiet p f e now r : quiet r (refuse p f e now r).
Proof.
  unfold refuse. etrans; [|apply send_quiet]. destruct (f_error e); [apply refuse_metric_quiet|done].
Qed.

(** The addresses of registered instances are allocated. *)
Lemma selected_registered `{Crypto, Floats} f avoid r c : registry_ok r -> selected f avoid r c ->
  p_instanceID (peerOf r c) <> EmptyString /\ (c < r_next r)%nat.
Proof.
  intros H1 [_ _ Hw].
  assert (r_instances r !! p_instanceID (peerOf r c) = Some c) as Hc.
  { destruct Hw as [(_ & po & Hpo & Hin & _)|(_ & Hi & _)].
    - by apply (pk_member _ _ _ (rk_pool _ H1 _ _ Hpo)) in Hin as [[? _] _].
    - by destruct (rk_instance _ H1 _ _ Hi) as [-> _]. }
  apply (rk_instance _ H1) in Hc as (_ & ? & ?). done.
Qed.

Section forward_lemmas.
Context `{Crypto, Floats}.

Lemma dispatch_router_ok p f e r :
  env_ok e -> (p < r_next r)%nat -> r_draining r = false ->
  r_routes r !! f_callID f = None -> route_count r < routeCapacity ->
  (0 < c_MaxCallsPerConnection (r_config r) ->
     p_calls (peerOf r p) < c_MaxCallsPerConnection (r_config r)) ->
  router_ok r -> router_ok (dispatch p f e r).
Proof.
  intros He Hp Hdr Hid Hcount Hlim Hr. unfold dispatch. set (stream := methodStream _ _ _).
  destruct (_ && _); [by eapply router_ok_quiet; [apply refuse_quiet|]|].
  destruct (consult_dedup f stream (e_now e) r) as [r1 ans] eqn:Ec.
  destruct (consult_dedup_spec _ _ _ _ _ _ (ro_calls _ Hr) Ec) as (He1 & Hc1 & Hans).
  assert (router_ok r1) as H1 by by eapply router_ok_ending.
  assert (r_config r1 = r_config r) as Hcf by by apply (ending_field r_config).
  assert (p < r_next r1)%nat as Hp1 by (pose proof (ed_next _ _ (proj1 He1)); lia).
  assert (0 < c_MaxCallsPerConnection (r_config r1) ->
     p_calls (peerOf r1 p) < c_MaxCallsPerConnection (r_config r1)) as Hlim1.
  { rewrite Hcf. intros Hl. specialize (Hlim Hl). pose proof (ed_calls _ _ (proj1 He1) p). lia. }
  destruct ans as [result|d|avoid].
  - by eapply router_ok_quiet; [apply send_quiet|].
  - destruct Hans as [Ho [rt Hrt]]. change (router_ok (join_call p d (f_callID f) r1)).
    by eapply join_call_router_ok.
  - destruct (selectInstance f avoid e r1) as [r2 sel] eqn:Es.
    destruct (selectInstance_spec _ _ _ _ _ _ He Es) as [Hfr Hsel].
    assert (ending r1 r2) as He2 by by apply ending_selection.
    assert (calls_ok r2) as Hc2.
    { apply (calls_ok_same _ r1); [|done]. destruct Hfr as (r3 & ss & Hq & -> & _).
      etrans; [by apply quiet_calls|]. by split. }
    assert (router_ok r2) as H2 by by eapply router_ok_ending.
    destruct sel as [i|err]; [|by eapply router_ok_quiet; [apply refuse_quiet|]].
    specialize (Hsel i eq_refl). destruct (selected_registered _ _ _ _ (ro_registry _ H1) Hsel) as [Hi1 Hi2].
    apply open_route_router_ok; [|done]. pose proof (ed_next _ _ (proj1 He2)).
    assert (r_config r2 = r_config r1) as Hcf2 by by apply (ending_field r_config).
    assert (r_routes r2 ⊆ r_routes r) as Hsub by (etrans; [apply He2|apply He1]).
    split; [lia|lia| | | | | | |].
    + by rewrite (selection_frame_peer p_instanceID r1).
    + unfold at_cap. rewrite (selection_frame_peer p_maxInflight r1), (selection_frame_peer p_inflight r1) by done.
      apply Hsel.
    + rewrite Hcf2. intros Hl. specialize (Hlim1 Hl). pose proof (ed_calls _ _ (proj1 He2) p). lia.
    + unfold route_count in *. pose proof (map_subseteq_size _ _ Hsub). lia.
    + by eapply lookup_weaken_None.
    + rewrite (selection_frame_field r_dedup r1) by done. done.
    + rewrite (ending_field r_draining r1 r2) by done. by rewrite (ending_field r_draining r r1).
Qed.

(** What [dispatch] comes to: nothing opened, a joined call, or a new route. *)
Lemma dispatch_cases p f e r :
  env_ok e -> (p < r_next r)%nat -> r_routes r !! f_callID f = None -> router_ok r ->
  ending r (dispatch p f e r) \/
  (exists d r1, ending r r1 /\ router_ok r1 /\ dispatch p f e r = join_call p d (f_callID f) r1) \/
  (exists avoid i r1 r2, let stream := methodStream r (f_service f) (f_method f) in
     ending r r1 /\ selection_frame r1 r2 /\ calls_ok r2 /\ selected f avoid r1 i /\
     (p < r_next r2)%nat /\ (i < r_next r2)%nat /\ r_routes r2 !! f_callID f = None /\
     dispatch p f e r = open_route p f stream i (e_now e) r2).
Proof.
  intros He Hp Hid Hr. unfold dispatch. set (stream := methodStream _ _ _).
  destruct (_ && _); [left; apply ending_quiet, refuse_quiet|].
  destruct (consult_dedup f stream (e_now e) r) as [r1 ans] eqn:Ec.
  destruct (consult_dedup_spec _ _ _ _ _ _ (ro_calls _ Hr) Ec) as (He1 & Hc1 & Hans).
  assert (router_ok r1) as H1 by by eapply router_ok_ending.
  destruct ans as [result|d|avoid].
  - left. etrans; [exact He1|]. apply ending_quiet, send_quiet.
  - right. left. by exists d, r1.
  - destruct (selectInstance f avoid e r1) as [r2 sel] eqn:Es.
    destruct (selectInstance_spec _ _ _ _ _ _ He Es) as [Hfr Hsel].
    assert (ending r1 r2) as He2 by by apply ending_selection.
    destruct sel as [i|err]; [|left; etrans; [exact He1|]; etrans; [exact He2|apply ending_quiet, refuse_quiet]].
    specialize (Hsel i eq_refl). destruct (selected_registered _ _ _ _ (ro_registry _ H1) Hsel) as [Hi1 Hi2].
    pose proof (ed_next _ _ (proj1 He1)). pose proof (ed_next _ _ (proj1 He2)).
    right. right. exists avoid, i, r1, r2. split_and!; try done; try lia.
    + apply (calls_ok_same _ r1); [|done]. destruct Hfr as (r3 & ss & Hq & -> & _).
      etrans; [by apply quiet_calls|]. by split.
    + eapply lookup_weaken_None; [exact Hid|]. etrans; [apply He2|apply He1].
Qed.

(** ** The Router's own services *)

Lemma cancel_token_quiet id r : quiet r (cancel_token id r).
Proof.
  unfold cancel_token. induction (elements (r_peers r)) as [|c l IH]; simpl; [done|].
  etrans; [exact IH|]. destruct (p_user _) as [u|]; [|done]. destruct (String.eqb _ _); [|done].
  apply cancel_quiet.
Qed.

(** The Router's own services change accounts, queues and contexts only. *)
Lemma management_frame p f e r : exists a, quiet (r {{ r_auth := a }}) (management p f e r).
Proof.
  assert (forall g, quiet r (g r) -> exists a, quiet (r {{ r_auth := a }}) (g r)) as Hsame.
  { intros g Hq. exists (r_auth r). by destruct r. }
  unfold management. destruct (String.eqb _ RegistryService).
  { apply (Hsame (registry p f e)). unfold registry, fail_call, answer.
    repeat case_match; apply send_quiet. }
  destruct (p_user _) as [user|]; [|apply (Hsame (fail_call _ _ _ _)), send_quiet].
  destruct (negb _); [apply (Hsame (fail_call _ _ _ _)), send_quiet|].
  destruct (String.eqb _ "whoami").
  { case_match; [apply (Hsame (answer _ _ _)), send_quiet|apply (Hsame (fail_call _ _ _ _)), send_quiet]. }
  destruct (String.eqb _ "issue_token").
  { unfold issue_token. destruct (negb _); [apply (Hsame (fail_call _ _ _ _)), send_quiet|].
    destruct (readRequest _ _ _); [|apply (Hsame (fail_call _ _ _ _)), send_quiet].
    destruct (r_auth r); [|apply (Hsame (fail_call _ _ _ _)), send_quiet].
    destruct (issue _ _ _ _ _) as [a' res]. exists (Some a').
    destruct res as [[]|]; apply send_quiet. }
  destruct (String.eqb _ "revoke_token"); [|apply (Hsame (fail_call _ _ _ _)), send_quiet].
  unfold revoke_token. destruct (negb _); [apply (Hsame (fail_call _ _ _ _)), send_quiet|].
  destruct (readRequest _ _ _) as [[|c s]|]; try (apply (Hsame (fail_call _ _ _ _)), send_quiet).
  destruct (r_auth r) as [a|] eqn:Ha; [|apply (Hsame (fail_call _ _ _ _)), send_quiet].
  destruct (revocable _ _ _).
  - eexists. etrans; [|apply send_quiet]. apply cancel_token_quiet.
  - apply (Hsame (answer _ _ _)), send_quiet.
Qed.

Lemma management_router_ok p f e r : router_ok r -> router_ok (management p f e r).
Proof.
  intros Hr. destruct (management_frame p f e r) as [a Hq].
  eapply router_ok_quiet; [exact Hq|]. by apply router_ok_auth.
Qed.

Lemma call_open_router_ok p f e r :
  env_ok e -> (p < r_next r)%nat -> router_ok r -> router_ok (call_open p f e r).
Proof.
  intros He Hp Hr. unfold call_open.
  assert (forall x, router_ok (refuse p f x (e_now e) r)) as Href.
  { intros. eapply router_ok_quiet; [apply refuse_quiet|done]. }
  destruct (_ && _); [done|]. case_bool_decide as Hid; [done|].
  destruct (r_draining r) eqn:Hdr; [done|].
  destruct (HasPrefix _ _); [by apply management_router_ok|].
  destruct (_ && _) eqn:Hlim; [done|]. destruct (routeCapacity <=? _) eqn:Hcount; [done|].
  unbool. apply dispatch_router_ok; try done.
  - by apply eq_None_not_Some.
  - intros Hl. apply andb_false_iff in Hlim as [?|?]; unbool; lia.
Qed.

Lemma forward_router_ok p f e r :
  env_ok e -> (p < r_next r)%nat -> router_ok r -> router_ok (forward p f e r).
Proof.
  intros He Hp Hr. unfold forward. destruct (_ || _); [by eapply router_ok_quiet; [apply cancel_quiet|]|].
  destruct (String.eqb _ "call.open"); [by apply call_open_router_ok|].
  destruct (r_routes r !! f_callID f) as [rt|] eqn:Hid; [|done]. pose proof (ro_calls _ Hr).
  destruct (_ && _); [|destruct (_ && _); [|done]].
  - apply (router_ok_ending r); [by eapply forward_client_ending|by eapply forward_client_ok|done].
  - apply (router_ok_ending r); [by eapply forward_server_ending|by eapply forward_server_ok|done].
Qed.
End forward_lemmas.
