(* ===== verification/Membership.v ===== *)
(** * Joining and leaving the pools

    Registration, draining and disconnection preserve the registry's
    invariant.  Both loops over a peer's services ([join_pool], [leave_pool])
    alter the pools at distinct names. *)
From S2P Require Import Prelude GoStd GoHeap Protocol Outbox Breaker Libs Auth State Deadline Dedup.
From S2P Require Import Balance Management Router Calls Registry Invariants.
#[local] Open Scope Z_scope.

(** ** Definitions *)

(** The pool after [p] joined with [s]. *)
Definition joined (ps : nat -> peer) (p : nat) (s : service) (o : option pool) : option pool :=
  let po := default (new_pool (s_targeted s)) o in
  let po := po {{ po_methods ::= fun ms =>
    fold_left (fun ms m => <[m_name m := m]> ms) (methods_of s) ms }} in
  let count := Z.of_nat (length (methods_of s)) in
  let wider := match po_contract po with
               | None => true | Some _ => po_contractMethods po <? count end in
  let po := match s_contract s with
            | Some raw => if wider then po {{ po_contract := Some raw; po_contractMethods := count }}
                          else po
            | None => po
            end in
  Some (po {{ po_instances ::= fun l => SortBy (fun c => p_instanceID (ps c)) (l ++ [p]) }}).

(** The pool after [p] left; [None] when nobody is left. *)
Definition left_by (ps : nat -> peer) (p : nat) (o : option pool) : option pool :=
  match o with
  | None => None
  | Some po =>
      let po := po {{ po_instances ::= fun l => DeleteFunc l (fun c => (c =? p)%nat) }} in
      match po_instances po with [] => None | _ => Some (rebuildMethods ps po) end
  end.

(** ** Lemmas *)

Lemma services_ext (f g : gmap string pool -> gmap string pool) r :
  f (r_services r) = g (r_services r) -> r {{ r_services ::= f }} = r {{ r_services ::= g }}.
Proof. intros H. simpl. by rewrite H. Qed.

Lemma join_pool_alter p s r :
  join_pool p s r = r {{ r_services ::= partial_alter (joined (r_pstore r) p s) (s_name s) }}.
Proof.
  unfold join_pool. cbv zeta. apply services_ext. apply map_eq. intros k.
  rewrite lookup_insert, lookup_partial_alter. by case_decide; subst.
Qed.

Lemma leave_pool_alter p s r :
  leave_pool p s r = r {{ r_services ::= partial_alter (left_by (r_pstore r) p) (s_name s) }}.
Proof.
  unfold leave_pool. destruct (r_services r !! s_name s) as [po|] eqn:E.
  - cbv zeta. destruct (po_instances _) as [|c l] eqn:Ei; apply services_ext, map_eq; intros k;
      rewrite ?lookup_insert, ?lookup_delete, lookup_partial_alter; case_decide; subst; try done;
      rewrite E; unfold left_by; cbv zeta; by rewrite Ei.
  - transitivity (r {{ r_services ::= fun ss => ss }}); [by destruct r|].
    apply services_ext, map_eq. intros k. rewrite lookup_partial_alter. case_decide; subst; [|done].
    by rewrite E.
Qed.

(** A loop of alterations at distinct names. *)
Lemma fold_alter (g : service -> (nat -> peer) -> option pool -> option pool) l r :
  NoDup (s_name <$> l) ->
  let r' := fold_left (fun r s =>
    r {{ r_services ::= partial_alter (g s (r_pstore r)) (s_name s) }}) l r in
  r' = r {{ r_services := r_services r' }} /\
  (forall s, s ∈ l -> r_services r' !! s_name s = g s (r_pstore r) (r_services r !! s_name s)) /\
  (forall name, name ∉ s_name <$> l -> r_services r' !! name = r_services r !! name).
Proof.
  revert r. induction l as [|s l IH]; intros r Hnd r'; subst r'.
  { split_and!; [by destruct r|set_solver|done]. }
  apply NoDup_cons in Hnd as [Hs Hnd]. cbn [fold_left].
  set (r1 := r {{ r_services ::= _ }}). destruct (IH r1 Hnd) as (H1 & H2 & H3).
  set (r' := fold_left _ l r1) in *. split_and!.
  - rewrite H1. done.
  - intros s' [->|Hin]%elem_of_cons.
    + rewrite H3 by done. apply lookup_partial_alter_eq.
    + rewrite H2 by done. change (r_pstore r1) with (r_pstore r). f_equal.
      apply lookup_partial_alter_ne. intros E. apply Hs. rewrite E. by apply list_elem_of_fmap_2.
  - intros name Hn. rewrite fmap_cons in Hn. rewrite H3 by set_solver.
    apply lookup_partial_alter_ne. set_solver.
Qed.

Lemma fold_left_ext {A B} (f g : A -> B -> A) l a :
  (forall a b, f a b = g a b) -> fold_left f l a = fold_left g l a.
Proof. intros H. revert a. induction l as [|b l IH]; intros a; simpl; [done|]. by rewrite H, IH. Qed.

Lemma joins_spec p l r : NoDup (s_name <$> l) ->
  let r' := fold_left (fun r s => join_pool p s r) l r in
  r' = r {{ r_services := r_services r' }} /\
  (forall s, s ∈ l -> r_services r' !! s_name s = joined (r_pstore r) p s (r_services r !! s_name s)) /\
  (forall name, name ∉ s_name <$> l -> r_services r' !! name = r_services r !! name).
Proof.
  intros H. cbv zeta. rewrite (fold_left_ext _ _ l r (fun r s => join_pool_alter p s r)).
  apply (fold_alter (fun s ps => joined ps p s) l r H).
Qed.

Lemma leavePools_spec p r : NoDup (s_name <$> p_services (peerOf r p)) ->
  leavePools p r = r {{ r_services := r_services (leavePools p r) }} /\
  forall name, r_services (leavePools p r) !! name =
    if bool_decide (offers (peerOf r p) name) then left_by (r_pstore r) p (r_services r !! name)
    else r_services r !! name.
Proof.
  intros H. unfold leavePools. rewrite (fold_left_ext _ _ _ r (fun r s => leave_pool_alter p s r)).
  destruct (fold_alter (fun s ps => left_by ps p) (p_services (peerOf r p)) r H) as (H1 & H2 & H3).
  split; [done|]. intros name. case_bool_decide as Ho; [|by apply H3].
  apply list_elem_of_fmap in Ho as (s & -> & Hs). by apply H2.
Qed.

(** Keys of a map filled by a loop of insertions. *)
Lemma insert_methods_keep (ms : gmap string method) l name :
  is_Some (ms !! name) \/ (exists m, m ∈ l /\ m_name m = name) ->
  is_Some (fold_left (fun ms m => <[m_name m := m]> ms) l ms !! name).
Proof.
  revert ms. induction l as [|m l IH]; intros ms H; simpl.
  - destruct H as [?|(m & ? & _)]; [done|set_solver].
  - apply IH. destruct H as [H|(m' & [->|Hin]%elem_of_cons & Hn)].
    + left. rewrite lookup_insert. case_decide; eauto.
    + left. rewrite <- Hn, lookup_insert_eq. eauto.
    + right. eauto.
Qed.

Lemma insert_methods_named (ms : gmap string method) l :
  named ms -> named (fold_left (fun ms m => <[m_name m := m]> ms) l ms).
Proof.
  revert ms. induction l as [|m l IH]; intros ms H; simpl; [done|]. apply IH. by apply map_Forall_insert_2.
Qed.

Lemma rebuildMethods_named ps po : named (po_methods (rebuildMethods ps po)).
Proof.
  unfold rebuildMethods. simpl. assert (named ∅) as H by apply map_Forall_empty. revert H.
  generalize (∅ : gmap string method). induction (po_instances po) as [|c l IH]; intros ms H; simpl; [done|].
  apply IH. revert ms H. induction (p_services (ps c)) as [|s k IHk]; intros ms H; simpl; [done|].
  by apply IHk, insert_methods_named.
Qed.

Lemma serves_spec x service name :
  serves x service name = true ->
  exists s m, s ∈ p_services x /\ s_name s = service /\ m ∈ methods_of s /\ m_name m = name.
Proof.
  unfold serves. induction (p_services x) as [|s l IH]; simpl; [done|].
  destruct (String.eqb (s_name s) service) eqn:E.
  - unfold ContainsFunc. rewrite existsb_exists. intros (m & Hm & Hn). unbool.
    exists s, m. split_and!; [set_solver|done|by apply list_elem_of_In|done].
  - intros (s' & m & ? & ?)%IH. exists s', m. set_solver.
Qed.

(** The union of methods covers what its instances serve. *)
Lemma rebuildMethods_keys ps po c service m :
  c ∈ po_instances po -> serves (ps c) service m = true ->
  is_Some (po_methods (rebuildMethods ps po) !! m).
Proof.
  intros Hc Hs. destruct (serves_spec _ _ _ Hs) as (s & m' & Hsin & _ & Hm & <-).
  unfold rebuildMethods. simpl.
  assert (forall l (ms : gmap string method), is_Some (ms !! m_name m') \/ s ∈ l -> is_Some (fold_left (fun ms s =>
    fold_left (fun ms m => <[m_name m := m]> ms) (methods_of s) ms) l ms !! m_name m')) as Hin.
  { induction l as [|s' l IH]; intros ms [?|Hx]; simpl; [done|set_solver|..]; apply IH.
    - left. apply insert_methods_keep. by left.
    - apply elem_of_cons in Hx as [<-|?]; [left|by right]. apply insert_methods_keep. eauto. }
  assert (forall l (ms : gmap string method), is_Some (ms !! m_name m') \/ c ∈ l -> is_Some (fold_left (fun ms inst =>
    fold_left (fun ms s => fold_left (fun ms m => <[m_name m := m]> ms) (methods_of s) ms)
      (p_services (ps inst)) ms) l ms !! m_name m')) as Hout.
  { induction l as [|c' l IH]; intros ms [?|Hx]; simpl; [done|set_solver|..]; apply IH.
    - left. apply Hin. by left.
    - apply elem_of_cons in Hx as [<-|?]; [left|by right]. apply Hin. by right. }
  apply Hout. by right.
Qed.

(** ** Leaving *)

(** What [drain] and [unregister] change before the pools. *)
Record leaving (p : nat) (r0 r1 : Router) : Prop := {
  lv_pools : r_services r1 = r_services r0;
  lv_instances : r_instances r1 ⊆ r_instances r0;
  lv_next : r_next r1 = r_next r0;
  lv_id q : p_instanceID (peerOf r1 q) = p_instanceID (peerOf r0 q);
  lv_services q : p_services (peerOf r1 q) = p_services (peerOf r0 q);
  lv_max q : p_maxInflight (peerOf r1 q) = p_maxInflight (peerOf r0 q);
  lv_draining q : q <> p -> p_draining (peerOf r1 q) = p_draining (peerOf r0 q);
  lv_named : p_instanceID (peerOf r0 p) <> EmptyString;
  lv_live c : live r1 c <-> live r0 c /\ c <> p }.

Lemma StronglySorted_sublist {A} (R : relation A) l k :
  l `sublist_of` k -> StronglySorted R k -> StronglySorted R l.
Proof.
  intros Hs. induction Hs as [|x l k Hs IH|x l k Hs IH]; [done| |];
    inversion 1 as [|? ? Hk Hx]; subst; [|auto].
  constructor; [auto|]. rewrite list.Forall_forall in *. intros y Hy. apply Hx.
  eapply elem_of_submseteq; [done|by apply sublist_submseteq].
Qed.

Lemma StronglySorted_ext {A} (R R' : relation A) l :
  (forall x y, R x y -> R' x y) -> StronglySorted R l -> StronglySorted R' l.
Proof.
  intros H. induction 1 as [|x l Hl IH Hx]; constructor; [done|]. eapply Forall_impl; [done|auto].
Qed.

Lemma leavePools_registry_ok p r0 r1 :
  leaving p r0 r1 -> registry_ok r0 -> registry_ok (leavePools p r1).
Proof.
  intros [L1 L2 L3 L4 L5 L9 L6 L7 L8] H.
  destruct (leavePools_spec p r1) as [Hr Hss]; [rewrite L5; apply H|].
  set (r' := leavePools p r1) in *.
  assert (r_instances r' = r_instances r1) as Hi by by rewrite Hr.
  assert (forall q, peerOf r' q = peerOf r1 q) as Hp by (intros q; by rewrite Hr).
  assert (forall q, live r' q <-> live r0 q /\ q <> p) as Hlive.
  { intros q. rewrite <- L8. unfold live. by rewrite Hi, Hp. }
  assert (forall q name, offers (peerOf r' q) name <-> offers (peerOf r0 q) name) as Hoff
    by (intros; unfold offers; by rewrite Hp, L5).
  assert (instance_id r' = fun q => p_instanceID (peerOf r1 q)) as Hiid.
  { unfold instance_id. by rewrite Hr. }
  assert (forall name po, r_services r0 !! name = Some po ->
    StronglySorted (le_by (instance_id r')) (po_instances po)) as Hsort.
  { intros name po Hpo. eapply StronglySorted_ext; [|apply (pk_sorted _ _ _ (rk_pool _ H _ _ Hpo))].
    intros x y. unfold le_by, instance_id. by rewrite !Hp, !L4. }
  split; intros *.
  - rewrite Hi, Hp, L4. intros Hx. eapply lookup_weaken in Hx; [|exact L2].
    rewrite Hr. simpl. rewrite L3. by apply H.
  - rewrite Hoff. apply H.
  - rewrite Hp, L5. apply H.
  - rewrite Hss, L1. case_bool_decide as Ho.
    + destruct (r_services r0 !! name) as [po0|] eqn:Hpo; [|done]. unfold left_by.
      pose proof (rk_pool _ H _ _ Hpo) as [K1 K2 K3 K4 K5 K6].
      set (l := DeleteFunc (po_instances po0) (fun c => (c =? p)%nat)).
      assert (forall c, c ∈ l <-> c ∈ po_instances po0 /\ c <> p) as Hl.
      { intros c. unfold l. rewrite elem_of_DeleteFunc, Nat.eqb_neq. done. }
      assert (l `sublist_of` po_instances po0) as Hsub by apply DeleteFunc_sublist.
      simpl. fold l. intros Hx. assert (l <> []) as Hne by (intros E; by rewrite E in Hx).
      assert (po = rebuildMethods (r_pstore r1) (po0 {{ po_instances := l }})) as ->.
      { destruct l; [done|]. by simplify_eq. }
      assert (po_instances (rebuildMethods (r_pstore r1) (po0 {{ po_instances := l }})) = l) as Hpl by done.
      split; rewrite ?Hpl.
      * done.
      * intros c. rewrite Hl, K2, Hlive, Hoff. tauto.
      * by eapply sublist_NoDup.
      * eapply StronglySorted_sublist; [exact Hsub|]. by eapply Hsort.
      * intros c m Hc Hs. apply (rebuildMethods_keys (r_pstore r1) (po0 {{ po_instances := l }}) c name m); [done|].
        by rewrite <- Hs, Hp.
      * apply rebuildMethods_named.
    + intros Hpo. pose proof (rk_pool _ H _ _ Hpo) as [K1 K2 K3 K4 K5 K6]. split; try done.
      * intros c. rewrite K2, Hlive, Hoff. split; [|tauto]. intros [Hlv Hof]. split_and!; [done| |done].
        intros ->. apply Ho. unfold offers. by rewrite L5.
      * by eapply Hsort.
      * intros c m Hc Hs. apply (K5 c); [done|]. rewrite <- Hs. apply serves_services. by rewrite Hp, L5.
  - rewrite Hlive, Hoff, Hss, L1. intros [Hlv Hne] Hof.
    destruct (rk_offered _ H _ _ Hlv Hof) as [po Hpo]. rewrite Hpo.
    case_bool_decide; [|by eexists]. unfold left_by. simpl.
    pose proof (rk_pool _ H _ _ Hpo) as [K1 K2 K3 K4 K5 K6].
    assert (p0 ∈ DeleteFunc (po_instances po) (fun c => (c =? p)%nat)) as Hin.
    { rewrite elem_of_DeleteFunc, Nat.eqb_neq. split; [|done]. by apply K2. }
    destruct (DeleteFunc _ _); [set_solver|by eexists].
  - rewrite Hr. simpl. intros Hq. change (p_instanceID (peerOf r1 p0) = EmptyString).
    rewrite L4. apply (rk_fresh _ H). lia.
  - rewrite Hp, L4, L5, L9. intros Hq. destruct (rk_blank _ H _ Hq) as (? & ? & ?).
    split_and!; [done| |done]. rewrite L6; [done|]. congruence.
Qed.

Lemma is_registered_spec p r : is_registered p r = true <->
  r_instances r !! p_instanceID (peerOf r p) = Some p.
Proof. unfold is_registered. by rewrite bool_decide_eq_true. Qed.

(** The pools are the only thing [leavePools] changes. *)
Lemma leavePools_frame p r : NoDup (s_name <$> p_services (peerOf r p)) ->
  leavePools p r = r {{ r_services := r_services (leavePools p r) }}.
Proof. intros H. by apply leavePools_spec. Qed.

Lemma services_router_ok ss r r' : r' = r {{ r_services := ss }} -> router_ok r -> registry_ok r' -> router_ok r'.
Proof.
  intros -> H Hr. split; [|done| |apply H].
  - apply (calls_ok_same _ r); [by split|apply H].
  - destruct (ro_limits _ H). by split.
Qed.

Lemma drain_router_ok p r : router_ok r -> router_ok (drain p r).
Proof.
  intros H. unfold drain. destruct (p_draining _ || negb _) eqn:E; [done|].
  apply orb_false_iff in E as [Ed Er]. apply negb_false_iff, is_registered_spec in Er.
  pose proof (ro_registry _ H) as HR. destruct (rk_instance _ HR _ _ Er) as (_ & Hid & _).
  set (r1 := upd_peer p _ r).
  assert (forall {B} (g : peer -> B), (forall x b, g (x {{ p_draining := b }}) = g x) ->
    forall q, g (peerOf r1 q) = g (peerOf r q)) as Hg by (intros B g Hg q; by apply (update_field g)).
  assert (leaving p r r1) as Hl.
  { split; try done.
    - intros q. by apply (Hg _ p_instanceID).
    - intros q. by apply (Hg _ p_services).
    - intros q. by apply (Hg _ p_maxInflight).
    - intros q Hq. unfold r1, peerOf, upd_peer. simpl. by rewrite update_ne.
    - intros c. unfold live. rewrite (Hg _ p_instanceID) by done.
      unfold r1, peerOf, upd_peer. simpl. destruct (decide (c = p)) as [->|Hc].
      + rewrite update_eq. simpl. split; [by intros []|by intros []].
      + rewrite update_ne by done. tauto. }
  split.
  - apply (calls_ok_same _ r); [|apply H]. rewrite leavePools_frame
      by (rewrite (Hg _ p_services) by done; apply HR).
    split; try done; intros q; [by apply (Hg _ p_inflight)|by apply (Hg _ p_calls)].
  - by eapply leavePools_registry_ok.
  - rewrite leavePools_frame by (rewrite (Hg _ p_services) by done; apply HR).
    pose proof (ro_limits _ H) as HL. split; intros *; change (peerOf (_ {{ r_services := _ }}) ?q) with (peerOf r1 q);
      rewrite ?(Hg _ p_maxInflight), ?(Hg _ p_inflight), ?(Hg _ p_calls), ?(Hg _ p_instanceID) by done; apply HL.
  - rewrite leavePools_frame by (rewrite (Hg _ p_services) by done; apply HR). apply H.
Qed.

Lemma unregister_router_ok p r : router_ok r -> router_ok (unregister p r).
Proof.
  intros H. unfold unregister. destruct (is_registered p r) eqn:Er; [|done].
  apply is_registered_spec in Er. pose proof (ro_registry _ H) as HR.
  destruct (rk_instance _ HR _ _ Er) as (_ & Hid & _).
  set (r1 := r {{ r_instances ::= _ }}).
  assert (leaving p r r1) as Hl.
  { split; try done.
    - apply delete_subseteq.
    - intros c. unfold live. change (peerOf r1 c) with (peerOf r c).
      change (r_instances r1) with (delete (p_instanceID (peerOf r p)) (r_instances r)).
      rewrite lookup_delete_Some. split.
      + intros [[Hne Hc] Hd]. split_and!; [done..|]. by intros ->.
      + intros [[Hc Hd] Hne]. split_and!; try done. intros E. rewrite <- E in Hc. congruence. }
  split.
  - rewrite leavePools_frame by apply HR. apply (calls_ok_same _ r); [by split|apply H].
  - by eapply leavePools_registry_ok.
  - rewrite leavePools_frame by apply HR. pose proof (ro_limits _ H) as []. by split.
  - rewrite leavePools_frame by apply HR. apply H.
Qed.

(** ** Joining *)

Lemma check_services_spec u seen l : check_services u seen l = None ->
  NoDup (s_name <$> l) /\ (forall s, s ∈ l -> (s_name s ∉ seen) /\
    validServiceName (s_name s) = true /\ HasPrefix (s_name s) reservedPrefix = false /\
    allowsRegistration u (s_name s) = true).
Proof.
  revert seen. induction l as [|s l IH]; intros seen H; cbn [check_services] in H.
  { split; [apply NoDup_nil_2|set_solver]. }
  destruct (negb _ || _ || _ || _) eqn:E; [done|]. unbool.
  destruct (check_methods _ _); [done|]. destruct (IH _ H) as [Hn1 Hn2]. split.
  - apply NoDup_cons. split; [|done]. intros (s' & Hs' & Hin)%list_elem_of_fmap.
    destruct (Hn2 _ Hin) as [Hn _]. set_solver.
  - intros s' [->|Hin]%elem_of_cons.
    + split_and!; try done. intros Hin. apply Contains_spec in Hin. congruence.
    + destruct (Hn2 _ Hin) as (? & ? & ? & ?). split_and!; try done. set_solver.
Qed.

(** The state between the checks of [register] and its loop. *)
Definition enter (p : nat) (f : frame) (r : Router) : Router :=
  let r := upd_peer p (fun x => x {{ p_instanceID := f_instanceID f;
    p_services := services_of f; p_maxInflight := f_maxInflight f }}) r in
  r {{ r_instances ::= insert (f_instanceID f) p }}.

Definition registration_ok (p : nat) (f : frame) (r : Router) : Prop :=
  (p < r_next r)%nat /\ p_instanceID (peerOf r p) = EmptyString /\ f_instanceID f <> EmptyString.

Lemma register_cases p f r : exists r' err, register p f r = (r', err) /\
  ((r' = r /\ is_Some err) \/
   (err = None /\ check_services (p_user (peerOf r p)) [] (services_of f) = None /\
    r_instances r !! f_instanceID f = None /\ check_compatible r (services_of f) = None /\
    exists r1, quiet (enter p f r) r1 /\
      r' = fold_left (fun r s => join_pool p s r) (services_of f) r1)).
Proof.
  unfold register. destruct (check_services _ _ _) eqn:E1; [eauto 10|].
  destruct (r_instances r !! _) eqn:E2; [eauto 10|].
  destruct (check_compatible _ _) eqn:E3; [eauto 10|].
  do 2 eexists. split; [reflexivity|]. right. split_and!; try done.
  eexists. split; [|reflexivity]. apply send_quiet.
Qed.

Section enter.
Context (p : nat) (f : frame) (r : Router) (Hok : router_ok r) (Hreg : registration_ok p f r).
Context (Hcheck : check_services (p_user (peerOf r p)) [] (services_of f) = None).
Context (Hfree : r_instances r !! f_instanceID f = None).

Lemma enter_other q : q <> p -> peerOf (enter p f r) q = peerOf r q.
Proof. intros. unfold enter, peerOf, upd_peer. simpl. by rewrite update_ne. Qed.

Lemma enter_self : peerOf (enter p f r) p = (peerOf r p) {{ p_instanceID := f_instanceID f;
  p_services := services_of f; p_maxInflight := f_maxInflight f }}.
Proof. unfold enter, peerOf, upd_peer. simpl. by rewrite update_eq. Qed.

Lemma not_live_before : ~ live r p.
Proof.
  intros [Hl _]. apply (rk_instance _ (ro_registry _ Hok)) in Hl as (_ & Hne & _).
  destruct Hreg as (_ & He & _). congruence.
Qed.

Lemma enter_live c : live (enter p f r) c <-> live r c \/ c = p.
Proof.
  destruct (decide (c = p)) as [->|Hne].
  - split; [by right|]. intros _. unfold live. rewrite enter_self. simpl. split.
    + apply lookup_insert_eq.
    + apply (rk_blank _ (ro_registry _ Hok)). apply Hreg.
  - unfold live. rewrite enter_other by done. unfold enter. simpl.
    rewrite lookup_insert_Some. split.
    + intros [[[Hx Hp]|[_ Hl]] Hd]; [congruence|by left].
    + intros [[Hl Hd]|]; [|done]. split; [|done]. right. split; [congruence|done].
Qed.

Lemma enter_calls : calls_same r (enter p f r).
Proof.
  split; try done; intros q; unfold enter, peerOf, upd_peer; simpl;
    [by apply (update_field p_inflight)|by apply (update_field p_calls)].
Qed.

Lemma enter_offers q name : offers (peerOf (enter p f r) q) name ->
  (q = p /\ exists s, s ∈ services_of f /\ s_name s = name) \/ (q <> p /\ offers (peerOf r q) name).
Proof.
  destruct (decide (q = p)) as [->|Hne].
  - rewrite enter_self. unfold offers. simpl. intros (s & -> & Hs)%list_elem_of_fmap. eauto.
  - rewrite enter_other by done. auto.
Qed.

(** A pool the new instance joins. *)
Lemma joined_pool_ok r' s po :
  s ∈ services_of f -> (forall q, registered_as (peerOf r' q) = registered_as (peerOf (enter p f r) q)) ->
  r_instances r' = r_instances (enter p f r) ->
  joined (r_pstore r') p s (r_services r !! s_name s) = Some po -> pool_ok r' (s_name s) po.
Proof.
  intros Hs Hpeer Hinst Hj.
  destruct (check_services_spec _ _ _ Hcheck) as [Hnd _].
  set (old := default (new_pool (s_targeted s)) (r_services r !! s_name s)).
  assert (po_instances po ≡ₚ po_instances old ++ [p]) as Hperm.
  { unfold joined in Hj. fold old in Hj. injection Hj as <-. simpl. rewrite SortBy_Permutation.
    repeat case_match; done. }
  assert (StronglySorted (le_by (instance_id r')) (po_instances po)) as Hsorted.
  { unfold joined in Hj. injection Hj as <-. simpl. apply SortBy_sorted. }
  assert (forall m, is_Some (po_methods old !! m) \/ (exists x, x ∈ methods_of s /\ m_name x = m) ->
    is_Some (po_methods po !! m)) as Hmeth.
  { intros m Hm. apply (insert_methods_keep _ (methods_of s)) in Hm.
    unfold joined in Hj. fold old in Hj. injection Hj as <-. simpl. repeat case_match; done. }
  assert (forall c, c ∈ po_instances old <-> live r c /\ offers (peerOf r c) (s_name s)) as Hold.
  { intros c. unfold old. destruct (r_services r !! s_name s) as [po0|] eqn:Hpo; simpl.
    - apply (rk_pool _ (ro_registry _ Hok) _ _ Hpo).
    - split; [set_solver|]. intros [Hl Ho].
      destruct (rk_offered _ (ro_registry _ Hok) _ _ Hl Ho). congruence. }
  assert (forall c, live r' c <-> live r c \/ c = p) as Hlive.
  { intros c. rewrite <- enter_live. unfold live. rewrite Hinst.
    by destruct (registered_fields _ _ (Hpeer c)) as (-> & _ & -> & _). }
  assert (forall c, p_services (peerOf r' c) = p_services (peerOf (enter p f r) c)) as Hsv
    by (intros c; by destruct (registered_fields _ _ (Hpeer c)) as (_ & -> & _)).
  split.
  - intros E. rewrite E in Hperm. apply Permutation_nil_l in Hperm. by destruct (po_instances old).
  - intros c. rewrite Hperm, elem_of_app, list_elem_of_singleton, Hold, Hlive.
    unfold offers at 2. rewrite Hsv. destruct (decide (c = p)) as [->|Hne].
    + rewrite enter_self. simpl. split; [|by right]. intros _. split; [by right|].
      by apply list_elem_of_fmap_2.
    + rewrite enter_other by done. unfold offers. tauto.
  - rewrite Hperm. apply NoDup_app. split_and!; [| |apply NoDup_singleton].
    + unfold old. destruct (r_services r !! s_name s) as [po0|] eqn:Hpo; simpl; [|apply NoDup_nil_2].
      apply (rk_pool _ (ro_registry _ Hok) _ _ Hpo).
    + intros c [Hl _]%Hold. rewrite list_elem_of_singleton. intros ->. by apply not_live_before.
  - done.
  - intros c m. rewrite Hperm, elem_of_app, list_elem_of_singleton. intros Hc Hserv.
    rewrite (serves_services _ (peerOf (enter p f r) c)) in Hserv by done. apply Hmeth.
    destruct (decide (c = p)) as [->|Hne].
    + right. rewrite enter_self in Hserv. destruct (serves_spec _ _ _ Hserv) as (s' & x & Hs' & Hn & Hx & <-).
      simpl in Hs'. assert (s' = s) as ->; [|eauto].
      apply list_elem_of_lookup in Hs as [i Hi]. apply list_elem_of_lookup in Hs' as [j Hj'].
      assert (i = j) as ->; [|congruence].
      eapply (NoDup_lookup (s_name <$> services_of f)); [done|by rewrite list_lookup_fmap, Hi|].
      rewrite list_lookup_fmap, Hj'. simpl. by rewrite Hn.
    + left. destruct Hc as [Hc|]; [|done]. rewrite enter_other in Hserv by done.
      unfold old in *. destruct (r_services r !! s_name s) as [po0|] eqn:Hpo; simpl in *; [|set_solver].
      by apply (pk_methods _ _ _ (rk_pool _ (ro_registry _ Hok) _ _ Hpo) c).
  - assert (named (po_methods old)) as Hnamed.
    { unfold old. destruct (r_services r !! s_name s) as [po0|] eqn:Hpo; [|apply map_Forall_empty].
      apply (rk_pool _ (ro_registry _ Hok) _ _ Hpo). }
    apply (insert_methods_named _ (methods_of s)) in Hnamed.
    unfold joined in Hj. fold old in Hj. injection Hj as <-. simpl. by repeat case_match.
Qed.
End enter.

Lemma register_router_ok p f r :
  router_ok r -> registration_ok p f r -> router_ok (register p f r).1.
Proof.
  intros Hok Hreg. destruct (register_cases p f r) as (r' & err & -> & Hc). simpl.
  destruct Hc as [[-> _]|(-> & Hcheck & Hfree & _ & r1 & Hq & Hr')]; [done|].
  destruct (check_services_spec _ _ _ Hcheck) as [Hnd Hvalid].
  destruct (joins_spec p (services_of f) r1 Hnd) as (H1 & H2 & H3).
  rewrite <- Hr' in H1, H2, H3. pose proof (ro_registry _ Hok) as HR.
  assert (forall q, peerOf r' q = peerOf r1 q) as Hp by (intros q; by rewrite H1).
  assert (forall q, registered_as (peerOf r' q) = registered_as (peerOf (enter p f r) q)) as Hpeer.
  { intros q. rewrite Hp. by apply (quiet_peer_field registered_as). }
  assert (r_instances r' = r_instances (enter p f r)) as Hi.
  { rewrite H1. change (r_instances r1 = r_instances (enter p f r)).
    by apply (quiet_field r_instances (enter p f r)). }
  assert (r_services r1 = r_services r) as Hss by by apply (quiet_field r_services (enter p f r)).
  assert (r_next r' = r_next r) as Hn.
  { rewrite H1. simpl. by apply (quiet_field r_next (enter p f r)). }
  assert (forall c, live r' c <-> live r c \/ c = p) as Hlive.
  { intros c. rewrite <- (enter_live p f r Hok Hreg Hfree). unfold live. rewrite Hi.
    by destruct (registered_fields _ _ (Hpeer c)) as (-> & _ & -> & _). }
  assert (forall c, p_services (peerOf r' c) = p_services (peerOf (enter p f r) c)) as Hsv
    by (intros c; by destruct (registered_fields _ _ (Hpeer c)) as (_ & -> & _)).
  assert (forall c, p_instanceID (peerOf r' c) = p_instanceID (peerOf (enter p f r) c)) as Hid
    by (intros c; by destruct (registered_fields _ _ (Hpeer c)) as (-> & _)).
  assert (forall c, p_draining (peerOf r' c) = p_draining (peerOf (enter p f r) c)) as Hdr
    by (intros c; by destruct (registered_fields _ _ (Hpeer c)) as (_ & _ & -> & _)).
  destruct Hreg as (Hlt & Hblank & Hne).
  split.
  - apply (calls_ok_same _ r); [|apply Hok]. etrans; [apply (enter_calls p f r)|].
    etrans; [by apply quiet_calls|]. rewrite H1. by split.
  - split; intros *.
    + rewrite Hi, Hid, Hn.
      change (r_instances (enter p f r)) with (<[f_instanceID f := p]> (r_instances r)).
      intros [[<- <-]|[Hx Hl]]%lookup_insert_Some.
      * rewrite enter_self. done.
      * destruct (rk_instance _ HR _ _ Hl) as (Hl1 & Hl2 & Hl3).
        rewrite enter_other; [done|]. intros ->. congruence.
    + unfold offers. rewrite Hsv. intros [[-> (s & Hs & <-)]|[Hx Ho]]%enter_offers.
      * by destruct (Hvalid _ Hs) as (_ & ? & ? & _).
      * by apply (rk_names _ HR _ _ Ho).
    + rewrite Hsv. destruct (decide (p0 = p)) as [->|]; [by rewrite enter_self|].
      rewrite enter_other by done. apply HR.
    + intros Hpo. destruct (decide (name ∈ s_name <$> services_of f)) as [Hin|Hin].
      * apply list_elem_of_fmap in Hin as (s & -> & Hs). rewrite H2 in Hpo by done.
        apply (joined_pool_ok p f r Hok (conj Hlt (conj Hblank Hne)) Hcheck Hfree r' s); try done.
        rewrite Hss in Hpo. rewrite <- Hpo. f_equal. by rewrite H1.
      * rewrite H3, Hss in Hpo by done. destruct (rk_pool _ HR _ _ Hpo) as [K1 K2 K3 K4 K5 K6].
        assert (forall c, c ∈ po_instances po -> c <> p) as Hnp.
        { intros c Hc ->. apply K2 in Hc as [Hl _]. by eapply not_live_before. }
        split; try done.
        -- intros c. rewrite K2, Hlive. unfold offers at 2. rewrite Hsv.
           destruct (decide (c = p)) as [->|Hx].
           ++ rewrite enter_self. simpl. split; [|tauto]. intros [Hl _].
              exfalso. by eapply (not_live_before p f r).
           ++ rewrite enter_other by done. unfold offers. tauto.
        -- clear -K4 Hnp Hid. induction K4 as [|x l Hl IH Hx]; constructor; [apply IH; set_solver|].
           rewrite list.Forall_forall in *. intros y Hy. specialize (Hx y Hy).
           unfold le_by, instance_id in *. rewrite !Hid, !enter_other by set_solver. done.
        -- intros c m Hc Hserv. apply (K5 c); [done|]. rewrite <- Hserv. apply serves_services.
           rewrite Hsv, enter_other; [done|]. auto.
    + rewrite Hlive. unfold offers. rewrite Hsv. intros Hl Ho.
      destruct (decide (name ∈ s_name <$> services_of f)) as [Hin|Hin].
      * apply list_elem_of_fmap in Hin as (s & -> & Hs). rewrite H2 by done. by eexists.
      * rewrite H3, Hss by done. apply enter_offers in Ho as [[-> (s & Hs & <-)]|[Hx Ho]].
        -- exfalso. by apply Hin, list_elem_of_fmap_2.
        -- destruct Hl as [Hl| ->]; [|done]. by apply (rk_offered _ HR p0).
    + rewrite Hn, Hid. intros Hx. rewrite enter_other by lia. by apply (rk_fresh _ HR).
    + rewrite Hid, Hsv, Hdr. destruct (registered_fields _ _ (Hpeer p0)) as (_ & _ & _ & ->).
      destruct (decide (p0 = p)) as [->|]; [by rewrite enter_self|].
      rewrite enter_other by done. apply HR.
  - pose proof (ro_limits _ Hok) as HL.
    assert (forall q, p_inflight (peerOf r' q) = p_inflight (peerOf r q)) as Hin.
    { intros q. rewrite Hp, (quiet_peer_field p_inflight (enter p f r)) by done.
      apply (cs_inflight _ _ (enter_calls p f r)). }
    assert (forall q, p_calls (peerOf r' q) = p_calls (peerOf r q)) as Hca.
    { intros q. rewrite Hp, (quiet_peer_field p_calls (enter p f r)) by done.
      apply (cs_calls _ _ (enter_calls p f r)). }
    assert (r_config r' = r_config r) as Hcf.
    { rewrite H1. simpl. by apply (quiet_field r_config (enter p f r)). }
    split; [intros q Hx..|].
    + rewrite Hin. destruct (registered_fields _ _ (Hpeer q)) as (_ & _ & _ & Hm). rewrite Hm in *.
      destruct (decide (q = p)) as [->|]; [pose proof (lm_unregistered _ HL p Hblank); lia|].
      rewrite enter_other in * by done. by apply (lm_inflight _ HL).
    + rewrite Hca, Hcf in *. by apply (lm_calls _ HL).
    + rewrite Hin. rewrite Hid in Hx. destruct (decide (q = p)) as [->|]; [by apply (lm_unregistered _ HL)|].
      rewrite enter_other in Hx by done. by apply (lm_unregistered _ HL).
    + assert (r_routes r' = r_routes r) as Hro.
      { rewrite H1. simpl. by apply (quiet_field r_routes (enter p f r)). }
      unfold route_count. rewrite Hro. apply (lm_routes _ HL).
  - rewrite H1. unfold drained_ok. simpl. rewrite (quiet_field r_drained (enter p f r) r1),
      (quiet_field r_draining (enter p f r) r1), (quiet_field r_routes (enter p f r) r1) by done. apply Hok.
Qed.
