(* ===== verification/Reachable.v ===== *)
(** * Reachable states

    [step] is one critical section of a running Router: an upgrade, a frame
    received by a connection, a frame written, a disconnection, a wake-up of
    the expiry loop, an HTTP call's peer, shutdown.  [system_ok] holds in every
    state that steps reach from the Router that [Start] makes. *)
From S2P Require Import Prelude GoStd GoHeap Json Protocol Outbox Breaker Libs Auth State Deadline.
From S2P Require Import Dedup Balance Management OpenApi Router Connection Http Calls Registry.
From S2P Require Import Invariants Membership.
#[local] Open Scope Z_scope.

(** ** Definitions *)

(** The phases in which a WebSocket connection counts. *)
Definition connected (ph : phase) : bool := match ph with Gone => false | _ => true end.
Definition count_connections (s : System) : Z :=
  sum_with (fun p => one (connected (sy_phase s p))) (seq 0 (r_next (sy_router s))).
Definition count_anonymous (s : System) : Z :=
  sum_with (fun p => one (connected (sy_phase s p) && sy_anonymous s p))
    (seq 0 (r_next (sy_router s))).

(** What [serve_begin] let through, in some state. *)
Definition admitted `{Crypto, Floats} (pd : http_pending) : Prop :=
  exists req e r, (serve_begin req e r).2 = inr pd.

Inductive step `{Crypto, Floats} : System -> System -> Prop :=
  | StepConnect header accepted e s :
      env_ok e -> step s (connect header accepted e s).1
  | StepReceive p message e s :
      env_ok e -> step s (receive p message e s)
  | StepWrite p ok now s :
      step s (on_router (fun r => (write p ok now r).1) s)
  | StepDisconnect p e s :
      env_ok e -> connected (sy_phase s p) = true -> step s (disconnect p e s)
  | StepHTTPBegin req e s :
      env_ok e -> step s (on_router (fun r => (serve_begin req e r).1) s)
  | StepHTTPOpen pd id e s :
      env_ok e -> admitted pd -> step s (on_router (fun r => (serve_open pd id e r).1) s)
  | StepHTTPDone s : step s (on_router http_done s)
  | StepForwardVirtual p f e s :
      env_ok e -> p ∈ r_peers (sy_router s) -> sy_phase s p = Gone ->
      step s (on_router (forward p f e) s)
  | StepReleaseVirtual p e s :
      env_ok e -> p ∈ r_peers (sy_router s) -> sy_phase s p = Gone ->
      step s (on_router (close_peer p e) s)
  | StepExpire now s : step s (on_router (expire now) s)
  | StepShutdown s : step s (on_router Shutdown s)
  | StepClose e s : env_ok e -> step s (on_router (Close e) s)
  | StepCloseFinish s : step s (on_router close_finish s).

Definition start (config : Config) (auth : option Auth) : System :=
  MkSystem (newRouter config auth) (fun _ => Gone) (fun _ => false).

(** Configurations [Start] lets through. *)
Definition config_ok (c : Config) : Prop :=
  0 <= c_MaxConnections c /\ 0 <= c_MaxAnonymousConnections c /\ 0 <= c_HTTPMaxInflight c.

Inductive reachable `{Crypto, Floats} (config : Config) (auth : option Auth) : System -> Prop :=
  | ReachStart : reachable config auth (start config auth)
  | ReachStep s s' : reachable config auth s -> step s s' -> reachable config auth s'.

Record system_ok (s : System) : Prop := {
  sk_router : router_ok (sy_router s);
  sk_peer p : p ∈ r_peers (sy_router s) -> (p < r_next (sy_router s))%nat;
  sk_phase p : sy_phase s p <> Gone -> (p < r_next (sy_router s))%nat;
  sk_unregistered p : (sy_phase s p = AwaitHello \/ exists id, sy_phase s p = AwaitRegister id) ->
    p_instanceID (peerOf (sy_router s) p) = EmptyString;
  sk_connections : r_connections (sy_router s) = count_connections s;
  sk_anonymous : r_anonymous (sy_router s) = count_anonymous s;
  sk_max : r_connections (sy_router s) <= c_MaxConnections (r_config (sy_router s));
  sk_max_anonymous : r_anonymous (sy_router s) <= c_MaxAnonymousConnections (r_config (sy_router s));
  sk_http : r_httpInflight (sy_router s) <= c_HTTPMaxInflight (r_config (sy_router s)) }.

(** ** Lemmas *)

(** The invariant but for the drain flag. *)
Definition sound (r : Router) : Prop := calls_ok r /\ registry_ok r /\ limits_ok r.

Lemma router_ok_sound r : router_ok r <-> sound r /\ drained_ok r.
Proof. split; [intros []; by split_and!|intros [(? & ? & ?) ?]; by split]. Qed.

Lemma sound_same r r' :
  calls_same r r' -> same_registry r r' -> r_config r' = r_config r -> sound r -> sound r'.
Proof.
  intros Hc Hs Hcf (H1 & H2 & HL). split_and!.
  - by eapply calls_ok_same.
  - by eapply registry_ok_same.
  - split; [intros q Hx..|].
    + destruct (registered_fields _ _ (sr_peer _ _ Hs q)) as (_ & _ & _ & Hm). rewrite Hm in *.
      rewrite (cs_inflight _ _ Hc). by apply (lm_inflight _ HL).
    + rewrite (cs_calls _ _ Hc), Hcf in *. by apply (lm_calls _ HL).
    + rewrite (cs_inflight _ _ Hc). apply (lm_unregistered _ HL).
      by destruct (registered_fields _ _ (sr_peer _ _ Hs q)) as (<- & _).
    + unfold route_count. rewrite (cs_routes _ _ Hc). apply (lm_routes _ HL).
Qed.

Lemma sound_ending r r' : ending r r' -> calls_ok r' -> sound r -> sound r'.
Proof.
  intros He Hc (_ & H2 & H3). split_and!; [done|by eapply registry_ok_ending|by eapply limits_ok_ending].
Qed.

Lemma router_ok_same r r' :
  calls_same r r' -> same_registry r r' -> r_config r' = r_config r ->
  r_draining r' = r_draining r -> r_drained r' = r_drained r -> router_ok r -> router_ok r'.
Proof.
  rewrite !router_ok_sound. intros Hc Hs Hcf Hd1 Hd2 [H Hd]. split; [by eapply sound_same|].
  unfold drained_ok. by rewrite Hd1, Hd2, (cs_routes _ _ Hc).
Qed.

(** ** Expiry, removal *)

Lemma expire_router_ok now r : router_ok r -> router_ok (expire now r).
Proof.
  intros H. unfold expire. apply (router_ok_ending r); [|apply expire_loop_ok, H|done].
  apply expire_loop_ending, H.
Qed.

Lemma remove_router_ok p e r : router_ok r -> router_ok (remove p e r).
Proof.
  intros H. unfold remove. set (r1 := r {{ r_peers ::= _ }}).
  assert (router_ok r1) as H1 by by apply (router_ok_same r); [split|split|..].
  assert (router_ok (peers_gone r1)) as H2.
  { unfold peers_gone. destruct (_ && _); [|done]. by apply (router_ok_same r1); [split|split|..]. }
  pose proof (unregister_router_ok p _ H2) as H3. set (r3 := unregister p _) in *.
  destruct (fold_ending (remove_route p (e_now e)) (iter_keys e (r_routes r3)) r3) as [H4 H5].
  - intros id r0 H0. split; [by apply remove_route_ok|by apply remove_route_ending].
  - apply H3.
  - by eapply router_ok_ending.
Qed.

Lemma close_peer_router_ok p e r : router_ok r -> router_ok (close_peer p e r).
Proof.
  intros H. unfold close_peer. apply remove_router_ok.
  eapply router_ok_quiet; [|eapply router_ok_quiet; [apply cancel_quiet|exact H]].
  by apply upd_peer_quiet.
Qed.

(** ** New peers *)

Lemma new_peer_other u role id r q : q <> r_next r -> peerOf (new_peer u role id r) q = peerOf r q.
Proof. intros. unfold new_peer, peerOf, upd_peer. simpl. by rewrite update_ne. Qed.

Lemma new_peer_self u role id r : peerOf (new_peer u role id r) (r_next r) =
  peer0 {{ p_user := u; p_role := role; p_id := id;
           p_ctxDeadline := match u with Some u => u_expires u | None => None end;
           p_out := newOutbox (c_OutboxSize (r_config r)) }}.
Proof. unfold new_peer, peerOf, upd_peer. simpl. by rewrite update_eq. Qed.

Lemma new_peer_router_ok u role id r : router_ok r -> router_ok (new_peer u role id r).
Proof.
  intros H. set (r' := new_peer u role id r). set (p := r_next r).
  destruct (co_fresh _ _ (ro_calls _ H) p) as [Hf1 Hf2]; [done|].
  assert (p_instanceID (peerOf r p) = EmptyString) as Hf3 by by apply (rk_fresh _ (ro_registry _ H)).
  destruct (rk_blank _ (ro_registry _ H) _ Hf3) as (Hf4 & Hf5 & Hf6).
  assert (forall q, p_inflight (peerOf r' q) = p_inflight (peerOf r q)) as Hin.
  { intros q. destruct (decide (q = p)) as [->|Hne]; [|unfold r'; by rewrite new_peer_other].
    unfold r', p. rewrite new_peer_self. done. }
  assert (forall q, p_calls (peerOf r' q) = p_calls (peerOf r q)) as Hca.
  { intros q. destruct (decide (q = p)) as [->|Hne]; [|unfold r'; by rewrite new_peer_other].
    unfold r', p. rewrite new_peer_self. done. }
  assert (forall q, registered_as (peerOf r' q) = registered_as (peerOf r q)) as Hreg.
  { intros q. destruct (decide (q = p)) as [->|Hne]; [|unfold r'; by rewrite new_peer_other].
    unfold r', p. rewrite new_peer_self. unfold registered_as. fold p. by rewrite Hf3, Hf4, Hf5, Hf6. }
  assert (calls_ok r') as Hc.
  { pose proof (ro_calls _ H) as [C1 C2 C3 C4 C5 C6 C7 C8 C9 C10]. split; try done.
    - intros i rt Hi. destruct (C1 i rt Hi). split; [done|]. simpl. lia.
    - intros q. rewrite Hin, C2. done.
    - intros q. rewrite Hca, C3. done.
    - intros q Hq. rewrite Hin, Hca. apply C4. simpl in Hq. lia.
    - by apply (deadlines_ok_ext r).
    - intros d Hd. destruct (C8 d Hd). split; try done. simpl. lia. }
  split; [done| | |apply H].
  - apply (registry_ok_same r); [|apply H]. split; try done. simpl. lia.
  - pose proof (ro_limits _ H) as HL. split; [intros q Hx..|apply (lm_routes _ HL)].
    + destruct (registered_fields _ _ (Hreg q)) as (_ & _ & _ & Hm). rewrite Hm, Hin in *.
      by apply (lm_inflight _ HL).
    + rewrite Hca. by apply (lm_calls _ HL).
    + rewrite Hin. apply (lm_unregistered _ HL).
      by destruct (registered_fields _ _ (Hreg q)) as (<- & _).
Qed.

(** ** Shutdown *)

Lemma wake_all_quiet l r : quiet r (foldr wake_peer r l).
Proof. induction l as [|p l IH]; simpl; [done|]. etrans; [exact IH|apply wake_peer_quiet]. Qed.

Lemma startDraining_spec r :
  r_draining (startDraining r) = true /\ r_drained (startDraining r) = r_drained r /\
  r_routes (startDraining r) = r_routes r /\ calls_same r (startDraining r) /\
  same_registry r (startDraining r) /\ r_config (startDraining r) = r_config r.
Proof.
  unfold startDraining. destruct (r_draining r) eqn:E; [done|].
  set (r1 := r {{ r_draining := true; r_stopping := true }}).
  pose proof (wake_all_quiet (elements (r_peers r)) r1) as Hq. split_and!.
  - by rewrite (quiet_field r_draining r1).
  - by rewrite (quiet_field r_drained r1).
  - by rewrite (quiet_field r_routes r1).
  - transitivity r1; [by split|by apply quiet_calls].
  - transitivity r1; [by split|]. by apply ending_registry, ending_quiet.
  - by rewrite (quiet_field r_config r1).
Qed.

Lemma Shutdown_router_ok r : router_ok r -> router_ok (Shutdown r).
Proof.
  rewrite !router_ok_sound. intros [H Hdr]. unfold Shutdown.
  destruct (startDraining_spec r) as (H1 & H2 & H3 & H4 & H5 & H6).
  set (r1 := startDraining r) in *. assert (sound r1) as Hs by by eapply sound_same.
  destruct (route_count r1 =? 0) eqn:E.
  - split; [by apply (sound_same r1); [split|split|..]|].
    apply route_count_zero in E. unfold drained_ok, markDrained. simpl. done.
  - split; [done|]. unfold drained_ok. rewrite H1, H2. split.
    + intros Hx%Hdr. split; [done|]. rewrite H3. apply Hx.
    + intros [_ Hx]. apply route_count_zero in Hx. congruence.
Qed.

Lemma callEnded_routes c r : r_routes (callEnded c r) = r_routes r.
Proof. by rewrite (shifted_field r_routes _ _ _ ltac:(done) (callEnded_shifted c r)). Qed.

Lemma untrack_reindexed rt r : reindexed r (untrack rt r).
Proof.
  unfold untrack. destruct (_ <=? _); [|done]. unfold remove_deadline.
  etrans; [|apply cut_reindexed]. apply (heap_remove_ind (reindexed r)); [|done].
  intros. etrans; [done|]. apply swap_reindexed.
Qed.

Lemma endRoute_routes id rt r : r_routes (endRoute id rt r) = delete id (r_routes r).
Proof.
  unfold endRoute. set (r1 := upd_peer _ _ _). set (r3 := callEnded _ _).
  assert (r_routes r3 = delete id (r_routes r)) as H3.
  { unfold r3. rewrite callEnded_routes. by rewrite (reindexed_field r_routes r1) by (done || apply untrack_reindexed). }
  destruct (r_draining r3); [|done]. by case_match.
Qed.

Lemma close_route_routes now id r : r_routes (close_route now id r) = delete id (r_routes r).
Proof.
  unfold close_route. destruct (r_routes r !! id) as [rt|] eqn:Hid.
  - rewrite endRoute_routes. set (r1 := fail_joined _ _ _ _ _).
    rewrite (quiet_field r_routes r1) by first [done | (etrans; [apply finishRoute_quiet|]; etrans; apply send_quiet)].
    unfold r1. by rewrite (fail_joined_field r_routes).
  - by rewrite delete_id.
Qed.

Lemma close_loop_routes now l r id :
  id ∈ l \/ r_routes r !! id = None ->
  r_routes (fold_left (fun r id => close_route now id r) l r) !! id = None.
Proof.
  revert r. induction l as [|x l IH]; intros r H; simpl; [set_solver|]. apply IH.
  rewrite close_route_routes. destruct H as [[->|?]%elem_of_cons|?]; [right; apply lookup_delete_eq|by left|].
  right. rewrite lookup_delete. by case_decide.
Qed.

Lemma iter_keys_all {A} e (m : gmap string A) id : env_ok e -> is_Some (m !! id) -> id ∈ iter_keys e m.
Proof.
  intros He [x Hx]. unfold iter_keys. rewrite (iter_perm e He).
  apply list_elem_of_fmap. exists (id, x). split; [done|]. by apply elem_of_map_to_list.
Qed.

Lemma Close_routes e r : env_ok e -> r_closed r = false -> r_routes (Close e r) = ∅.
Proof.
  intros He Hc. unfold Close. rewrite Hc.
  set (r1 := (startDraining r) {{ r_closed := true }}).
  set (r2 := fold_left (fun r id => close_route (e_now e) id r) (iter_keys e (r_routes r1)) r1).
  assert (r_routes r2 = ∅) as H2.
  { apply map_empty. intros id. apply close_loop_routes.
    destruct (r_routes r1 !! id) eqn:E; [left; by apply iter_keys_all|by right]. }
  by case_match.
Qed.

Lemma Close_router_ok e r : env_ok e -> router_ok r -> router_ok (Close e r).
Proof.
  rewrite !router_ok_sound. intros He [H Hdr]. pose proof (Close_routes e r He) as Hempty.
  unfold Close in *. destruct (r_closed r) eqn:E; [done|]. specialize (Hempty eq_refl).
  destruct (startDraining_spec r) as (H1 & H2 & H3 & H4 & H5 & H6).
  set (r1 := (startDraining r) {{ r_closed := true }}) in *.
  assert (sound r1) as Hs1.
  { apply (sound_same r); [etrans; [exact H4|by split]|etrans; [exact H5|by split]|done|done]. }
  destruct (fold_ending (close_route (e_now e)) (iter_keys e (r_routes r1)) r1) as [Hc2 He2];
    [intros; split; [by apply close_route_ok|by apply close_route_ending]|apply Hs1|].
  set (r2 := fold_left _ _ r1) in *.
  assert (sound r2) as Hs2 by by eapply sound_ending.
  assert (forall b, sound (markDrained r2 {{ r_peersGone := b }})) as Hs3
    by (intros b; by apply (sound_same r2); [split|split|..]).
  assert (r_draining r2 = true) as Hd2 by by rewrite (ending_field r_draining r1).
  destruct (size _ =? 0)%nat.
  - split; [apply Hs3|]. unfold drained_ok. simpl in *. done.
  - split; [by apply (sound_same r2); [split|split|..]|]. unfold drained_ok. simpl in *. done.
Qed.

(** ** What operations leave to the connections *)

Record steady (r r' : Router) : Prop := {
  st_peers : r_peers r' ⊆ r_peers r;
  st_next : (r_next r <= r_next r')%nat;
  st_connections : r_connections r' = r_connections r;
  st_anonymous : r_anonymous r' = r_anonymous r;
  st_config : r_config r' = r_config r;
  st_http : r_httpInflight r' = r_httpInflight r;
  st_id q : p_instanceID (peerOf r' q) = p_instanceID (peerOf r q) }.

#[global] Instance steady_preorder : PreOrder steady.
Proof.
  split; [by intros r; split|]. intros x y z [] [].
  split; [set_solver|lia|congruence..].
Qed.

Lemma ending_steady r r' : ending r r' -> steady r r'.
Proof.
  intros H. split.
  - by rewrite (ending_field r_peers r r').
  - apply H.
  - by apply (ending_field r_connections).
  - by apply (ending_field r_anonymous).
  - by apply (ending_field r_config).
  - by apply (ending_field r_httpInflight).
  - intros q. by destruct (registered_fields _ _ (ed_peer _ _ (proj1 H) q)) as (-> & _).
Qed.

Lemma quiet_steady r r' : quiet r r' -> steady r r'.
Proof. intros. by apply ending_steady, ending_quiet. Qed.

Lemma open_route_steady p f stream i now r :
  calls_ok r -> (p < r_next r)%nat -> (i < r_next r)%nat -> r_routes r !! f_callID f = None ->
  steady r (open_route p f stream i now r).
Proof.
  intros H Hp Hi Hid. etrans; [|by apply ending_steady, open_route_ending].
  split; try done; [simpl; lia|]. intros q.
  apply (registered_fields _ _ (sr_peer _ _ (insert_route_registry p i (new_route p f i now) r) q)).
Qed.

Lemma remove_steady p e r : router_ok r -> steady r (remove p e r).
Proof.
  intros H. unfold remove. set (r1 := r {{ r_peers ::= _ }}).
  assert (steady r r1) as S1 by (split; try done; simpl; set_solver).
  assert (steady r1 (peers_gone r1)) as S2 by (unfold peers_gone; by case_match).
  assert (router_ok r1) as H1 by by apply (router_ok_same r); [split|split|..].
  assert (router_ok (peers_gone r1)) as H2.
  { unfold peers_gone. destruct (_ && _); [|done]. by apply (router_ok_same r1); [split|split|..]. }
  set (r2 := peers_gone r1) in *.
  assert (steady r2 (unregister p r2)) as S3.
  { unfold unregister. destruct (is_registered p r2); [|done].
    rewrite leavePools_frame by apply (ro_registry _ H2). by split. }
  pose proof (unregister_router_ok p _ H2) as H3. set (r3 := unregister p r2) in *.
  destruct (fold_ending (remove_route p (e_now e)) (iter_keys e (r_routes r3)) r3) as [H4 H5].
  - intros id r0 H0. split; [by apply remove_route_ok|by apply remove_route_ending].
  - apply H3.
  - etrans; [exact S1|]. etrans; [exact S2|]. etrans; [exact S3|]. by apply ending_steady.
Qed.

Lemma close_peer_steady p e r : router_ok r -> steady r (close_peer p e r).
Proof.
  intros H. unfold close_peer.
  assert (quiet r (upd_peer p (fun x => x {{ p_out ::= close }}) (cancel p r))) as Hq.
  { etrans; [apply cancel_quiet|]. by apply upd_peer_quiet. }
  etrans; [apply quiet_steady, Hq|]. apply remove_steady. by eapply router_ok_quiet.
Qed.

Lemma startDraining_steady r : steady r (startDraining r).
Proof.
  unfold startDraining. destruct (r_draining r); [done|].
  set (r1 := r {{ r_draining := true; r_stopping := true }}).
  transitivity r1; [by split|]. apply quiet_steady, wake_all_quiet.
Qed.

Lemma Shutdown_steady r : steady r (Shutdown r).
Proof.
  unfold Shutdown. pose proof (startDraining_steady r). destruct (_ =? 0); [|done].
  etrans; [done|]. by split.
Qed.

Lemma Close_steady e r : router_ok r -> steady r (Close e r).
Proof.
  intros Hr. unfold Close. destruct (r_closed r); [done|].
  destruct (startDraining_spec r) as (_ & _ & _ & H4 & _).
  set (r1 := (startDraining r) {{ r_closed := true }}).
  assert (calls_ok r1) as Hc1.
  { eapply (calls_ok_same _ r); [|apply Hr]. etrans; [exact H4|by split]. }
  destruct (fold_ending (close_route (e_now e)) (iter_keys e (r_routes r1)) r1) as [_ He2];
    [intros; split; [by apply close_route_ok|by apply close_route_ending]|done|].
  set (r2 := fold_left _ _ r1) in *.
  assert (steady r r1) as S1 by (etrans; [apply startDraining_steady|by split]).
  assert (steady r1 r2) as S2 by by apply ending_steady.
  etrans; [exact S1|]. etrans; [exact S2|]. destruct (size _ =? 0)%nat; by split.
Qed.

Lemma expire_steady now r : router_ok r -> steady r (expire now r).
Proof. intros H. unfold expire. apply ending_steady, expire_loop_ending, H. Qed.

Lemma write_quiet p ok now r : quiet r (write p ok now r).1.
Proof.
  unfold write. destruct (pop _) as [[f q]|].
  - set (r1 := upd_peer p _ r). assert (quiet r r1) as H1 by by apply upd_peer_quiet.
    destruct (_ <? _); [etrans; [exact H1|apply cancel_quiet]|].
    destruct ok; [done|]. etrans; [exact H1|apply cancel_quiet].
  - destruct (goingAway p r); [apply cancel_quiet|]. destruct (ctxErr r now p); [done|].
    by apply upd_peer_quiet.
Qed.

Section forward_steady.
Context `{Crypto, Floats}.

Lemma dispatch_steady p f e r :
  env_ok e -> (p < r_next r)%nat -> r_routes r !! f_callID f = None -> router_ok r ->
  steady r (dispatch p f e r).
Proof.
  intros He Hp Hid Hr.
  destruct (dispatch_cases p f e r He Hp Hid Hr)
    as [Hd|[(d & r1 & He1 & _ & ->)|(avoid & i & r1 & r2 & He1 & Hfr & Hc2 & _ & Hp2 & Hi2 & Hid2 & ->)]].
  - by apply ending_steady.
  - etrans; [by apply ending_steady|]. split; try done. intros q. by apply (update_field p_instanceID).
  - etrans; [by apply ending_steady|]. etrans; [by apply ending_steady, ending_selection|].
    by apply open_route_steady.
Qed.

Lemma forward_steady p f e r : env_ok e -> (p < r_next r)%nat -> router_ok r -> steady r (forward p f e r).
Proof.
  intros He Hp Hr. unfold forward. destruct (_ || _); [apply quiet_steady, cancel_quiet|].
  destruct (String.eqb _ "call.open").
  - unfold call_open. assert (forall x, steady r (refuse p f x (e_now e) r)) as Href
      by (intros; apply quiet_steady, refuse_quiet).
    destruct (_ && _); [done|]. case_bool_decide as Hid; [done|]. destruct (r_draining r); [done|].
    destruct (HasPrefix _ _).
    { destruct (management_frame p f e r) as [a Hq].
      transitivity (r {{ r_auth := a }}); [by split|by apply quiet_steady]. }
    destruct (_ && _); [done|]. destruct (routeCapacity <=? _); [done|].
    apply dispatch_steady; try done. by apply eq_None_not_Some.
  - destruct (r_routes r !! f_callID f) as [rt|] eqn:Hid; [|done]. pose proof (ro_calls _ Hr).
    destruct (_ && _); [|destruct (_ && _); [|done]]; apply ending_steady.
    + by eapply forward_client_ending.
    + by eapply forward_server_ending.
Qed.
End forward_steady.

(** ** Every step preserves the invariant *)

Lemma sum_seq_extend (f : nat -> Z) n m : (n <= m)%nat ->
  (forall p, (n <= p)%nat -> f p = 0) -> sum_with f (seq 0 m) = sum_with f (seq 0 n).
Proof.
  intros Hle Hf. replace m with (n + (m - n))%nat by lia. rewrite seq_app, sum_with_app.
  rewrite (sum_with_ext f (fun _ => 0) (seq (0 + n) (m - n))).
  - assert (forall l : list nat, sum_with (fun _ => 0) l = 0) as Hz by (induction l; simpl; lia).
    rewrite Hz. lia.
  - intros p Hp%elem_of_seq. apply Hf. lia.
Qed.

Lemma sum_seq_update (f g : nat -> Z) n p : (p < n)%nat -> (forall q, q <> p -> f q = g q) ->
  sum_with f (seq 0 n) = sum_with g (seq 0 n) + f p - g p.
Proof.
  intros Hp Hf. apply sum_with_split_at; [apply NoDup_seq|apply elem_of_seq; lia|auto].
Qed.

(** The connection's part of the invariant, for a Router that keeps it. *)
Lemma system_ok_router s r' :
  system_ok s -> router_ok r' -> steady (sy_router s) r' -> system_ok (on_router (fun _ => r') s).
Proof.
  intros [H1 H2 H3 H4 H5 H6 H7 H8 H9] Hr [S1 S2 S3 S4 S5 S7 S6].
  assert (forall p, (r_next (sy_router s) <= p)%nat -> connected (sy_phase s p) = false) as Hgone.
  { intros p Hp. destruct (decide (sy_phase s p = Gone)) as [->|Hn]; [done|]. apply H3 in Hn. lia. }
  split; simpl.
  - done.
  - intros p Hp. specialize (H2 p ltac:(set_solver)). lia.
  - intros p Hp%H3. lia.
  - intros p Hp. rewrite S6. auto.
  - rewrite S3, H5. symmetry. apply sum_seq_extend; [done|]. intros p Hp. simpl. by rewrite Hgone.
  - rewrite S4, H6. symmetry. apply sum_seq_extend; [done|]. intros p Hp. simpl. by rewrite Hgone.
  - by rewrite S3, S5.
  - by rewrite S4, S5.
  - by rewrite S7, S5.
Qed.

Lemma system_ok_on_router s g :
  system_ok s -> router_ok (g (sy_router s)) -> steady (sy_router s) (g (sy_router s)) ->
  system_ok (on_router g s).
Proof. apply (system_ok_router s (g (sy_router s))). Qed.

Lemma system_ok_quiet s g :
  quiet (sy_router s) (g (sy_router s)) -> system_ok s -> system_ok (on_router g s).
Proof.
  intros Hq Hs. apply (system_ok_router s (g (sy_router s))); [done| |by apply quiet_steady].
  eapply router_ok_quiet; [done|apply Hs].
Qed.

Lemma set_phase_at p ph s q : sy_phase (set_phase p ph s) q = if decide (q = p) then ph else sy_phase s q.
Proof. unfold set_phase. simpl. unfold update. by case_decide. Qed.

(** A connection moves on. *)
Lemma system_ok_phase p ph s :
  system_ok s -> connected (sy_phase s p) = true -> connected ph = true ->
  ((ph = AwaitHello \/ exists id, ph = AwaitRegister id) ->
     p_instanceID (peerOf (sy_router s) p) = EmptyString) ->
  system_ok (set_phase p ph s).
Proof.
  intros [H1 H2 H3 H4 H5 H6 H7 H8 H9] Hc Hph Hid.
  assert (forall q, connected (sy_phase (set_phase p ph s) q) = connected (sy_phase s q)) as Heq.
  { intros q. rewrite set_phase_at. case_decide; subst; congruence. }
  split; try done.
  - intros q Hq. apply H3. intros E. specialize (Heq q). rewrite E in Heq.
    destruct (sy_phase (set_phase p ph s) q); done.
  - intros q. rewrite set_phase_at. case_decide; subst; auto.
  - etrans; [exact H5|]. apply sum_with_ext. intros q _. by rewrite Heq.
  - etrans; [exact H6|]. apply sum_with_ext. intros q _. by rewrite Heq.
Qed.

Lemma on_router_set_phase g p ph s : set_phase p ph (on_router g s) = on_router g (set_phase p ph s).
Proof. done. Qed.

Lemma phase_lt p s : system_ok s -> connected (sy_phase s p) = true -> (p < r_next (sy_router s))%nat.
Proof. intros H Hc. apply (sk_phase _ H). by intros E; rewrite E in Hc. Qed.

Section steps.
Context `{Crypto, Floats}.

Lemma receive_hello_ok p data e s : system_ok s -> sy_phase s p = AwaitHello ->
  system_ok (receive_hello p data e s).
Proof.
  intros Hs Hp. assert (p_instanceID (peerOf (sy_router s) p) = EmptyString) as Hid
    by (apply (sk_unregistered _ Hs); by left).
  assert (system_ok (set_phase p Closing s)) as Hclose.
  { apply system_ok_phase; [done|by rewrite Hp|done|]. by intros [|[]]. }
  unfold receive_hello. destruct (readFrame data) as [f err].
  destruct (_ || _); [done|]. destruct (negb _); [done|]. destruct (e_secret e) as [secret|]; [|done].
  set (id := hex_encode secret). set (s1 := on_router _ s).
  assert (steady (sy_router s) (sy_router s1)) as St.
  { split; try done. intros q. by apply (update_field p_instanceID). }
  assert (system_ok s1) as H1.
  { apply (system_ok_router s (sy_router s1)); [done| |done]. apply (router_ok_same (sy_router s)); try done.
    - split; try done; intros q; [by apply (update_field p_inflight)|by apply (update_field p_calls)].
    - split; try done. intros q. by apply (update_field registered_as).
    - apply Hs. }
  set (s2 := on_router _ s1). assert (system_ok s2) as H2 by (apply system_ok_quiet; [apply send_quiet|done]).
  apply system_ok_phase; [done|change (sy_phase s2 p) with (sy_phase s p); by rewrite Hp|by case_match|].
  intros _. unfold s2, on_router. simpl. rewrite (quiet_peer_field p_instanceID (sy_router s1)) by
    first [done | apply send_quiet]. by rewrite (st_id _ _ St).
Qed.

Lemma register_steady p f r : router_ok r -> registration_ok p f r ->
  let r' := (register p f r).1 in
  r_peers r' = r_peers r /\ r_next r' = r_next r /\ r_connections r' = r_connections r /\
  r_anonymous r' = r_anonymous r /\ r_config r' = r_config r /\
  r_httpInflight r' = r_httpInflight r /\
  forall q, q <> p -> p_instanceID (peerOf r' q) = p_instanceID (peerOf r q).
Proof.
  intros Hok Hreg. destruct (register_cases p f r) as (r' & err & -> & Hc). simpl.
  destruct Hc as [[-> _]|(-> & Hcheck & _ & _ & r1 & Hq & Hr')]; [done|].
  destruct (check_services_spec _ _ _ Hcheck) as [Hnd _].
  destruct (joins_spec p (services_of f) r1 Hnd) as (H1 & _). rewrite <- Hr' in H1. rewrite H1.
  simpl. split_and!.
  - by apply (quiet_field r_peers (enter p f r)).
  - by apply (quiet_field r_next (enter p f r)).
  - by apply (quiet_field r_connections (enter p f r)).
  - by apply (quiet_field r_anonymous (enter p f r)).
  - by apply (quiet_field r_config (enter p f r)).
  - by apply (quiet_field r_httpInflight (enter p f r)).
  - intros q Hne. change (p_instanceID (peerOf r1 q) = p_instanceID (peerOf r q)).
    rewrite (quiet_peer_field p_instanceID (enter p f r) r1) by done. by rewrite enter_other.
Qed.

Lemma receive_registration_ok p id data s : system_ok s -> sy_phase s p = AwaitRegister id ->
  system_ok (receive_registration p id data s).
Proof.
  intros Hs Hp. assert (p_instanceID (peerOf (sy_router s) p) = EmptyString) as Hid
    by (apply (sk_unregistered _ Hs); right; eauto).
  assert (p < r_next (sy_router s))%nat as Hlt by (apply phase_lt; [done|by rewrite Hp]).
  assert (system_ok (set_phase p Closing s)) as Hclose.
  { apply system_ok_phase; [done|by rewrite Hp|done|]. by intros [|[]]. }
  unfold receive_registration. destruct (readFrame data) as [f err].
  destruct (_ || _) eqn:Ec; [done|]. unbool.
  assert (registration_ok p f (sy_router s)) as Hreg.
  { split_and!; [done|done|]. subst. intros E.
    match goal with H : is_empty _ = false |- _ => rewrite E in H end. done. }
  pose proof (register_router_ok p f _ (sk_router _ Hs) Hreg) as Hr.
  destruct (register_steady p f _ (sk_router _ Hs) Hreg) as (R1 & R2 & R3 & R4 & R5 & R7 & R6).
  destruct (register p f (sy_router s)) as [r' refused]. simpl in *.
  assert (forall ph, ph = Closing \/ ph = Serving ->
    system_ok (set_phase p ph (on_router (fun _ => r') s))) as Hdone.
  { intros ph Hph. destruct (system_ok_phase p Closing s Hs) as [_ K2 K3 K4 K5 K6 K7 K8 K9];
      [by rewrite Hp|done|by intros [|[]]|].
    assert (forall q, connected (sy_phase (set_phase p ph s) q) = connected (sy_phase (set_phase p Closing s) q)) as Heq.
    { intros q. rewrite !set_phase_at. case_decide; [by destruct Hph; subst|done]. }
    split; simpl in *; rewrite ?R1, ?R2, ?R3, ?R4, ?R5, ?R7; try done.
    - intros q. fold (set_phase p ph s). intros Hq. apply K3. unfold update in *. by case_decide.
    - intros q. unfold update. case_decide as Hq.
      + destruct Hph; subst; by intros [|[]].
      + rewrite R6 by done. specialize (K4 q). unfold update in K4. by rewrite decide_False in K4.
    - unfold count_connections in *. rewrite K5. simpl. rewrite R2. apply sum_with_ext. intros q _.
      specialize (Heq q). simpl in Heq. by rewrite Heq.
    - unfold count_anonymous in *. rewrite K6. simpl. rewrite R2. apply sum_with_ext. intros q _.
      specialize (Heq q). simpl in Heq. by rewrite Heq. }
  destruct refused; apply Hdone; auto.
Qed.

Lemma receive_frame_ok p data e s : env_ok e -> system_ok s -> sy_phase s p = Serving ->
  system_ok (receive_frame p data e s).
Proof.
  intros He Hs Hp. assert (p < r_next (sy_router s))%nat as Hlt by (apply phase_lt; [done|by rewrite Hp]).
  assert (system_ok (set_phase p Closing s)) as Hclose.
  { apply system_ok_phase; [done|by rewrite Hp|done|]. by intros [|[]]. }
  unfold receive_frame. destruct (readFrame data) as [f [err|]].
  { destruct (_ && _); [|done]. apply system_ok_quiet; [apply send_quiet|done]. }
  destruct (String.eqb _ "ping"); [apply system_ok_quiet; [apply send_quiet|done]|].
  destruct (String.eqb _ "pong"); [done|]. destruct (String.eqb _ "server.drain").
  - destruct (negb _); [done|]. apply system_ok_quiet; [apply send_quiet|].
    apply (system_ok_router s (drain p (sy_router s))); [done|apply drain_router_ok, Hs|].
    unfold drain. destruct (_ || _); [done|]. rewrite leavePools_frame.
    + split; try done. intros q. by apply (update_field p_instanceID).
    + unfold upd_peer, peerOf. simpl. rewrite update_eq. apply (ro_registry _ (sk_router _ Hs)).
  - destruct (negb _); [done|]. apply system_ok_on_router; [done| |].
    + apply forward_router_ok; [done|done|apply Hs].
    + apply forward_steady; [done|done|apply Hs].
Qed.

Lemma receive_ok p message e s : env_ok e -> system_ok s -> system_ok (receive p message e s).
Proof.
  intros He Hs. unfold receive.
  assert (connected (sy_phase s p) = true -> system_ok (set_phase p Closing s)) as Hclose.
  { intros Hp. apply system_ok_phase; [done|done|done|]. by intros [|[]]. }
  destruct (sy_phase s p) as [|id| | |] eqn:Hp; destruct message as [data|]; try done; try by apply Hclose.
  - by apply receive_hello_ok.
  - by apply receive_registration_ok.
  - by apply receive_frame_ok.
Qed.

Lemma connect_ok header accepted e s : env_ok e -> system_ok s ->
  system_ok (connect header accepted e s).1.
Proof.
  intros He Hs. unfold connect. destruct (r_stopping _); [done|].
  destruct (_ <? _) eqn:Hmax; [done|].
  destruct (check (r_auth (sy_router s)) header (e_now e)) as [auth checked].
  set (r1 := (sy_router s) {{ r_auth := auth }}).
  assert (router_ok r1) as Hr1 by apply router_ok_auth, Hs.
  assert (system_ok (on_router (fun _ => r1) s)) as Hs1 by by apply system_ok_router.
  destruct checked as [user|fl]; [|done].
  destruct (is_anonymous user && _) eqn:Hanon; [done|].
  destruct (negb accepted); [done|]. destruct (_ || _); [done|]. cbn [fst].
  set (p := r_next r1). set (r2 := new_peer user EmptyString EmptyString r1).
  assert (router_ok r2) as Hr2 by by apply new_peer_router_ok.
  set (a := is_anonymous user) in *.
  assert (forall q, p_instanceID (peerOf r2 q) =
    if decide (q = p) then EmptyString else p_instanceID (peerOf (sy_router s) q)) as Hpi.
  { intros q. case_decide as Hq; [rewrite Hq|].
    - exact (f_equal p_instanceID (new_peer_self user EmptyString EmptyString r1)).
    - exact (f_equal p_instanceID (new_peer_other user EmptyString EmptyString r1 q Hq)). }
  assert (forall s', router_ok (sy_router s') -> r_peers (sy_router s') = {[p]} ∪ r_peers r1 ->
    r_next (sy_router s') = S p -> (forall q, p_instanceID (peerOf (sy_router s') q) =
      if decide (q = p) then EmptyString else p_instanceID (peerOf (sy_router s) q)) ->
    r_connections (sy_router s') = r_connections r1 + 1 ->
    r_anonymous (sy_router s') = r_anonymous r1 + one a ->
    r_config (sy_router s') = r_config r1 ->
    r_httpInflight (sy_router s') = r_httpInflight r1 ->
    (forall q, sy_phase s' q = if decide (q = p) then AwaitHello else sy_phase s q) ->
    (forall q, sy_anonymous s' q = if decide (q = p) then a else sy_anonymous s q) ->
    system_ok s') as Hgen.
  { intros s' Hr Hpe Hn Hpeer Hco Han Hcf Hht Hph Hsa. destruct Hs1 as [K1 K2 K3 K4 K5 K6 K7 K8 K9]. simpl in *.
    assert (sy_phase s p = Gone) as Hgone.
    { destruct (decide (sy_phase s p = Gone)) as [|Hx]; [done|]. apply K3 in Hx. unfold p in Hx. lia. }
    split.
    - done.
    - intros q. rewrite Hpe, Hn. intros [->%elem_of_singleton|Hq%K2]%elem_of_union; unfold p in *; simpl in *; lia.
    - intros q. rewrite Hph, Hn. case_decide; [subst; lia|]. intros Hq%K3. unfold p. simpl in *. lia.
    - intros q. rewrite Hph, Hpeer. case_decide as Hq; simpl.
      + done.
      + apply K4.
    - rewrite Hco, K5. unfold count_connections. rewrite Hn, seq_S, sum_with_app. simpl.
      rewrite Hph, decide_True by done. simpl.
      rewrite (sum_with_ext (fun q => one (connected (sy_phase s' q)))
        (fun q => one (connected (sy_phase s q))) (seq 0 p)); [unfold p; simpl; lia|].
      intros q Hq%elem_of_seq. rewrite Hph, decide_False by lia. done.
    - rewrite Han, K6. unfold count_anonymous. rewrite Hn, seq_S, sum_with_app. simpl.
      rewrite Hph, Hsa, !decide_True by done. simpl.
      rewrite (sum_with_ext (fun q => one (connected (sy_phase s' q) && sy_anonymous s' q))
        (fun q => one (connected (sy_phase s q) && sy_anonymous s q)) (seq 0 p));
        [unfold p; simpl; lia|].
      intros q Hq%elem_of_seq. rewrite Hph, Hsa, !decide_False by lia. done.
    - rewrite Hco, Hcf. simpl. unbool. lia.
    - rewrite Han, Hcf. simpl in *. unfold one. destruct a; simpl in *; unbool; lia.
    - by rewrite Hht, Hcf. }
  apply Hgen; try (by destruct a).
  - destruct a; by apply (router_ok_same r2); [split|split|..].
  - destruct a; simpl; lia.
  - destruct a; simpl; lia.
Qed.

Lemma disconnect_ok p e s : env_ok e -> connected (sy_phase s p) = true -> system_ok s ->
  system_ok (disconnect p e s).
Proof.
  intros He Hp Hs. pose proof Hs as [_ _ K3 _ _ _ _ _ _].
  assert (p < r_next (sy_router s))%nat as Hlt by (apply K3; by destruct (sy_phase s p)).
  set (r1 := close_peer p e (sy_router s)).
  assert (router_ok r1) as Hr1 by apply close_peer_router_ok, Hs.
  assert (steady (sy_router s) r1) as Hst by apply close_peer_steady, Hs.
  assert (system_ok (on_router (fun _ => r1) s)) as [H1 H2 H3 H4 H5 H6 H7 H8 H9]
    by by apply system_ok_router.
  assert (forall s', router_ok (sy_router s') -> r_peers (sy_router s') = r_peers r1 ->
    r_next (sy_router s') = r_next r1 -> r_config (sy_router s') = r_config r1 ->
    r_httpInflight (sy_router s') = r_httpInflight r1 ->
    (forall q, peerOf (sy_router s') q = peerOf r1 q) ->
    r_connections (sy_router s') = r_connections r1 + -1 ->
    r_anonymous (sy_router s') = r_anonymous r1 - one (sy_anonymous s p) ->
    (forall q, sy_phase s' q = if decide (q = p) then Gone else sy_phase s q) ->
    sy_anonymous s' = sy_anonymous s -> system_ok s') as Hgen.
  { clearbody r1. intros s' Hr Hpe Hn Hcf Hht Hpeer Hco Han Hph Hsa. simpl in *.
    assert (p < r_next r1)%nat as Hlt1 by (destruct Hst; lia).
    assert (forall q, connected (sy_phase s' q) = if decide (q = p) then false else connected (sy_phase s q)) as Hcn.
    { intros q. rewrite Hph. by case_decide. }
    split.
    - done.
    - by rewrite Hpe, Hn.
    - intros q. rewrite Hph, Hn. case_decide; [done|apply H3].
    - intros q. rewrite Hph, Hpeer. case_decide; [by intros [|[]]|apply H4].
    - rewrite Hco, H5. unfold count_connections. rewrite Hn. simpl.
      rewrite (sum_seq_update (fun q => one (connected (sy_phase s' q)))
        (fun q => one (connected (sy_phase s q))) _ p Hlt1).
      + rewrite Hcn, decide_True, Hp by done. simpl. lia.
      + intros q Hq. by rewrite Hcn, decide_False.
    - rewrite Han, H6. unfold count_anonymous. rewrite Hn, Hsa. simpl.
      rewrite (sum_seq_update (fun q => one (connected (sy_phase s' q) && sy_anonymous s q))
        (fun q => one (connected (sy_phase s q) && sy_anonymous s q)) _ p Hlt1).
      + rewrite Hcn, decide_True, Hp by done. simpl. lia.
      + intros q Hq. by rewrite Hcn, decide_False.
    - rewrite Hco, Hcf. lia.
    - rewrite Han, Hcf. unfold one. case_match; lia.
    - by rewrite Hht, Hcf. }
  assert (disconnect p e s = set_phase p Gone (on_router (fun _ =>
    if sy_anonymous s p then r1 {{ r_connections ::= Z.add (-1) }} {{ r_anonymous ::= Z.add (-1) }}
    else r1 {{ r_connections ::= Z.add (-1) }}) s)) as ->.
  { change (disconnect p e s) with (set_phase p Gone (if sy_anonymous s p
      then on_router (fun r => r {{ r_anonymous ::= Z.add (-1) }})
             (on_router (fun r => r {{ r_connections ::= Z.add (-1) }}) (on_router (close_peer p e) s))
      else on_router (fun r => r {{ r_connections ::= Z.add (-1) }}) (on_router (close_peer p e) s))).
    by destruct (sy_anonymous s p). }
  clearbody r1. apply Hgen; destruct (sy_anonymous s p); simpl; try done; try lia.
  all: try (intros q; by rewrite set_phase_at).
  all: by apply (router_ok_same r1); [split|split|..].
Qed.
(** ** HTTP requests *)

Lemma system_ok_http s n : system_ok s -> n <= c_HTTPMaxInflight (r_config (sy_router s)) ->
  system_ok (on_router (fun r => r {{ r_httpInflight := n }}) s).
Proof.
  intros [H1 H2 H3 H4 H5 H6 H7 H8 H9] Hn. split; try done.
  by apply (router_ok_same (sy_router s)); [split|split|..].
Qed.

Lemma authorize_request_frame req w e r :
  exists auth, (authorize_request req w e r).1 = r {{ r_auth := auth }}.
Proof.
  unfold authorize_request.
  destruct (route_request req w); try (exists (r_auth r); by destruct r);
    destruct (check _ _ _) as [auth [user|fl]]; try (by exists auth);
    exists auth; by repeat case_match.
Qed.

Lemma serve_begin_ok req e s : system_ok s -> system_ok (on_router (fun r => (serve_begin req e r).1) s).
Proof.
  intros Hs. unfold serve_begin. destruct (cors req (sy_router s)) as [w go] eqn:Ec.
  destruct (negb go || (c_HTTPMaxInflight (r_config (sy_router s)) <? r_httpInflight (sy_router s) + 1)) eqn:Eg.
  { apply (system_ok_quiet s); [|done]. rewrite Ec. destruct (negb go); [done|]. simpl in Eg. by rewrite Eg. }
  apply orb_false_iff in Eg as [Eg1 Eg2].
  destruct (authorize_request_frame req w e (sy_router s)) as [auth Ha].
  set (r1 := (sy_router s) {{ r_auth := auth }}).
  assert (system_ok (on_router (fun _ => r1) s)) as Hs1.
  { apply system_ok_router; [done|apply router_ok_auth, Hs|by split]. }
  assert (forall r2, r2 = r1 \/ r2 = r1 {{ r_httpInflight ::= Z.add 1 }} -> system_ok (on_router (fun _ => r2) s)) as Hgen.
  { intros r2 [->| ->]; [done|]. unbool.
    apply (system_ok_http (on_router (fun _ => r1) s) (1 + r_httpInflight r1) Hs1). simpl. lia. }
  unfold on_router. simpl. rewrite Ec, Eg1, Eg2.
  destruct (authorize_request req w e (sy_router s)) as [r2 res] eqn:Er. simpl in Ha. subst r2.
  destruct res; apply Hgen; [by left|by right].
Qed.

Lemma virtualClient_ok user id e s : system_ok s ->
  system_ok (on_router (fun r => (virtualClient user id e r).1) s).
Proof.
  intros Hs. unfold virtualClient.
  destruct (r_closed (sy_router s) || negb (valid (r_auth (sy_router s)) user (e_now e))) eqn:Eg.
  { apply (system_ok_quiet s); [|done]. by rewrite Eg. }
  set (r1 := new_peer user "client" (hex_encode id) (sy_router s)).
  assert (router_ok r1) as Hr1 by apply new_peer_router_ok, Hs.
  assert (forall q, q <> r_next (sy_router s) -> p_instanceID (peerOf r1 q) = p_instanceID (peerOf (sy_router s) q)) as Hid.
  { intros q Hq. exact (f_equal p_instanceID (new_peer_other user "client" (hex_encode id) (sy_router s) q Hq)). }
  assert (system_ok (on_router (fun _ => r1) s)) as Hgoal.
  { destruct Hs as [H1 H2 H3 H4 H5 H6 H7 H8 H9].
    assert (forall p, (r_next (sy_router s) <= p)%nat -> connected (sy_phase s p) = false) as Hgone.
    { intros p Hp. destruct (decide (sy_phase s p = Gone)) as [->|Hn]; [done|]. apply H3 in Hn. lia. }
    split.
    - done.
    - intros p. simpl. intros [->%elem_of_singleton|Hq%H2]%elem_of_union; lia.
    - intros p Hp%H3. simpl. lia.
    - intros p Hp. change (p_instanceID (peerOf r1 p) = EmptyString). rewrite Hid; [by apply H4|]. intros ->.
      simpl in Hp. specialize (Hgone _ (le_n _)). destruct Hp as [Hp|[id' Hp]]; by rewrite Hp in Hgone.
    - change (r_connections (sy_router s) = count_connections (on_router (fun _ => r1) s)).
      rewrite H5. unfold count_connections. symmetry. apply sum_seq_extend; [simpl; lia|].
      intros p Hp. simpl. by rewrite Hgone.
    - change (r_anonymous (sy_router s) = count_anonymous (on_router (fun _ => r1) s)).
      rewrite H6. unfold count_anonymous. symmetry. apply sum_seq_extend; [simpl; lia|].
      intros p Hp. simpl. by rewrite Hgone.
    - exact H7.
    - exact H8.
    - exact H9. }
  revert Hgoal. unfold on_router. simpl. by rewrite Eg.
Qed.

Lemma virtualClient_peer user id e r r' p : virtualClient user id e r = (r', Some p) -> p ∈ r_peers r'.
Proof.
  unfold virtualClient. destruct (_ || _); [done|]. intros [= <- <-]. unfold new_peer. simpl. set_solver.
Qed.

Lemma serve_open_ok pd id e s : env_ok e -> system_ok s ->
  system_ok (on_router (fun r => (serve_open pd id e r).1) s).
Proof.
  intros He Hs.
  assert (system_ok (on_router (fun _ => (serve_open pd id e (sy_router s)).1) s)) as Hgoal; [|exact Hgoal].
  unfold serve_open. destruct (read_payload _ _) as [w|[payload rest]]; [by destruct s|].
  destruct (negb _); [by destruct s|]. destruct (httpOpenFrame _ _ _ _ _ _ _) as [err|open]; [by destruct s|].
  pose proof (virtualClient_ok (pd_user pd) id e s Hs) as Hv.
  destruct (virtualClient (pd_user pd) id e (sy_router s)) as [r1 [p|]] eqn:Ev.
  - assert (system_ok (on_router (fun _ => r1) s)) as Hs1.
    { revert Hv. unfold on_router. simpl. by rewrite Ev. }
    assert (p < r_next r1)%nat as Hp by by apply (sk_peer _ Hs1), (virtualClient_peer _ _ _ _ _ _ Ev).
    pose proof (forward_router_ok p open e r1 He Hp (sk_router _ Hs1)) as Hf1.
    pose proof (forward_steady p open e r1 He Hp (sk_router _ Hs1)) as Hf2.
    cbn [fst]. set (r2 := forward p open e r1) in *. clearbody r2.
    exact (system_ok_router (on_router (fun _ => r1) s) r2 Hs1 Hf1 Hf2).
  - revert Hv. unfold on_router. simpl. by rewrite Ev.
Qed.

Lemma step_ok s s' : step s s' -> system_ok s -> system_ok s'.
Proof.
  intros Hst Hs. pose proof (sk_router _ Hs) as Hr. destruct Hst.
  - by apply connect_ok.
  - by apply receive_ok.
  - by apply (system_ok_quiet s); [apply write_quiet|].
  - by apply disconnect_ok.
  - by apply serve_begin_ok.
  - by apply serve_open_ok.
  - apply (system_ok_http s (-1 + r_httpInflight (sy_router s))); [done|].
    pose proof (sk_http _ Hs). lia.
  - assert (p < r_next (sy_router s))%nat by by apply (sk_peer _ Hs).
    apply system_ok_on_router; [done|by apply forward_router_ok|].
    by apply forward_steady.
  - apply system_ok_on_router; [done|by apply close_peer_router_ok|].
    by apply close_peer_steady.
  - apply system_ok_on_router; [done|by apply expire_router_ok|].
    by apply expire_steady.
  - apply system_ok_on_router; [done|by apply Shutdown_router_ok|].
    apply Shutdown_steady.
  - apply system_ok_on_router; [done|by apply Close_router_ok|].
    by apply Close_steady.
  - apply system_ok_on_router; [done| |by split].
    by apply (router_ok_same (sy_router s)); [split|split|..].
Qed.

Lemma start_ok config auth : config_ok config -> system_ok (start config auth).
Proof.
  intros (H1 & H2 & H3). split; try done.
  - split.
    + split; try done.
      * split; try done. intros i rt. split; [done|]. intros Hi. change (-1 = Z.of_nat i) in Hi. lia.
      * intros rt Hrt%elem_of_nil. done.
      * apply NoDup_nil_2.
      * intros d Hd%elem_of_nil. done.
    + assert (forall p name, ~ offers (peerOf (sy_router (start config auth)) p) name) as Hno.
      { intros p name Hx. by apply elem_of_nil in Hx. }
      split; try done; try (intros p name Hx; by destruct (Hno p name)).
      * intros p. simpl. constructor.
      * intros p name _ Hx. by destruct (Hno p name).
    + split; try done; intros p Hp; simpl in *; lia.
    + split; simpl; [intros Hx; discriminate Hx|intros [Hx _]; discriminate Hx].
Qed.

(** Every reachable state keeps the whole invariant. *)
Lemma reachable_ok config auth s : config_ok config -> reachable config auth s -> system_ok s.
Proof.
  intros Hc. induction 1; [by apply start_ok|by eapply step_ok].
Qed.
End steps.
