(* ===== verification/Scenario.v ===== *)
(** * A concrete run

    One server connection and one client, from an empty Router to an open
    keyed call, with concrete [Crypto] and [Floats].  The witnesses of the
    properties about reachable states evaluate on it. *)
From S2P Require Import Prelude GoStd LocalSock Json Protocol Outbox Breaker Libs Auth State.
From S2P Require Import Deadline Dedup Balance Management Router Connection Calls Registry.
From S2P Require Import Invariants Membership Reachable.
#[local] Open Scope Z_scope.

(** ** Definitions *)

(** A digest of 32 bytes that depends on the length alone, and decimal text as
    its own number. *)
#[global] Instance sample_crypto : Crypto := {|
  sha256_Sum256 s := foldr (fun _ t => String (of_byte (slen s)) t) EmptyString (seq 0 32);
  pbkdf2_Key p s := foldr (fun _ t => String (of_byte (slen p + slen s)) t) EmptyString (seq 0 32) |}.
#[global] Instance sample_floats : Floats := {|
  float := string;
  parseFloat s := Some s;
  float_eqb := String.eqb;
  needs_exponent _ := false;
  formatFloat _ s := s |}.

(** A platform without Windows on which every call succeeds. *)
Definition sample_platform : Platform :=
  MkPlatform false (fun s => s) (fun path => inr path) (fun _ => false) (fun _ => None)
    (fun _ _ => None) (fun _ => None).

(** What [Start] makes of an empty configuration. *)
Definition sample_config : Config := match Start sample_platform config0 with inr c => c | inl _ => config0 end.

Definition hello_server : string := text
  "{'kind':'hello','protocol':'meshcall/1','role':'server','peer_id':'s','instance_id':'i1'}".
Definition hello_client : string := text
  "{'kind':'hello','protocol':'meshcall/1','role':'client','peer_id':'c'}".
Definition register_echo : string := text
  "{'kind':'server.register','instance_id':'i1','max_inflight':1,'services':[{'name':'demo.v1.Echo','targeted':false,'methods':[{'name':'Say','stream':'unary','balance':{'kind':'round_robin'}}]}]}".
Definition open_call : string := text
  "{'kind':'call.open','call_id':'k1','service':'demo.v1.Echo','method':'Say','payload':1,'timeout_ms':1000,'idempotency_key':'a'}".
Definition call_result : string := text
  "{'kind':'call.result','call_id':'k1','payload':2}".

(** Peer 0 serves Echo, peer 1 is a client. *)
Definition connected_with (auth : option Auth) : System :=
  (connect "" true (env_at 0) (connect "" true (env_at 0) (start sample_config auth)).1).1.
Definition sample_connected : System := connected_with None.
Definition ready_with (auth : option Auth) : System :=
  receive 1 (Some hello_client) (env_at 0)
    (receive 0 (Some register_echo) (env_at 0)
      (receive 0 (Some hello_server) (env_at 0) (connected_with auth))).
Definition sample_ready : System := ready_with None.
Definition sample_open : System := receive 1 (Some open_call) (env_at 0) sample_ready.

(** The same run under accounts: the anonymous user may serve and call Echo only. *)
Definition sample_guest : User :=
  MkUser "anonymous" "" (Some ["client"%string; "server"%string]) (Some ["demo.v1.Echo"%string])
    (Some ["demo.v1.Echo/Say"%string]) "" "" None "" identityAnonymous 0.
Definition guest_auth : option Auth := Some (auth0 {{ a_anonymous := sample_guest }}).
Definition guest_open : System := receive 1 (Some open_call) (env_at 0) (ready_with guest_auth).
Definition sample_answered : System := receive 0 (Some call_result) (env_at 1) sample_open.

(** The same key from a second call, before and after the answer. *)
Definition same_key : string := text
  "{'kind':'call.open','call_id':'k2','service':'demo.v1.Echo','method':'Say','payload':1,'idempotency_key':'a'}".
Definition cancel_call : string := text "{'kind':'call.cancel','call_id':'k1'}".
Definition sample_replayed : System := receive 1 (Some same_key) (env_at 2) sample_answered.
Definition sample_cancelled : System := receive 1 (Some cancel_call) (env_at 1) sample_open.

Definition frame_of (data : string) : frame := (decode data).1.

(** ** Lemmas *)

Lemma sample_Start : Start sample_platform config0 = inr sample_config.
Proof. vm_compute; reflexivity. Qed.

Lemma sample_config_ok : config_ok sample_config.
Proof. split_and!; vm_compute; discriminate. Qed.

Lemma env_at_ok t : env_ok (env_at t).
Proof. by split. Qed.

Section runs.
Context `{Crypto, Floats}.

Lemma reach_receive c a p message t s :
  reachable c a s -> reachable c a (receive p message (env_at t) s).
Proof. intros Hr. eapply ReachStep; [exact Hr|apply StepReceive, env_at_ok]. Qed.

Lemma reach_connect c a header accepted t s :
  reachable c a s -> reachable c a (connect header accepted (env_at t) s).1.
Proof. intros Hr. eapply ReachStep; [exact Hr|apply StepConnect, env_at_ok]. Qed.
End runs.

Lemma ready_reachable auth : reachable sample_config auth (ready_with auth).
Proof. do 3 apply reach_receive. do 2 apply reach_connect. apply ReachStart. Qed.

Lemma sample_ready_reachable : reachable sample_config None sample_ready.
Proof. apply ready_reachable. Qed.

Lemma guest_open_reachable : reachable sample_config guest_auth guest_open.
Proof. apply reach_receive, ready_reachable. Qed.

Lemma sample_open_reachable : reachable sample_config None sample_open.
Proof. apply reach_receive, sample_ready_reachable. Qed.

Lemma sample_answered_reachable : reachable sample_config None sample_answered.
Proof. apply reach_receive, sample_open_reachable. Qed.

Lemma sample_cancelled_reachable : reachable sample_config None sample_cancelled.
Proof. apply reach_receive, sample_open_reachable. Qed.
