(* ===== verification/Tokens.v ===== *)
(** * Temporary tokens

    What [issue] hands out: a token that authenticates until it expires and that
    can do no more than the account that issued it. *)
From S2P Require Import Prelude GoStd Json Protocol Libs Auth State Contract Management Scenario.
#[local] Open Scope Z_scope.
#[local] Arguments String.append !_ _ / : simpl nomatch.

(** ** Definitions *)

(** A rule of an issued token: one business service, one method or all of them. *)
Definition token_rule (issuer : User) (rule : string) : Prop :=
  exists service method, rule = service +:+ "/" +:+ method /\
    is_empty service = false /\ ContainsByte service "/" = false /\ ContainsByte service "*" = false /\
    HasPrefix service reservedPrefix = false /\
    is_empty method = false /\ ContainsByte method "/" = false /\
    (ContainsByte method "*" = true -> method = "*") /\
    allowsRole (Some issuer) "client" = true /\ allowsCall (Some issuer) service method = true.

Definition token_registration (issuer : User) (service : string) : Prop :=
  ContainsByte service "*" = false /\ HasPrefix service reservedPrefix = false /\
  allowsRole (Some issuer) "server" = true /\ allowsRegistration (Some issuer) service = true.

Definition bearer (token : string) : string := "Bearer " +:+ token.

(** An account that may do everything, and a request for one method. *)
Definition sample_issuer : User :=
  MkUser "alice" "" (Some ["client"%string; "server"%string]) (Some ["*"%string]) (Some ["*"%string])
    "" "" None "" identityAccount 0.
Definition sample_request : IssueTokenRequest :=
  MkIssueRequest 60 (Some [MkScope "demo.v1.A" (Some ["Run"%string]) false]).

(** ** What the loops grant *)

Lemma scope_calls_sound issuer service methods calls :
  scope_calls issuer service methods = inr calls ->
  is_empty service = false -> ContainsByte service "/" = false -> ContainsByte service "*" = false ->
  HasPrefix service reservedPrefix = false -> Forall (token_rule issuer) calls.
Proof.
  intros Hs H1 H2 H3 H4. revert calls Hs.
  induction methods as [|m methods IH]; intros calls; simpl; [intros [= <-]; constructor|].
  destruct (method_scope_bad m) eqn:Hbad; [done|].
  destruct (negb _ || negb _) eqn:Hp; [done|].
  destruct (scope_calls issuer service methods) as [|rest]; [done|]. intros [= <-].
  constructor; [|by apply IH]. apply orb_false_iff in Hp as [Hp1 Hp2].
  unfold method_scope_bad in Hbad. apply orb_false_iff in Hbad as [Hbad Hstar].
  apply orb_false_iff in Hbad as [He Hsl].
  assert (ContainsByte m "*" = true -> m = "*"%string) as Hm.
  { intros Hm. rewrite Hm in Hstar. destruct (String.eqb m "*") eqn:E; [by apply String.eqb_eq|done]. }
  unbool. exists service, m. by split_and!.
Qed.

Lemma contains_any_two s c d : ContainsAny s (String c (String d EmptyString)) = false ->
  ContainsByte s c = false /\ ContainsByte s d = false.
Proof. simpl. rewrite orb_false_r. apply orb_false_iff. Qed.

Lemma scopes_grant_sound issuer seen scopes calls regs :
  scopes_grant issuer seen scopes = inr (calls, regs) ->
  Forall (token_rule issuer) calls /\ Forall (token_registration issuer) regs.
Proof.
  revert seen calls regs. induction scopes as [|sc scopes IH]; intros seen calls regs; simpl.
  { intros [= <- <-]. by split. }
  destruct (is_empty (sc_service sc) || _ || _ || _) eqn:Hbad; [done|].
  destruct (_ && _); [done|].
  repeat (apply orb_false_iff in Hbad as [Hbad ?]).
  apply contains_any_two in H1 as [Hstar Hslash].
  destruct (scope_calls _ _ _) as [|cs] eqn:Hc; [done|].
  eapply scope_calls_sound in Hc; [|done..].
  destruct (sc_register sc && _) eqn:Hr; [done|].
  destruct (scopes_grant _ _ scopes) as [|[cs' rs']] eqn:Hrest; [done|]. intros [= <- <-].
  apply IH in Hrest as [Hcs Hrs]. split; [by apply Forall_app|].
  apply Forall_app. split; [|done]. destruct (sc_register sc); [|constructor].
  simpl in Hr. apply orb_false_iff in Hr as [Hr1 Hr2]. apply negb_false_iff in Hr1, Hr2.
  constructor; [|constructor]. by split_and!.
Qed.

(** ** What a rule allows *)

Lemma append_eq_empty s t : s +:+ t = EmptyString -> s = EmptyString /\ t = EmptyString.
Proof. by destruct s; [|done]. Qed.

(** A call that a rule allows is one the issuer may make. *)
Lemma token_rule_allows issuer calls service method :
  Forall (token_rule issuer) calls ->
  Contains calls "*" || Contains calls (service +:+ "/*") || Contains calls (service +:+ "/" +:+ method) = true ->
  allowsRole (Some issuer) "client" = true /\ allowsCall (Some issuer) service method = true /\
  HasPrefix service reservedPrefix = false.
Proof.
  intros Hall Hc. rewrite Forall_forall in Hall.
  assert (forall m', (service +:+ "/" +:+ m') ∈ calls -> (m' = method \/ m' = "*"%string) ->
    allowsRole (Some issuer) "client" = true /\ allowsCall (Some issuer) service method = true /\
    HasPrefix service reservedPrefix = false) as Hrule.
  { intros m' Hin Hm'. destruct (Hall _ Hin) as (s & m & Heq & He & Hsl & Hst & Hres & Hme & Hms & Hstar & Hr & Hac).
    assert (ContainsByte service "/" = false) as Hss.
    { destruct (ContainsByte service "/") eqn:E; [exfalso|done].
      assert (forall a b x y, a +:+ String "/" x = b +:+ String "/" y -> ContainsByte b "/" = false ->
        ContainsByte y "/" = false -> ContainsByte a "/" = false) as Hone.
      { clear. induction a as [|c a IH]; intros [|d b] x y; simpl; intros Heq Hb Hy; [done|done| |].
        - injection Heq as -> <-. rewrite ContainsByte_app in Hy. simpl in Hy. by rewrite orb_true_r in Hy.
        - injection Heq as -> Heq. apply orb_false_iff in Hb as [Hb1 Hb2]. rewrite Hb1. simpl. by eapply IH. }
      simpl in Heq. by rewrite (Hone _ _ _ _ Heq Hsl Hms) in E. }
    simpl in Heq. apply append_sep_inj in Heq as [-> ->]; [|done..].
    split_and!; [done| |done]. unfold allowsCall in *.
    destruct Hm' as [<-|Hm']; [done|]. destruct m as [|c [|]]; try discriminate Hm'. injection Hm' as ->.
    apply orb_true_iff. left. simpl in Hac. by rewrite <- orb_assoc, orb_diag in Hac. }
  apply orb_true_iff in Hc as [Hc|Hc]; [apply orb_true_iff in Hc as [Hc|Hc]|]; apply Contains_spec in Hc.
  - destruct (Hall _ Hc) as (s & m & Heq & He & _ & Hst & _). destruct s as [|c s]; [done|].
    simpl in Heq. injection Heq as <- _. done.
  - apply (Hrule "*"%string); [done|by right].
  - apply (Hrule method); [done|by left].
Qed.

(** ** Issuing *)

#[local] Opaque tokenCapacity.

Section tokens.
Context `{Crypto}.

(** The state and the user behind a successful [issue]. *)
Record issued (issuer : User) (request : IssueTokenRequest) (now : Z) (a a' : Auth)
    (res : IssueTokenResult) (user : User) : Prop := {
  iu_lookup : a_tokens a' !! is_tokenID res = Some user;
  iu_id : is_tokenID res = hex_encode (sha256_Sum256 (is_token res)) /\ u_tokenID user = is_tokenID res;
  iu_format : HasPrefix (is_token res) "mt_" = true;
  iu_expires : u_expires user = Some (now + ir_ttlSeconds request * Second);
  iu_ttl : 1 <= ir_ttlSeconds request <= 3600;
  iu_username : u_username user = u_username issuer;
  iu_calls : Forall (token_rule issuer) (rules (u_call user));
  iu_regs : Forall (token_registration issuer) (rules (u_register user));
  iu_roles : u_roles user = appended
    (match rules (u_call user) with [] => [] | _ => ["client"%string] end
     ++ match rules (u_register user) with [] => [] | _ => ["server"%string] end);
  iu_issuer : u_tokenID issuer = EmptyString;
  iu_kind : u_kind user = identityToken;
  iu_size : (size (a_tokens a') <= tokenCapacity)%nat }.

Lemma rules_appended l : rules (appended l) = l.
Proof. by destruct l. Qed.

Lemma issue_issued issuer request secret now a a' res :
  issue issuer request secret now a = (a', inr res) ->
  exists user, issued issuer request now a a' res user.
Proof.
  unfold issue. destruct (negb _) eqn:Htok; [done|]. destruct (_ || _) eqn:Hargs; [done|].
  destruct (scopes_grant _ _ _) as [|[calls regs]] eqn:Hg; [done|].
  destruct secret as [secret|]; [|done]. simpl.
  destruct (tokenCapacity <=? _)%nat eqn:Hcap; [done|]. intros [= <- <-].
  apply scopes_grant_sound in Hg as [Hcalls Hregs].
  repeat (apply orb_false_iff in Hargs as [Hargs ?]). unbool.
  eexists. split; [apply lookup_insert_eq|..]; cbn -[rules appended]; rewrite ?rules_appended; try done.
  - by destruct (b64url_encode secret).
  - by destruct (u_tokenID issuer).
  - rewrite map_size_insert. apply Nat.leb_gt in Hcap. case_match; simpl; lia.
Qed.

Lemma registration_allows issuer regs name :
  Forall (token_registration issuer) regs -> Contains regs "*" || Contains regs name = true ->
  token_registration issuer name.
Proof.
  rewrite Forall_forall. intros Hall [Hc|Hc]%orb_true_iff; apply Contains_spec, Hall in Hc; [|done].
  by destruct Hc as [Hc _].
Qed.

Lemma issued_roles issuer request now a a' res user role :
  issued issuer request now a a' res user -> allowsRole (Some user) role = true ->
  allowsRole (Some issuer) role = true.
Proof.
  intros Hu Hr. pose proof (iu_calls _ _ _ _ _ _ _ Hu) as Hc. pose proof (iu_regs _ _ _ _ _ _ _ Hu) as Hg.
  unfold allowsRole in Hr. rewrite (iu_roles _ _ _ _ _ _ _ Hu), rules_appended in Hr.
  apply Contains_spec, elem_of_app in Hr as [Hr|Hr].
  - destruct (rules (u_call user)); [by apply elem_of_nil in Hr|].
    apply list_elem_of_singleton in Hr as ->. apply Forall_cons in Hc as [(sv & m & _ & Hx) _]. tauto.
  - destruct (rules (u_register user)); [by apply elem_of_nil in Hr|].
    apply list_elem_of_singleton in Hr as ->. apply Forall_cons in Hg as [(_ & _ & Hx & _) _]. done.
Qed.

Lemma mt_not_mk t : HasPrefix t "mt_" = true -> HasPrefix t apiKeyPrefix = false.
Proof. by intros [rest ->]%prefix_spec. Qed.

(** ** Theorems *)

(** C28: a temporary token can do no more than the account that
    issued it: every call, registration and role it allows, the issuer has, none
    of them reaches the Router's own services, it cannot issue tokens itself, and
    it lives between one second and one hour. *)
Theorem token_attenuates issuer request secret now a a' res :
  issue issuer request secret now a = (a', inr res) ->
  exists user, a_tokens a' !! is_tokenID res = Some user /\
    (forall service method, allowsCall (Some user) service method = true ->
       allowsRole (Some issuer) "client" = true /\ allowsCall (Some issuer) service method = true /\
       HasPrefix service reservedPrefix = false) /\
    (forall name, allowsRegistration (Some user) name = true ->
       allowsRole (Some issuer) "server" = true /\ allowsRegistration (Some issuer) name = true /\
       HasPrefix name reservedPrefix = false) /\
    (forall role, allowsRole (Some user) role = true -> allowsRole (Some issuer) role = true) /\
    mayIssueTokens (Some user) = false /\
    exists expires, u_expires user = Some expires /\ now + Second <= expires <= now + 3600 * Second.
Proof.
  intros Hi. apply issue_issued in Hi as [user Hu]. exists user. split; [by destruct Hu|].
  split; [|split; [|split; [|split]]].
  - intros service method Hc. by eapply token_rule_allows; [apply Hu|].
  - intros name Hn. apply (registration_allows issuer) in Hn as (_ & H2 & H3 & H4); [by split_and!|apply Hu].
  - intros role. by eapply issued_roles.
  - unfold mayIssueTokens. by rewrite (iu_kind _ _ _ _ _ _ _ Hu).
  - eexists. split; [apply Hu|]. pose proof (iu_ttl _ _ _ _ _ _ _ Hu). unfold Second. lia.
Qed.

Lemma hex_nonempty s : s <> EmptyString -> is_empty (hex_encode s) = false.
Proof. by destruct s. Qed.

End tokens.
(** ** Witnesses *)

Lemma token_attenuates_witness :
  exists a' res user, issue sample_issuer sample_request (Some "secret"%string) 0 auth0 = (a', inr res) /\
    a_tokens a' !! is_tokenID res = Some user /\ mayIssueTokens (Some user) = false.
Proof.
  destruct (issue sample_issuer sample_request (Some "secret"%string) 0 auth0) as [a' [err|res]] eqn:E.
  { vm_compute in E. discriminate E. }
  destruct (token_attenuates sample_issuer sample_request (Some "secret"%string) 0 auth0 a' res E)
    as (user & Hl & _ & _ & _ & Hm & _).
  exists a', res, user. split; [reflexivity|]. split; [exact Hl|exact Hm].
Defined.

