(* ===== verification/Endings.v ===== *)
(** * How calls end without an answer: deadlines, departures, Close

    The loops of [expireLoop] and [remove] against their declarative meaning:
    which routes, heap slots and registrations are left. *)
From S2P Require Import Prelude GoStd GoHeap Json Protocol Outbox Breaker Libs Auth State Deadline.
From S2P Require Import Dedup Balance Management Router Connection Calls Registry Invariants.
From S2P Require Import Membership Reachable Scenario.
#[local] Open Scope Z_scope.

(** ** Definitions *)

(** The routes that survive an expiry at [now]. *)
Definition survives (now : Z) (r : Router) (rt : nat) : Prop :=
  rt ∈ r_deadlines r -> now < deadlineOf r rt.

(** The two ends of a route. *)
Definition party (r : Router) (p rt : nat) : Prop :=
  rt_client (r_rstore r rt) = p \/ rt_instance (r_rstore r rt) = p.

(** ** Lemmas *)

Lemma endRoute_untracked id rt r : deadlines_ok r -> rt ∉ r_deadlines r ->
  r_deadlines (endRoute id rt r) = r_deadlines r /\ r_rstore (endRoute id rt r) = r_rstore r.
Proof.
  intros Hok Hrt. unfold endRoute. set (r1 := upd_peer _ _ _).
  assert (deadlines_ok r1) as H1 by by apply (deadlines_ok_ext r).
  destruct (untrack_spec rt r1 H1) as (_ & _ & _ & [Hp|[_ ->]]).
  - destruct Hrt. change (rt ∈ r_deadlines r1). rewrite Hp. by left.
  - set (c := rt_client _). pose proof (callEnded_shifted c r1) as Hs. set (r3 := callEnded c r1) in *.
    assert (r_deadlines r3 = r_deadlines r /\ r_rstore r3 = r_rstore r) as [H2 H3].
    { by rewrite (shifted_field r_deadlines _ _ _ ltac:(done) Hs),
        (shifted_field r_rstore _ _ _ ltac:(done) Hs). }
    by repeat case_match.
Qed.

(** Fields that failing joined calls and sending frames leave alone. *)
Lemma expire_route_effect rt now r :
  calls_ok r -> rt ∉ r_deadlines r -> r_routes r !! rt_id (r_rstore r rt) = Some rt ->
  let r' := expire_route rt now r in
  r_routes r' = delete (rt_id (r_rstore r rt)) (r_routes r) /\
  r_deadlines r' = r_deadlines r /\ r_rstore r' = r_rstore r.
Proof.
  intros Hok Hrt Hid. unfold expire_route. case_bool_decide as Hx; [done|]. clear Hx.
  set (x := r_rstore r rt) in *. set (r1 := finishRoute _ _ _ _).
  assert (quiet r r1) as H1 by (etrans; [apply observe_peer_quiet|apply finishRoute_quiet]).
  set (r2 := fail_joined rt _ _ _ r1). set (r3 := send (rt_instance x) _ _).
  assert (quiet r2 r3) as H3 by (etrans; apply send_quiet).
  assert (r_routes r3 = r_routes r) as F1.
  { rewrite (quiet_field r_routes r2 r3) by done. unfold r2. rewrite (fail_joined_field r_routes) by done.
    by apply quiet_field. }
  assert (r_deadlines r3 = r_deadlines r) as F2.
  { rewrite (quiet_field r_deadlines r2 r3) by done. unfold r2. rewrite (fail_joined_field r_deadlines) by done.
    by apply quiet_field. }
  assert (r_rstore r3 = r_rstore r) as F3.
  { rewrite (quiet_field r_rstore r2 r3) by done. unfold r2. rewrite (fail_joined_field r_rstore) by done.
    by apply quiet_field. }
  assert (deadlines_ok r3) as Hd3.
  { apply (deadlines_ok_ext r); [done|..|apply Hok]; intros; unfold deadlineOf; by rewrite ?F3. }
  destruct (endRoute_untracked (rt_id x) rt r3 Hd3) as [E1 E2]; [by rewrite F2|].
  by rewrite E1, E2, endRoute_routes, F1.
Qed.

(** What one round of the loop takes off the heap. *)
Lemma pop_due rt l r : calls_ok r -> r_deadlines r = rt :: l ->
  let r1 := (pop_deadline r).2 in
  (pop_deadline r).1 = Some rt /\ calls_ok r1 /\ length (r_deadlines r1) = length l /\
  (rt ∉ r_deadlines r1) /\ (forall q, q ∈ r_deadlines r <-> q = rt \/ q ∈ r_deadlines r1) /\
  (forall q, deadlineOf r1 q = deadlineOf r q) /\
  (forall q, rt_id (r_rstore r1 q) = rt_id (r_rstore r q)) /\ r_routes r1 = r_routes r.
Proof.
  intros H Hl. destruct (pop_deadline_ok rt r H) as (H1 & H2 & H3); [by rewrite Hl|].
  destruct (pop_deadline_spec rt r (co_deadlines _ _ H)) as (_ & _ & Hre & Hp & _); [by rewrite Hl|].
  intros r1. fold r1 in H2, H3, Hre, Hp. split_and!; try done.
  - rewrite Hl in H3. simpl in H3. lia.
  - pose proof (index_ok_nodup _ (ok_index _ (co_deadlines _ _ H))) as Hn. rewrite Hp in Hn.
    by apply NoDup_cons in Hn as [].
  - intros q. rewrite Hp. apply elem_of_cons.
  - intros q. unfold deadlineOf. by apply (reindexed_route rt_deadline).
  - intros q. by apply (reindexed_route rt_id).
  - by apply reindexed_field.
Qed.

Lemma expire_loop_spec fuel now r :
  calls_ok r -> (length (r_deadlines r) <= fuel)%nat ->
  let r' := expire_loop fuel now r in
  (forall rt, rt ∈ r_deadlines r' <-> rt ∈ r_deadlines r /\ now < deadlineOf r rt) /\
  (forall id rt, r_routes r' !! id = Some rt <-> r_routes r !! id = Some rt /\ survives now r rt).
Proof.
  revert r. induction fuel as [|fuel IH]; intros r Hok Hlen; cbn [expire_loop].
  { destruct (r_deadlines r) eqn:E; [|simpl in Hlen; lia]. unfold survives. rewrite E.
    split; intros; set_solver. }
  destruct (due now r) eqn:Hdue.
  - unfold due in Hdue. destruct (r_deadlines r) as [|rt l] eqn:Hl; [done|].
    destruct (pop_due rt l r Hok Hl) as (P1 & P2 & P3 & P4 & P5 & P6 & P7 & P8).
    destruct (pop_deadline r) as [o r1]. cbn [fst snd] in *. subst o.
    assert (r_routes r !! rt_id (r_rstore r rt) = Some rt) as Hid.
    { apply (co_tracked _ _ Hok). rewrite Hl. by left. }
    destruct (expire_route_effect rt now r1) as (E1 & E2 & E3); [done|done|by rewrite P7, P8|].
    set (r2 := expire_route rt now r1) in *.
    destruct (IH r2) as [I1 I2]; [by apply expire_route_ok|rewrite E2, P3; simpl in Hlen; lia|].
    assert (forall q, deadlineOf r2 q = deadlineOf r q) as Hd.
    { intros q. rewrite <- P6. unfold deadlineOf. by rewrite E3. }
    rewrite <- Hl in *. split.
    + intros q. rewrite I1, E2, Hd, P5. split; [tauto|]. intros [[->|Hq] Hn]; [unbool; lia|done].
    + intros id q. rewrite I2, E1, P7, P8. unfold survives. rewrite E2, Hd, P5, lookup_delete.
      case_decide as Hq; [subst id|]; split; try (intros []; done).
      * intros [Hq Hs]. assert (q = rt) as -> by congruence. exfalso.
        assert (now < deadlineOf r rt) by (apply Hs; by left). unbool. lia.
      * intros [Hr Hs]. split; [done|]. intros [->|Hx]; [|auto].
        exfalso. apply Hq. destruct (co_route _ _ Hok _ _ Hr). done.
      * intros [Hr Hs]. split; [done|]. auto.
  - assert (forall q, q ∈ r_deadlines r -> now < deadlineOf r q) as Hall.
    { intros q Hq. unfold due in Hdue. destruct (r_deadlines r) as [|rt l] eqn:Hl; [set_solver|].
      pose proof (earliest_deadline r rt q (co_deadlines _ _ Hok)) as He. rewrite Hl in He.
      specialize (He eq_refl Hq). unbool. lia. }
    unfold survives. split; intros; naive_solver.
Qed.

(** ** A peer leaves *)

(** Operations that leave the two ends of every route alone. *)
Lemma endRoute_parties id rt r p q : party (endRoute id rt r) p q <-> party r p q.
Proof.
  unfold endRoute. set (r1 := upd_peer _ _ _).
  assert (party (callEnded (rt_client (r_rstore r rt)) (untrack rt r1)) p q <-> party r p q) as Hc.
  { unfold party. rewrite (shifted_field r_rstore _ _ _ ltac:(done) (callEnded_shifted _ _)).
    pose proof (untrack_reindexed rt r1) as Hu.
    by rewrite (reindexed_route rt_client r1 _ q), (reindexed_route rt_instance r1 _ q). }
  destruct (r_draining _); [|done]. by destruct (_ =? 0).
Qed.

Lemma party_same r r' p q : r_rstore r' = r_rstore r -> party r' p q <-> party r p q.
Proof. unfold party. by intros ->. Qed.

Lemma remove_route_step p now id rt r : r_routes r !! id = Some rt -> party r p rt ->
  exists r1, quiet (endRoute id rt r1) (remove_route p now id r) /\
    r_routes r1 = r_routes r /\ forall q, party r1 p q <-> party r p q.
Proof.
  intros Hid Hp. unfold remove_route. rewrite Hid. set (x := r_rstore r rt).
  destruct (rt_client x =? p)%nat eqn:Ec.
  - eexists. split; [apply send_quiet|]. split; [by apply quiet_field, finishRoute_quiet|].
    intros q. by apply party_same.
  - destruct (rt_instance x =? p)%nat eqn:Ei; [|rewrite Nat.eqb_neq in Ec, Ei; by destruct Hp].
    eexists. split; [apply send_quiet|].
    set (lost := routerError _ _ _ _ _ _).
    destruct (owns_dedup r rt) as [d|]; [|split; [by apply quiet_field, finishRoute_quiet|];
      intros q; by apply party_same].
    pose proof (dedupFail_settled d lost (Some p) now r) as Hs.
    set (r2 := dedupFail d lost (Some p) now r) in *.
    assert (r_routes r2 = r_routes r /\ r_rstore r2 = r_rstore r) as [F1 F2].
    { by rewrite (settled_field r_routes d r r2), (settled_field r_rstore d r r2). }
    split; [exact F1|]. intros q. clearbody r2.
    change (party (upd_route rt (fun x => x {{ rt_dedup := None }}) r2) p q <-> party r p q).
    rewrite <- (party_same r r2) by done. unfold party, upd_route. simpl.
    by rewrite (update_field rt_client), (update_field rt_instance).
Qed.

(** What ending one route leaves of the others. *)
Lemma remove_route_effect p now id r :
  let r' := remove_route p now id r in
  (forall id' rt, r_routes r' !! id' = Some rt <->
     r_routes r !! id' = Some rt /\ ~ (id' = id /\ party r p rt)) /\
  (forall rt, party r' p rt <-> party r p rt).
Proof.
  destruct (r_routes r !! id) as [rt|] eqn:Hid.
  - assert (party r p rt \/ ~ party r p rt) as [Hp|Hp] by (unfold party; lia).
    + destruct (remove_route_step p now id rt r Hid Hp) as (r1 & Hq & Hr & Hpa).
      set (r' := remove_route p now id r) in *. split.
      * intros id' rt'. rewrite (quiet_field r_routes (endRoute id rt r1) r') by done.
        rewrite endRoute_routes, Hr, lookup_delete.
        case_decide as E; [subst id'|naive_solver]. split; [done|]. intros [H1 H2].
        assert (rt' = rt) as -> by congruence. tauto.
      * intros q. rewrite <- Hpa, <- (endRoute_parties id rt r1). apply party_same.
        by apply quiet_field.
    + unfold remove_route. rewrite Hid. unfold party in Hp.
      destruct (rt_client _ =? p)%nat eqn:Ec; [apply Nat.eqb_eq in Ec; tauto|].
      destruct (rt_instance _ =? p)%nat eqn:Ei; [apply Nat.eqb_eq in Ei; tauto|]. unfold party. naive_solver.
  - unfold remove_route. rewrite Hid. naive_solver.
Qed.

Lemma remove_loop_effect p now l r :
  let r' := fold_left (fun r id => remove_route p now id r) l r in
  (forall id rt, r_routes r' !! id = Some rt <->
     r_routes r !! id = Some rt /\ ~ (id ∈ l /\ party r p rt)) /\
  (forall rt, party r' p rt <-> party r p rt).
Proof.
  revert r. induction l as [|x l IH]; intros r; cbn [fold_left]; [set_solver|].
  destruct (remove_route_effect p now x r) as [E1 E2].
  destruct (IH (remove_route p now x r)) as [I1 I2]. split.
  - intros id rt. rewrite I1, E1, E2, elem_of_cons. tauto.
  - intros rt. by rewrite I2.
Qed.

Lemma routes_by_none g r p :
  (forall id rt, r_routes r !! id = Some rt -> g (r_rstore r rt) <> p) -> routes_by g r p = 0.
Proof.
  intros Hg. unfold routes_by.
  rewrite (sum_with_ext _ (fun _ => 0)).
  - induction (map_to_list _); simpl; lia.
  - intros [id rt] Hin%elem_of_map_to_list. simpl. unfold one.
    destruct (_ =? _)%nat eqn:E; [|done]. apply Nat.eqb_eq in E. by destruct (Hg _ _ Hin).
Qed.

Lemma unregister_frame p r : registry_ok r ->
  r_routes (unregister p r) = r_routes r /\ r_peers (unregister p r) = r_peers r /\
  r_rstore (unregister p r) = r_rstore r /\
  forall id, r_instances (unregister p r) !! id <> Some p.
Proof.
  intros Hr. unfold unregister, is_registered. case_bool_decide as Hp.
  - rewrite leavePools_frame by apply Hr. split_and!; try done. intros id. simpl.
    rewrite lookup_delete. case_decide as Hid; [done|]. intros Hx.
    by destruct (rk_instance _ Hr _ _ Hx).
  - split_and!; try done. intros id Hx. by destruct (rk_instance _ Hr _ _ Hx) as [<- _].
Qed.

Lemma remove_effect p e r : router_ok r -> env_ok e ->
  let r' := remove p e r in
  (p ∉ r_peers r') /\ (forall id, r_instances r' !! id <> Some p) /\
  (forall id rt, r_routes r' !! id = Some rt <-> r_routes r !! id = Some rt /\ ~ party r p rt) /\
  (forall rt, party r' p rt <-> party r p rt).
Proof.
  intros H He. unfold remove. set (r1 := r {{ r_peers ::= _ }}).
  assert (router_ok r1) as H1 by by apply (router_ok_same r); [split|split|..].
  assert (router_ok (peers_gone r1) /\ r_routes (peers_gone r1) = r_routes r /\
    r_rstore (peers_gone r1) = r_rstore r /\ p ∉ r_peers (peers_gone r1)) as (H2 & F1 & F2 & F3).
  { assert (p ∉ r_peers r1) by (simpl; set_solver).
    unfold peers_gone. destruct (_ && _); [|done]. split_and!; try done.
    by apply (router_ok_same r1); [split|split|..]. }
  set (r2 := peers_gone r1) in *. clearbody r2.
  destruct (unregister_frame p r2 (ro_registry _ H2)) as (G1 & G2 & G3 & G4).
  pose proof (unregister_router_ok p _ H2) as H3. set (r3 := unregister p r2) in *.
  destruct (remove_loop_effect p (e_now e) (iter_keys e (r_routes r3)) r3) as [L1 L2].
  destruct (fold_ending (remove_route p (e_now e)) (iter_keys e (r_routes r3)) r3) as [_ H5].
  { intros id r0 H0. split; [by apply remove_route_ok|by apply remove_route_ending]. }
  { apply H3. }
  set (r4 := fold_left _ _ r3) in *.
  assert (forall rt, party r3 p rt <-> party r p rt) as Hp3.
  { intros rt. apply party_same. by rewrite G3. }
  split_and!.
  - rewrite (ending_field r_peers r3) by done. by rewrite G2.
  - intros id. by rewrite (ending_field r_instances r3).
  - intros id rt. rewrite L1, Hp3, G1, F1. split; intros [Hr Hx]; split; try done.
    + intros Hp. apply Hx. split; [|done]. apply iter_keys_all; [done|]. exists rt. congruence.
    + by intros [_ ?].
  - intros rt. by rewrite L2.
Qed.
