(* ===== verification/Authorization.v ===== *)
(** * Who may do what

    Every open call is one its client's identity may make, to an instance whose
    identity may register the service: an invariant of the reachable states. *)
From S2P Require Import Prelude GoStd LocalSock GoHeap Json Protocol Outbox Breaker Libs Auth State.
From S2P Require Import Deadline Dedup Balance Management OpenApi Router Connection Http Calls Registry.
From S2P Require Import Invariants Membership Reachable Endings.
#[local] Open Scope Z_scope.

(** ** Definitions *)

(** A route [x] as the rules want it. *)
Record route_authorised (r : Router) (x : route) : Prop := {
  ra_client : (rt_client x < r_next r)%nat;
  ra_instance : (rt_instance x < r_next r)%nat;
  ra_role : p_role (peerOf r (rt_client x)) = "client"%string;
  ra_call : allowsCall (p_user (peerOf r (rt_client x))) (rt_service x) (rt_method x) = true;
  ra_offer : offers (peerOf r (rt_instance x)) (rt_service x);
  ra_reserved : HasPrefix (rt_service x) reservedPrefix = false }.

Record authorised (r : Router) : Prop := {
  au_route id rt : r_routes r !! id = Some rt -> route_authorised r (r_rstore r rt);
  au_offer p name : offers (peerOf r p) name ->
    p_role (peerOf r p) = "server"%string /\ allowsRegistration (p_user (peerOf r p)) name = true;
  au_role p : p_role (peerOf r p) <> EmptyString ->
    allowsRole (p_user (peerOf r p)) (p_role (peerOf r p)) = true }.

Record system_authorised (s : System) : Prop := {
  sa_router : authorised (sy_router s);
  sa_hello p : sy_phase s p = AwaitHello -> p_role (peerOf (sy_router s) p) = EmptyString;
  sa_register p id : sy_phase s p = AwaitRegister id -> p_role (peerOf (sy_router s) p) = "server"%string;
  sa_virtual p : p ∈ r_peers (sy_router s) -> sy_phase s p = Gone ->
    p_role (peerOf (sy_router s) p) = "client"%string }.

(** Identities, offers and the open routes are kept, but for routes that end. *)
Definition standing (x : peer) : option User * string * list service :=
  (p_user x, p_role x, p_services x).
Record stands (r r' : Router) : Prop := {
  kp_next : (r_next r <= r_next r')%nat;
  kp_peers : r_peers r' ⊆ r_peers r;
  kp_peer q : standing (peerOf r' q) = standing (peerOf r q) }.
Record kept (r r' : Router) : Prop := {
  kp_stands :> stands r r';
  kp_routes : r_routes r' ⊆ r_routes r;
  kp_route rt : route_as (r_rstore r' rt) = route_as (r_rstore r rt) }.

(** ** Lemmas *)

#[global] Instance stands_preorder : PreOrder stands.
Proof.
  split; [by intros r; split|]. intros x y z [] []. split; [lia|set_solver|congruence].
Qed.
#[global] Instance kept_preorder : PreOrder kept.
Proof.
  split; [by intros r; split|]. intros x y z [] []. split; [by etrans|by etrans|congruence].
Qed.

Lemma standing_fields x y : standing x = standing y ->
  p_user x = p_user y /\ p_role x = p_role y /\ p_services x = p_services y.
Proof. unfold standing. intros. by simplify_eq. Qed.

Lemma route_as_fields x y : route_as x = route_as y ->
  rt_service x = rt_service y /\ rt_method x = rt_method y /\
  rt_client x = rt_client y /\ rt_instance x = rt_instance y.
Proof. unfold route_as. intros. by simplify_eq. Qed.

(** Other peers may come, and the peers of a route stay what they are. *)
Lemma route_authorised_mono r r' x y :
  (r_next r <= r_next r')%nat ->
  (forall q, (q < r_next r)%nat -> standing (peerOf r' q) = standing (peerOf r q)) ->
  route_as y = route_as x -> route_authorised r x -> route_authorised r' y.
Proof.
  intros Hn Hp Hx [A1 A2 A3 A4 A5 A6]. apply route_as_fields in Hx as (X1 & X2 & X3 & X4).
  destruct (standing_fields _ _ (Hp _ A1)) as (C1 & C2 & _).
  destruct (standing_fields _ _ (Hp _ A2)) as (_ & _ & I3).
  split; rewrite ?X1, ?X2, ?X3, ?X4, ?C1, ?C2; try done; try lia.
  unfold offers. by rewrite I3.
Qed.

Lemma authorised_kept r r' : kept r r' -> authorised r -> authorised r'.
Proof.
  intros [[K1 K2 K3] K4 K5] [A1 A2 A3]. split.
  - intros id rt Hid. eapply route_authorised_mono; [exact K1|auto|apply K5|].
    eapply A1. by eapply lookup_weaken.
  - intros p name. destruct (standing_fields _ _ (K3 p)) as (-> & -> & Hs). unfold offers. rewrite Hs. apply A2.
  - intros p. destruct (standing_fields _ _ (K3 p)) as (-> & -> & _). apply A3.
Qed.

Lemma system_authorised_stands s r' :
  stands (sy_router s) r' -> authorised r' -> system_authorised s ->
  system_authorised (on_router (fun _ => r') s).
Proof.
  intros Hk Ha [S1 S2 S3 S4]. assert (forall p, p_role (peerOf r' p) = p_role (peerOf (sy_router s) p)) as Hr
    by (intros p; apply (standing_fields _ _ (kp_peer _ _ Hk p))).
  split; simpl; [done|..].
  - intros p. rewrite Hr. apply S2.
  - intros p id. rewrite Hr. apply S3.
  - intros p Hp. rewrite Hr. apply S4. by apply (kp_peers _ _ Hk).
Qed.

Lemma system_authorised_kept s r' :
  kept (sy_router s) r' -> system_authorised s -> system_authorised (on_router (fun _ => r') s).
Proof.
  intros Hk Hs. apply system_authorised_stands; [apply Hk| |done]. by eapply authorised_kept, Hs.
Qed.

Lemma ending_kept r r' : ending r r' -> kept r r'.
Proof.
  intros H. split; [split|apply H|apply H]; [apply H|by rewrite (ending_field r_peers r r')|].
  intros q. pose proof (ed_identity _ _ (proj1 H) q) as Hi. unfold identity in Hi.
  destruct (registered_fields _ _ (ed_peer _ _ (proj1 H) q)) as (_ & Hs & _).
  unfold standing. rewrite Hs. by injection Hi as -> ->.
Qed.

Lemma quiet_kept r r' : quiet r r' -> kept r r'.
Proof. intros. by apply ending_kept, ending_quiet. Qed.

(** A change of fields that no rule looks at. *)
Lemma kept_fields r r' : r_next r' = r_next r -> r_peers r' ⊆ r_peers r -> r_pstore r' = r_pstore r ->
  r_routes r' = r_routes r -> r_rstore r' = r_rstore r -> kept r r'.
Proof. intros H1 H2 H3 H4 H5. split; [split|..]; unfold peerOf; rewrite ?H1, ?H3, ?H4, ?H5; done. Qed.

(** ** Operations that open nothing *)

Lemma unregister_kept p r : registry_ok r -> kept r (unregister p r).
Proof.
  intros H. unfold unregister. destruct (is_registered p r); [|done].
  rewrite leavePools_frame by apply (rk_unique _ H). by apply kept_fields.
Qed.

Lemma drain_kept p r : registry_ok r -> kept r (drain p r).
Proof.
  intros H. unfold drain. destruct (_ || _); [done|].
  set (r1 := upd_peer p _ r).
  assert (kept r r1) as K1 by (split; [split|..]; try done; intros q; by apply (update_field standing)).
  etrans; [exact K1|]. rewrite leavePools_frame; [by apply kept_fields|].
  destruct (standing_fields _ _ (kp_peer _ _ K1 p)) as (_ & _ & ->). apply (rk_unique _ H).
Qed.

Lemma remove_kept p e r : router_ok r -> kept r (remove p e r).
Proof.
  intros H. unfold remove. set (r1 := r {{ r_peers ::= _ }}).
  assert (kept r (peers_gone r1) /\ router_ok (peers_gone r1)) as [K1 H2].
  { unfold peers_gone. destruct (_ && _); (split; [apply kept_fields; try done; simpl; set_solver|]).
    all: by apply (router_ok_same r); [split|split|..]. }
  pose proof (unregister_kept p _ (ro_registry _ H2)) as K2.
  pose proof (unregister_router_ok p _ H2) as H3. set (r3 := unregister p _) in *.
  destruct (fold_ending (remove_route p (e_now e)) (iter_keys e (r_routes r3)) r3) as [_ H5].
  - intros id r0 H0. split; [by apply remove_route_ok|by apply remove_route_ending].
  - apply H3.
  - etrans; [exact K1|]. etrans; [exact K2|]. by apply ending_kept.
Qed.

Lemma close_peer_kept p e r : router_ok r -> kept r (close_peer p e r).
Proof.
  intros H. unfold close_peer.
  assert (quiet r (upd_peer p (fun x => x {{ p_out ::= close }}) (cancel p r))) as Hq.
  { etrans; [apply cancel_quiet|]. by apply upd_peer_quiet. }
  etrans; [apply quiet_kept, Hq|]. apply remove_kept. by eapply router_ok_quiet.
Qed.

Lemma startDraining_kept r : kept r (startDraining r).
Proof.
  unfold startDraining. destruct (r_draining r); [done|].
  set (r1 := r {{ r_draining := true; r_stopping := true }}).
  transitivity r1; [by apply kept_fields|]. apply quiet_kept, wake_all_quiet.
Qed.

Lemma Shutdown_kept r : kept r (Shutdown r).
Proof.
  unfold Shutdown. pose proof (startDraining_kept r). destruct (_ =? 0); [|done].
  etrans; [done|]. by apply kept_fields.
Qed.

Lemma Close_kept e r : router_ok r -> kept r (Close e r).
Proof.
  intros Hr. unfold Close. destruct (r_closed r); [done|].
  destruct (startDraining_spec r) as (_ & _ & _ & H4 & _).
  set (r1 := (startDraining r) {{ r_closed := true }}).
  assert (calls_ok r1) as Hc1.
  { eapply (calls_ok_same _ r); [|apply Hr]. etrans; [exact H4|by split]. }
  destruct (fold_ending (close_route (e_now e)) (iter_keys e (r_routes r1)) r1) as [_ He2];
    [intros; split; [by apply close_route_ok|by apply close_route_ending]|done|].
  set (r2 := fold_left _ _ r1) in *.
  assert (kept r r1) as K1 by (etrans; [apply startDraining_kept|by apply kept_fields]).
  etrans; [exact K1|]. etrans; [by apply ending_kept|]. destruct (size _ =? 0)%nat; by apply kept_fields.
Qed.

Lemma expire_kept now r : router_ok r -> kept r (expire now r).
Proof. intros H. unfold expire. apply ending_kept, expire_loop_ending, H. Qed.

Lemma auth_kept a r : kept r (r {{ r_auth := a }}).
Proof. by apply kept_fields. Qed.

(** ** Opening a call *)

Lemma insert_route_stands p i x r : stands r (insert_route p i x r).
Proof.
  split; [simpl; lia|done|]. intros q. unfold insert_route.
  etrans; [by apply (update_field standing)|]. by apply (update_field standing).
Qed.

Lemma insert_route_authorised p i x r :
  calls_ok r -> route_authorised r x -> authorised r -> authorised (insert_route p i x r).
Proof.
  intros Hc Hx [A1 A2 A3]. set (r' := insert_route p i x r).
  destruct (insert_route_stands p i x r) as [Hn _ Hp]. fold r' in Hn, Hp. split.
  - intros id rt Hid. change (r_routes r') with (<[rt_id x := r_next r]> (r_routes r)) in Hid.
    change (r_rstore r') with (update (r_next r) (fun _ => x) (r_rstore r)).
    apply lookup_insert_Some in Hid as [[_ <-]|[_ Hid]].
    + rewrite update_eq. by apply (route_authorised_mono r r' x).
    + pose proof (co_route _ _ Hc _ _ Hid) as [_ Hlt]. rewrite update_ne by lia.
      apply (route_authorised_mono r r' (r_rstore r rt)); [done|done|done|by eapply A1].
  - intros q name. destruct (standing_fields _ _ (Hp q)) as (-> & -> & Hs). unfold offers. rewrite Hs. apply A2.
  - intros q. destruct (standing_fields _ _ (Hp q)) as (-> & -> & _). apply A3.
Qed.

Lemma open_route_authorised p f stream i now r :
  calls_ok r -> (p < r_next r)%nat -> (i < r_next r)%nat -> r_routes r !! f_callID f = None ->
  route_authorised r (new_route p f i now) -> authorised r ->
  authorised (open_route p f stream i now r) /\ stands r (open_route p f stream i now r).
Proof.
  intros Hc Hp Hi Hid Hx Ha.
  assert (kept (insert_route p i (new_route p f i now) r) (open_route p f stream i now r)) as K
    by by apply ending_kept, open_route_ending.
  split; [eapply authorised_kept; [exact K|by apply insert_route_authorised]|].
  etrans; [apply insert_route_stands|apply K].
Qed.

Lemma serves_offers x service method : serves x service method = true -> offers x service.
Proof. intros (s & m & Hs & <- & _)%serves_spec. apply list_elem_of_fmap. eauto. Qed.

Lemma join_call_kept p d id r : kept r (join_call p d id r).
Proof. split; [split|..]; try done. intros q. by apply (update_field standing). Qed.

Lemma kept_both r r' : kept r r' -> authorised r -> authorised r' /\ stands r r'.
Proof. intros K Ha. split; [by eapply authorised_kept|apply K]. Qed.

Section forward_authorised.
Context `{Crypto, Floats}.

Lemma dispatch_authorised p f e r :
  env_ok e -> (p < r_next r)%nat -> r_routes r !! f_callID f = None -> router_ok r ->
  p_role (peerOf r p) = "client"%string ->
  allowsCall (p_user (peerOf r p)) (f_service f) (f_method f) = true ->
  HasPrefix (f_service f) reservedPrefix = false ->
  authorised r -> authorised (dispatch p f e r) /\ stands r (dispatch p f e r).
Proof.
  intros He Hp Hid Hr Hrole Hcall Hres Ha.
  destruct (dispatch_cases p f e r He Hp Hid Hr)
    as [Hd|[(d & r1 & He1 & _ & ->)|(avoid & i & r1 & r2 & He1 & Hfr & Hc2 & Hsel & Hp2 & Hi2 & Hid2 & ->)]].
  - apply kept_both; [by apply ending_kept|done].
  - apply kept_both; [|done]. etrans; [by apply ending_kept|]. apply join_call_kept.
  - assert (kept r1 r2) as K2 by by apply ending_kept, ending_selection.
    assert (kept r r2) as K by (etrans; [by apply ending_kept|done]).
    destruct (open_route_authorised p f (methodStream r (f_service f) (f_method f)) i (e_now e) r2)
      as [Hau Hst]; [done..| |by eapply authorised_kept|split; [done|etrans; [apply K|done]]].
    destruct (standing_fields _ _ (kp_peer _ _ K p)) as (Hu & Hro & _).
    split; simpl; rewrite ?Hu, ?Hro; try done.
    destruct (standing_fields _ _ (kp_peer _ _ K2 i)) as (_ & _ & Hs).
    unfold offers. rewrite Hs. eapply serves_offers, Hsel.
Qed.

Lemma forward_authorised p f e r :
  env_ok e -> (p < r_next r)%nat -> router_ok r ->
  (f_kind f = "call.open"%string -> p_role (peerOf r p) = "client"%string) ->
  authorised r -> authorised (forward p f e r) /\ stands r (forward p f e r).
Proof.
  intros He Hp Hr Hrole Ha. unfold forward.
  assert (forall r', quiet r r' -> authorised r' /\ stands r r') as Hquiet
    by (intros r' Hq; by apply kept_both; [apply quiet_kept|]).
  destruct (_ || _); [apply Hquiet, cancel_quiet|].
  destruct (String.eqb _ "call.open") eqn:Ek.
  - apply String.eqb_eq in Ek. specialize (Hrole Ek). unfold call_open.
    destruct (negb (is_whoami f) && _) eqn:Hw; [apply Hquiet, refuse_quiet|].
    case_bool_decide as Hid; [apply Hquiet, refuse_quiet|]. destruct (r_draining r); [apply Hquiet, refuse_quiet|].
    destruct (HasPrefix (f_service f) reservedPrefix) eqn:Hres.
    { destruct (management_frame p f e r) as [a Hq]. apply kept_both; [|exact Ha].
      etrans; [apply (auth_kept a)|by apply quiet_kept]. }
    destruct ((0 <? _) && _); [apply Hquiet, refuse_quiet|]. destruct (routeCapacity <=? _); [apply Hquiet, refuse_quiet|].
    apply dispatch_authorised; try done; [by apply eq_None_not_Some|].
    apply andb_false_iff in Hw as [Hw|Hw]; [|by apply negb_false_iff in Hw].
    apply negb_false_iff in Hw. unfold is_whoami in Hw. apply andb_true_iff in Hw as [Hs _].
    apply String.eqb_eq in Hs. rewrite Hs in Hres. discriminate Hres.
  - destruct (r_routes r !! f_callID f) as [rt|] eqn:Hid; [|done]. pose proof (ro_calls _ Hr).
    destruct (_ && _); [|destruct (_ && _); [|done]]; (apply kept_both; [apply ending_kept|exact Ha]).
    + by eapply forward_client_ending.
    + by eapply forward_server_ending.
Qed.

(** ** New peers, hello and registration *)

Lemma new_peer_authorised u role id r :
  registry_ok r -> (role <> EmptyString -> allowsRole u role = true) ->
  authorised r -> authorised (new_peer u role id r).
Proof.
  intros Hr Hrole [A1 A2 A3]. pose proof (new_peer_self u role id r) as Hself.
  assert (forall q, q <> r_next r -> peerOf (new_peer u role id r) q = peerOf r q) as Hother
    by (intros; by apply new_peer_other).
  split.
  - intros i rt Hid. eapply (route_authorised_mono r _ (r_rstore r rt)); [simpl; lia| |done|by eapply A1].
    intros q Hq. rewrite Hother by lia. done.
  - intros q name. destruct (decide (q = r_next r)) as [->|Hq].
    + rewrite Hself. intros Hx%elem_of_nil. done.
    + rewrite Hother by done. apply A2.
  - intros q. destruct (decide (q = r_next r)) as [->|Hq].
    + rewrite Hself. exact Hrole.
    + rewrite Hother by done. apply A3.
Qed.

(** A peer that had no role takes one it is allowed. *)
Lemma take_role_authorised p role id r :
  p_role (peerOf r p) = EmptyString -> allowsRole (p_user (peerOf r p)) role = true ->
  authorised r -> authorised (upd_peer p (fun x => x {{ p_id := id; p_role := role }}) r).
Proof.
  intros Hnone Hrole [A1 A2 A3]. set (r' := upd_peer _ _ r).
  assert (peerOf r' p = (peerOf r p) {{ p_id := id; p_role := role }}) as Hself
    by (unfold r', peerOf, upd_peer; simpl; by rewrite update_eq).
  assert (forall q, q <> p -> peerOf r' q = peerOf r q) as Hother
    by (intros; unfold r', peerOf, upd_peer; simpl; by rewrite update_ne).
  assert (forall q, p_services (peerOf r' q) = p_services (peerOf r q)) as Hsv
    by (intros q; by apply (update_field p_services)).
  split.
  - intros i rt Hid. destruct (A1 i rt Hid) as [B1 B2 B3 B4 B5 B6].
    assert (rt_client (r_rstore r rt) <> p) as Hne by (intros E; rewrite E in B3; congruence).
    split; try done; rewrite ?Hother by done; try done. unfold offers. change (r_rstore r') with (r_rstore r).
    by rewrite Hsv.
  - intros q name Hx. unfold offers in Hx. rewrite Hsv in Hx. destruct (A2 q name Hx) as [B1 B2].
    assert (q <> p) by congruence. by rewrite Hother.
  - intros q. destruct (decide (q = p)) as [->|Hq]; [|rewrite Hother by done; apply A3].
    rewrite Hself. done.
Qed.

Lemma register_authorised p f r :
  router_ok r -> registration_ok p f r -> p_role (peerOf r p) = "server"%string ->
  authorised r ->
  authorised (register p f r).1 /\ r_peers (register p f r).1 = r_peers r /\
  forall q, p_role (peerOf (register p f r).1 q) = p_role (peerOf r q).
Proof.
  intros Hr Hreg Hrole Ha. destruct (register_cases p f r) as (r' & err & -> & Hc). simpl.
  destruct Hc as [[-> _]|(-> & Hcheck & _ & _ & r1 & Hq & Hr')]; [done|].
  destruct (check_services_spec _ _ _ Hcheck) as [Hnd Hall].
  destruct (joins_spec p (services_of f) r1 Hnd) as (H1 & _). rewrite <- Hr' in H1.
  assert (kept r1 r') as K2 by (rewrite H1; by apply kept_fields).
  assert (kept (enter p f r) r') as K by (etrans; [by apply quiet_kept|done]).
  destruct Hreg as (_ & Hblank & _).
  destruct (rk_blank _ (ro_registry _ Hr) _ Hblank) as (Hnone & _).
  assert (forall q, identity (peerOf (enter p f r) q) = identity (peerOf r q)) as Hid
    by (intros q; by apply (update_field identity)).
  assert (forall q, q <> p -> peerOf (enter p f r) q = peerOf r q) as Hother by (intros; by apply enter_other).
  assert (forall q, p_user (peerOf (enter p f r) q) = p_user (peerOf r q) /\
    p_role (peerOf (enter p f r) q) = p_role (peerOf r q)) as Hfields.
  { intros q. split; [exact (f_equal fst (Hid q))|exact (f_equal snd (Hid q))]. }
  split_and!.
  - apply (authorised_kept _ _ K). destruct Ha as [A1 A2 A3]. split.
    + intros i rt Hi. destruct (A1 i rt Hi) as [B1 B2 B3 B4 B5 B6].
      assert (rt_instance (r_rstore r rt) <> p) as Hne.
      { intros E. rewrite E in B5. unfold offers in B5. rewrite Hnone in B5. by apply elem_of_nil in B5. }
      change (r_rstore (enter p f r)) with (r_rstore r).
      destruct (Hfields (rt_client (r_rstore r rt))) as [C1 C2].
      split; rewrite ?C1, ?C2, ?(Hother (rt_instance _)) by done; done.
    + intros q name. rewrite (proj1 (Hfields q)), (proj2 (Hfields q)). destruct (decide (q = p)) as [->|Hne].
      * unfold enter, peerOf, upd_peer, offers. simpl. rewrite update_eq. simpl.
        intros (s & -> & Hs)%list_elem_of_fmap. split; [done|]. apply (Hall s Hs).
      * rewrite Hother by done. apply A2.
    + intros q. rewrite (proj1 (Hfields q)), (proj2 (Hfields q)). apply A3.
  - rewrite H1. simpl. by apply (quiet_field r_peers (enter p f r)).
  - intros q. destruct (standing_fields _ _ (kp_peer _ _ K q)) as (_ & -> & _). apply Hfields.
Qed.

(** ** Steps *)

Lemma admitted_client pd : admitted pd -> allowsRole (pd_user pd) "client" = true.
Proof.
  intros (req & e & r & Hb). unfold serve_begin in Hb. destruct (cors req r) as [w go].
  destruct (negb go); [done|]. destruct (_ <? _); [done|].
  destruct (authorize_request req w e r) as [r1 [w1|pd1]] eqn:Ea; [done|]. injection Hb as ->.
  unfold authorize_request in Ea. destruct (route_request req w); try done;
    destruct (check _ _ _) as [auth [user|fl]]; try done;
    destruct (negb (allowsRole user "client")) eqn:Hrole; try done.
  apply negb_false_iff in Hrole. destruct (String.eqb _ "duplex"); [done|]. by injection Ea as _ <-.
Qed.

(** Phases change, roles do not. *)
Lemma system_authorised_phase p ph s :
  system_authorised s -> sy_phase s p <> Gone ->
  (ph = AwaitHello -> p_role (peerOf (sy_router s) p) = EmptyString) ->
  (forall id, ph = AwaitRegister id -> p_role (peerOf (sy_router s) p) = "server"%string) ->
  (ph = Gone -> p ∉ r_peers (sy_router s)) ->
  system_authorised (set_phase p ph s).
Proof.
  intros [S1 S2 S3 S4] Hp H1 H2 H3. split; [done|..]; simpl; intros q; unfold update.
  - case_decide; [subst; auto|apply S2].
  - intros id. case_decide; [subst; apply H2|apply S3].
  - intros Hq. case_decide; [subst; intros E; by destruct (H3 E)|by apply S4].
Qed.

Lemma closing_authorised p s :
  system_authorised s -> sy_phase s p <> Gone -> system_authorised (set_phase p Closing s).
Proof. intros. by apply system_authorised_phase. Qed.

Lemma on_quiet_authorised g s : quiet (sy_router s) (g (sy_router s)) ->
  system_authorised s -> system_authorised (on_router g s).
Proof. intros Hq. apply (system_authorised_kept s (g (sy_router s))). by apply quiet_kept. Qed.

Lemma receive_hello_authorised p data e s : system_authorised s -> sy_phase s p = AwaitHello ->
  system_authorised (receive_hello p data e s).
Proof.
  intros Hs Hp. assert (system_authorised (set_phase p Closing s)) as Hclose
    by (apply closing_authorised; [done|by rewrite Hp]).
  unfold receive_hello. destruct (readFrame data) as [f err].
  destruct (_ || _); [done|]. destruct (negb (allowsRole _ _)) eqn:Hrole; [done|]. apply negb_false_iff in Hrole.
  destruct (e_secret e) as [secret|]; [|done].
  pose proof (sa_hello _ Hs p Hp) as Hnone. destruct Hs as [S1 S2 S3 S4].
  set (id := hex_encode secret). set (s1 := on_router _ s).
  assert (authorised (sy_router s1)) as A1 by by apply take_role_authorised.
  assert (forall q, q <> p -> p_role (peerOf (sy_router s1) q) = p_role (peerOf (sy_router s) q)) as Hother.
  { intros q Hq. unfold s1, peerOf, upd_peer. simpl. by rewrite update_ne. }
  assert (p_role (peerOf (sy_router s1) p) = f_role f) as Hself.
  { unfold s1, peerOf, upd_peer. simpl. by rewrite update_eq. }
  set (g := send p _).
  assert (quiet (sy_router s1) (g (sy_router s1))) as Hq by apply send_quiet.
  assert (forall q, p_role (peerOf (g (sy_router s1)) q) = p_role (peerOf (sy_router s1) q)) as Hg
    by (intros q; by apply (quiet_peer_field p_role)).
  split.
  - by eapply authorised_kept; [apply quiet_kept|].
  - intros q. simpl. unfold update. case_decide as Hqp.
    + by case_match.
    + rewrite Hg, Hother by done. apply S2.
  - intros q id'. simpl. unfold update. case_decide as Hqp.
    + destruct (String.eqb (f_role f) "server") eqn:E; [|done]. apply String.eqb_eq in E. intros _.
      by rewrite Hqp, Hg, Hself.
    + rewrite Hg, Hother by done. apply S3.
  - intros q. simpl. change (r_peers (g (sy_router s1))) with (r_peers (g (sy_router s1))).
    rewrite (quiet_field r_peers (sy_router s1)) by done. intros Hin. unfold update. case_decide as Hqp.
    + by case_match.
    + rewrite Hg, Hother by done. by apply S4.
Qed.

Lemma receive_registration_authorised p id data s :
  system_ok s -> system_authorised s -> sy_phase s p = AwaitRegister id ->
  system_authorised (receive_registration p id data s).
Proof.
  intros Hok Hs Hp. assert (system_authorised (set_phase p Closing s)) as Hclose
    by (apply closing_authorised; [done|by rewrite Hp]).
  unfold receive_registration. destruct (readFrame data) as [f err].
  destruct (_ || _) eqn:Ec; [done|]. unbool.
  assert (registration_ok p f (sy_router s)) as Hreg.
  { split_and!; [apply phase_lt; [done|by rewrite Hp]|apply (sk_unregistered _ Hok); right; eauto|].
    subst. intros E. match goal with H : is_empty _ = false |- _ => rewrite E in H end. done. }
  destruct (register_authorised p f _ (sk_router _ Hok) Hreg (sa_register _ Hs _ _ Hp) (sa_router _ Hs))
    as (R1 & R2 & R3).
  destruct (register p f (sy_router s)) as [r' refused]. simpl in *.
  assert (system_authorised (on_router (fun _ => r') s)) as Hdone.
  { destruct Hs as [S1 S2 S3 S4]. split; simpl; [done|..]; intros q.
    - rewrite R3. apply S2.
    - rewrite R3. apply S3.
    - rewrite R2, R3. apply S4. }
  destruct refused; apply system_authorised_phase; try done; simpl; by rewrite Hp.
Qed.

Lemma receive_frame_authorised p data e s :
  env_ok e -> system_ok s -> system_authorised s -> sy_phase s p = Serving ->
  system_authorised (receive_frame p data e s).
Proof.
  intros He Hok Hs Hp. assert (p < r_next (sy_router s))%nat as Hlt by (apply phase_lt; [done|by rewrite Hp]).
  assert (system_authorised (set_phase p Closing s)) as Hclose
    by (apply closing_authorised; [done|by rewrite Hp]).
  unfold receive_frame. destruct (readFrame data) as [f [err|]].
  { destruct (_ && _); [|done]. apply on_quiet_authorised; [apply send_quiet|done]. }
  destruct (String.eqb _ "ping"); [apply on_quiet_authorised; [apply send_quiet|done]|].
  destruct (String.eqb _ "pong"); [done|]. destruct (String.eqb _ "server.drain").
  - destruct (negb _); [done|]. apply on_quiet_authorised; [apply send_quiet|].
    apply (system_authorised_kept s (drain p (sy_router s))); [|done]. apply drain_kept, (sk_router _ Hok).
  - destruct (negb (allowedFrame _ f)) eqn:Hal; [done|]. apply negb_false_iff in Hal.
    destruct (forward_authorised p f e (sy_router s) He Hlt (sk_router _ Hok)) as [Ha Hst]; [|apply Hs|].
    + intros Hk. unfold allowedFrame in Hal. rewrite Hk in Hal.
      destruct (String.eqb _ "client") eqn:E; [|done]. by apply String.eqb_eq.
    + exact (system_authorised_stands s (forward p f e (sy_router s)) Hst Ha Hs).
Qed.

Lemma receive_authorised p message e s :
  env_ok e -> system_ok s -> system_authorised s -> system_authorised (receive p message e s).
Proof.
  intros He Hok Hs. unfold receive.
  destruct (sy_phase s p) as [|id| | |] eqn:Hp; destruct message as [data|]; try done;
    try by (apply closing_authorised; [done|by rewrite Hp]).
  - by apply receive_hello_authorised.
  - by apply receive_registration_authorised.
  - by apply receive_frame_authorised.
Qed.

Lemma connect_authorised header accepted e s :
  system_ok s -> system_authorised s -> system_authorised (connect header accepted e s).1.
Proof.
  intros Hok Hs. unfold connect. destruct (r_stopping _); [done|]. destruct (_ <? _); [done|].
  destruct (check (r_auth (sy_router s)) header (e_now e)) as [auth checked].
  set (r1 := (sy_router s) {{ r_auth := auth }}).
  assert (system_authorised (on_router (fun _ => r1) s)) as Hs1 by (apply system_authorised_kept; [apply auth_kept|done]).
  destruct checked as [user|fl]; [|done].
  destruct (is_anonymous user && _); [done|]. destruct (negb accepted); [done|]. destruct (_ || _); [done|]. cbn [fst].
  set (p := r_next r1). set (r2 := new_peer user EmptyString EmptyString r1).
  assert (authorised r2) as A2.
  { apply new_peer_authorised; [apply (ro_registry _ (router_ok_auth auth _ (sk_router _ Hok)))|done|apply Hs1]. }
  set (anon := is_anonymous user). set (r3 := if anon then _ else _).
  assert (kept r2 r3) as K by (unfold r3; destruct anon; by apply kept_fields).
  assert (forall q, p_role (peerOf r3 q) = if decide (q = p) then EmptyString else p_role (peerOf (sy_router s) q)) as Hrole.
  { intros q. destruct (standing_fields _ _ (kp_peer _ _ K q)) as (_ & -> & _). case_decide as Hq.
    - rewrite Hq. exact (f_equal p_role (new_peer_self user EmptyString EmptyString r1)).
    - exact (f_equal p_role (new_peer_other user EmptyString EmptyString r1 q Hq)). }
  assert (r_peers r3 = {[p]} ∪ r_peers (sy_router s)) as Hpeers by (unfold r3; by destruct anon).
  destruct Hs as [S1 S2 S3 S4]. unfold set_phase, on_router. split; simpl; [by eapply authorised_kept|..];
    intros q; rewrite Hrole; unfold update; fold p; case_decide as Hq; try done.
  - apply S2.
  - apply S3.
  - rewrite Hpeers. intros [?%elem_of_singleton|Hin]%elem_of_union; [done|]. by apply S4.
Qed.

Lemma disconnect_authorised p e s :
  env_ok e -> system_ok s -> system_authorised s -> system_authorised (disconnect p e s).
Proof.
  intros He Hok Hs. set (r1 := close_peer p e (sy_router s)).
  assert (kept (sy_router s) r1) as K by apply close_peer_kept, Hok.
  assert (p ∉ r_peers r1) as Hout.
  { unfold r1, close_peer. apply remove_effect; [|done].
    eapply router_ok_quiet; [|eapply router_ok_quiet; [apply cancel_quiet|apply Hok]]. by apply upd_peer_quiet. }
  assert (exists r2, kept r1 r2 /\ r_peers r2 = r_peers r1 /\
    disconnect p e s = set_phase p Gone (on_router (fun _ => r2) s)) as (r2 & K2 & Hp2 & ->).
  { destruct (sy_anonymous s p) eqn:Ea.
    - exists (r1 {{ r_connections ::= Z.add (-1) }} {{ r_anonymous ::= Z.add (-1) }}).
      split_and!; [by apply kept_fields|done|]. unfold disconnect. cbv zeta. simpl. by rewrite Ea.
    - exists (r1 {{ r_connections ::= Z.add (-1) }}).
      split_and!; [by apply kept_fields|done|]. unfold disconnect. cbv zeta. simpl. by rewrite Ea. }
  assert (system_authorised (on_router (fun _ => r2) s)) as [S1 S2 S3 S4]
    by (apply system_authorised_kept; [by etrans|done]).
  split; simpl in *; [done|..]; intros q; unfold update; case_decide as Hq; try done.
  - apply S2.
  - apply S3.
  - rewrite Hp2, Hq. done.
  - apply S4.
Qed.

Lemma virtualClient_authorised user id e r r' p :
  registry_ok r -> authorised r -> allowsRole user "client" = true ->
  virtualClient user id e r = (r', Some p) ->
  authorised r' /\ p = r_next r /\ p_role (peerOf r' p) = "client"%string /\
  r_peers r' = {[p]} ∪ r_peers r /\ forall q, q <> p -> peerOf r' q = peerOf r q.
Proof.
  intros Hr Ha Hu. unfold virtualClient. destruct (_ || _); [done|]. intros Hv. injection Hv as <- <-.
  split_and!; [by apply new_peer_authorised|done| |done|intros; by apply new_peer_other].
  exact (f_equal p_role (new_peer_self user "client" (hex_encode id) r)).
Qed.

Lemma serve_open_authorised pd id e s :
  env_ok e -> admitted pd -> system_ok s -> system_authorised s ->
  system_authorised (on_router (fun _ => (serve_open pd id e (sy_router s)).1) s).
Proof.
  intros He Hpd Hok Hs. unfold serve_open.
  destruct (read_payload _ _) as [w|[payload rest]]; [by destruct s|].
  destruct (negb _); [by destruct s|]. destruct (httpOpenFrame _ _ _ _ _ _ _) as [err|open]; [by destruct s|].
  pose proof (virtualClient_ok (pd_user pd) id e s Hok) as Hvok.
  destruct (virtualClient (pd_user pd) id e (sy_router s)) as [r1 [p|]] eqn:Ev; cbn [fst].
  - assert (system_ok (on_router (fun _ => r1) s)) as Hok1.
    { revert Hvok. unfold on_router. simpl. by rewrite Ev. }
    destruct (virtualClient_authorised _ _ _ _ _ _ (ro_registry _ (sk_router _ Hok)) (sa_router _ Hs)
      (admitted_client pd Hpd) Ev) as (A1 & -> & Hrole & Hpeers & Hother).
    assert (r_next (sy_router s) < r_next r1)%nat as Hlt by by apply (sk_peer _ Hok1), (virtualClient_peer _ _ _ _ _ _ Ev).
    destruct (forward_authorised (r_next (sy_router s)) open e r1 He Hlt (sk_router _ Hok1)) as [A2 K2]; [done|done|].
    set (r2 := forward _ _ _ r1) in *. clearbody r2.
    apply (system_authorised_stands (on_router (fun _ => r1) s) r2 K2 A2).
    assert (sy_phase s (r_next (sy_router s)) = Gone) as Hgone.
    { destruct (decide (sy_phase s (r_next (sy_router s)) = Gone)) as [|Hx]; [done|].
      apply (sk_phase _ Hok) in Hx. lia. }
    destruct Hs as [S1 S2 S3 S4]. split; simpl; [done|..]; intros q.
    + destruct (decide (q = r_next (sy_router s))) as [->|Hq]; [congruence|]. rewrite Hother by done. apply S2.
    + intros id'. destruct (decide (q = r_next (sy_router s))) as [->|Hq]; [congruence|]. rewrite Hother by done. apply S3.
    + rewrite Hpeers. intros [Hin%elem_of_singleton|Hin]%elem_of_union; [by rewrite Hin|].
      assert (q <> r_next (sy_router s)) by (apply (sk_peer _ Hok) in Hin; lia). rewrite Hother by done. by apply S4.
  - unfold virtualClient in Ev. destruct (_ || _); [|done]. injection Ev as <-. by destruct s.
Qed.

Lemma serve_begin_kept req e r : kept r (serve_begin req e r).1.
Proof.
  unfold serve_begin. destruct (cors req r) as [w go]. destruct (negb go); [done|]. destruct (_ <? _); [done|].
  destruct (authorize_request_frame req w e r) as [a Ha].
  destruct (authorize_request req w e r) as [r1 [w1|pd]]; simpl in *; subst; by apply kept_fields.
Qed.

Lemma step_authorised s s' : step s s' -> system_ok s -> system_authorised s -> system_authorised s'.
Proof.
  intros Hst Hok Hs. pose proof (sk_router _ Hok) as Hr. destruct Hst.
  - by apply connect_authorised.
  - by apply receive_authorised.
  - by apply on_quiet_authorised; [apply write_quiet|].
  - by apply disconnect_authorised.
  - apply (system_authorised_kept s (serve_begin req e (sy_router s)).1); [apply serve_begin_kept|done].
  - by apply serve_open_authorised.
  - by apply (system_authorised_kept s (http_done (sy_router s))); [apply kept_fields|].
  - assert (p < r_next (sy_router s))%nat by by apply (sk_peer _ Hok).
    destruct (forward_authorised p f e (sy_router s)) as [Ha Hk]; try done; [by intros _; apply (sa_virtual _ Hs)|apply Hs|].
    exact (system_authorised_stands s (forward p f e (sy_router s)) Hk Ha Hs).
  - by apply (system_authorised_kept s (close_peer p e (sy_router s))); [apply close_peer_kept|].
  - by apply (system_authorised_kept s (expire now (sy_router s))); [apply expire_kept|].
  - by apply (system_authorised_kept s (Shutdown (sy_router s))); [apply Shutdown_kept|].
  - by apply (system_authorised_kept s (Close e (sy_router s))); [apply Close_kept|].
  - by apply (system_authorised_kept s (close_finish (sy_router s))); [apply kept_fields|].
Qed.

Lemma reachable_authorised config auth s :
  config_ok config -> reachable config auth s -> system_authorised s.
Proof.
  intros Hc. induction 1 as [|s s' Hreach IH Hstep].
  - split; try done. split; try done. intros p name Hx. by apply elem_of_nil in Hx.
  - eapply step_authorised; [exact Hstep|by eapply reachable_ok|done].
Qed.
End forward_authorised.
