(* ===== verification/Exposure.v ===== *)
(** * What a caller sees

    The OpenAPI document lists exactly the calls its reader may make, and its
    component schemas never overwrite each other. *)
From S2P Require Import Prelude GoStd LocalSock GoHeap Json Protocol Outbox Breaker Libs Auth State.
From S2P Require Import Deadline Dedup Contract Objects Balance Management OpenApi Router Connection Http Calls.
From S2P Require Import Registry Invariants Membership Reachable Scenario.
#[local] Open Scope Z_scope.

(** ** Definitions *)

(** The paths of a document. *)
Definition paths_of (doc : Object) : Object := default [] (Obj doc "paths").

(** A call over HTTP that [user] may make in [r]. *)
Definition callable (user : option User) (r : Router) (path : string) : Prop :=
  exists name po m, r_services r !! name = Some po /\ po_methods po !! m_name m = Some m /\
    m_stream m <> "duplex"%string /\ allowsCall user name (m_name m) = true /\
    path = operation_path name (m_name m).

(** The [i]-th name [component] tries. *)
Definition candidate (clean : string) (i : nat) : string :=
  match i with O => clean | S i => clean +:+ "_" +:+ marshal_int (Z.of_nat i + 2) end.

(** ** Paths *)

Lemma service_paths_keys name user service errorRef errorResponse l bp path :
  is_Some (Get (service_paths name user service errorRef errorResponse l bp).2 path) <->
  is_Some (Get bp.2 path) \/ exists m, m ∈ l /\ m_stream m <> "duplex"%string /\
    allowsCall user name (m_name m) = true /\ path = operation_path name (m_name m).
Proof.
  revert bp. induction l as [|m l IH]; intros bp; cbn [service_paths]; [set_solver|].
  rewrite IH. destruct (String.eqb (m_stream m) "duplex" || _) eqn:E.
  - split; [intros [?|(m' & ? & ?)]; [by left|right; exists m'; set_solver]|].
    intros [?|(m' & [->|Hin]%elem_of_cons & Hs & Ha & ->)]; [by left| |right; by exists m'].
    apply orb_true_iff in E as [E|E]; [by apply String.eqb_eq in E|by rewrite Ha in E].
  - apply orb_false_iff in E as [E1 E2]. apply String.eqb_neq in E1. apply negb_false_iff in E2.
    destruct bp as [b paths]. destruct (lift_method _ _ b) as [[b' request] response].
    destruct (op_shapes _ _ _ _) as [ok body]. cbn [snd]. rewrite Get_Set. split.
    + intros [Hs|(m' & ? & ?)]; [|right; exists m'; set_solver].
      case_decide as Hp; [|by left]. right. exists m. split_and!; [by left|done..].
    + intros [Hs|(m' & [->|Hin]%elem_of_cons & Hs & Ha & ->)].
      * left. case_decide; [by eexists|done].
      * left. by rewrite decide_True.
      * right. by exists m'.
Qed.

Lemma sortedMethods_elem ms m : m ∈ sortedMethods ms <-> exists k, ms !! k = Some m.
Proof.
  unfold sortedMethods. rewrite SortBy_Permutation, list_elem_of_fmap. split.
  - intros ([k m'] & -> & Hin). exists k. by apply elem_of_map_to_list in Hin.
  - intros [k Hk]. exists (k, m). split; [done|]. by apply elem_of_map_to_list.
Qed.

Lemma callable_services_elem user r name : name ∈ callable_services user r <->
  exists po, r_services r !! name = Some po /\ allowsAnyCall user name po = true.
Proof.
  unfold callable_services. rewrite Sort_Permutation, list_elem_of_fmap. split.
  - intros ([n po] & -> & [Ha Hin]%list_elem_of_filter). exists po. by apply elem_of_map_to_list in Hin.
  - intros (po & Hpo & Ha). exists (name, po). split; [done|].
    apply list_elem_of_filter. split; [done|]. by apply elem_of_map_to_list.
Qed.

Lemma all_paths_keys user errorRef errorResponse r b path :
  is_Some (Get (all_paths user errorRef errorResponse r b).2 path) <->
  exists name po m, name ∈ callable_services user r /\ r_services r !! name = Some po /\
    m ∈ sortedMethods (po_methods po) /\ m_stream m <> "duplex"%string /\
    allowsCall user name (m_name m) = true /\ path = operation_path name (m_name m).
Proof.
  unfold all_paths.
  assert (forall names bp, is_Some (Get (fold_left (fun bp name =>
    match r_services r !! name with
    | Some po => service_paths name user (parsed_service name user po) errorRef errorResponse
                   (sortedMethods (po_methods po)) bp
    | None => bp end) names bp).2 path) <->
    is_Some (Get bp.2 path) \/ exists name po m, name ∈ names /\ r_services r !! name = Some po /\
      m ∈ sortedMethods (po_methods po) /\ m_stream m <> "duplex"%string /\
      allowsCall user name (m_name m) = true /\ path = operation_path name (m_name m)) as Hgen.
  { induction names as [|name names IH]; intros bp; cbn [fold_left]; [set_solver|]. rewrite IH.
    destruct (r_services r !! name) as [po|] eqn:Hpo; [rewrite service_paths_keys|]; split.
    - intros [[?|(m & ? & ?)]|(n & po' & m & ? & ?)]; [by left|right; exists name, po, m; set_solver|].
      right. exists n, po', m. set_solver.
    - intros [?|(n & po' & m & [->|Hin]%elem_of_cons & Hn & Hrest)]; [by left; left| |right; by exists n, po', m].
      left. right. exists m. by simplify_eq.
    - intros [?|(n & po' & m & ? & ?)]; [by left|right; exists n, po', m; set_solver].
    - intros [?|(n & po' & m & [->|Hin]%elem_of_cons & Hn & Hrest)]; [by left|congruence|right; by exists n, po', m]. }
  rewrite Hgen. split; [intros [[? ?]|?]; [done|done]|by right].
Qed.

Lemma allowsAnyCall_elem user name po k m :
  po_methods po !! k = Some m -> allowsCall user name k = true -> allowsAnyCall user name po = true.
Proof.
  intros Hk Ha. unfold allowsAnyCall. apply existsb_exists. exists (k, m). split; [|done].
  apply list_elem_of_In. by apply elem_of_map_to_list.
Qed.

(** ** Component names *)

Lemma marshal_int_inj i j : marshal_int i = marshal_int j -> i = j.
Proof. apply (inj pretty). Qed.

Lemma candidate_inj clean i j : candidate clean i = candidate clean j -> i = j.
Proof.
  assert (forall i s, clean <> clean +:+ String i s) as Hne.
  { intros c s E. apply (f_equal String.length) in E. rewrite length_append in E. simpl in E. lia. }
  destruct i as [|i], j as [|j]; simpl; intros E; [done|by apply Hne in E|by symmetry in E; apply Hne in E|].
  apply append_inj_l in E. injection E as E. apply marshal_int_inj in E. lia.
Qed.

Lemma free_name_candidates fuel taken clean i :
  let name := free_name fuel taken clean (candidate clean i) (Z.of_nat i + 2) in
  (name ∉ taken) \/ (forall j, (i <= j < i + fuel)%nat -> candidate clean j ∈ taken).
Proof.
  revert i. induction fuel as [|fuel IH]; intros i; cbn [free_name]; [right; lia|].
  case_bool_decide as Hin; [|by left]. destruct (IH (S i)) as [H|H].
  - left. cbn [candidate] in H. by replace (Z.of_nat (S i) + 2) with (Z.of_nat i + 2 + 1) in H by lia.
  - right. intros j Hj. destruct (decide (j = i)) as [->|]; [done|]. apply H. lia.
Qed.

(** Among one more names than are taken one is free. *)
Lemma free_name_fresh taken clean : free_name (S (size taken)) taken clean clean 2 ∉ taken.
Proof.
  destruct (free_name_candidates (S (size taken)) taken clean 0) as [H|H]; [done|exfalso].
  destruct (one_is_free (candidate clean) taken) as (i & Hi & Hfree); [intros ??; apply candidate_inj|].
  apply Hfree, H. lia.
Qed.

(** ** Theorems *)

(** C35: in every reachable state the OpenAPI document has a path for
    a call exactly when the reader may make that call over HTTP: the service is
    registered with the method, the method is not duplex, and the reader's rules
    allow it.  Nothing else is revealed, nothing callable is missing. *)
Theorem openapi_paths_exact `{Crypto, Floats} config auth s user path :
  config_ok config -> reachable config auth s ->
  is_Some (Get (paths_of (openAPI user (sy_router s))) path) <-> callable user (sy_router s) path.
Proof.
  intros Hc Hs. pose proof (ro_registry _ (sk_router _ (reachable_ok _ _ _ Hc Hs))) as Hr.
  set (r := sy_router s) in *. unfold openAPI.
  destruct (component _ _ _) as [b errorRef]. cbv zeta.
  pose proof (all_paths_keys user (JObject errorRef) (obj [
    ("description", jstr "MeshCall error envelope; see the status table in docs/protocol.md");
    ("content", content "application/json" (JObject errorRef))]%string) r b path) as Hp.
  destruct (all_paths _ _ _ _ _) as [b' paths]. cbn [snd] in Hp.
  unfold paths_of, Obj. cbn [Get String.eqb Ascii.eqb Bool.eqb app as_object default]. rewrite Hp. split.
  - intros (name & po & m & _ & Hpo & [k Hk]%sortedMethods_elem & Hd & Ha & ->).
    exists name, po, m. split_and!; try done.
    by rewrite (pk_named _ _ _ (rk_pool _ Hr _ _ Hpo) k m Hk).
  - intros (name & po & m & Hpo & Hm & Hd & Ha & ->). exists name, po, m. split_and!; try done.
    + apply callable_services_elem. exists po. split; [done|by eapply allowsAnyCall_elem].
    + apply sortedMethods_elem. eauto.
Qed.

(** storing a schema never overwrites another one: the name
    [component] finds (within one more attempt than there are names) is not taken,
    the returned reference resolves to the schema, and every schema stored under a
    taken name stays. *)
Theorem component_fresh base schema b :
  (forall name, Has (ob_schemas b) name = true -> name ∈ ob_taken b) ->
  let '(b', ref) := component base schema b in
  exists name, Str ref "$ref" = schemas_prefix +:+ name /\ (name ∉ ob_taken b) /\ name ∈ ob_taken b' /\
    Get (ob_schemas b') name = Some schema /\
    (forall other, other <> name -> Get (ob_schemas b') other = Get (ob_schemas b) other) /\
    (forall other, Has (ob_schemas b') other = true -> other ∈ ob_taken b').
Proof.
  intros Hb. set (clean := replace_bytes "./" "_" base).
  set (name := free_name (S (size (ob_taken b))) (ob_taken b) clean clean 2).
  change (component base schema b) with
    (MkBuilder (Set_ (ob_schemas b) name schema) ({[name]} ∪ ob_taken b), ref_to name).
  assert (name ∉ ob_taken b) as Hf by apply free_name_fresh. clearbody name.
  exists name. unfold Has in *. cbn [ob_schemas ob_taken].
  split_and!; [done|done|set_solver|by rewrite Get_Set, decide_True|intros; by rewrite Get_Set, decide_False|].
  intros other. rewrite Get_Set. case_decide as Ho; [set_solver|]. intros Hx%Hb. set_solver.
Qed.

(** ** Witnesses *)

Lemma openapi_paths_exact_witness :
  is_Some (Get (paths_of (openAPI (Some sample_guest) (sy_router sample_ready))) "/v1/call/demo.v1.Echo/Say").
Proof.
  apply (openapi_paths_exact sample_config None sample_ready (Some sample_guest) "/v1/call/demo.v1.Echo/Say"
    sample_config_ok sample_ready_reachable).
  exists "demo.v1.Echo"%string.
  let o := eval vm_compute in (r_services (sy_router sample_ready) !! "demo.v1.Echo"%string) in
  match o with Some ?po => exists po;
    let o := eval vm_compute in (po_methods po !! "Say"%string) in
    match o with Some ?m => exists m end end.
  split_and!; try (vm_compute; reflexivity). vm_compute. discriminate.
Defined.

Lemma component_fresh_witness :
  let b := (component "a.b" (jstr "x") (MkBuilder [] ∅)).1 in
  Str (component "a/b" (jstr "y") b).2 "$ref" = "#/components/schemas/a_b_2"%string /\
  exists name, Str (component "a/b" (jstr "y") b).2 "$ref" = schemas_prefix +:+ name /\ (name ∉ ob_taken b).
Proof.
  intros b. split; [vm_compute; reflexivity|].
  pose proof (component_fresh "a/b" (jstr "y") b) as Hf.
  destruct (component "a/b" (jstr "y") b) as [b' ref].
  destruct Hf as (name & H1 & H2 & _); [|exists name; split; [exact H1|exact H2]].
  intros name. change (ob_schemas b) with [("a_b"%string, jstr "x")]. unfold Has. simpl.
  destruct (String.eqb name "a_b") eqn:E; [|discriminate]. intros _. apply String.eqb_eq in E. subst name.
  apply (bool_decide_unpack _). vm_compute. exact I.
Defined.
