(* ===== verification/Guarantees.v ===== *)
(** * What a running Router guarantees

    Properties of every state the steps of [Reachable] reach from what [Start]
    configures, and of the operations that end calls: the expiry loop, the
    departure of a peer, [Close].  Each witness evaluates on [Scenario]. *)
From S2P Require Import Prelude GoStd LocalSock GoHeap Json Protocol Outbox Breaker Libs Auth State.
From S2P Require Import Deadline Dedup Balance Management Router Connection Calls Registry.
From S2P Require Import Authorization Invariants Membership Reachable Endings Scenario.
#[local] Open Scope Z_scope.

(** ** Lemmas *)

Lemma check_config_ok c config : check_config c = inr config -> config_ok config.
Proof.
  unfold check_config.
  destruct (_ || _); [done|]. destruct (_ <? _); [done|]. destruct (_ || _); [done|].
  destruct (c_MaxConnections c <? 0) eqn:Hmax; [done|]. destruct (_ || _) eqn:Hh; [done|].
  set (c' := if _ : bool then _ else c).
  assert (c_MaxConnections c' = c_MaxConnections c /\ c_HTTPMaxInflight c' = c_HTTPMaxInflight c) as [Hc' Hi']
    by (unfold c'; by case_match).
  clearbody c'. destruct (c_MaxAnonymousConnections c' <? 0) eqn:Han; [done|]. unbool.
  do 2 (destruct (_ || _); [done|]). intros [= <-]. split_and!; lia.
Qed.

Lemma listen_limits pf c config : listen pf c = inr config ->
  c_MaxConnections config = c_MaxConnections c /\
  c_MaxAnonymousConnections config = c_MaxAnonymousConnections c /\
  c_HTTPMaxInflight config = c_HTTPMaxInflight c.
Proof. unfold listen, listened. intros. repeat case_match; by simplify_eq. Qed.

Lemma Start_config_ok pf given config : Start pf given = inr config -> config_ok config.
Proof.
  unfold Start. destruct (check_config _) as [|c] eqn:Hc; [done|].
  destruct (listen pf c) as [|c'] eqn:Hl; [done|].
  apply check_config_ok in Hc as (H1 & H2 & H3). apply listen_limits in Hl as (L1 & L2 & L3).
  intros Hs. assert (config = c') as -> by (repeat case_match; by simplify_eq).
  split_and!; lia.
Qed.

Section guarantees.
Context `{Crypto, Floats}.

Lemma started_ok pf given config auth s :
  Start pf given = inr config -> reachable config auth s -> system_ok s.
Proof. intros Hc. apply reachable_ok. by eapply Start_config_ok. Qed.

(** ** Accounting *)


(** C2: in every reachable state the admission limits hold: no instance serves
    more calls than the [max_inflight] it registered with, no connection has more
    calls than [MaxCallsPerConnection], the table of routes stays within its
    capacity, and a connection that never registered serves nothing. *)
Theorem limits_respected pf given config auth s p :
  Start pf given = inr config -> reachable config auth s ->
  let r := sy_router s in
  (0 < p_maxInflight (peerOf r p) -> routes_by rt_instance r p <= p_maxInflight (peerOf r p)) /\
  (0 < c_MaxCallsPerConnection (r_config r) ->
     routes_by rt_client r p + waiting r p <= c_MaxCallsPerConnection (r_config r)) /\
  Z.of_nat (size (r_routes r)) <= routeCapacity /\
  (p_instanceID (peerOf r p) = EmptyString -> routes_by rt_instance r p <= 0).
Proof.
  intros Hc Hs r. pose proof (sk_router _ (started_ok _ _ _ _ _ Hc Hs)) as Hok.
  fold r in Hok. destruct Hok as [[] _ [] _]. rewrite <- co_inflight, <- co_calls. split_and!; auto.
Qed.

(** C3: in every reachable state a pool holds exactly the live instances
    (registered, not draining) that offer its service, once each and in the
    order of their instance ids; it is never empty, never named with the reserved
    prefix, and every service a live instance offers has one. *)
Theorem pools_exact pf given config auth s name :
  Start pf given = inr config -> reachable config auth s ->
  let r := sy_router s in
  (forall po, r_services r !! name = Some po ->
     po_instances po <> [] /\ NoDup (po_instances po) /\
     StronglySorted (le_by (instance_id r)) (po_instances po) /\
     forall p, p ∈ po_instances po <->
       r_instances r !! p_instanceID (peerOf r p) = Some p /\ p_draining (peerOf r p) = false /\
       name ∈ s_name <$> p_services (peerOf r p)) /\
  (forall p, live r p -> offers (peerOf r p) name ->
     is_Some (r_services r !! name) /\ validServiceName name = true /\
     HasPrefix name reservedPrefix = false).
Proof.
  intros Hc Hs r. pose proof (ro_registry _ (sk_router _ (started_ok _ _ _ _ _ Hc Hs))) as Hr.
  fold r in Hr. split.
  - intros po Hpo. destruct (rk_pool _ Hr _ _ Hpo). split_and!; try done.
    intros p. rewrite pk_member. unfold live, offers. naive_solver.
  - intros p Hl Ho. split; [by eapply rk_offered|]. by eapply rk_names.
Qed.


(** C5: in every reachable state the drain that [Shutdown] waits for is
    signalled exactly when the Router is draining and no call is open. *)
Theorem drained_exact pf given config auth s :
  Start pf given = inr config -> reachable config auth s ->
  let r := sy_router s in
  r_drained r = true <-> r_draining r = true /\ r_routes r = ∅.
Proof. intros Hc Hs r. apply (ro_drained _ (sk_router _ (started_ok _ _ _ _ _ Hc Hs))). Qed.

(** C6: in every reachable state the deadline heap tracks open routes only,
    each once, at the position its [index] says, and the route at its root is
    the one whose deadline passes first. *)
Theorem deadlines_exact pf given config auth s :
  Start pf given = inr config -> reachable config auth s ->
  let r := sy_router s in
  NoDup (r_deadlines r) /\
  (forall rt, rt ∈ r_deadlines r -> r_routes r !! rt_id (r_rstore r rt) = Some rt) /\
  (forall i rt, r_deadlines r !! i = Some rt <-> rt_index (r_rstore r rt) = Z.of_nat i) /\
  (forall root rt, head (r_deadlines r) = Some root -> rt ∈ r_deadlines r ->
     deadlineOf r root <= deadlineOf r rt).
Proof.
  intros Hc Hs r. pose proof (ro_calls _ (sk_router _ (started_ok _ _ _ _ _ Hc Hs))) as Hok.
  fold r in Hok. destruct Hok. split_and!; [by apply index_ok_nodup, co_deadlines|done|apply co_deadlines|].
  intros. by apply earliest_deadline.
Qed.


(** C10: in every reachable state each open call is one its client may
    make, and it is open towards an instance that registered its service and may:
    the client has the role and a call rule, the instance the role and a
    registration rule, and no call is ever routed to the Router's own services. *)
Theorem calls_authorised pf given config auth s id rt :
  Start pf given = inr config -> reachable config auth s ->
  let r := sy_router s in
  let x := r_rstore r rt in
  r_routes r !! id = Some rt ->
  let client := p_user (peerOf r (rt_client x)) in
  let instance := p_user (peerOf r (rt_instance x)) in
  allowsRole client "client" = true /\ allowsCall client (rt_service x) (rt_method x) = true /\
  allowsRole instance "server" = true /\ allowsRegistration instance (rt_service x) = true /\
  HasPrefix (rt_service x) reservedPrefix = false.
Proof.
  intros Hc Hs r x Hid client instance.
  pose proof (sa_router _ (reachable_authorised _ _ _ (Start_config_ok _ _ _ Hc) Hs)) as [A1 A2 A3].
  fold r in A1, A2, A3. destruct (A1 id rt Hid) as [_ _ B3 B4 B5 B6]. fold x in B3, B4, B5, B6.
  destruct (A2 _ _ B5) as [B7 B8].
  pose proof (A3 (rt_client x)) as C1. pose proof (A3 (rt_instance x)) as C2.
  rewrite B3 in C1. rewrite B7 in C2. split_and!; try done; [by apply C1|by apply C2].
Qed.

(** ** Calls that end without an answer *)

(** C8: one wake-up of the expiry loop ends exactly the calls whose deadline has
    passed: afterwards the heap holds the tracked routes with a later deadline,
    and a route is still open iff it was open and is not overdue. *)
Theorem expire_exact pf given config auth s now :
  Start pf given = inr config -> reachable config auth s ->
  let r := sy_router s in
  let r' := expire now r in
  (forall rt, rt ∈ r_deadlines r' <-> rt ∈ r_deadlines r /\ now < deadlineOf r rt) /\
  (forall id rt, r_routes r' !! id = Some rt <->
     r_routes r !! id = Some rt /\ (rt ∈ r_deadlines r -> now < deadlineOf r rt)).
Proof.
  intros Hc Hs r. apply expire_loop_spec; [|done].
  apply (sk_router _ (started_ok _ _ _ _ _ Hc Hs)).
Qed.

(** When a connection is cleaned up, nothing of it is left: it is out of the
    peer set, the instance table and every pool, exactly its calls (as client or
    as instance) have ended, and its in-flight count is zero. *)
Theorem departure_clean pf given config auth s p e :
  Start pf given = inr config -> reachable config auth s -> env_ok e ->
  let r := sy_router s in
  let r' := close_peer p e r in
  (p ∉ r_peers r') /\ (forall id, r_instances r' !! id <> Some p) /\
  (forall name po, r_services r' !! name = Some po -> p ∉ po_instances po) /\
  (forall id rt, r_routes r' !! id = Some rt <-> r_routes r !! id = Some rt /\ ~ party r p rt) /\
  p_inflight (peerOf r' p) = 0.
Proof.
  intros Hc Hs He r r'. pose proof (sk_router _ (started_ok _ _ _ _ _ Hc Hs)) as Hr. fold r in Hr.
  assert (router_ok r') as Hr' by by apply close_peer_router_ok.
  set (r1 := upd_peer p (fun x => x {{ p_out ::= close }}) (cancel p r)).
  assert (quiet r r1) as Hq by (etrans; [apply cancel_quiet|by apply upd_peer_quiet]).
  destruct (remove_effect p e r1) as (E1 & E2 & E3 & E4); [by eapply router_ok_quiet|done|].
  change (remove p e r1) with r' in E1, E2, E3, E4.
  assert (forall rt, party r1 p rt <-> party r p rt) as Hp by (intros; apply party_same; by apply quiet_field).
  split_and!; [done|done| | |].
  - intros name po Hpo Hin. apply (pk_member _ _ _ (rk_pool _ (ro_registry _ Hr') _ _ Hpo)) in Hin as [[Hl _] _].
    by eapply E2.
  - intros id rt. by rewrite E3, Hp, (quiet_field r_routes r r1).
  - rewrite (co_inflight _ _ (ro_calls _ Hr')). apply routes_by_none. intros id rt Hrt Hx.
    apply E3 in Hrt as [_ Hn]. apply Hn. apply E4. by right.
Qed.

(** C9: [Close] ends every call: no route and no deadline is left, every
    in-flight counter is zero, and the drain is signalled. *)
Theorem Close_ends_calls pf given config auth s e :
  Start pf given = inr config -> reachable config auth s -> env_ok e ->
  r_closed (sy_router s) = false ->
  let r' := Close e (sy_router s) in
  r_routes r' = ∅ /\ r_deadlines r' = [] /\ (forall p, p_inflight (peerOf r' p) = 0) /\
  r_drained r' = true.
Proof.
  intros Hc Hs He Hcl r'. pose proof (sk_router _ (started_ok _ _ _ _ _ Hc Hs)) as Hr.
  assert (router_ok r') as Hr' by by apply Close_router_ok.
  assert (r_routes r' = ∅) as Hem by by apply Close_routes.
  split_and!; [done| | |].
  - destruct (r_deadlines r') as [|rt l] eqn:E; [done|].
    assert (r_routes r' !! rt_id (r_rstore r' rt) = Some rt) as Hx.
    { apply (co_tracked _ _ (ro_calls _ Hr')). rewrite E. by left. }
    by rewrite Hem in Hx.
  - intros p. rewrite (co_inflight _ _ (ro_calls _ Hr')). apply routes_by_none.
    intros id rt Hx. by rewrite Hem in Hx.
  - unfold r', Close. rewrite Hcl. by case_match.
Qed.

End guarantees.

(** ** Witnesses *)


Lemma limits_respected_witness :
  routes_by rt_instance (sy_router sample_open) 0 <= p_maxInflight (peerOf (sy_router sample_open) 0) /\
  p_maxInflight (peerOf (sy_router sample_open) 0) = 1.
Proof.
  split; [|vm_compute; reflexivity].
  apply (limits_respected sample_platform config0 sample_config None sample_open 0 sample_Start sample_open_reachable).
  vm_compute. reflexivity.
Defined.

Lemma pools_exact_witness :
  is_Some (r_services (sy_router sample_ready) !! "demo.v1.Echo"%string).
Proof.
  apply (pools_exact sample_platform config0 sample_config None sample_ready "demo.v1.Echo" sample_Start
    sample_ready_reachable) with (p := 0%nat).
  - split; vm_compute; reflexivity.
  - unfold offers. vm_compute. constructor.
Defined.


Lemma drained_exact_witness :
  r_drained (sy_router sample_open) = true <->
  r_draining (sy_router sample_open) = true /\ r_routes (sy_router sample_open) = ∅.
Proof. apply (drained_exact sample_platform config0 sample_config None sample_open sample_Start sample_open_reachable). Defined.

Lemma deadlines_exact_witness :
  r_deadlines (sy_router sample_open) = [2%nat] /\ NoDup (r_deadlines (sy_router sample_open)).
Proof.
  split; [vm_compute; reflexivity|].
  apply (deadlines_exact sample_platform config0 sample_config None sample_open sample_Start sample_open_reachable).
Defined.


Lemma calls_authorised_witness :
  r_routes (sy_router guest_open) !! "k1"%string = Some 2%nat /\
  p_user (peerOf (sy_router guest_open) 1) = Some sample_guest /\
  allowsCall (Some sample_guest) "demo.v1.Echo" "Say" = true /\
  allowsCall (Some sample_guest) "demo.v1.Echo" "Other" = false.
Proof.
  split; [vm_compute; reflexivity|]. split; [vm_compute; reflexivity|]. split; [|vm_compute; reflexivity].
  apply (calls_authorised sample_platform config0 sample_config guest_auth guest_open "k1" 2 sample_Start
    guest_open_reachable). vm_compute. reflexivity.
Defined.

(** The call of [sample_open] has a second and the grace of half a second. *)
Lemma expire_exact_witness :
  r_routes (sy_router sample_open) !! "k1"%string = Some 2%nat /\
  ~ r_routes (expire (2 * Second) (sy_router sample_open)) !! "k1"%string = Some 2%nat.
Proof.
  split; [vm_compute; reflexivity|]. intros Hx.
  apply (expire_exact sample_platform config0 sample_config None sample_open (2 * Second) sample_Start
    sample_open_reachable) in Hx as [_ Hx].
  assert (2 * Second < deadlineOf (sy_router sample_open) 2) as Hd by (apply Hx; vm_compute; constructor).
  vm_compute in Hd. discriminate Hd.
Defined.

Lemma departure_clean_witness :
  p_inflight (peerOf (sy_router sample_open) 0) = 1 /\
  p_inflight (peerOf (close_peer 0 (env_at 5) (sy_router sample_open)) 0) = 0.
Proof.
  split; [vm_compute; reflexivity|].
  apply (departure_clean sample_platform config0 sample_config None sample_open 0 (env_at 5) sample_Start
    sample_open_reachable (env_at_ok 5)).
Defined.

Lemma Close_ends_calls_witness :
  r_routes (sy_router sample_open) <> ∅ /\ r_routes (Close (env_at 5) (sy_router sample_open)) = ∅.
Proof.
  split; [vm_compute; discriminate|].
  apply (Close_ends_calls sample_platform config0 sample_config None sample_open (env_at 5) sample_Start
    sample_open_reachable (env_at_ok 5)). vm_compute. reflexivity.
Defined.
