(* ===== verification/Idempotency.v ===== *)
(** * Idempotency keys end to end

    What [consult_dedup], [dedupSettle] and the ends of routes do together: a
    keyed unary call runs once while its entry lasts, later calls join or
    replay, and a cancelled call strands its entry. *)
From S2P Require Import Prelude GoStd GoHeap Json Protocol Outbox Breaker Libs Auth State Deadline.
From S2P Require Import Dedup Balance Management Router Connection Calls Registry Invariants.
From S2P Require Import Membership Reachable Endings Scenario.
#[local] Open Scope Z_scope.

(** ** Definitions *)

(** The four parts of a deduplication key have no NUL byte. *)
Definition key_parts_clean (f : frame) : Prop :=
  ContainsByte (f_service f) nul = false /\ ContainsByte (f_method f) nul = false /\
  ContainsByte (f_idempotency f) nul = false /\ ContainsByte (f_instanceID f) nul = false.

(** The entry a keyed call finds is answered, or still in flight. *)
Definition answered (r : Router) (d : nat) (t : frame) (now : Z) : Prop :=
  d_route (entryOf r d) = None /\ d_result (entryOf r d) = Some t /\ now <= d_expires (entryOf r d).
Definition in_flight (r : Router) (d rt : nat) : Prop :=
  d_route (entryOf r d) = Some rt /\ d_result (entryOf r d) = None.

(** ** Keys *)

(** The key is injective: two calls whose service, method, idempotency
    key and target contain no NUL byte share a deduplication key only if all four
    agree. *)
Theorem dedupKey_injective f g :
  key_parts_clean f -> key_parts_clean g -> dedupKey f = dedupKey g ->
  f_service f = f_service g /\ f_method f = f_method g /\
  f_idempotency f = f_idempotency g /\ f_instanceID f = f_instanceID g.
Proof.
  intros (F1 & F2 & F3 & _) (G1 & G2 & G3 & _) Hk. unfold dedupKey, nuls in Hk. simpl in Hk.
  apply append_sep_inj in Hk as [-> Hk]; [|done..].
  apply append_sep_inj in Hk as [-> Hk]; [|done..].
  by apply append_sep_inj in Hk as [-> ->].
Qed.

Section idempotency.
Context `{Crypto, Floats}.

(** ** Consulting the table *)

Lemma consult_answered f stream d t now r :
  keyed_unary f stream = true -> r_dedup r !! dedupKey f = Some d -> answered r d t now ->
  consult_dedup f stream now r = (r, Replay t).
Proof.
  intros Hk Hd (H1 & H2 & H3). unfold consult_dedup, dedupLookup. rewrite Hk, Hd, H1.
  destruct (_ <? _) eqn:E; [unbool; lia|]. by rewrite H2.
Qed.

Lemma consult_in_flight f stream d rt now r :
  keyed_unary f stream = true -> r_dedup r !! dedupKey f = Some d -> in_flight r d rt ->
  consult_dedup f stream now r = (r, Join d).
Proof.
  intros Hk Hd (H1 & H2). unfold consult_dedup, dedupLookup. by rewrite Hk, Hd, H1, H2, H1.
Qed.

Lemma keyed_not_duplex f stream :
  keyed_unary f stream = true -> negb (is_empty (f_idempotency f)) && String.eqb stream "duplex" = false.
Proof.
  unfold keyed_unary. intros Hk. apply andb_true_iff in Hk as [_ Hk].
  apply String.eqb_eq in Hk as ->. apply andb_false_r.
Qed.

(** ** Once per key *)

(** The entry of a route after its terminal frame. *)
Lemma settled_answered d f now r :
  answered (dedupSettle d f now r) d (f {{ f_raw := None }}) (now + dedupTTL).
Proof.
  unfold dedupSettle. set (settled := f {{ f_raw := None }}). unfold answered, entryOf.
  set (r1 := upd_dedup d _ r).
  set (r2 := answer_waiters settled (d_waiters (r_dstore r1 d)) r1).
  assert (r_dstore r2 = r_dstore r1) as Hr2.
  { by apply (shifted_field r_dstore (waits (d_waiters (r_dstore r1 d))) r1 r2), answer_waiters_shifted. }
  unfold upd_dedup. simpl. rewrite !update_eq, Hr2. unfold r1, upd_dedup. simpl.
  rewrite !update_eq. simpl. split_and!; done.
Qed.

Lemma endRoute_dstore id rt r : r_dstore (endRoute id rt r) = r_dstore r /\ r_dedup (endRoute id rt r) = r_dedup r.
Proof.
  unfold endRoute. set (r1 := upd_peer _ _ _). set (r3 := callEnded _ _).
  assert (r_dstore r3 = r_dstore r /\ r_dedup r3 = r_dedup r) as [H1 H2].
  { unfold r3. rewrite (shifted_field r_dstore _ _ _ ltac:(done) (callEnded_shifted _ _)).
    rewrite (shifted_field r_dedup _ _ _ ltac:(done) (callEnded_shifted _ _)).
    by rewrite (reindexed_field r_dstore r1), (reindexed_field r_dedup r1) by (done || apply untrack_reindexed). }
  by repeat case_match.
Qed.

Lemma endRoute_services id rt r : r_services (endRoute id rt r) = r_services r.
Proof.
  unfold endRoute. set (r1 := upd_peer _ _ _). set (r3 := callEnded _ _).
  assert (r_services r3 = r_services r) as H1.
  { unfold r3. rewrite (shifted_field r_services _ _ _ ltac:(done) (callEnded_shifted _ _)).
    by rewrite (reindexed_field r_services r1) by (done || apply untrack_reindexed). }
  by repeat case_match.
Qed.

(** The frames that carry no flow control. *)
Lemma credit_terminal x f :
  f_kind f = "call.result"%string \/ f_kind f = "call.error"%string \/ f_kind f = "call.cancel"%string ->
  credit x f = (x, true).
Proof. unfold credit. by intros [-> | [-> | ->]]. Qed.

(** What the terminal frame of an instance leaves in the table. *)
Lemma forward_server_settles p rt d f now r :
  f_kind f = "call.result"%string \/ f_kind f = "call.error"%string ->
  rt_dedup (r_rstore r rt) = Some d ->
  let r' := forward_server p rt f now r in
  answered r' d (f {{ f_raw := None }}) (now + dedupTTL) /\ r_dedup r' = r_dedup r /\
  r_services r' = r_services r /\ d_key (entryOf r' d) = d_key (entryOf r d).
Proof.
  intros Hk Hd. unfold forward_server. rewrite credit_terminal by tauto. simpl. rewrite Hd.
  replace (String.eqb (f_kind f) "call.result" || String.eqb (f_kind f) "call.error") with true
    by by destruct Hk as [-> | ->].
  set (r1 := upd_route rt _ r). set (r2 := observe_peer p _ now _).
  assert (quiet r1 r2) as Hq by (etrans; [apply send_quiet|apply observe_peer_quiet]).
  set (r3 := dedupSettle d f now r2).
  pose proof (settled_answered d f now r2) as (A1 & A2 & A3).
  pose proof (dedupSettle_settled d f now r2) as Hs. fold r3 in A1, A2, A3, Hs.
  destruct (endRoute_dstore (f_callID f) rt
    (finishRoute (r_rstore r rt) match f_error f with Some e => e_code e | None => "ok"%string end now r3))
    as [E1 E2].
  assert (r_dedup r3 = r_dedup r) as F1.
  { rewrite (settled_field r_dedup d r2 r3) by done. by rewrite (quiet_field r_dedup r1 r2). }
  assert (r_services r3 = r_services r) as F2.
  { rewrite (settled_field r_services d r2 r3) by done. by rewrite (quiet_field r_services r1 r2). }
  assert (d_key (r_dstore r3 d) = d_key (r_dstore r d)) as F3.
  { rewrite (se_key _ _ _ Hs). by rewrite (quiet_field r_dstore r1 r2). }
  unfold answered, entryOf in *. rewrite E1, E2, endRoute_services. split_and!; done.
Qed.


(** An instance's terminal frame for a keyed call is what any later call
    with the same key gets, for [dedupTTL] from the answer on and with only the
    call id rewritten, instead of a second execution. *)
Theorem answered_once p rt id d f now q g e r :
  calls_ok r -> r_routes r !! id = Some rt -> rt_dedup (r_rstore r rt) = Some d ->
  f_kind f = "call.result"%string \/ f_kind f = "call.error"%string ->
  dedupKey g = d_key (entryOf r d) ->
  keyed_unary g (methodStream r (f_service g) (f_method g)) = true ->
  e_now e <= now + dedupTTL ->
  let r' := forward_server p rt f now r in
  dispatch q g e r' = send q (f {{ f_callID := f_callID g; f_raw := None }}) r'.
Proof.
  intros Hok Hid Hd Hk Hkey Hkeyed Hnow r'.
  destruct (forward_server_settles p rt d f now r Hk Hd) as ((A1 & A2 & A3) & Hde & Hse & Hdk).
  fold r' in A1, A2, A3, Hde, Hse, Hdk.
  destruct (co_dedup _ _ Hok id rt d Hid (fun x => x) Hd) as [Hin _].
  pose proof (en_key _ _ (co_entry _ _ Hok d Hin)) as Hlook.
  unfold dispatch. unfold methodStream in *. rewrite Hse, keyed_not_duplex by done.
  rewrite (consult_answered g _ d (f {{ f_raw := None }}) (e_now e) r'); [done|done| |].
  - by rewrite Hde, Hkey.
  - split_and!; [done|done|]. unfold answered in *. lia.
Qed.

(** A call whose key is in flight joins it: it counts against its
    connection, waits in the entry, and nothing else changes; in particular no
    route is opened and no frame is sent. *)
Theorem keyed_call_joins p f d rt e r :
  keyed_unary f (methodStream r (f_service f) (f_method f)) = true ->
  r_dedup r !! dedupKey f = Some d -> in_flight r d rt ->
  let r' := dispatch p f e r in
  r_routes r' = r_routes r /\
  d_waiters (entryOf r' d) = d_waiters (entryOf r d) ++ [(p, f_callID f)] /\
  p_calls (peerOf r' p) = 1 + p_calls (peerOf r p) /\
  (forall q, p_out (peerOf r' q) = p_out (peerOf r q)).
Proof.
  intros Hk Hd Hf. unfold dispatch. rewrite keyed_not_duplex by done.
  rewrite (consult_in_flight _ _ d rt) by done.
  unfold entryOf, upd_dedup, upd_peer, peerOf. simpl. rewrite !update_eq. split_and!; try done.
  intros q. by apply (update_field p_out).
Qed.

(** ** Stranded entries *)

Lemma forward_client_cancel p rt f now r :
  f_kind f = "call.cancel"%string ->
  let r' := forward_client p rt f now r in
  r_routes r' = delete (f_callID f) (r_routes r) /\ r_dstore r' = r_dstore r /\
  r_dedup r' = r_dedup r /\ r_services r' = r_services r.
Proof.
  intros Hk. unfold forward_client. rewrite credit_terminal by tauto. rewrite Hk. simpl.
  set (r1 := upd_route rt _ r). set (r2 := finishRoute _ _ _ _).
  assert (quiet r1 r2) as Hq by (etrans; [apply send_quiet|apply finishRoute_quiet]).
  rewrite endRoute_routes, endRoute_services. destruct (endRoute_dstore (f_callID f) rt r2) as [-> ->].
  by rewrite (quiet_field r_routes r1 r2), (quiet_field r_dstore r1 r2), (quiet_field r_dedup r1 r2),
    (quiet_field r_services r1 r2).
Qed.

(** A client that cancels its keyed call ends the route but not the
    entry: the entry still claims the ended route is in flight, and every later
    call with the key, at any time, joins it and opens no route. *)
Theorem cancel_strands_entry p rt d f now q g e r :
  f_kind f = "call.cancel"%string -> in_flight r d rt -> r_dedup r !! dedupKey g = Some d ->
  keyed_unary g (methodStream r (f_service g) (f_method g)) = true ->
  let r' := forward_client p rt f now r in
  r_routes r' !! f_callID f = None /\ in_flight r' d rt /\
  r_routes (dispatch q g e r') = r_routes r' /\
  d_waiters (entryOf (dispatch q g e r') d) = d_waiters (entryOf r' d) ++ [(q, f_callID g)].
Proof.
  intros Hk Hf Hd Hg r'. destruct (forward_client_cancel p rt f now r Hk) as (C1 & C2 & C3 & C4).
  fold r' in C1, C2, C3, C4.
  assert (in_flight r' d rt) as Hf' by (unfold in_flight, entryOf in *; by rewrite C2).
  split_and!; [by rewrite C1, lookup_delete_eq|done|..];
    unfold dispatch, methodStream in *; rewrite C4, keyed_not_duplex by done;
    rewrite (consult_in_flight _ _ d rt) by (done || by rewrite C3);
    unfold entryOf, upd_dedup, upd_peer; simpl; by rewrite ?update_eq.
Qed.

Lemma filter_ne (d : nat) (l : list nat) : d ∉ l -> filter (fun d' => d' <> d) l = l.
Proof.
  induction l as [|x l IH]; intros Hd; [done|].
  rewrite filter_cons_True; [f_equal; apply IH; set_solver|set_solver].
Qed.

Lemma dedupRemove_oldest d l r : calls_ok r -> r_dedupOrder r = d :: l ->
  r_dedupOrder (dedupRemove d r) = l.
Proof.
  intros Hok Ho. pose proof (co_order _ _ Hok) as Hn. rewrite Ho in Hn. apply NoDup_cons in Hn as [Hd _].
  assert (d ∈ r_dedupOrder r) as Hin by (rewrite Ho; by left).
  unfold dedupRemove, entryOf. rewrite (en_element _ _ (co_entry _ _ Hok d Hin)). simpl. rewrite Ho.
  rewrite filter_cons_False by (by intros []). by apply filter_ne.
Qed.

Lemma dedup_evict_loop fuel r : calls_ok r -> (length (r_dedupOrder r) <= fuel)%nat ->
  let r' := dedup_evict fuel r in
  ((length (r_dedupOrder r') < dedupCapacity)%nat \/
   exists d rt, head (r_dedupOrder r') = Some d /\ d_route (entryOf r' d) = Some rt) /\
  r_dedupOrder r' `suffix_of` r_dedupOrder r.
Proof.
  revert r. induction fuel as [|fuel IH]; intros r Hok Hlen; cbn [dedup_evict].
  - split; [|done]. left. unfold dedupCapacity. lia.
  - destruct (dedupCapacity <=? _)%nat eqn:Hc; [|apply Nat.leb_gt in Hc; by split; [left|]].
    destruct (r_dedupOrder r) as [|d l] eqn:Ho; [discriminate Hc|].
    destruct (d_route (entryOf r d)) as [rt|] eqn:Hd.
    + rewrite Ho. split; [|done]. right. by exists d, rt.
    + pose proof (dedupRemove_oldest d l r Hok Ho) as Hr.
      destruct (IH (dedupRemove d r)) as [I1 I2].
      * apply dedupRemove_ok; [done|rewrite Ho; by left|done].
      * rewrite Hr. simpl in Hlen. lia.
      * split; [done|]. rewrite Hr in I2. etrans; [exact I2|]. by apply suffix_cons_r.
Qed.

(** eviction makes room unless the oldest entry is in flight: the loop
    removes oldest entries only, and stops below the capacity or at an entry in
    flight at the front of the order. *)
Theorem dedup_evict_stops r :
  calls_ok r ->
  let r' := dedup_evict (length (r_dedupOrder r)) r in
  ((length (r_dedupOrder r') < dedupCapacity)%nat \/
   exists d rt, head (r_dedupOrder r') = Some d /\ d_route (entryOf r' d) = Some rt) /\
  r_dedupOrder r' `suffix_of` r_dedupOrder r.
Proof. intros Hok. by apply dedup_evict_loop. Qed.

End idempotency.

(** ** Witnesses *)

Lemma dedupKey_injective_witness :
  let f := frame_of open_call in let g := frame_of same_key in
  dedupKey f = dedupKey g /\ f_idempotency f = f_idempotency g.
Proof.
  intros f g. assert (dedupKey f = dedupKey g) as Hk by (vm_compute; reflexivity).
  split; [exact Hk|].
  apply (dedupKey_injective f g); [repeat split; vm_compute; reflexivity..|exact Hk].
Defined.


Lemma answered_once_witness :
  let f := frame_of call_result in let g := frame_of same_key in let r := sy_router sample_open in
  dispatch 1 g (env_at Minute) (forward_server 0 2 f 1 r) =
    send 1 (f {{ f_callID := f_callID g; f_raw := None }}) (forward_server 0 2 f 1 r).
Proof.
  intros f g r. apply (answered_once 0 2 "k1" 3 f 1 1 g (env_at Minute) r).
  - exact (ro_calls _ (sk_router _ (reachable_ok _ _ _ sample_config_ok sample_open_reachable))).
  - vm_compute. reflexivity.
  - vm_compute. reflexivity.
  - left. vm_compute. reflexivity.
  - vm_compute. reflexivity.
  - vm_compute. reflexivity.
  - vm_compute. discriminate.
Defined.

Lemma keyed_call_joins_witness :
  let f := frame_of same_key in let r := sy_router sample_open in
  d_waiters (entryOf (dispatch 1 f (env_at 1) r) 3) = [(1%nat, "k2"%string)].
Proof.
  intros f r. apply (keyed_call_joins 1 f 3 2 (env_at 1) r); [vm_compute; reflexivity..|].
  split; vm_compute; reflexivity.
Defined.

Lemma cancel_strands_entry_witness :
  let f := frame_of cancel_call in let g := frame_of same_key in let r := sy_router sample_open in
  let r' := forward_client 1 2 f 1 r in
  r_routes r' !! "k1"%string = None /\ in_flight r' 3 2 /\
  r_routes (dispatch 1 g (env_at (60 * Minute)) r') = r_routes r'.
Proof.
  intros f g r r'.
  destruct (cancel_strands_entry 1 2 3 f 1 1 g (env_at (60 * Minute)) r) as (H1 & H2 & H3 & _).
  - vm_compute. reflexivity.
  - split; vm_compute; reflexivity.
  - vm_compute. reflexivity.
  - vm_compute. reflexivity.
  - split; [exact H1|split; [exact H2|exact H3]].
Defined.

Lemma dedup_evict_stops_witness :
  r_dedupOrder (dedup_evict 1 (sy_router sample_open)) `suffix_of` r_dedupOrder (sy_router sample_open).
Proof.
  apply (dedup_evict_stops (sy_router sample_open)).
  exact (ro_calls _ (sk_router _ (reachable_ok _ _ _ sample_config_ok sample_open_reachable))).
Defined.
