(* ===== verification/Selection.v ===== *)
(** * What the balance policies promise

    Each policy of balance.go against its declarative meaning, the selection
    as a whole on reachable states, and two runs in which it goes wrong. *)
From S2P Require Import Prelude GoStd GoHeap Json Protocol Outbox Breaker Libs Auth State Deadline.
From S2P Require Import Dedup Balance Management Router Connection Calls Registry Invariants.
From S2P Require Import Membership Reachable Scenario.
#[local] Open Scope Z_scope.

(** ** Definitions *)

(** [n] calls of one method over the same candidates, one after the other. *)
Fixpoint rotate (n : nat) (f : frame) (instances : list nat) (r : Router) : list (option nat) :=
  match n with
  | O => []
  | S n =>
      match r_services r !! f_service f with
      | None => []
      | Some po =>
          let '(r, c) := round_robin f po instances r in c :: rotate n f instances r
      end
  end.

(** Values that decode to the same Go value, the order of object members and
    overwritten duplicates aside. *)
Inductive same_json : json -> json -> Prop :=
  | SameNull : same_json JNull JNull
  | SameBool b : same_json (JBool b) (JBool b)
  | SameNumber n : same_json (JNumber n) (JNumber n)
  | SameString s : same_json (JString s) (JString s)
  | SameArray l k : Forall2 same_json l k -> same_json (JArray l) (JArray k)
  | SameObject kvs kvs' :
      (forall k, option_Forall2 same_json (lookup_last k kvs) (lookup_last k kvs')) ->
      same_json (JObject kvs) (JObject kvs').

(** Two instances of one service; the first serves another service too, with a
    method of the same name. *)
Definition register_two : string := text
  "{'kind':'server.register','instance_id':'i1','services':[{'name':'demo.v1.A','methods':[{'name':'Run','stream':'unary','balance':{'kind':'round_robin'}}]},{'name':'demo.v1.B','methods':[{'name':'Run','stream':'server_stream','balance':{'kind':'random'}}]}]}".
Definition register_one : string := text
  "{'kind':'server.register','instance_id':'i2','services':[{'name':'demo.v1.A','methods':[{'name':'Run','stream':'unary','balance':{'kind':'round_robin'}}]}]}".
Definition hello_second : string := text
  "{'kind':'hello','protocol':'meshcall/1','role':'server','peer_id':'t','instance_id':'i2'}".
Definition mixed_ready : System :=
  receive 1 (Some register_one) (env_at 0)
    (receive 1 (Some hello_second) (env_at 0)
      (receive 0 (Some register_two) (env_at 0)
        (receive 0 (Some hello_server) (env_at 0) sample_connected))).
Definition mixed_left : System := disconnect 1 (env_at 1) mixed_ready.

(** The breaker of the second instance has tripped and its cooldown is over. *)
Definition run_call : frame :=
  frame0 {{ f_kind := "call.open"; f_callID := "k"; f_service := "demo.v1.A"; f_method := "Run" }}.
Definition tripped_router : Router :=
  upd_peer 1 (fun x => x {{ p_health := Health 5 (Some 100) false }}) (sy_router mixed_ready).

(** ** Round robin *)

Lemma round_robin_pick f po instances r :
  let n := Z.of_nat (length instances) in
  let c := default 0 (po_cursors po !! f_method f) in
  0 <= c -> instances <> [] ->
  let '(r', picked) := round_robin f po instances r in
  picked = instances !! Z.to_nat (c mod n) /\
  exists po', r_services r' !! f_service f = Some po' /\
    default 0 (po_cursors po' !! f_method f) = (c + 1) mod n.
Proof.
  intros n c Hc Hne. assert (0 < n) as Hn by (destruct instances; simpl in *; [done|lia]).
  unfold round_robin. fold n c. rewrite !(Z.rem_mod_nonneg c) by lia.
  split; [done|]. eexists. split; [simpl; apply lookup_insert_eq|]. simpl.
  rewrite lookup_insert_eq. simpl. pose proof (Z.mod_pos_bound c n Hn).
  rewrite Z.rem_mod_nonneg by lia. by rewrite Zplus_mod_idemp_l.
Qed.

Lemma rotate_picks k f instances r po :
  let n := Z.of_nat (length instances) in
  let c := default 0 (po_cursors po !! f_method f) in
  0 <= c -> instances <> [] -> r_services r !! f_service f = Some po ->
  rotate k f instances r = (fun i => instances !! Z.to_nat ((c + Z.of_nat i) mod n)) <$> seq 0 k.
Proof.
  revert r po. induction k as [|k IH]; intros r po n c Hc Hne Hpo; [done|].
  assert (0 < n) as Hn by (destruct instances; simpl in *; [done|lia]).
  cbn [rotate]. rewrite Hpo. pose proof (round_robin_pick f po instances r Hc Hne) as Hp.
  destruct (round_robin f po instances r) as [r' picked]. destruct Hp as (-> & po' & Hpo' & Hc').
  simpl. f_equal; [f_equal; f_equal; f_equal; fold c; lia|].
  rewrite (IH r' po'); [|rewrite Hc'; by apply Z.mod_pos_bound|done|done].
  rewrite Hc', <- seq_shift, <- list_fmap_compose. apply list_fmap_ext. intros i x _. simpl.
  do 2 f_equal. fold n c. rewrite Zplus_mod_idemp_l. f_equal. lia.
Qed.

Lemma rotation_picks (l : list nat) (c : nat) : (c < length l)%nat ->
  (fun i => l !! Z.to_nat ((Z.of_nat c + Z.of_nat i) mod Z.of_nat (length l))) <$> seq 0 (length l) =
  Some <$> (drop c l ++ take c l).
Proof.
  intros Hc. apply list_eq_same_length with (n := length l).
  - rewrite length_fmap, length_app, length_drop, length_take. lia.
  - by rewrite length_fmap, length_seq.
  - intros i x y Hi. rewrite !list_lookup_fmap, lookup_seq_lt by lia. simpl.
    intros [= <-]. destruct (decide (c + i < length l)%nat) as [Hlt|Hge].
    + rewrite Z.mod_small by lia. rewrite lookup_app_l by (rewrite length_drop; lia).
      rewrite lookup_drop. replace (Z.to_nat (Z.of_nat c + Z.of_nat i)) with (c + i)%nat by lia.
      destruct (l !! (c + i)%nat); simpl; congruence.
    + replace ((Z.of_nat c + Z.of_nat i) mod Z.of_nat (length l)) with (Z.of_nat (c + i - length l)).
      2:{ apply (Z.mod_unique_pos _ _ 1); lia. }
      rewrite lookup_app_r, length_drop by (rewrite length_drop; lia).
      rewrite lookup_take_lt by lia. rewrite Nat2Z.id.
      replace (i - (length l - c))%nat with (c + i - length l)%nat by lia.
      destruct (l !! (c + i - length l)%nat); simpl; congruence.
Qed.

(** As many consecutive calls as there are candidates go to each
    candidate exactly once, in the pool's order from wherever the method's cursor
    stands. *)
Theorem round_robin_fair f instances r po :
  instances <> [] -> r_services r !! f_service f = Some po ->
  0 <= default 0 (po_cursors po !! f_method f) ->
  exists c, (c < length instances)%nat /\
    rotate (length instances) f instances r = Some <$> (drop c instances ++ take c instances).
Proof.
  intros Hne Hpo Hc. assert (0 < Z.of_nat (length instances)) as Hn by (destruct instances; simpl in *; [done|lia]).
  set (c := default 0 (po_cursors po !! f_method f)) in *.
  pose proof (Z.mod_pos_bound c _ Hn) as Hb.
  exists (Z.to_nat (c mod Z.of_nat (length instances))). split; [lia|].
  rewrite <- rotation_picks by lia. rewrite (rotate_picks _ _ _ _ po) by done.
  apply list_fmap_ext. intros i x _. fold c. rewrite Z2Nat.id by lia. by rewrite Zplus_mod_idemp_l.
Qed.

(** ** Least in flight *)

Lemma least_inflight_le ps best rest c :
  c ∈ best :: rest -> p_inflight (ps (least_inflight ps best rest)) <= p_inflight (ps c).
Proof.
  revert best c. induction rest as [|x rest IH]; intros best c; cbn [least_inflight fold_left].
  - intros ->%list_elem_of_singleton. lia.
  - set (b := if _ <? _ then x else best).
    assert (p_inflight (ps b) <= p_inflight (ps best) /\ p_inflight (ps b) <= p_inflight (ps x)) as [Hb Hx].
    { unfold b. destruct (_ <? _) eqn:E; unbool; lia. }
    pose proof (IH b) as IHb. unfold least_inflight in IHb.
    intros [->|[->|Hc]%elem_of_cons]%elem_of_cons.
    + etrans; [apply IHb; by left|done].
    + etrans; [apply IHb; by left|done].
    + apply IHb. by right.
Qed.

(** The least_inflight policy chooses a candidate with as few calls in
    flight as any other. *)
Theorem least_inflight_minimal ps best rest :
  let chosen := least_inflight ps best rest in
  chosen ∈ best :: rest /\
  forall c, c ∈ best :: rest -> p_inflight (ps chosen) <= p_inflight (ps c).
Proof. split; [apply least_inflight_in|]. intros c. apply least_inflight_le. Qed.

Section selection.
Context `{Crypto, Floats}.

(** ** Rendezvous hashing *)

Lemma rendezvous_from_filter name key l x best w s :
  rendezvous_from name key best l = Some (w, s) -> w <> x ->
  rendezvous_from name key best (filter (fun c => c <> x) l) = Some (w, s).
Proof.
  revert best. induction l as [|c l IH]; intros best Hr Hne; [done|].
  destruct (decide (c = x)) as [->|Hc].
  - rewrite filter_cons_False by (by intros []). apply IH; [|done]. by eapply rendezvous_from_skip.
  - rewrite filter_cons_True by done. cbn [rendezvous_from fold_left] in *. by apply IH.
Qed.

(** Sticky calls stay put: the chosen instance scores highest for
    the key, and when any other instance leaves the pool the choice is the same,
    so only the keys of the instance that left move. *)
Theorem rendezvous_stable name l key w :
  rendezvous name l key = Some w ->
  w ∈ l /\ (forall c, c ∈ l -> score (name c) key <= score (name w) key) /\
  forall x, x <> w -> rendezvous name (filter (fun c => c <> x) l) key = Some w.
Proof.
  intros Hr. split; [by eapply rendezvous_in|]. unfold rendezvous in *.
  pose proof (rendezvous_from_spec name key l None) as Hs.
  destruct (rendezvous_from _ _ _ l) as [[w' s]|] eqn:E; [|done]. simpl in Hr. simplify_eq.
  destruct Hs as ([?|[_ ->]] & Hle & _); [done|]. split; [done|].
  intros x Hx. erewrite rendezvous_from_filter; [done|exact E|done].
Qed.

(** ** Canonical sticky keys *)

Lemma lookup_last_fmap (g : json -> option string) kvs k :
  lookup_last k ((fun kv => (kv.1, g kv.2)) <$> kvs) = g <$> lookup_last k kvs.
Proof.
  induction kvs as [|[k' v] kvs IH]; [done|]. rewrite fmap_cons. cbn [lookup_last fst snd]. rewrite IH.
  destruct (lookup_last k kvs); simpl; [done|]. by destruct (String.eqb k k').
Qed.

Lemma lookup_last_is_Some {A} (kvs : list (string * A)) k :
  is_Some (lookup_last k kvs) <-> k ∈ fst <$> kvs.
Proof.
  induction kvs as [|[k' v] kvs IH]; simpl.
  - split; [by intros []|by intros ?%elem_of_nil].
  - rewrite elem_of_cons, <- IH. destruct (lookup_last k kvs); simpl; [naive_solver|].
    destruct (String.eqb k k') eqn:E; unbool; [subst; naive_solver|].
    split; [by intros []|intros [->|[]]; done].
Qed.

Lemma lookup_last_in {A} (kvs : list (string * A)) k v : lookup_last k kvs = Some v -> (k, v) ∈ kvs.
Proof.
  induction kvs as [|[k' v'] kvs IH]; simpl; [done|]. rewrite elem_of_cons.
  destruct (lookup_last k kvs) eqn:El; [intros [= ->]; right; by apply IH|].
  destruct (String.eqb k k') eqn:E; [|done]. unbool. intros [= ->]. left; congruence.
Qed.

Lemma object_keys_same {A} (kvs kvs' : list (string * A)) :
  (forall k, is_Some (lookup_last k kvs) <-> is_Some (lookup_last k kvs')) ->
  object_keys kvs = object_keys kvs'.
Proof.
  intros Hk. unfold object_keys. apply Sort_unique, NoDup_Permutation; [apply NoDup_remove_dups..|].
  intros k. by rewrite !elem_of_remove_dups, <- !lookup_last_is_Some.
Qed.

Lemma canonicalJSON_object kvs :
  canonicalJSON (JObject kvs) = canonical_members ((fun kv => (kv.1, canonicalJSON kv.2)) <$> kvs).
Proof. simpl. f_equal. induction kvs as [|[k v] kvs IH]; [done|]. rewrite fmap_cons. f_equal. exact IH. Qed.

(** The text of a sticky key depends on the value alone: the order
    of an object's members (and members overwritten by a later duplicate) never
    changes it, at any depth. *)
Theorem canonicalJSON_order_free v w : same_json v w -> canonicalJSON v = canonicalJSON w.
Proof.
  revert w. induction v as [|b|n|s|l IH|kvs IH] using json_nested_ind; intros w Hs; inversion Hs; subst; try done.
  - simpl. f_equal. revert IH. clear Hs. match goal with Hl : Forall2 _ _ _ |- _ => induction Hl as [|x y l k Hxy Hl IHl] end; [done|].
    intros [Hx Hf]%Forall_cons. simpl. by rewrite (Hx y Hxy), IHl.
  - match goal with Hk : forall k, option_Forall2 _ _ _ |- _ => rename Hk into Hkeys end.
    rewrite !canonicalJSON_object. unfold canonical_members.
    assert (forall k, canonicalJSON <$> lookup_last k kvs = canonicalJSON <$> lookup_last k kvs') as Hv.
    { intros k. specialize (Hkeys k). destruct (lookup_last k kvs) as [x|] eqn:E; inversion Hkeys; [|done].
      simpl. f_equal. rewrite Forall_forall in IH. apply (IH (k, x)); [by apply lookup_last_in|done]. }
    rewrite (object_keys_same _ ((fun kv => (kv.1, canonicalJSON kv.2)) <$> kvs')).
    + f_equal. apply mapM_ext. intros k. by rewrite !lookup_last_fmap, Hv.
    + intros k. by rewrite !lookup_last_fmap, Hv.
Qed.
End selection.

Section runs.
Context `{Crypto, Floats}.

(** ** The selection as a whole *)

(** C33: in every reachable state, the instance a call is given is
    registered under its id, is not draining, registered the call's method, and
    has room under its [max_inflight]; it is the instance the call names if it names
    one, and the instance to avoid only when no other serves the method. *)
Theorem selectInstance_sound config auth s f avoid e r' c :
  config_ok config -> reachable config auth s -> env_ok e ->
  let r := sy_router s in
  selectInstance f avoid e r = (r', inl c) ->
  r_instances r !! p_instanceID (peerOf r c) = Some c /\ p_draining (peerOf r c) = false /\
  serves (peerOf r c) (f_service f) (f_method f) = true /\ at_cap (peerOf r c) = false /\
  (f_instanceID f <> EmptyString -> p_instanceID (peerOf r c) = f_instanceID f) /\
  (f_instanceID f = EmptyString -> avoid = Some c ->
     exists po, r_services r !! f_service f = Some po /\ serving_instances r po f = [c]).
Proof.
  intros Hc Hs He r Hsel. pose proof (ro_registry _ (sk_router _ (reachable_ok _ _ _ Hc Hs))) as Hr.
  fold r in Hr. destruct (selectInstance_spec _ _ _ _ _ _ He Hsel) as [_ Hsl].
  destruct (Hsl c eq_refl) as [H1 H2 [(H3 & po & H4 & H5 & H6 & H7)|(H3 & H4 & H5)]].
  - apply (pk_member _ _ _ (rk_pool _ Hr _ _ H4)) in H5 as [[Hl1 Hl2] _].
    split_and!; try done. intros _ Ha. exists po. auto.
  - destruct (rk_instance _ Hr _ _ H4) as (Hid & _). rewrite Hid. split_and!; try done.
Qed.
End runs.

Lemma mixed_ready_reachable : reachable sample_config None mixed_ready.
Proof. do 4 apply reach_receive. do 2 apply reach_connect. apply ReachStart. Qed.

Lemma mixed_left_reachable : reachable sample_config None mixed_left.
Proof.
  eapply ReachStep; [apply mixed_ready_reachable|]. apply StepDisconnect; [apply env_at_ok|].
  vm_compute. reflexivity.
Qed.

(** [rebuildMethods] mixes services up: when one of two instances of
    demo.v1.A leaves, the pool of demo.v1.A takes the method Run of demo.v1.B from
    the instance that is left, so a unary method becomes a server stream there,
    although every registration of demo.v1.A said it is unary. *)
Theorem rebuildMethods_mixes_services :
  let streams p := (fun x => (s_name x, m_stream <$> methods_of x)) <$>
    p_services (peerOf (sy_router mixed_left) p) in
  reachable sample_config None mixed_left /\
  streams 0%nat = [("demo.v1.A"%string, ["unary"%string]); ("demo.v1.B"%string, ["server_stream"%string])] /\
  streams 1%nat = [("demo.v1.A"%string, ["unary"%string])] /\
  methodStream (sy_router mixed_ready) "demo.v1.A" "Run" = "unary"%string /\
  methodStream (sy_router mixed_left) "demo.v1.A" "Run" = "server_stream"%string.
Proof.
  split; [apply mixed_left_reachable|]. repeat split; vm_compute; reflexivity.
Qed.

(** a half-open breaker loses its probe: choosing among a healthy
    instance and one whose cooldown is over marks the latter as probing although
    the call goes to the former, and from then on no time admits it again. *)
Theorem probe_lost_in_selection :
  let res := selectInstance run_call None (env_at 200) tripped_router in
  res.2 = inl 0%nat /\
  (health_admit (p_health (peerOf tripped_router 1)) 200).1 = true /\
  forall t, 200 <= t -> (health_admit (p_health (peerOf res.1 1)) t).1 = false.
Proof.
  intros res. assert (p_health (peerOf res.1 1) = Health 5 (Some 100) true) as -> by (vm_compute; reflexivity).
  split; [vm_compute; reflexivity|]. split; [vm_compute; reflexivity|].
  intros t Ht. unfold health_admit, state. simpl. by destruct (t <? 100).
Qed.

(** ** Witnesses *)

Lemma round_robin_fair_witness :
  rotate 2 run_call [0%nat; 1%nat] (sy_router mixed_ready) = [Some 0%nat; Some 1%nat] /\
  exists c, (c < 2)%nat /\ rotate 2 run_call [0%nat; 1%nat] (sy_router mixed_ready) =
    Some <$> (drop c [0%nat; 1%nat] ++ take c [0%nat; 1%nat]).
Proof.
  split; [vm_compute; reflexivity|].
  destruct (r_services (sy_router mixed_ready) !! f_service run_call) as [po|] eqn:E.
  - apply (round_robin_fair run_call [0%nat; 1%nat] (sy_router mixed_ready) po); [discriminate|exact E|].
    vm_compute in E. injection E as <-. vm_compute. discriminate.
  - vm_compute in E. discriminate E.
Defined.

Lemma rendezvous_stable_witness :
  rendezvous (fun c => hex_encode (chr (Z.of_nat c))) [0%nat; 1%nat; 2%nat] "k" = Some 0%nat /\
  rendezvous (fun c => hex_encode (chr (Z.of_nat c)))
    (filter (fun c => c <> 2%nat) [0%nat; 1%nat; 2%nat]) "k" = Some 0%nat.
Proof.
  assert (rendezvous (fun c => hex_encode (chr (Z.of_nat c))) [0%nat; 1%nat; 2%nat] "k" = Some 0%nat) as Hr
    by (vm_compute; reflexivity).
  split; [exact Hr|]. apply (rendezvous_stable _ _ _ _ Hr). discriminate.
Defined.

Lemma canonicalJSON_order_free_witness :
  canonicalJSON (JObject [("a"%string, JNull); ("b"%string, JBool true)]) =
  canonicalJSON (JObject [("b"%string, JBool true); ("a"%string, JNull)]).
Proof.
  apply canonicalJSON_order_free. constructor. intros k. simpl.
  destruct (String.eqb k "a") eqn:Ea, (String.eqb k "b") eqn:Eb; try (repeat constructor; fail).
  apply String.eqb_eq in Ea, Eb. subst k. discriminate Eb.
Defined.

Lemma selectInstance_sound_witness :
  at_cap (peerOf (sy_router mixed_ready) 0) = false /\
  serves (peerOf (sy_router mixed_ready) 0) "demo.v1.A" "Run" = true.
Proof.
  destruct (selectInstance run_call None (env_at 0) (sy_router mixed_ready)) as [r' [c|err]] eqn:E.
  - assert (c = 0%nat) as ->.
    { assert (snd (selectInstance run_call None (env_at 0) (sy_router mixed_ready)) = inl 0%nat) as Hc
        by (vm_compute; reflexivity). rewrite E in Hc. injection Hc as Hc. exact Hc. }
    destruct (selectInstance_sound sample_config None mixed_ready run_call None (env_at 0) r' 0
      sample_config_ok mixed_ready_reachable (env_at_ok 0) E) as (_ & _ & H1 & H2 & _).
    split; [exact H2|exact H1].
  - assert (snd (selectInstance run_call None (env_at 0) (sy_router mixed_ready)) = inl 0%nat) as Hc
      by (vm_compute; reflexivity). rewrite E in Hc. discriminate Hc.
Defined.
