(* ===== verification/GoText.v ===== *)
(** * Texts as sequences of runes

    The functions of Go's strings, unicode and strconv packages that the code
    generators use.  The tables of package unicode are the class [Unicode]. *)
From S2P Require Import Prelude GoStd Json Libs Contract.
#[local] Open Scope Z_scope.
#[local] Arguments String.append !_ _ / : simpl nomatch.

(** The tables of package unicode. *)
Class Unicode : Type := {
  IsPrint : Z -> bool;
  IsUpper : Z -> bool;
  ToUpper : Z -> Z;
  ToLower : Z -> Z }.

(** ** Package strings *)

Fixpoint concat_text (l : list string) : string :=
  match l with
  | [] => EmptyString
  | s :: l => s +:+ concat_text l
  end.

(** Whether [sub] occurs in [s]. *)
Fixpoint has_sub (sub s : string) : bool :=
  String.prefix sub s ||
  match s with
  | EmptyString => false
  | String _ s => has_sub sub s
  end.

(** [ReplaceAll] of a text that is not empty; the first [skip] bytes belong to
    an occurrence that was replaced. *)
Fixpoint replace_from (skip : nat) (old new s : string) : string :=
  match s with
  | EmptyString => EmptyString
  | String c s' =>
      match skip with
      | S skip => replace_from skip old new s'
      | O =>
          if String.prefix old s
          then new +:+ replace_from (String.length old - 1) old new s'
          else String c (replace_from 0 old new s')
      end
  end.
Definition ReplaceAll (s old new : string) : string := replace_from 0 old new s.

(** [Replace(s, c, "", 1)] of a byte. *)
Definition remove_first (c : ascii) (s : string) : string :=
  let '(before, after, ok) := Cut c s in
  if ok then before +:+ after else s.

Fixpoint Repeat (s : string) (n : nat) : string :=
  match n with
  | O => EmptyString
  | S n => s +:+ Repeat s n
  end.

(** [TrimRight] of the bytes of an ASCII set. *)
Fixpoint drop_while (p : ascii -> bool) (s : string) : string :=
  match s with
  | String c s' => if p c then drop_while p s' else s
  | EmptyString => EmptyString
  end.
Definition TrimRight (s cutset : string) : string :=
  string_rev (drop_while (ContainsByte cutset) (string_rev s)).
Definition TrimSuffix (s suffix : string) : string :=
  if HasSuffix s suffix then take_bytes (String.length s - String.length suffix) s else s.

(** [TrimSpace] removes what [unicode.IsSpace] says. *)
Fixpoint trim_runes (l : list (Z * string)) : list (Z * string) :=
  match l with
  | (r, b) :: l' => if IsSpace r then trim_runes l' else l
  | [] => []
  end.
Definition TrimSpace_ (s : string) : string :=
  concat_text (snd <$> rev (trim_runes (rev (trim_runes (runes s))))).

(** What follows the last occurrence of a byte, or everything. *)
Definition after_last (c : ascii) (s : string) : string :=
  drop_bytes (Z.to_nat (LastIndexByte s c + 1)) s.

(** [regexp.ReplaceAllString] of a class of runes, one by one or in runs. *)
Definition replace_runes (keep : Z -> bool) (new s : string) : string :=
  concat_text ((fun rb => if keep rb.1 then rb.2 else new) <$> runes s).
Fixpoint replace_runs_from (inside : bool) (keep : Z -> bool) (new : string)
    (l : list (Z * string)) : string :=
  match l with
  | [] => EmptyString
  | (r, b) :: l =>
      if keep r then b +:+ replace_runs_from false keep new l
      else (if inside then EmptyString else new) +:+ replace_runs_from true keep new l
  end.
Definition replace_runs (keep : Z -> bool) (new s : string) : string :=
  replace_runs_from false keep new (runes s).

Definition digit_rune (r : Z) : bool := in_range 48 57 r.
Definition upper_rune (r : Z) : bool := in_range 65 90 r.
Definition lower_rune (r : Z) : bool := in_range 97 122 r.
(** [[A-Za-z0-9_]], which is also RE2's [\w]. *)
Definition word_rune (r : Z) : bool :=
  upper_rune r || lower_rune r || digit_rune r || (r =? 95).

(** Whether the first byte is a digit. *)
Definition digit_first (s : string) : bool :=
  match s with
  | String c _ => is_digit c
  | EmptyString => false
  end.

Fixpoint all_digits (s : string) : bool :=
  match s with
  | EmptyString => true
  | String c s => is_digit c && all_digits s
  end.

(** ** Package strconv and fmt *)

Definition itoa (n : Z) : string := pretty n.
(** [%02d], [%02x] and [%08x]. *)
Definition pad2 (n : Z) : string := if n <? 10 then "0" +:+ itoa n else itoa n.
Definition hex2 (z : Z) : string :=
  String (hex_digit (Z.land (Z.shiftr z 4) 15)) (String (hex_digit (Z.land z 15)) EmptyString).
Definition hex8 (z : Z) : string := hex4 (Z.shiftr z 16) +:+ hex4 (Z.land z 65535).

(** Double quotes, backslash and line feed as text. *)
Definition bs : string := chr 92.
Definition nl : string := chr 10.
Definition tab : string := chr 9.

(** ** Recursion with fuel

    A recursion is a function of the calls it makes; it may fail only where they do. *)
Fixpoint iterate {A R} (body : (A -> option R) -> A -> option R) (fuel : nat) (x : A) : option R :=
  match fuel with
  | O => None
  | S fuel => body (iterate body fuel) x
  end.

(** ** Lemmas *)

Lemma concat_text_app l k : concat_text (l ++ k) = concat_text l +:+ concat_text k.
Proof. induction l as [|s l IH]; simpl; [done|]. by rewrite IH, append_assoc. Qed.

Lemma has_sub_spec sub s : has_sub sub s = true <-> exists a b, s = a +:+ sub +:+ b.
Proof.
  induction s as [|c s IH]; cbn [has_sub]; rewrite orb_true_iff, prefix_spec.
  - split; [intros [[t Ht]|]; [by exists EmptyString, t|done]|].
    intros (a & b & H). left. destruct a; [by exists b|done].
  - rewrite IH. split.
    + intros [[t Ht]|(a & b & ->)]; [by exists EmptyString, t|by exists (String c a), b].
    + intros ([|c' a] & b & H); [left; by exists b|]. injection H as -> ->. right. by exists a, b.
Qed.

Lemma all_digits_app s t : all_digits (s +:+ t) = all_digits s && all_digits t.
Proof. induction s as [|c s IH]; [done|]. cbn [String.append all_digits]. by rewrite IH, andb_assoc. Qed.
Lemma all_digits_repeat n : all_digits (Repeat "0" n) = true.
Proof. induction n; [done|]. cbn [Repeat]. by rewrite all_digits_app. Qed.
Lemma all_digits_take n s : all_digits s = true -> all_digits (take_bytes n s) = true.
Proof.
  revert s. induction n as [|n IH]; intros [|c s]; try done. cbn [take_bytes all_digits].
  intros [-> Hs]%andb_true_iff. by apply IH.
Qed.
Lemma all_digits_drop n s : all_digits s = true -> all_digits (drop_bytes n s) = true.
Proof.
  revert s. induction n as [|n IH]; intros [|c s]; try done. cbn [drop_bytes all_digits].
  intros [_ Hs]%andb_true_iff. by apply IH.
Qed.
Lemma length_drop_bytes n s : String.length (drop_bytes n s) = (String.length s - n)%nat.
Proof. revert s. induction n as [|n IH]; intros [|c s]; try done. cbn. by rewrite IH. Qed.

Lemma all_digits_itoa n : 0 <= n -> all_digits (itoa n) = true /\ itoa n <> EmptyString.
Proof.
  intros Hn. assert (exists m : N, n = Z.of_N m) as [m ->] by (exists (Z.to_N n); lia).
  assert (itoa (Z.of_N m) = pretty m) as ->.
  { by destruct m. }
  unfold pretty, pretty_N. case_decide; [done|].
  assert (forall x s, all_digits s = true -> all_digits (pretty_N_go x s) = true) as Hall.
  { clear. intros x. induction (N.lt_wf_0 x) as [x _ IH]. intros s Hs.
    destruct (decide (x = 0)%N) as [->|]; [by rewrite pretty_N_go_0|].
    rewrite pretty_N_go_step by lia. apply IH; [by apply N.div_lt; lia|].
    cbn [all_digits]. rewrite Hs, andb_true_r. unfold pretty_N_char. by repeat case_match. }
  split; [by apply Hall|].
  assert (forall x s, s <> EmptyString -> pretty_N_go x s <> EmptyString) as Hne.
  { clear. intros x. induction (N.lt_wf_0 x) as [x _ IH]. intros s Hs.
    destruct (decide (x = 0)%N) as [->|]; [by rewrite pretty_N_go_0|].
    rewrite pretty_N_go_step by lia. apply IH; [by apply N.div_lt; lia|done]. }
  rewrite pretty_N_go_step by lia. by apply Hne.
Qed.

Fixpoint ends_digit (s : string) : bool :=
  match s with
  | EmptyString => false
  | String c EmptyString => is_digit c
  | String _ s => ends_digit s
  end.

Lemma ends_digit_tail c s : ends_digit (String c s) = false -> ends_digit s = false.
Proof. by destruct s. Qed.
Lemma all_digits_ends s : all_digits s = true -> s <> EmptyString -> ends_digit s = true.
Proof.
  induction s as [|c [|c' s] IH]; [done|..]; cbn [all_digits].
  - by intros [Hc _]%andb_true_iff.
  - intros [_ Hs]%andb_true_iff _. by apply IH.
Qed.

(** Trailing digits are a part of their own. *)
Lemma digits_suffix_inj b b' d d' : ends_digit b = false -> ends_digit b' = false ->
  all_digits d = true -> all_digits d' = true -> b +:+ d = b' +:+ d' -> b = b' /\ d = d'.
Proof.
  revert b'. induction b as [|c b IH]; intros b' Hb Hb' Hd Hd' He.
  - destruct b' as [|c' b']; [done|]. cbn [String.append] in He.
    rewrite He in Hd. change (String c' (b' +:+ d')) with (String c' b' +:+ d') in Hd.
    rewrite all_digits_app in Hd. apply andb_true_iff in Hd as [Hd _].
    by rewrite all_digits_ends in Hb'.
  - destruct b' as [|c' b'].
    + cbn [String.append] in He. rewrite <- He in Hd'. rewrite <- append_cons, all_digits_app in Hd'.
      apply andb_true_iff in Hd' as [Hd' _]. by rewrite all_digits_ends in Hb.
    + injection He as -> He. destruct (IH b') as [-> ->]; eauto using ends_digit_tail.
Qed.

(** A recursion that calls itself on smaller arguments only, and returns where its
    calls do, returns with more fuel than its argument is large, and then fulfils
    its equation. *)
Section iterate.
Context {A R : Type} `{Inhabited R} (size : A -> nat) (body : (A -> option R) -> A -> option R).
Hypothesis body_ext : forall r1 r2 x, (forall y, (size y < size x)%nat -> r1 y = r2 y) ->
  body r1 x = body r2 x.
Hypothesis body_total : forall g x, is_Some (body (fun y => Some (g y)) x).

Definition iterated (x : A) : R := default inhabitant (iterate body (S (size x)) x).

Lemma iterate_iterated x : forall fuel, (size x < fuel)%nat -> iterate body fuel x = Some (iterated x).
Proof.
  remember (size x) as n eqn:Hn. revert x Hn. induction (lt_wf n) as [n _ IH]. intros x -> fuel Hf.
  assert (forall f, (size x <= f)%nat -> iterate body (S f) x = body (fun y => Some (iterated y)) x) as He.
  { intros f Hf'. cbn. apply body_ext. intros y Hy. apply (IH (size y)); [done..|lia]. }
  unfold iterated. rewrite (He (size x)) by done. destruct fuel as [|fuel]; [lia|].
  rewrite He by lia. by destruct (body_total iterated x) as [r ->].
Qed.

Lemma iterated_equation x : body (fun y => Some (iterated y)) x = Some (iterated x).
Proof.
  rewrite <- (iterate_iterated x (S (size x))) by lia. cbn. apply body_ext.
  intros y Hy. by rewrite (iterate_iterated y (size x)).
Qed.
End iterate.
