(* ===== verification/PyLiteral.v ===== *)
(** * Literals of generated code: internal/codegen/pyliteral.go

    Generated Python carries the defaults of a contract as Python literals,
    generated TypeScript as JSON.  The decimal text of a float64 is Go's
    [FormatFloat] ([Floats]); what kind of number it is, a parameter beside it. *)
From S2P Require Import Prelude GoStd Json Libs Contract GoText.
#[local] Open Scope Z_scope.

(** [IsInf], [IsNaN], [== 0] and [Signbit]. *)
Inductive float_kind := Infinite (negative : bool) | NotANumber | Zero (negative : bool) | Finite.
Class FloatKinds `{Floats} : Type := kind_of_float : float -> float_kind.

Section Literals.
Context `{Unicode} `{FloatKinds}.

(** ** Numbers *)

(** Digits and exponent of [FormatFloat(f, 'e', -1, 64)], without its sign. *)
Definition fixed_notation (digits : string) (exp : Z) : string :=
  let len := Z.of_nat (String.length digits) in
  if exp <? 0 then "0." +:+ Repeat "0" (Z.to_nat (- exp - 1)) +:+ digits
  else if len <=? exp + 1 then digits +:+ Repeat "0" (Z.to_nat (exp + 1 - len)) +:+ ".0"
  else take_bytes (Z.to_nat (exp + 1)) digits +:+ "." +:+ drop_bytes (Z.to_nat (exp + 1)) digits.
Definition exp_notation (digits : string) (exp : Z) : string :=
  let m := take_bytes 1 digits +:+
    (if 1 <? slen digits then "." +:+ drop_bytes 1 digits else EmptyString) in
  m +:+ "e" +:+ (if exp <? 0 then "-" else "+") +:+ pad2 (Z.abs exp).

Definition pyFloatRepr (f : float) : string :=
  match kind_of_float f with
  | Infinite false => "inf"
  | Infinite true => "-inf"
  | NotANumber => "nan"
  | Zero true => "-0.0"
  | Zero false => "0.0"
  | Finite =>
      let '(mantissa, expText, _) := Cut "e" (formatFloat "e" f) in
      let exp := default 0 (parse_int64 expText) in
      let sign := if HasPrefix mantissa "-" then "-" else EmptyString in
      let digits := remove_first "." (TrimPrefix mantissa "-") in
      sign +:+ (if (-4 <=? exp) && (exp <? 16) then fixed_notation digits exp
                else exp_notation digits exp)
  end.

Definition pyNumber (n : string) : string :=
  if negb (ContainsAny n ".eE") then n
  else match parseFloat n with
  | None => n
  | Some f => pyFloatRepr f
  end.

(** ** Python *)

Definition py_quote (s : string) : Z :=
  if ContainsByte s "'" && negb (ContainsByte s dq) then 34 else 39.
Definition py_rune (quote : Z) (r : Z) : string :=
  if (r =? quote) || (r =? 92) then bs +:+ encode_rune r
  else if r =? 10 then bs +:+ "n"
  else if r =? 13 then bs +:+ "r"
  else if r =? 9 then bs +:+ "t"
  else if (r <? 32) || (r =? 127) then bs +:+ "x" +:+ hex2 r
  else if (127 <? r) && negb (IsPrint r) then
    if 65535 <? r then bs +:+ "U" +:+ hex8 r else bs +:+ "u" +:+ hex4 r
  else encode_rune r.
Definition pyStringRepr (s : string) : string :=
  let quote := py_quote s in
  chr quote +:+ concat_text ((fun rb => py_rune quote rb.1) <$> runes s) +:+ chr quote.

Fixpoint pyRepr (value : json) : string :=
  match value with
  | JNull => "None"
  | JBool true => "True"
  | JBool false => "False"
  | JString s => pyStringRepr s
  | JNumber n => pyNumber n
  | JArray l => "[" +:+ Join ", " (pyRepr <$> l) +:+ "]"
  | JObject kvs =>
      "{" +:+ Join ", " ((fun kv => pyStringRepr kv.1 +:+ ": " +:+ pyRepr kv.2) <$> kvs) +:+ "}"
  end.

(** ** JSON *)

Definition json_rune (r : Z) : string :=
  if r =? 34 then bs +:+ dqs
  else if r =? 92 then bs +:+ bs
  else if r =? 10 then bs +:+ "n"
  else if r =? 13 then bs +:+ "r"
  else if r =? 9 then bs +:+ "t"
  else if r =? 8 then bs +:+ "b"
  else if r =? 12 then bs +:+ "f"
  else if r <? 32 then bs +:+ "u" +:+ hex4 r
  else if 126 <? r then
    if 65535 <? r then
      let '(hi, lo) := utf16_encode r in bs +:+ "u" +:+ hex4 hi +:+ bs +:+ "u" +:+ hex4 lo
    else bs +:+ "u" +:+ hex4 r
  else encode_rune r.
Definition jsonString (s : string) : string :=
  dqs +:+ concat_text ((fun rb => json_rune rb.1) <$> runes s) +:+ dqs.

Fixpoint jsonDumpInto (value : json) : string :=
  match value with
  | JNull => "null"
  | JBool true => "true"
  | JBool false => "false"
  | JString s => jsonString s
  | JNumber n => pyNumber n
  | JArray l => "[" +:+ Join ", " (jsonDumpInto <$> l) +:+ "]"
  | JObject kvs =>
      "{" +:+ Join ", " ((fun kv => jsonString kv.1 +:+ ": " +:+ jsonDumpInto kv.2) <$> kvs) +:+ "}"
  end.
Definition jsonDumps (value : json) : string := jsonDumpInto value.

Definition pad (indent d : nat) : string := Repeat " " (indent * d).
Fixpoint jsonDumpIndented (indent depth : nat) (value : json) : string :=
  match value with
  | JArray [] => "[]"
  | JArray l =>
      "[" +:+ nl +:+
      Join ("," +:+ nl) ((fun v => pad indent (S depth) +:+ jsonDumpIndented indent (S depth) v) <$> l)
      +:+ nl +:+ pad indent depth +:+ "]"
  | JObject [] => "{}"
  | JObject kvs =>
      "{" +:+ nl +:+
      Join ("," +:+ nl) ((fun kv => pad indent (S depth) +:+ jsonString kv.1 +:+ ": " +:+
                                    jsonDumpIndented indent (S depth) kv.2) <$> kvs)
      +:+ nl +:+ pad indent depth +:+ "}"
  | _ => jsonDumpInto value
  end.
Definition jsonDumpsIndent (value : json) (indent : nat) : string := jsonDumpIndented indent 0 value.
End Literals.
