(* ===== verification/Literals.v ===== *)
(** * Literals read back

    What the generators print for a string or a JSON value denotes it: a Python
    string literal read by the rules of the Python language, a JSON text by
    encoding/json. *)
From S2P Require Import Prelude GoStd Json Libs Contract GoText PyLiteral Printing.
#[local] Open Scope Z_scope.
#[local] Arguments String.append !_ _ / : simpl nomatch.

(** ** Reading Python string literals *)

(** The character an escape stands for, of the escapes that Python defines; the
    reader rejects the others, also where Python would keep the backslash. *)
Definition py_code (digits : Z * string) : option (string * string) :=
  let '(r, s) := digits in
  if valid_rune r then Some (encode_rune r, s) else None.
Definition parse_hex2 (s : string) : option (Z * string) :=
  match s with
  | String a (String b s) => a ← hex_val a; b ← hex_val b; Some (a * 16 + b, s)
  | _ => None
  end.
Definition parse_hex8 (s : string) : option (Z * string) :=
  '(a, s) ← parse_hex4 s; '(b, s) ← parse_hex4 s; Some (a * 65536 + b, s).
Definition py_escape (s : string) : option (string * string) :=
  match s with
  | EmptyString => None
  | String c s =>
      let b := byte c in
      if (b =? 34) || (b =? 39) || (b =? 92) then Some (String c EmptyString, s)
      else if b =? 110 then Some (chr 10, s)
      else if b =? 114 then Some (chr 13, s)
      else if b =? 116 then Some (chr 9, s)
      else if b =? 120 then parse_hex2 s ≫= py_code
      else if b =? 117 then parse_hex4 s ≫= py_code
      else if b =? 85 then parse_hex8 s ≫= py_code
      else None
  end.

(** The rest of a literal behind its opening quote: it may not contain a line
    end, and ends at the first quote that is not escaped. *)
Fixpoint py_body (fuel : nat) (quote : Z) (s : string) : option (string * string) :=
  match fuel, s with
  | S fuel, String c s' =>
      let b := byte c in
      if b =? quote then Some (EmptyString, s')
      else if (b =? 10) || (b =? 13) || (b =? 0) then None
      else if b =? 92 then
        '(t, r) ← py_escape s';
        '(u, r) ← py_body fuel quote r;
        Some (t +:+ u, r)
      else
        let '(r, w) := decode_rune c s' in
        '(u, rest) ← py_body fuel quote (drop_bytes w s);
        Some (encode_rune r +:+ u, rest)
  | _, _ => None
  end.
Definition py_literal (s : string) : option (string * string) :=
  match s with
  | String c s =>
      if (byte c =? 34) || (byte c =? 39) then py_body (S (String.length s)) (byte c) s else None
  | EmptyString => None
  end.

(** ** Hexadecimal *)

Lemma parse_hex2_hex2 z t : 0 <= z < 256 -> parse_hex2 (hex2 z +:+ t) = Some (z, t).
Proof.
  intros H. unfold hex2. rewrite !append_cons. cbn [parse_hex2 String.append].
  rewrite !low4, !shift_div by lia. change (2 ^ 4) with 16.
  rewrite !hex_val_digit by (apply Z.mod_pos_bound; lia). cbn [mbind option_bind].
  f_equal. f_equal. euclid.
Qed.

Lemma parse_hex4_hex4 z t : 0 <= z < 65536 -> parse_hex4 (hex4 z +:+ t) = Some (z, t).
Proof.
  intros H. unfold hex4. rewrite !append_cons. cbn [parse_hex4 String.append].
  rewrite !low4, !shift_div by lia. change (2 ^ 4) with 16. change (2 ^ 8) with 256.
  change (2 ^ 12) with 4096.
  rewrite !hex_val_digit by (apply Z.mod_pos_bound; lia). cbn [mbind option_bind].
  f_equal. f_equal. euclid.
Qed.

Lemma parse_hex8_hex8 z t : 0 <= z < 4294967296 -> parse_hex8 (hex8 z +:+ t) = Some (z, t).
Proof.
  intros H. unfold parse_hex8, hex8. rewrite append_assoc.
  assert (Z.land z 65535 = z mod 65536) as -> by (apply (land_ones z 16); lia).
  rewrite shift_div by lia. change (2 ^ 16) with 65536.
  rewrite !parse_hex4_hex4; [|euclid..]. cbn [mbind option_bind].
  rewrite parse_hex4_hex4 by euclid. cbn [mbind option_bind]. f_equal. f_equal. euclid.
Qed.

(** ** Python strings *)

Section Python.
Context `{Unicode}.

Lemma py_body_char fuel q c u r t : byte c <> q -> byte c <> 10 -> byte c <> 13 -> byte c <> 0 ->
  byte c <> 92 -> encode_rune r = String c u ->
  decode_rune c (u +:+ t) = (r, String.length (String c u)) ->
  py_body (S fuel) q (encode_rune r +:+ t)
    = ('(v, rest) ← py_body fuel q t; Some (encode_rune r +:+ v, rest)).
Proof.
  intros Hq H10 H13 H0 H92 He Hd. rewrite He, append_cons. cbn [py_body].
  destruct (Z.eqb_spec (byte c) q); [done|]. destruct (Z.eqb_spec (byte c) 10); [done|].
  destruct (Z.eqb_spec (byte c) 13); [done|]. destruct (Z.eqb_spec (byte c) 0); [done|].
  destruct (Z.eqb_spec (byte c) 92); [done|]. cbn [orb]. rewrite Hd.
  change (String c (u +:+ t)) with (String c u +:+ t). by rewrite drop_bytes_app, He.
Qed.

Lemma py_body_escape fuel q s t e : q <> 92 ->
  py_escape s = Some (e, t) ->
  py_body (S fuel) q (bs +:+ s) = ('(v, rest) ← py_body fuel q t; Some (e +:+ v, rest)).
Proof.
  intros Hq He. change (bs +:+ s) with (String (of_byte 92) s). cbn [py_body].
  change (byte (of_byte 92)) with 92. destruct (Z.eqb_spec 92 q); [congruence|].
  change (92 =? 10) with false. change (92 =? 13) with false. change (92 =? 0) with false.
  change (92 =? 92) with true. cbn [orb]. by rewrite He.
Qed.

(** What [pyStringRepr] writes for a rune. *)
Lemma py_escape_code (x : string) (parse : string -> option (Z * string)) r t :
  valid_rune r = true -> parse t = Some (r, x) ->
  parse t ≫= py_code = Some (encode_rune r, x).
Proof. intros Hr ->. cbn. by rewrite Hr. Qed.

Lemma ascii_rune r : 0 <= r < 128 -> encode_rune r = chr r.
Proof. intros. unfold encode_rune. by replace (in_range 0 127 r) with true by (symmetry; apply in_range_true; lia). Qed.

Lemma py_rune_read fuel q r t : q = 34 \/ q = 39 -> valid_rune r = true ->
  py_body (S fuel) q (py_rune q r +:+ t)
    = ('(v, rest) ← py_body fuel q t; Some (encode_rune r +:+ v, rest)).
Proof.
  intros Hq Hr. assert (q <> 92) as H92 by (destruct Hq; lia). unfold py_rune.
  pose proof Hr as Hv. unfold valid_rune in Hv. apply andb_true_iff in Hv as [Hv1 Hv2].
  apply in_range_true in Hv1. apply negb_true_iff, in_range_false in Hv2.
  destruct (Z.eqb_spec r q) as [->|Hnq]; cbn [orb].
  { rewrite append_assoc. apply py_body_escape; [done|]. by destruct Hq as [->| ->]. }
  destruct (Z.eqb_spec r 92) as [->|H92r]; [by rewrite append_assoc; apply py_body_escape|].
  destruct (Z.eqb_spec r 10) as [->|H10]; [by rewrite append_assoc; apply py_body_escape|].
  destruct (Z.eqb_spec r 13) as [->|H13]; [by rewrite append_assoc; apply py_body_escape|].
  destruct (Z.eqb_spec r 9) as [->|H9]; [by rewrite append_assoc; apply py_body_escape|].
  destruct ((r <? 32) || (r =? 127)) eqn:Hlow.
  { rewrite !append_assoc. apply py_body_escape; [done|]. cbn -[parse_hex2 py_code hex2].
    apply py_escape_code; [done|]. apply parse_hex2_hex2. lia. }
  destruct ((127 <? r) && negb (IsPrint r)).
  { destruct (Z.ltb_spec 65535 r); rewrite !append_assoc; (apply py_body_escape; [done|]).
    - cbn -[parse_hex8 py_code hex8]. apply py_escape_code; [done|]. apply parse_hex8_hex8. lia.
    - cbn -[parse_hex4 py_code hex4]. apply py_escape_code; [done|]. apply parse_hex4_hex4. lia. }
  destruct (decode_encode r t Hr) as (c & u & He & Hd).
  destruct (Z.ltb_spec r 128) as [Hl|Hl].
  - assert (String c u = chr r) as [= -> ->] by (rewrite <- He; apply ascii_rune; lia).
    apply py_body_char with (of_byte r) EmptyString; rewrite ?byte_of_byte by lia; done || lia.
  - pose proof (encode_rune_high r t c u Hr Hl He Hd).
    apply py_body_char with c u; done || (destruct Hq; lia) || lia.
Qed.

Lemma py_rune_length q r : (1 <= String.length (py_rune q r))%nat.
Proof.
  unfold py_rune, bs, chr. destruct (encode_rune_cons r) as (c & u & ->).
  repeat case_match; simpl; lia.
Qed.

Lemma py_body_text q rs rest : q = 34 \/ q = 39 -> Forall (fun r => valid_rune r = true) rs ->
  forall fuel, (length rs < fuel)%nat ->
  py_body fuel q (concat_text (py_rune q <$> rs) +:+ chr q +:+ rest) = Some (text_of rs, rest).
Proof.
  intros Hq. induction 1 as [|r rs Hr _ IH]; intros [|fuel] Hf; simpl in Hf; try lia.
  - cbn [fmap list_fmap concat_text String.append chr]. cbn [py_body].
    destruct Hq as [->| ->]; done.
  - cbn [fmap list_fmap concat_text]. rewrite append_assoc, py_rune_read, IH by (done || lia). done.
Qed.
End Python.

(** A string literal of generated Python denotes the string it was
    written for, whatever quotes, control characters, line ends or characters
    outside ASCII it has: Python reads exactly that string and continues behind
    the literal, so no text of a contract can end it early. *)
Theorem pyStringRepr_reads_back `{Unicode} s rest : well_formed s ->
  py_literal (pyStringRepr s +:+ rest) = Some (s, rest).
Proof.
  intros (rs & Hrs & ->). unfold pyStringRepr. set (q := py_quote (text_of rs)).
  assert (q = 34 \/ q = 39) as Hq by (subst q; unfold py_quote; case_match; auto).
  rewrite runes_text, <- list_fmap_compose by done.
  change (((fun rb : Z * string => py_rune q rb.1) ∘ (fun r : Z => (r, encode_rune r))) <$> rs)
    with (py_rune q <$> rs).
  rewrite !append_assoc. change (chr q +:+ ?t) with (String (of_byte q) t). cbn [py_literal].
  assert (byte (of_byte q) = q) as -> by (apply byte_of_byte; lia).
  replace ((q =? 34) || (q =? 39)) with true by (destruct Hq as [->| ->]; done).
  apply py_body_text; [done..|]. rewrite !length_append.
  assert (length rs <= String.length (concat_text (py_rune q <$> rs)))%nat; [|lia].
  clearbody q. clear. induction rs as [|r rs IH]; [done|].
  cbn [length fmap list_fmap concat_text]. rewrite length_append.
  pose proof (py_rune_length q r). lia.
Qed.

(** ** JSON strings *)

Lemma parse_string_escape fuel s e t : parse_escape s = Some (e, t) ->
  parse_string (S fuel) (bs +:+ s) = ('(u, rest) ← parse_string fuel t; Some (e +:+ u, rest)).
Proof.
  intros He. change (bs +:+ s) with (String (of_byte 92) s). cbn [parse_string].
  change (byte (of_byte 92)) with 92. cbn [Z.eqb Z.ltb Z.compare Pos.compare Pos.compare_cont Pos.eqb].
  by rewrite He.
Qed.

Lemma parse_escape_hex r t : valid_rune r = true -> r <= 65535 ->
  parse_escape ("u" +:+ hex4 r +:+ t) = Some (encode_rune r, t).
Proof.
  intros Hr Hle. pose proof Hr as Hv. unfold valid_rune in Hv. apply andb_true_iff in Hv as [Hv1 Hv2].
  apply in_range_true in Hv1. apply negb_true_iff in Hv2.
  change ("u" +:+ hex4 r +:+ t) with (String "u" (hex4 r +:+ t)). unfold parse_escape.
  change (byte "u") with 117. cbn -[parse_hex4 hex4 in_range].
  rewrite parse_hex4_hex4 by lia. cbn -[in_range]. by rewrite Hv2.
Qed.

Lemma parse_escape_pair r t : 65535 < r -> r <= 1114111 ->
  let '(hi, lo) := utf16_encode r in
  parse_escape ("u" +:+ hex4 hi +:+ bs +:+ "u" +:+ hex4 lo +:+ t) = Some (encode_rune r, t).
Proof.
  intros H1 H2. unfold utf16_encode.
  assert (Z.land (Z.shiftr (r - 65536) 10) 1023 = (r - 65536) / 1024 mod 1024) as ->.
  { rewrite shift_div by lia. apply (land_ones _ 10). lia. }
  assert (Z.land (r - 65536) 1023 = (r - 65536) mod 1024) as -> by (apply (land_ones _ 10); lia).
  set (hi := 55296 + _). set (lo := 56320 + _).
  assert (55296 <= hi <= 56319) as Hhi by (subst hi; euclid).
  assert (56320 <= lo <= 57343) as Hlo by (subst lo; euclid).
  assert ((hi - 55296) * 1024 + (lo - 56320) + 65536 = r) as Hsum by (subst hi lo; euclid).
  clearbody hi lo. change ("u" +:+ hex4 hi +:+ ?x) with (String "u" (hex4 hi +:+ x)).
  unfold parse_escape. change (byte "u") with 117. cbn -[parse_hex4 hex4 in_range parse_low_surrogate].
  rewrite parse_hex4_hex4 by lia. cbn -[in_range hex4 parse_hex4 parse_low_surrogate].
  replace (in_range 55296 57343 hi) with true by (symmetry; apply in_range_true; lia).
  unfold parse_low_surrogate. cbn -[in_range hex4 parse_hex4 utf16_decode].
  rewrite parse_hex4_hex4 by lia. unfold utf16_decode.
  replace (in_range 55296 56319 hi) with true by (symmetry; apply in_range_true; lia).
  replace (in_range 56320 57343 lo) with true by (symmetry; apply in_range_true; lia).
  cbn [andb]. rewrite Hsum. unfold RuneError. destruct (Z.eqb_spec r 65533); [lia|done].
Qed.

Lemma json_rune_read fuel r t : valid_rune r = true ->
  parse_string (S fuel) (json_rune r +:+ t)
    = ('(u, rest) ← parse_string fuel t; Some (encode_rune r +:+ u, rest)).
Proof.
  intros Hr. unfold json_rune. pose proof Hr as Hv. unfold valid_rune in Hv.
  apply andb_true_iff in Hv as [Hv1 Hv2].
  apply in_range_true in Hv1. apply negb_true_iff, in_range_false in Hv2.
  do 7 (match goal with |- context [if r =? ?z then _ else _] =>
    destruct (Z.eqb_spec r z) as [->|]; [by rewrite append_assoc; apply parse_string_escape|] end).
  destruct (Z.ltb_spec r 32).
  { rewrite !append_assoc. apply parse_string_escape, parse_escape_hex; [done|lia]. }
  destruct (Z.ltb_spec 126 r).
  { destruct (Z.ltb_spec 65535 r).
    - pose proof (parse_escape_pair r t) as Hp. destruct (utf16_encode r) as [hi lo].
      rewrite !append_assoc. apply parse_string_escape, Hp; lia.
    - rewrite !append_assoc. apply parse_string_escape, parse_escape_hex; [done|lia]. }
  rewrite ascii_rune by lia. unfold chr. cbn [String.append parse_string].
  rewrite byte_of_byte by lia. destruct (Z.eqb_spec r 34); [lia|]. destruct (Z.ltb_spec r 32); [lia|].
  destruct (Z.eqb_spec r 92); [lia|]. unfold decode_rune. rewrite byte_of_byte by lia.
  destruct (Z.ltb_spec r 128); [|lia]. cbn [drop_bytes]. by rewrite ascii_rune by lia.
Qed.

Lemma json_rune_length r : (1 <= String.length (json_rune r))%nat.
Proof.
  unfold json_rune, bs, chr. destruct (encode_rune_cons r) as (c & u & ->).
  destruct (utf16_encode r). repeat case_match; simpl; lia.
Qed.

Lemma jsonString_text s : well_formed s -> string_text s (jsonString s).
Proof.
  intros (rs & Hrs & ->) rest. unfold jsonString. rewrite runes_text, <- list_fmap_compose by done.
  change (((fun rb : Z * string => json_rune rb.1) ∘ (fun r : Z => (r, encode_rune r))) <$> rs)
    with (json_rune <$> rs).
  exists (concat_text (json_rune <$> rs) +:+ dqs +:+ rest). split; [by rewrite !append_assoc|].
  assert (length rs < String.length (concat_text (json_rune <$> rs) +:+ dqs +:+ rest))%nat as Hf.
  { rewrite !length_append. change (String.length dqs) with 1%nat.
    assert (length rs <= String.length (concat_text (json_rune <$> rs)))%nat; [|lia]. clear.
    induction rs as [|r rs IH]; [done|]. cbn [length fmap list_fmap concat_text].
    rewrite length_append. pose proof (json_rune_length r). lia. }
  revert Hf. generalize (String.length (concat_text (json_rune <$> rs) +:+ dqs +:+ rest)).
  induction Hrs as [|r rs Hr _ IH]; intros [|fuel] Hf; simpl in Hf; try lia; [done|].
  cbn [fmap list_fmap concat_text]. rewrite append_assoc, json_rune_read, IH by (done || lia). done.
Qed.

(** ** Numbers *)

Lemma span_digits_all d rest : all_digits d = true -> no_digit rest ->
  span_digits (d +:+ rest) = (d, rest).
Proof.
  intros Hd Hr. induction d as [|c d IH].
  - destruct rest as [|x rest]; [done|]. cbn. unfold no_digit in Hr. cbn in Hr. by rewrite Hr.
  - cbn [all_digits] in Hd. apply andb_true_iff in Hd as [Hc Hd]. cbn. rewrite Hc, IH by done. done.
Qed.

Definition int_text (i : string) : Prop :=
  i = "0"%string \/ exists c d, i = String c d /\ c <> "0"%char /\ all_digits i = true.
Definition frac_text (f : string) : Prop :=
  f = EmptyString \/ exists d, f = "." +:+ d /\ all_digits d = true /\ d <> EmptyString.
Definition exp_text (e : string) : Prop :=
  e = EmptyString \/ exists g d, e = "e" +:+ g +:+ d /\ (g = "+"%string \/ g = "-"%string) /\
    all_digits d = true /\ d <> EmptyString.

Lemma not_empty s : s <> EmptyString -> is_empty s = false.
Proof. by destruct s. Qed.

Lemma number_literal g i f e : g = EmptyString \/ g = "-"%string ->
  int_text i -> frac_text f -> exp_text e -> literal (g +:+ i +:+ f +:+ e).
Proof.
  intros Hg Hi Hf He. apply (parse_number_literal (g +:+ i +:+ f +:+ e) _ EmptyString).
  assert (parse_exp e = Some (e, EmptyString)) as Pe.
  { destruct He as [->|(s & d & -> & Hs & Hd & Hne)]; [done|].
    assert (span_digits d = (d, EmptyString)) as Hspan.
    { rewrite <- (append_nil_r d) at 1. by apply span_digits_all. }
    destruct Hs as [->| ->]; cbn; by rewrite Hspan, not_empty. }
  assert (no_digit e /\ starts (fun c => Ascii.eqb c ".") e = false) as [De Dp].
  { destruct He as [->|(s & d & -> & _)]; done. }
  assert (parse_frac (f +:+ e) = Some (f, e)) as Pf.
  { destruct Hf as [->|(d & -> & Hd & Hne)].
    - cbn. destruct e as [|x e]; [done|]. cbn in *. by rewrite Dp.
    - cbn. by rewrite span_digits_all, not_empty by done. }
  assert (no_digit (f +:+ e)) as Df by (destruct Hf as [->|(d & -> & _)]; done).
  assert (parse_int_part (i +:+ f +:+ e) = Some (i, f +:+ e)) as Pi.
  { destruct Hi as [->|(c & d & -> & Hc & Hd)]; [done|]. unfold parse_int_part.
    rewrite append_cons. destruct (Ascii.eqb_spec c "0"); [done|]. pose proof Hd as Hd'.
    cbn [all_digits] in Hd. apply andb_true_iff in Hd as [-> _].
    rewrite <- append_cons. by rewrite span_digits_all. }
  unfold parse_number.
  assert (match g +:+ i +:+ f +:+ e with
    | String c s' => if Ascii.eqb c "-" then ("-"%string, s') else (EmptyString, g +:+ i +:+ f +:+ e)
    | EmptyString => (EmptyString, g +:+ i +:+ f +:+ e) end = (g, i +:+ f +:+ e)) as ->.
  { destruct Hg as [->| ->]; [|done]. cbn [String.append].
    destruct Hi as [->|(c & d & -> & _ & Hd)]; [done|]. cbn.
    destruct (Ascii.eqb_spec c "-") as [->|]; done. }
  rewrite Pi. cbn. rewrite Pf. cbn. by rewrite Pe.
Qed.

(** What [FormatFloat(f, 'e', -1, 64)] writes: a digit that is not zero, a
    fraction, a signed exponent. *)
Definition float_text (t : string) : Prop := exists g d ds s xs,
  t = (g +:+ String d (if is_empty ds then EmptyString else "." +:+ ds)) +:+ String "e" (s +:+ xs) /\
  (g = EmptyString \/ g = "-"%string) /\ is_digit d = true /\ d <> "0"%char /\
  all_digits ds = true /\ (s = "+"%string \/ s = "-"%string) /\
  all_digits xs = true /\ xs <> EmptyString.

(** What the code relies on in strconv. *)
Class FloatLaws `{FloatKinds} : Prop := {
  format_e f : kind_of_float f = Finite -> float_text (formatFloat "e" f);
  parse_finite n f : parseFloat n = Some f ->
    match kind_of_float f with Infinite _ | NotANumber => False | _ => True end }.

Lemma Cut_first c a b : ContainsByte a c = false -> Cut c (a +:+ String c b) = (a, b, true).
Proof.
  induction a as [|x a IH]; cbn [String.append Cut ContainsByte].
  - by rewrite Ascii.eqb_refl.
  - intros [Hx Ha]%orb_false_iff. rewrite Ascii.eqb_sym, Hx. by rewrite IH.
Qed.

Lemma all_digits_byte c s : is_digit c = false -> all_digits s = true -> ContainsByte s c = false.
Proof.
  intros Hc. induction s as [|x s IH]; [done|]. cbn [all_digits ContainsByte].
  intros [Hx Hs]%andb_true_iff. rewrite IH by done. destruct (Ascii.eqb_spec c x); [congruence|done].
Qed.

Section Floats.
Context `{FloatLaws}.

Lemma fixed_notation_parts d ds exp : is_digit d = true -> d <> "0"%char -> all_digits ds = true ->
  exists i f, fixed_notation (String d ds) exp = i +:+ f /\ int_text i /\ frac_text f.
Proof.
  intros Hd Hnz Hds. unfold fixed_notation. set (digits := String d ds).
  assert (all_digits digits = true) as Hall by (cbn [digits all_digits]; by rewrite Hd).
  destruct (Z.ltb_spec exp 0).
  { exists "0"%string, ("." +:+ (Repeat "0" (Z.to_nat (- exp - 1)) +:+ digits)). split; [done|].
    split; [by left|right]. eexists. split; [done|].
    rewrite all_digits_app, all_digits_repeat, Hall. split; [done|].
    by destruct (Z.to_nat (- exp - 1)). }
  destruct (Z.leb_spec (Z.of_nat (String.length digits)) (exp + 1)).
  { exists (digits +:+ Repeat "0" (Z.to_nat (exp + 1 - Z.of_nat (String.length digits)))), ".0"%string.
    split; [by rewrite append_assoc|]. split.
    - right. eexists d, _. split; [done|]. split; [done|]. by rewrite all_digits_app, all_digits_repeat, Hall.
    - right. by exists "0"%string. }
  exists (take_bytes (Z.to_nat (exp + 1)) digits), ("." +:+ drop_bytes (Z.to_nat (exp + 1)) digits).
  split; [done|]. split.
  - right. replace (Z.to_nat (exp + 1)) with (S (Z.to_nat exp)) by lia.
    eexists d, _. split; [done|]. split; [done|]. by apply all_digits_take.
  - right. eexists. split; [done|]. split; [by apply all_digits_drop|].
    intros Hnil. apply (f_equal String.length) in Hnil. rewrite length_drop_bytes in Hnil.
    change (String.length EmptyString) with 0%nat in Hnil. lia.
Qed.

Lemma exp_notation_parts d ds exp : is_digit d = true -> d <> "0"%char -> all_digits ds = true ->
  exists i f e, exp_notation (String d ds) exp = i +:+ f +:+ e /\ int_text i /\ frac_text f /\ exp_text e.
Proof.
  intros Hd Hnz Hds. unfold exp_notation.
  exists (take_bytes 1 (String d ds)),
    (if 1 <? slen (String d ds) then "." +:+ drop_bytes 1 (String d ds) else EmptyString),
    ("e" +:+ (if exp <? 0 then "-" else "+") +:+ pad2 (Z.abs exp)).
  split; [by rewrite append_assoc|]. split_and!.
  - right. exists d, EmptyString. split_and!; [done|done|]. cbn. by rewrite Hd.
  - destruct (Z.ltb_spec 1 (slen (String d ds))) as [Hl|]; [right|by left].
    exists ds. split_and!; [done|done|]. intros ->. unfold slen in Hl. cbn in Hl. lia.
  - right. eexists _, _. split; [done|]. split; [case_match; auto|].
    destruct (all_digits_itoa (Z.abs exp)) as [Ha Hne]; [lia|]. unfold pad2.
    case_match; [|done]. split; [by cbn; rewrite Ha|done].
Qed.

Lemma pyFloatRepr_literal f :
  match kind_of_float f with Infinite _ | NotANumber => False | _ => True end ->
  literal (pyFloatRepr f).
Proof.
  unfold pyFloatRepr. destruct (kind_of_float f) as [?| |[]|] eqn:Hk; try done; intros _.
  - by apply (parse_number_literal "-0.0" _ EmptyString).
  - by apply (parse_number_literal "0.0" _ EmptyString).
  - destruct (format_e f Hk) as (g & d & ds & s & xs & -> & Hg & Hd & Hnz & Hds & Hs & Hxs & Hne).
    assert (ContainsByte ds "e" = false /\ ContainsByte ds "." = false) as [He Hp]
      by (split; by apply all_digits_byte).
    rewrite Cut_first.
    2: { rewrite ContainsByte_app. assert (ContainsByte g "e" = false) as -> by by destruct Hg as [->| ->].
         cbn [orb ContainsByte]. destruct (Ascii.eqb_spec "e" d) as [<-|]; [done|].
         cbn [orb]. destruct (is_empty ds); [done|]. by rewrite ContainsByte_app, He. }
    set (exp := default 0 (parse_int64 (s +:+ xs))).
    set (m := String d (if is_empty ds then EmptyString else "." +:+ ds)).
    assert (remove_first "." m = String d ds) as Hm.
    { subst m. unfold remove_first. destruct ds as [|x ds].
      - cbn. destruct (Ascii.eqb_spec d ".") as [->|]; done.
      - change (String d (if is_empty (String x ds) then EmptyString else "." +:+ String x ds))
          with (String d EmptyString +:+ String "." (String x ds)). rewrite Cut_first; [done|]. cbn [ContainsByte].
        destruct (Ascii.eqb_spec "." d) as [<-|]; done. }
    assert (HasPrefix m "-" = false) as Hpre.
    { subst m. unfold HasPrefix. cbn [String.prefix]. destruct (Ascii.ascii_dec "-" d) as [<-|]; done. }
    assert ((if HasPrefix (g +:+ m) "-" then "-" else EmptyString) = g /\
            TrimPrefix (g +:+ m) "-" = m) as [-> ->].
    { destruct Hg as [->| ->]; cbn [String.append].
      - unfold TrimPrefix. by rewrite Hpre.
      - split; [done|]. apply (TrimPrefix_app "-"). }
    rewrite Hm. case_match.
    + destruct (fixed_notation_parts d ds exp Hd Hnz Hds) as (i & fr & -> & Hi & Hf).
      rewrite <- (append_nil_r (i +:+ fr)), append_assoc. apply number_literal; [done..|by left].
    + destruct (exp_notation_parts d ds exp Hd Hnz Hds) as (i & fr & e & -> & Hi & Hf & He').
      by apply number_literal.
Qed.

Lemma pyNumber_literal n : literal n -> literal (pyNumber n).
Proof.
  intros Hn. unfold pyNumber. case_match; [done|]. destruct (parseFloat n) eqn:E; [|done].
  by apply pyFloatRepr_literal, (parse_finite n).
Qed.
(** ** JSON values *)

(** The value with its floating-point numbers in Python's notation. *)
Fixpoint py_numbers (v : json) : json :=
  match v with
  | JNumber n => JNumber (pyNumber n)
  | JArray l => JArray (py_numbers <$> l)
  | JObject kvs => JObject ((fun kv => (kv.1, py_numbers kv.2)) <$> kvs)
  | _ => v
  end.

Lemma py_numbers_keys (kvs : Object) : ((fun kv => (kv.1, py_numbers kv.2)) <$> kvs).*1 = kvs.*1.
Proof. rewrite <- list_fmap_compose. by apply list_fmap_ext. Qed.
Lemma py_numbers_values (kvs : Object) :
  ((fun kv => (kv.1, py_numbers kv.2)) <$> kvs).*2 = (fun kv => py_numbers kv.2) <$> kvs.
Proof. rewrite <- list_fmap_compose. by apply list_fmap_ext. Qed.

Lemma py_numbers_printable v d : printable d v -> printable d (py_numbers v).
Proof.
  revert d. induction v as [|b|n|s|l IH|kvs IH] using json_nested_ind;
    intros d Hp; inversion Hp; subst; cbn [py_numbers]; try by constructor.
  - constructor. by apply pyNumber_literal.
  - constructor. apply Forall_fmap. rename select (Forall _ l) into Hl.
    rewrite Forall_forall in *. intros x Hx. by apply IH, Hl.
  - constructor; rewrite ?py_numbers_keys, ?py_numbers_values; [done..|]. apply Forall_fmap.
    rename select (Forall (shaped _ _) _) into Hl. rewrite Forall_fmap in Hl.
    rewrite Forall_forall in *. intros x Hx. by apply IH, Hl.
Qed.

(** Both printers write a value whose items are given texts. *)
Lemma write_items d l (show : json -> string) w sep w' :
  l <> [] -> spaces w -> spaces sep -> spaces w' ->
  Forall (fun v => writes d (py_numbers v) (show v)) l ->
  writes (S d) (py_numbers (JArray l)) ("[" +:+ w +:+ Join ("," +:+ sep) (show <$> l) +:+ w' +:+ "]").
Proof.
  intros Hl Hw Hsep Hw' Hall. cbn [py_numbers]. apply WriteArray; [by destruct l|done..|].
  apply Forall2_fmap, Forall_Forall2_diag. done.
Qed.

Lemma write_members d (kvs : Object) (show : json -> string) w sep colon w' :
  kvs <> [] -> spaces w -> spaces sep -> spaces colon -> spaces w' -> Forall well_formed kvs.*1 ->
  Forall (fun kv => writes d (py_numbers kv.2) (show kv.2)) kvs ->
  writes (S d) (py_numbers (JObject kvs))
    ("{" +:+ w +:+ Join ("," +:+ sep) ((fun kv => jsonString kv.1 +:+ ":" +:+ colon +:+ show kv.2) <$> kvs)
     +:+ w' +:+ "}").
Proof.
  intros Hl Hw Hsep Hcolon Hw' Hk Hall. cbn [py_numbers].
  assert ((fun kv : string * json => jsonString kv.1 +:+ ":" +:+ colon +:+ show kv.2) <$> kvs
    = zip_with (member_text colon) (jsonString <$> kvs.*1) ((fun kv => show kv.2) <$> kvs)) as ->.
  { clear. induction kvs as [|[k v] kvs IH]; [done|]. cbn [fmap list_fmap zip_with fst snd].
    f_equal. exact IH. }
  apply WriteObject; [by destruct kvs|done..| |].
  - rewrite py_numbers_keys. apply Forall2_fmap_r, Forall_Forall2_diag.
    eapply Forall_impl; [done|]. intros. by apply jsonString_text.
  - rewrite py_numbers_values. apply Forall2_fmap, Forall_Forall2_diag. done.
Qed.

Lemma jsonDumpInto_writes v d : printable d v -> writes d (py_numbers v) (jsonDumpInto v).
Proof.
  revert d. induction v as [|b|n|s|l IH|kvs IH] using json_nested_ind;
    intros d Hp; inversion Hp; subst; cbn [jsonDumpInto py_numbers]; try (by destruct b; constructor);
    try by constructor.
  - constructor. by apply pyNumber_literal.
  - constructor. by apply jsonString_text.
  - destruct l as [|v l]; [constructor|].
    apply (write_items d0 (v :: l) jsonDumpInto EmptyString " " EmptyString); try done.
    rename select (Forall (shaped _ _) _) into Hl. rewrite Forall_forall in *. intros x Hx. by apply IH, Hl.
  - destruct kvs as [|kv kvs]; [constructor|].
    apply (write_members d0 (kv :: kvs) jsonDumpInto EmptyString " " " " EmptyString); try done.
    rename select (Forall (shaped _ _) _) into Hl. rewrite Forall_fmap in Hl.
    rewrite Forall_forall in *. intros x Hx. by apply IH, Hl.
Qed.

Lemma Join_prefix {A} sep pre (f : A -> string) l : l <> [] ->
  Join sep ((fun x => pre +:+ f x) <$> l) = pre +:+ Join (sep +:+ pre) (f <$> l).
Proof.
  induction l as [|x [|y l] IH]; [done..|]. intros _. cbn [fmap list_fmap] in *.
  rewrite !Join_cons, IH by done. by rewrite !append_assoc.
Qed.

Lemma spaces_pad indent d : spaces (pad indent d).
Proof. intros s. unfold pad. generalize (indent * d)%nat. intros n. induction n; [done|]. by cbn. Qed.
Lemma spaces_nl_pad indent d : spaces (nl +:+ pad indent d).
Proof. intros s. rewrite append_assoc. apply spaces_pad. Qed.

Lemma jsonDumpIndented_writes v indent : forall depth d, printable d v ->
  writes d (py_numbers v) (jsonDumpIndented indent depth v).
Proof.
  induction v as [|b|n|s|l IH|kvs IH] using json_nested_ind; intros depth d Hp;
    try by apply jsonDumpInto_writes.
  - inversion Hp as [| | | |d' ? Hl|]; subst. destruct l as [|v l]; [constructor|].
    set (show := jsonDumpIndented indent (S depth)).
    assert (jsonDumpIndented indent depth (JArray (v :: l)) = "[" +:+ (nl +:+ pad indent (S depth)) +:+
      Join ("," +:+ (nl +:+ pad indent (S depth))) (show <$> v :: l) +:+ (nl +:+ pad indent depth) +:+ "]") as ->.
    { pose proof (Join_prefix ("," +:+ nl) (pad indent (S depth)) show (v :: l)) as Hj.
      trans ("[" +:+ nl +:+ Join ("," +:+ nl) ((fun v => pad indent (S depth) +:+ show v) <$> v :: l)
        +:+ nl +:+ pad indent depth +:+ "]"); [reflexivity|].
      rewrite Hj by done. by rewrite !append_assoc. }
    apply write_items; [done|apply spaces_nl_pad..|].
    rewrite Forall_forall in *. intros x Hx. by apply IH, Hl.
  - inversion Hp as [| | | | |d' ? Hk Hw Hl]; subst. destruct kvs as [|kv kvs]; [constructor|].
    set (show := jsonDumpIndented indent (S depth)).
    assert (jsonDumpIndented indent depth (JObject (kv :: kvs)) = "{" +:+ (nl +:+ pad indent (S depth)) +:+
      Join ("," +:+ (nl +:+ pad indent (S depth)))
        ((fun kv => jsonString kv.1 +:+ ":" +:+ " " +:+ show kv.2) <$> kv :: kvs)
      +:+ (nl +:+ pad indent depth) +:+ "}") as ->.
    { pose proof (Join_prefix ("," +:+ nl) (pad indent (S depth))
        (fun kv => jsonString kv.1 +:+ ":" +:+ " " +:+ show kv.2) (kv :: kvs)) as Hj.
      trans ("{" +:+ nl +:+ Join ("," +:+ nl)
          ((fun kv => pad indent (S depth) +:+ jsonString kv.1 +:+ ":" +:+ " " +:+ show kv.2) <$> kv :: kvs)
        +:+ nl +:+ pad indent depth +:+ "}"); [reflexivity|].
      rewrite Hj by done. by rewrite !append_assoc. }
    apply write_members; [done|apply spaces_nl_pad|apply spaces_nl_pad|done|apply spaces_nl_pad|done|].
    rewrite Forall_fmap in Hl. rewrite Forall_forall in *. intros x Hx. by apply IH, Hl.
Qed.

(** The JSON that the generators write, on one line or indented, decodes
    to the value it was written for: the same members in the same order and the
    same strings, every number with the same literal if it is an integer, else in
    the notation of Python's float. *)
Theorem jsonDumps_decodes v d indent : printable d v ->
  DecodeOrdered (jsonDumps v) = Some (py_numbers v) /\
  DecodeOrdered (jsonDumpsIndent v indent) = Some (py_numbers v).
Proof.
  intros Hp. pose proof (py_numbers_printable v d Hp) as Hp'.
  split; eapply DecodeOrdered_writes; [done|by apply jsonDumpInto_writes|done|].
  by apply jsonDumpIndented_writes.
Qed.
End Floats.

(** ** Concrete tables *)

(** Only ASCII is printable, and 1.5e+20 is the one number with a fraction. *)
Definition ascii_tables : Unicode :=
  {| IsPrint := in_range 32 126; IsUpper := in_range 65 90;
     ToUpper := fun r => if in_range 97 122 r then r - 32 else r;
     ToLower := fun r => if in_range 65 90 r then r + 32 else r |}.
Definition one_float : Floats :=
  {| float := unit; parseFloat := fun _ => Some tt; float_eqb := fun _ _ => true;
     needs_exponent := fun _ => true; formatFloat := fun _ _ => "1.5e+20" |}.
Definition one_kind : @FloatKinds one_float := fun _ => Finite.

Lemma one_float_laws : @FloatLaws one_float one_kind.
Proof.
  split; [|done]. intros f _. exists EmptyString, "1"%char, "5"%string, "+"%string, "20"%string.
  split_and!; auto; discriminate.
Qed.

(** A string with both quotes, a backslash, a line end, NUL and a letter with an accent. *)
Definition odd_string : string := text_of [39; 34; 92; 10; 0; 233; 128512; 97].

Lemma odd_string_well_formed : well_formed odd_string.
Proof. eexists. split; [|reflexivity]. by repeat constructor. Qed.

Lemma pyStringRepr_reads_back_witness :
  @pyStringRepr ascii_tables odd_string = "'\'" +:+ dqs +:+ "\\\n\x00\u00e9\U0001f600a'" /\
  py_literal (@pyStringRepr ascii_tables odd_string +:+ ": str") = Some (odd_string, ": str"%string).
Proof.
  split; [vm_compute; reflexivity|].
  apply (@pyStringRepr_reads_back ascii_tables odd_string ": str" odd_string_well_formed).
Defined.

Definition sample_value : json :=
  JObject [("k"%string, JArray [JNumber "15e19"; JNumber "-7"; JNull; JString odd_string]);
           (odd_string, JObject [])].

Lemma sample_value_printable : printable 3 sample_value.
Proof.
  assert (forall n, parse_number n = Some (n, EmptyString) -> literal n) as Hn
    by (intros n; apply parse_number_literal).
  assert (well_formed "k") as Hk by (exists [107]; by repeat constructor).
  pose proof odd_string_well_formed. unfold sample_value. repeat constructor; try done; try by apply Hn.
  - intros [=]%list_elem_of_singleton.
  - apply not_elem_of_nil.
Qed.

Lemma jsonDumps_decodes_witness :
  DecodeOrdered (@jsonDumps one_float one_kind sample_value)
    = Some (@py_numbers one_float one_kind sample_value) /\
  DecodeOrdered (@jsonDumpsIndent one_float one_kind sample_value 2)
    = Some (@py_numbers one_float one_kind sample_value).
Proof. apply (@jsonDumps_decodes one_float one_kind one_float_laws _ 3 2 sample_value_printable). Defined.
