(* ===== verification/TypeNames.v ===== *)
(** * Names of generated types: internal/codegen/registry.go

    Generating code can panic: with a message of its own ([genError]) or because
    a nil pointer is followed.  The generators are functions into [gen]. *)
From S2P Require Import Prelude GoStd Json Libs Contract GoText.
#[local] Open Scope Z_scope.

(** ** Panics *)

Inductive panic := GenError (message : string) | NilPointer.
Definition gen (A : Type) : Type := (panic + A)%type.
#[global] Instance gen_ret : MRet gen := fun A x => inr x.
#[global] Instance gen_bind : MBind gen := fun A B f m =>
  match m with inl p => inl p | inr x => f x end.
Definition throw {A} (p : panic) : gen A := inl p.
(** What a nil pointer may not be. *)
Definition deref {A} (x : option A) : gen A :=
  match x with Some x => mret x | None => throw NilPointer end.

(** A loop that threads a state. *)
Fixpoint foldM {A S} (f : S -> A -> gen S) (l : list A) (s : S) : gen S :=
  match l with
  | [] => mret s
  | x :: l => s ← f s x; foldM f l s
  end.

(** ** The registry *)

Definition refKey : Type := string * string.
Definition key_of (ref : TypeRef) : refKey := (tr_Module ref, tr_Qualname ref).

(** A schema is nil where the member of [$defs] is no object. *)
Record namedSchema := MkNamedSchema { ns_name : string; ns_schema : option Object }.

Record typeRegistry := MkTypeRegistry {
  rg_refs : list TypeRef;
  rg_names : gmap refKey string;
  rg_defNames : gmap refKey (gmap string string);
  rg_definitions : list namedSchema }.

Definition lastSegment (qualname : string) : string := after_last "." qualname.

Definition requiredRef (ref : option TypeRef) (what : string) : gen TypeRef :=
  match ref with
  | Some ref => mret ref
  | None => throw (GenError ("RPC method is missing a required payload type: " +:+ what))
  end.

Definition hasStream (service : Service) (kind : string) : bool :=
  existsb (fun m => String.eqb (mt_Stream m) kind) (sv_Methods service).

(** The types of a service in first-use order. *)
Definition method_refs (m : Method) : list TypeRef :=
  omap id [Some (mt_Request m); mt_Response m; mt_InputItem m; mt_OutputItem m].
Definition add_ref (refs : list TypeRef) (ref : TypeRef) : list TypeRef :=
  if existsb (fun r => bool_decide (key_of r = key_of ref)) refs then refs else refs ++ [ref].
Definition service_refs (service : Service) : list TypeRef :=
  fold_left add_ref (mjoin (method_refs <$> sv_Methods service)) [].

(** Root names: numbered when the identifier was used before. *)
Definition base_name (identifier : string -> string -> string) (ref : TypeRef) : string :=
  identifier (lastSegment (tr_Qualname ref)) "Payload".
Definition numbered (base : string) (count : Z) : string :=
  if 1 <? count then base +:+ itoa count else base.
Definition name_root (identifier : string -> string -> string)
    (s : gmap string Z * gmap refKey string) (ref : TypeRef) : gmap string Z * gmap refKey string :=
  let '(counts, names) := s in
  let base := base_name identifier ref in
  let count := default 0 (counts !! base) + 1 in
  (<[base := count]> counts, <[key_of ref := numbered base count]> names).
Definition root_names (identifier : string -> string -> string) (refs : list TypeRef) : gmap refKey string :=
  (fold_left (name_root identifier) refs (∅, ∅)).2.

Definition Name_of (names : gmap refKey string) (ref : TypeRef) : string :=
  default EmptyString (names !! key_of ref).

Section definitions.
Context `{Floats} (identifier : string -> string -> string) (names : gmap refKey string).

Record naming := MkNaming {
  nm_taken : gset string;
  nm_byKey : gmap string (list namedSchema);
  nm_definitions : list namedSchema }.
#[global] Instance naming_eta : Eta naming := fun s =>
  MkNaming (nm_taken s) (nm_byKey s) (nm_definitions s).

(** The first of the candidates that is equal; [""] if none is. *)
Fixpoint find_equal (candidates : list namedSchema) (definition : option Object) : gen string :=
  match candidates with
  | [] => mret EmptyString
  | c :: candidates =>
      x ← deref (ns_schema c); y ← deref definition;
      if Equal (JObject x) (JObject y) then mret (ns_name c) else find_equal candidates definition
  end.

Definition name_definition (ref : TypeRef) (s : naming * gmap string string) (member : string * json)
    : gen (naming * gmap string string) :=
  let '(s, defs) := s in
  let '(key, value) := member in
  let definition := as_object (Some value) in
  existing ← find_equal (default [] (nm_byKey s !! key)) definition;
  if is_empty existing then
    let bare := identifier key "Value" in
    let name := if decide (bare ∈ nm_taken s) then Name_of names ref +:+ bare else bare in
    let d := MkNamedSchema name definition in
    mret (s {{ nm_taken ::= union {[ name ]};
               nm_byKey ::= insert key (default [] (nm_byKey s !! key) ++ [d]);
               nm_definitions ::= fun l => l ++ [d] }},
          <[key := name]> defs)
  else mret (s, <[key := existing]> defs).

Definition name_definitions (s : naming * gmap refKey (gmap string string)) (ref : TypeRef)
    : gen (naming * gmap refKey (gmap string string)) :=
  let '(s, all) := s in
  '(s, defs) ← foldM (name_definition ref) (default [] (Obj (tr_Schema ref) "$defs")) (s, ∅);
  mret (s, <[key_of ref := defs]> all).
End definitions.

Definition newTypeRegistry `{Floats} (service : Service) (identifier : string -> string -> string)
    : gen typeRegistry :=
  let refs := service_refs service in
  let names := root_names identifier refs in
  let taken := list_to_set (map_to_list names).*2 in
  '(s, defNames) ← foldM (name_definitions identifier names) refs (MkNaming taken ∅ [], ∅);
  mret (MkTypeRegistry refs names defNames (nm_definitions s)).

Definition Name (r : typeRegistry) (ref : TypeRef) : string := Name_of (rg_names r) ref.
Definition DefinitionNames (r : typeRegistry) (ref : TypeRef) : gmap string string :=
  default ∅ (rg_defNames r !! key_of ref).
Definition TypeNames (r : typeRegistry) : list string := Name r <$> rg_refs r.

(** ** Loops *)

Lemma foldM_ind {A S} (f : S -> A -> gen S) (I : list A -> S -> Prop) l s s' :
  I [] s -> (forall k x s1 s2, k ++ [x] `prefix_of` l -> I k s1 -> f s1 x = inr s2 -> I (k ++ [x]) s2) ->
  foldM f l s = inr s' -> I l s'.
Proof.
  intros H0 Hstep. assert (forall l2 l1 s1, l = l1 ++ l2 -> I l1 s1 -> foldM f l2 s1 = inr s' -> I l s') as H.
  { induction l2 as [|x l2 IH]; intros l1 s1 Hl HI.
    - intros [= <-]. by rewrite Hl, app_nil_r.
    - cbn. destruct (f s1 x) as [p|s2] eqn:Hf; [done|]. cbn. apply (IH (l1 ++ [x])).
      + by rewrite <- app_assoc.
      + eapply Hstep; [|done|done]. exists l2. by rewrite Hl, <- app_assoc. }
  by apply (H l []).
Qed.

Lemma bind_inr {A B} (m : gen A) (f : A -> gen B) b : (m ≫= f) = inr b ->
  exists a, m = inr a /\ f a = inr b.
Proof. destruct m as [p|a]; [done|]. by exists a. Qed.

Lemma ret_inr {A} (x y : A) : (mret x : gen A) = inr y -> x = y.
Proof. by intros [= ->]. Qed.

(** ** Root names *)

Section roots.
Context (identifier : string -> string -> string).

Definition occurrences (base : string) (refs : list TypeRef) : Z :=
  Z.of_nat (length (filter (fun r => base_name identifier r = base) refs)).

Lemma root_names_state refs : NoDup (key_of <$> refs) ->
  let s := fold_left (name_root identifier) refs (∅, ∅) in
  (forall b, default 0 (s.1 !! b) = occurrences b refs) /\
  (forall i r, refs !! i = Some r ->
     s.2 !! key_of r = Some (numbered (base_name identifier r) (occurrences (base_name identifier r) (take i refs) + 1))) /\
  (forall k, k ∉ key_of <$> refs -> s.2 !! k = None).
Proof.
  induction refs as [|ref refs IH] using rev_ind; [done|].
  rewrite fmap_app, NoDup_app. intros (Hnd & Hdis & _). cbn zeta in *. rewrite fold_left_app.
  destruct (IH Hnd) as (IH1 & IH2 & IH3). destruct (fold_left _ refs _) as [counts names].
  cbn [fst snd fold_left name_root] in *. split_and!.
  - intros b. unfold occurrences. rewrite filter_app, length_app.
    destruct (decide (base_name identifier ref = b)) as [<-|Hb].
    + rewrite lookup_insert_eq, filter_cons_True by done. cbn. rewrite IH1. unfold occurrences. lia.
    + rewrite lookup_insert_ne, filter_cons_False by done. cbn. rewrite IH1. unfold occurrences. lia.
  - intros i r Hi. apply lookup_app_Some in Hi as [Hi|[Hle Hi]].
    + rewrite lookup_insert_ne.
      2: { intros He. apply (Hdis (key_of r)); [|rewrite <- He; by left].
           apply list_elem_of_fmap. exists r. split; [done|]. by eapply list_elem_of_lookup_2. }
      rewrite (IH2 i r Hi). rewrite take_app_le; [done|]. apply lookup_lt_Some in Hi. lia.
    + apply list_lookup_singleton_Some in Hi as [Hi <-].
      rewrite lookup_insert_eq, take_app_length', IH1 by lia. done.
  - intros k Hk. rewrite not_elem_of_app in Hk. destruct Hk as [Hk1 Hk2].
    rewrite lookup_insert_ne by set_solver. by apply IH3.
Qed.

Lemma occurrences_lt refs i j r r' : refs !! i = Some r -> refs !! j = Some r' -> (i < j)%nat ->
  base_name identifier r = base_name identifier r' ->
  occurrences (base_name identifier r) (take i refs) < occurrences (base_name identifier r') (take j refs).
Proof.
  intros Hi Hj Hij Hb. unfold occurrences. rewrite <- Hb.
  rewrite <- (take_drop i (take j refs)), take_take, Nat.min_l, filter_app, length_app by lia.
  assert (r ∈ filter (fun x => base_name identifier x = base_name identifier r) (drop i (take j refs))) as Hin.
  { apply list_elem_of_filter. split; [done|]. apply list_elem_of_lookup. exists 0%nat.
    rewrite lookup_drop, Nat.add_0_r. by rewrite lookup_take_lt. }
  apply list_elem_of_split in Hin as (a & b & ->). rewrite length_app. cbn. lia.
Qed.
End roots.

Lemma add_ref_keys l refs : NoDup (key_of <$> refs) -> NoDup (key_of <$> fold_left add_ref l refs).
Proof.
  revert refs. induction l as [|ref l IH]; intros refs Hnd; [done|]. cbn. apply IH. unfold add_ref.
  destruct (existsb _ refs) eqn:E; [done|]. rewrite fmap_app, NoDup_app. split; [done|].
  split; [|apply NoDup_singleton]. intros k Hk ->%list_elem_of_singleton.
  apply list_elem_of_fmap in Hk as (r & Hr & Hin).
  assert (existsb (fun r => bool_decide (key_of r = key_of ref)) refs = true) as Ht; [|congruence].
  apply existsb_exists. exists r. split; [by apply list_elem_of_In|]. by apply bool_decide_eq_true.
Qed.

Lemma service_refs_keys service : NoDup (key_of <$> service_refs service).
Proof. apply add_ref_keys. constructor. Qed.

Lemma numbered_inj b b' n n' : ends_digit b = false -> ends_digit b' = false -> 1 <= n -> 1 <= n' ->
  numbered b n = numbered b' n' -> b = b' /\ n = n'.
Proof.
  intros Hb Hb' Hn Hn'. unfold numbered.
  destruct (all_digits_itoa n) as [Ha Hne]; [lia|]. destruct (all_digits_itoa n') as [Ha' Hne']; [lia|].
  destruct (Z.ltb_spec 1 n), (Z.ltb_spec 1 n'); intros He.
  - apply digits_suffix_inj in He as [-> He]; [|done..]. split; [done|]. by apply (inj pretty).
  - rewrite <- (append_nil_r b') in He. apply digits_suffix_inj in He as [_ He]; done.
  - rewrite <- (append_nil_r b) in He. symmetry in He. apply digits_suffix_inj in He as [_ He]; done.
  - split; [done|lia].
Qed.

Lemma root_names_distinct identifier refs : NoDup (key_of <$> refs) ->
  Forall (fun r => ends_digit (base_name identifier r) = false) refs ->
  NoDup (Name_of (root_names identifier refs) <$> refs).
Proof.
  intros Hnd Hbase. apply NoDup_fmap_2_strong; [|by apply (NoDup_fmap_1 key_of)].
  intros r r' Hr Hr' He. apply list_elem_of_lookup in Hr as [i Hi], Hr' as [j Hj].
  destruct (root_names_state identifier refs Hnd) as (_ & Hn & _).
  unfold Name_of, root_names in He. rewrite (Hn i r Hi), (Hn j r' Hj) in He. cbn in He.
  rewrite Forall_lookup in Hbase. apply numbered_inj in He as [Hb Ho]; eauto; try (unfold occurrences; lia).
  destruct (Nat.lt_trichotomy i j) as [Hlt|[->|Hlt]]; [|congruence|].
  - pose proof (occurrences_lt identifier refs i j r r' Hi Hj Hlt Hb). rewrite Hb in *. lia.
  - pose proof (occurrences_lt identifier refs j i r' r Hj Hi Hlt (eq_sym Hb)). rewrite Hb in *. lia.
Qed.

(** ** Definitions *)

Section definition_names.
Context `{Floats} (identifier : string -> string -> string) (refs : list TypeRef).
Let names := root_names identifier refs.
Let roots : gset string := list_to_set (map_to_list names).*2.

Definition same_schema (x y : option Object) : Prop :=
  x = y \/ exists a b, x = Some a /\ y = Some b /\ Equal (JObject a) (JObject b) = true.

(** The name was made from a root name and a key. *)
Definition prefixed (name : string) : Prop :=
  exists ref key, ref ∈ refs /\ name = Name_of names ref +:+ identifier key "Value".

Definition fresh_unless_prefixed (definitions : list namedSchema) : Prop :=
  forall j d, definitions !! j = Some d -> prefixed (ns_name d) \/
    ((ns_name d ∉ roots) /\ forall i e, definitions !! i = Some e -> (i < j)%nat -> ns_name e <> ns_name d).

Record naming_ok (s : naming) : Prop := {
  no_byKey : forall key d, d ∈ default [] (nm_byKey s !! key) -> d ∈ nm_definitions s;
  no_roots : roots ⊆ nm_taken s;
  no_taken : forall d, d ∈ nm_definitions s -> ns_name d ∈ nm_taken s;
  no_fresh : fresh_unless_prefixed (nm_definitions s) }.

(** The members of [$defs] named so far have a definition with their schema. *)
Definition members_named (definitions : list namedSchema) (members : list (string * json))
    (defs : gmap string string) : Prop :=
  forall key value, (key, value) ∈ members -> exists d, d ∈ definitions /\
    defs !! key = Some (ns_name d) /\ same_schema (ns_schema d) (as_object (Some value)).

Lemma find_equal_spec candidates definition n : find_equal candidates definition = inr n ->
  is_empty n = false ->
  exists c, c ∈ candidates /\ ns_name c = n /\ same_schema (ns_schema c) definition.
Proof.
  induction candidates as [|c candidates IH]; cbn -[Equal]; [by intros <-%ret_inr|].
  destruct (ns_schema c) as [x|] eqn:Hx; [|done]. destruct definition as [y|]; [|done]. cbn -[Equal].
  destruct (Equal (JObject x) (JObject y)) eqn:He.
  - intros <-%ret_inr _. exists c. split; [left|]. split; [done|]. right. eauto.
  - intros Hf Hn. destruct (IH Hf Hn) as (c' & ? & ? & ?). exists c'. split; [by right|done].
Qed.

Lemma named_grow definitions d members defs : members_named definitions members defs ->
  members_named (definitions ++ d) members defs.
Proof.
  intros Hn key value Hin. destruct (Hn key value Hin) as (e & He & ?). exists e.
  split; [|done]. apply elem_of_app. by left.
Qed.

Lemma named_insert definitions members defs key value d : (key ∉ members.*1) ->
  d ∈ definitions -> same_schema (ns_schema d) (as_object (Some value)) ->
  members_named definitions members defs ->
  members_named definitions (members ++ [(key, value)]) (<[key := ns_name d]> defs).
Proof.
  intros Hk Hd Hs Hn key' value' [Hin|[= -> ->]%list_elem_of_singleton]%elem_of_app.
  - destruct (Hn key' value' Hin) as (e & He & Hl & ?). exists e. split; [done|].
    rewrite lookup_insert_ne; [done|]. intros ->. apply Hk. apply list_elem_of_fmap. by exists (key', value').
  - exists d. by rewrite lookup_insert_eq.
Qed.

Lemma name_definition_ok ref s defs key value s' defs' members : ref ∈ refs ->
  naming_ok s -> (key ∉ members.*1) -> members_named (nm_definitions s) members defs ->
  name_definition identifier names ref (s, defs) (key, value) = inr (s', defs') ->
  naming_ok s' /\ members_named (nm_definitions s') (members ++ [(key, value)]) defs' /\
  (nm_definitions s) `prefix_of` (nm_definitions s').
Proof.
  intros Href [B R T F] Hk Hn. cbn. intros (n & Hf & Hs)%bind_inr. destruct (is_empty n) eqn:Hempty.
  - apply ret_inr in Hs as [= <- <-]. set (name := if decide _ then _ else _). set (d := MkNamedSchema name _).
    assert (prefixed name \/ (name ∉ nm_taken s)) as Hname.
    { subst name. case_decide; [left; by exists ref, key|by right]. }
    split; [|split; [|by exists [d]]].
    + split; cbn.
      * intros key' e. destruct (decide (key' = key)) as [->|].
        -- rewrite lookup_insert_eq. cbn. rewrite !elem_of_app. intros [He|He]; [left; by eapply B|by right].
        -- rewrite lookup_insert_ne by done. rewrite elem_of_app. left. by eapply B.
      * set_solver.
      * intros e [He| ->%list_elem_of_singleton]%elem_of_app; [|set_solver].
        apply elem_of_union_r. by apply T.
      * intros j e Hj. apply lookup_app_Some in Hj as [Hj|[Hle Hj]].
        { destruct (F j e Hj) as [Hp|[Hr Hd]]; [by left|right]. split; [done|]. intros i e' Hi Hij.
          apply (Hd i e'); [|done]. apply lookup_lt_Some in Hj. by rewrite lookup_app_l in Hi by lia. }
        apply list_lookup_singleton_Some in Hj as [Hj <-]. cbn.
        destruct Hname as [?|Hfresh]; [by left|right]. split; [set_solver|].
        intros i e' Hi Hij He. apply Hfresh. rewrite <- He. apply T.
        rewrite lookup_app_l in Hi by lia. by eapply list_elem_of_lookup_2.
    + cbn. apply (named_insert _ _ _ key value d); [done|apply elem_of_app; right; by left|by left|].
      by apply named_grow.
  - apply ret_inr in Hs as [= <- <-]. destruct (find_equal_spec _ _ _ Hf Hempty) as (c & Hc & <- & Hsame).
    split; [by split|]. split; [|done].
    apply (named_insert _ _ _ key value c); [done| |done|done]. by eapply B.
Qed.

Definition members_of (ref : TypeRef) : Object := default [] (Obj (tr_Schema ref) "$defs").

Lemma members_named_mono definitions definitions' members defs :
  definitions `prefix_of` definitions' -> members_named definitions members defs ->
  members_named definitions' members defs.
Proof. intros [d ->]. apply named_grow. Qed.

Lemma name_definitions_ok ref s all s' all' : ref ∈ refs -> NoDup (members_of ref).*1 ->
  naming_ok s -> name_definitions identifier names (s, all) ref = inr (s', all') ->
  naming_ok s' /\ (nm_definitions s) `prefix_of` (nm_definitions s') /\
  exists defs, all' = <[key_of ref := defs]> all /\
    members_named (nm_definitions s') (members_of ref) defs.
Proof.
  intros Href Hnd Hok. cbn. intros ([s1 defs] & Hf & Hs)%bind_inr. apply ret_inr in Hs as [= <- <-].
  cut (naming_ok s1 /\ members_named (nm_definitions s1) (members_of ref) defs /\
       (nm_definitions s) `prefix_of` (nm_definitions s1)); [naive_solver|].
  fold (members_of ref) in Hf.
  apply (foldM_ind (name_definition identifier names ref)
    (fun k '(s1, defs) => naming_ok s1 /\ members_named (nm_definitions s1) k defs /\
       (nm_definitions s) `prefix_of` (nm_definitions s1)) _ _ _) in Hf; [done| |].
  - split; [done|]. split; [|done]. by intros key value Hin%not_elem_of_nil.
  - intros k [key value] [s2 defs2] [s3 defs3] [tail Hpre] (Hok2 & Hn2 & Hp2) Hstep.
    eapply name_definition_ok in Hstep as (? & ? & ?); [|done|done| |done].
    + split; [done|]. split; [done|]. by etrans.
    + rewrite Hpre, !fmap_app in Hnd. apply NoDup_app in Hnd as [Hnd _].
      apply NoDup_app in Hnd as (_ & Hdis & _). intros Hin. apply (Hdis key Hin). by left.
Qed.

Lemma naming_start : naming_ok (MkNaming roots ∅ []).
Proof.
  split; cbn; [|done|by intros d Hd%not_elem_of_nil|by intros j d Hd].
  intros key d. rewrite lookup_empty. by intros Hd%not_elem_of_nil.
Qed.
End definition_names.

