(* ===== verification/PyClient.v ===== *)
(** * Python clients: internal/codegen/python.go *)
From S2P Require Import Prelude GoStd Json Libs Contract GoText Objects PyLiteral TypeNames.
#[local] Open Scope Z_scope.

Definition q3 : string := dqs +:+ dqs +:+ dqs.

(** A set of strings as the list of its elements. *)
Definition stringSet (items : list string) : list string := items.

(** ** Identifiers *)

Definition pyKeywords : list string := stringSet
  ["False"; "None"; "True"; "and"; "as"; "assert"; "async"; "await"; "break"; "class"; "continue";
   "def"; "del"; "elif"; "else"; "except"; "finally"; "for"; "from"; "global"; "if"; "import"; "in";
   "is"; "lambda"; "nonlocal"; "not"; "or"; "pass"; "raise"; "return"; "try"; "while"; "with"; "yield"].

Definition pyFieldName (value : string) : string :=
  let identifier := replace_runes word_rune "_" value in
  let identifier := if is_empty identifier || digit_first identifier
                    then "field_" +:+ identifier else identifier in
  if Contains pyKeywords identifier then identifier +:+ "_" else identifier.
Definition pyClassName (value fallback : string) : string :=
  let identifier := replace_runes word_rune "_" value in
  if is_empty identifier then fallback
  else if digit_first identifier then "Model_" +:+ identifier
  else identifier.

(** ** Types *)

Definition schema_of (v : json) : Object := default [] (as_object (Some v)).
Definition nonempty_array (v : option json) : option (list json) :=
  match as_array v with Some (x :: l) => Some (x :: l) | _ => None end.
(** The first of the keywords whose value is an array with elements. *)
Fixpoint first_variants (schema : Object) (keywords : list string) : option (list json) :=
  match keywords with
  | [] => None
  | k :: keywords =>
      match nonempty_array (Get schema k) with
      | Some l => Some l
      | None => first_variants schema keywords
      end
  end.

Definition joinTypes (variants : list json) (render : Object -> option string) (sep : string) : option string :=
  parts ← mapM (fun v => render (schema_of v)) variants; Some (Join sep parts).

Section Python.
Context `{Unicode} `{FloatKinds}.

(** One call of [pyType]; [rec] is the calls it makes. *)
Definition pyType_body (rec : Object -> option string) (defNames : gmap string string) (schema : Object)
    : option string :=
  let ref := Str schema "$ref" in
  if HasPrefix ref "#/$defs/" then
    let key := after_last "/" ref in
    Some (default (pyClassName key "Any") (defNames !! key))
  else match Get schema "const" with
  | Some const => Some ("Literal[" +:+ pyRepr const +:+ "]")
  | None =>
  match nonempty_array (Get schema "enum") with
  | Some enum => Some ("Literal[" +:+ Join ", " (pyRepr <$> enum) +:+ "]")
  | None =>
  match first_variants schema ["anyOf"; "oneOf"] with
  | Some variants => joinTypes variants rec " | "
  | None =>
  match Get schema "type" with
  | Some (JArray t) =>
      parts ← mapM (fun item => rec (With schema "type" item)) t; Some (Join " | " parts)
  | Some (JString t) =>
      if String.eqb t "integer" then Some "int"%string
      else if String.eqb t "number" then Some "float"%string
      else if String.eqb t "string" then Some "str"%string
      else if String.eqb t "boolean" then Some "bool"%string
      else if String.eqb t "null" then Some "None"%string
      else if String.eqb t "array" then
        item ← rec (default [] (Obj schema "items")); Some ("list[" +:+ item +:+ "]")
      else if String.eqb t "object" then
        value ← match Get schema "additionalProperties" with
                | Some (JObject additional) => rec additional
                | None | Some JNull => rec []
                | _ => Some "Any"%string
                end;
        Some ("dict[str, " +:+ value +:+ "]")
      else Some "Any"%string
  | _ => Some "Any"%string
  end end end end.
Definition pyType_fuel (fuel : nat) (defNames : gmap string string) (schema : Object) : option string :=
  iterate (fun rec => pyType_body rec defNames) fuel schema.
Definition pyType (schema : Object) (defNames : gmap string string) : string :=
  default EmptyString (pyType_fuel (S (schema_size schema)) defNames schema).

(** ** Models *)

Definition pyDefault (prop : Object) : string := pyRepr (default JNull (Get prop "default")).

Definition pyField (required : list string) (defNames : gmap string string) (properties : Object)
    (propName : string) : gen string :=
  prop ← deref (Obj properties propName);
  let fieldName := pyFieldName propName in
  let isRequired := Contains required propName in
  let fieldType := pyType prop defNames +:+
    (if negb isRequired && negb (Has prop "default") then " | None" else EmptyString) in
  let def :=
    if negb (String.eqb fieldName propName) then
      " = Field(" +:+ (if isRequired then "..." else pyDefault prop) +:+ ", alias="
        +:+ pyStringRepr propName +:+ ")"
    else if isRequired then EmptyString else " = " +:+ pyDefault prop in
  mret ("    " +:+ fieldName +:+ ": " +:+ fieldType +:+ def).

(** A nil schema is read as an empty one. *)
Definition renderPythonModel (name : string) (schema : option Object) (defNames : gmap string string)
    : gen (list string) :=
  let schema := default [] schema in
  if Has schema "enum" || Has schema "const" then mret [name +:+ " = " +:+ pyType schema defNames]
  else if negb (String.eqb (Str schema "type") "object") && negb (Has schema "properties") then
    throw (GenError ("Portable Python model " +:+ name +:+ " must use an object schema"))
  else
    let required := stringSet (Strings schema "required") in
    let head := "class " +:+ name +:+ "(BaseModel):" in
    match Obj schema "properties" with
    | None | Some [] => mret [head; "    pass"%string]
    | Some properties =>
        fields ← mapM (pyField required defNames properties) (Keys properties);
        mret (head :: fields)
    end.

Definition pyRenderedHead (line : string) : bool :=
  HasPrefix line "class " || HasPrefix line "type "
  || (has_sub " = " line && negb (HasPrefix line " ")).
Definition pyRenderedHeads (lines : list string) : list string := List.filter pyRenderedHead lines.

(** Two empty lines between blocks. *)
Definition add_block (lines block : list string) : list string :=
  match lines with
  | [] => block
  | _ => lines ++ [EmptyString; EmptyString] ++ block
  end.

Definition renderPythonDefinition (names : gmap string string) (defs : Object) (lines : list string)
    (key : string) : gen (list string) :=
  block ← renderPythonModel (default EmptyString (names !! key)) (Obj defs key) names;
  mret (if Contains (pyRenderedHeads lines) (hd EmptyString block) then lines else add_block lines block).
Definition renderPythonModelDeclarations (registry : typeRegistry) : gen (list string) :=
  foldM (fun lines ref =>
    let names := DefinitionNames registry ref in
    let defs := default [] (Obj (tr_Schema ref) "$defs") in
    lines ← foldM (renderPythonDefinition names defs) (Keys defs) lines;
    block ← renderPythonModel (Name registry ref) (Some (tr_Schema ref)) names;
    mret (add_block lines block)) (rg_refs registry) [].

(** [\bname\b] somewhere in a text: a boundary is between a word character and
    another or none. *)
Definition word_first (s : string) : bool :=
  match s with String c _ => word_rune (byte c) | EmptyString => false end.
Fixpoint word_last (s : string) : bool :=
  match s with
  | EmptyString => false
  | String c EmptyString => word_rune (byte c)
  | String _ s => word_last s
  end.
Fixpoint has_word (inside : bool) (name line : string) : bool :=
  (HasPrefix line name && xorb inside (word_first line)
   && xorb (word_last name) (word_first (drop_bytes (String.length name) line)))
  || match line with
     | EmptyString => false
     | String c line => has_word (word_rune (byte c)) name line
     end.

Definition pyModelImportLines (modelLines : list string) : list string :=
  let typing := List.filter (fun name => existsb (has_word false name) modelLines) ["Any"; "Literal"]%string in
  let pydantic := "BaseModel"%string ::
    (if existsb (has_sub "Field(") modelLines then ["Field"%string] else []) in
  (match typing with
   | [] => []
   | _ => [EmptyString; "from typing import " +:+ Join ", " typing]
   end) ++ [EmptyString; "from pydantic import " +:+ Join ", " pydantic].

(** ** The client class *)

Definition docstring_body (text : string) : string :=
  ReplaceAll (ReplaceAll (TrimSpace_ text) bs (bs +:+ bs)) q3 (bs +:+ dqs +:+ bs +:+ dqs +:+ bs +:+ dqs).
Definition pyDocstringLines (text : option string) (indent : string) : list string :=
  match text with
  | None | Some EmptyString => []
  | Some text =>
      let body := docstring_body text in
      match Split (of_byte 10) body with
      | [] | [_] => [indent +:+ q3 +:+ body +:+ q3]
      | first :: parts =>
          [indent +:+ q3 +:+ first]
          ++ ((fun p => TrimRight (indent +:+ p) (" " +:+ tab)) <$> parts)
          ++ [indent +:+ q3]
      end
  end.

Definition pyParameter (m : Method) (required : list string) (defNames : gmap string string)
    (field : string) : gen string :=
  match Obj (default [] (Obj (tr_Schema (mt_Request m)) "properties")) field with
  | None => throw (GenError ("Request parameter " +:+ pyStringRepr field +:+ " is missing from "
                              +:+ tr_Qualname (mt_Request m)))
  | Some prop =>
      let t := pyType prop defNames in
      mret (if Contains required field || String.eqb (mt_Stream m) "client_stream"
            then field +:+ ": " +:+ t
            else if Has prop "default" then field +:+ ": " +:+ t +:+ " = " +:+ pyDefault prop
            else field +:+ ": " +:+ t +:+ " | None = None")
  end.
Definition pyParameters (m : Method) (registry : typeRegistry) : gen (list string) :=
  let required := stringSet (Strings (tr_Schema (mt_Request m)) "required") in
  mapM (pyParameter m required (DefinitionNames registry (mt_Request m))) (mt_Parameters m).

Definition pyRequestLines (m : Method) (requestName : string) : list string :=
  match mt_Parameters m with
  | [] => ["        request = " +:+ requestName +:+ "()"]
  | fields =>
      ["        request = " +:+ requestName +:+ "("]
      ++ ((fun field => "            " +:+ field +:+ "=" +:+ field +:+ ",") <$> fields)
      ++ ["        )"%string]
  end.

(** The end of a method: its call of the runtime. *)
Definition pyTail (service : Service) (m : Method) (call : string) (args : list string) : list string :=
  [call; "            self.service_name,"%string;
   "            " +:+ pyStringRepr (mt_Name m) +:+ ","; "            request,"%string]
  ++ ((fun a => "            " +:+ a +:+ ",") <$> args)
  ++ (if sv_Targeted service then ["            instance=instance,"%string] else [])
  ++ (if an_Idempotent (mt_Annotations m) then ["            idempotent=True,"%string] else [])
  ++ ["        )"%string].
Definition indented (items : list string) : list string :=
  (fun p => "        " +:+ p +:+ ",") <$> items.

Definition pyMethod (service : Service) (registry : typeRegistry) (m : Method) : gen (list string) :=
  let request := Name registry (mt_Request m) in
  params ← pyParameters m registry;
  let params := params ++ (if sv_Targeted service then ["*"; "instance: str"]%string else []) in
  let frame def extra result call args :=
    [def +:+ mt_Name m +:+ "("; "        self,"%string] ++ indented params ++ extra
    ++ ["    ) -> " +:+ result +:+ ":"] ++ pyDocstringLines (mt_Description m) "        "
    ++ pyRequestLines m request ++ pyTail service m call args in
  lines ←
    (if String.eqb (mt_Stream m) "unary" then
       response ← requiredRef (mt_Response m) (mt_Name m +:+ " response");
       let response := Name registry response in
       mret (frame "    async def " [] response "        return await self._rpc.call_unary(" [response])
     else if String.eqb (mt_Stream m) "server_stream" then
       output ← requiredRef (mt_OutputItem m) (mt_Name m +:+ " output item");
       let output := Name registry output in
       mret (frame "    def " [] ("RpcServerStream[" +:+ output +:+ "]")
               "        return self._rpc.call_server_stream(" [output])
     else if String.eqb (mt_Stream m) "client_stream" then
       input ← requiredRef (mt_InputItem m) (mt_Name m +:+ " input item");
       response ← requiredRef (mt_Response m) (mt_Name m +:+ " response");
       let input := Name registry input in
       let response := Name registry response in
       mret (frame "    async def " ["        items: AsyncIterable[" +:+ input +:+ "],"] response
               "        return await self._rpc.call_client_stream(" ["items"%string; input; response])
     else
       input ← requiredRef (mt_InputItem m) (mt_Name m +:+ " input item");
       output ← requiredRef (mt_OutputItem m) (mt_Name m +:+ " output item");
       let input := Name registry input in
       let output := Name registry output in
       mret (frame "    def " [] ("RpcDuplexClient[" +:+ input +:+ ", " +:+ output +:+ "]")
               "        return self._rpc.call_duplex(" [input; output]));
  mret (EmptyString :: lines).

Definition renderPythonClientClass (service : Service) (registry : typeRegistry) (className : string)
    : gen (list string) :=
  methods ← mapM (pyMethod service registry) (sv_Methods service);
  mret (["class " +:+ className +:+ "(RpcClient):"]
        ++ pyDocstringLines (sv_Description service) "    "
        ++ ["    service_name = " +:+ pyStringRepr (sv_Name service)] ++ mjoin methods).

(** ** Modules *)

Record PythonOptions := MkPythonOptions {
  po_ClassName : string;
  po_MeshcallRequirement : string;
  po_PydanticRequirement : string;
  po_ModelsImport : string }.
Definition RuntimeRelease : string := "0.3.0".
Definition python_defaults (o : PythonOptions) : PythonOptions :=
  MkPythonOptions (po_ClassName o)
    (or_default (po_MeshcallRequirement o) ("meshcall>=" +:+ RuntimeRelease))
    (or_default (po_PydanticRequirement o) "pydantic>=2.11")
    (or_default (po_ModelsImport o) ".models").

Definition PythonClientClassName (service : Service) : string :=
  pyClassName (lastSegment (sv_SourceQualname service)) "Service" +:+ "Client".
Definition PythonTypeNames (service : Service) : gen (list string) :=
  registry ← newTypeRegistry service pyClassName; mret (TypeNames registry).

Definition pyAbcImport (service : Service) : list string :=
  if hasStream service "client_stream"
  then [EmptyString; "from collections.abc import AsyncIterable"%string] else [].
Definition pyStreamImports (service : Service) : list string :=
  (if hasStream service "duplex" then ["RpcDuplexClient"%string] else [])
  ++ (if hasStream service "server_stream" then ["RpcServerStream"%string] else []).
Definition stream_import_lines (service : Service) : list string :=
  match pyStreamImports service with
  | [] => []
  | imports => ["from meshcall.streams import " +:+ Join ", " imports]
  end.

Definition python_header : string := "# Generated by MeshCall from a portable contract. Do not edit manually.".
Definition python_future : string := "from __future__ import annotations".

Definition RenderPythonClient (service : Service) (opts : PythonOptions) : gen string :=
  let opts := python_defaults opts in
  registry ← newTypeRegistry service pyClassName;
  modelLines ← renderPythonModelDeclarations registry;
  class ← renderPythonClientClass service registry
    (or_default (po_ClassName opts) (PythonClientClassName service));
  mret (Join nl ([python_header;
    "# External dependencies: uv add " +:+ pyStringRepr (po_MeshcallRequirement opts) +:+ " "
      +:+ pyStringRepr (po_PydanticRequirement opts); python_future]
    ++ pyAbcImport service ++ pyModelImportLines modelLines
    ++ [EmptyString; "from meshcall.rpc import RpcClient"%string] ++ stream_import_lines service
    ++ [EmptyString; EmptyString] ++ modelLines ++ [EmptyString; EmptyString] ++ class) +:+ nl).

Definition RenderPythonModels (service : Service) : gen string :=
  registry ← newTypeRegistry service pyClassName;
  modelLines ← renderPythonModelDeclarations registry;
  mret (TrimRight (Join nl ([python_header; python_future] ++ pyModelImportLines modelLines
    ++ [EmptyString; EmptyString] ++ modelLines)) nl +:+ nl).

Definition RenderPythonClientModule (service : Service) (opts : PythonOptions) : gen string :=
  let opts := python_defaults opts in
  registry ← newTypeRegistry service pyClassName;
  class ← renderPythonClientClass service registry
    (or_default (po_ClassName opts) (PythonClientClassName service));
  mret (Join nl ([python_header; python_future] ++ pyAbcImport service
    ++ [EmptyString; "from meshcall.rpc import RpcClient"%string] ++ stream_import_lines service
    ++ [EmptyString; "from " +:+ po_ModelsImport opts +:+ " import " +:+ Join ", " (TypeNames registry);
        EmptyString; EmptyString] ++ class) +:+ nl).
End Python.
