(* ===== verification/TsClient.v ===== *)
(** * TypeScript clients: internal/codegen/typescript.go *)
From S2P Require Import Prelude GoStd Json Libs Contract GoText Objects PyLiteral TypeNames PyClient.
#[local] Open Scope Z_scope.

(** ** Identifiers *)

Definition ts_rune (r : Z) : bool := word_rune r || (r =? 36).
(** [^[A-Za-z_$][A-Za-z0-9_$]*$]; a character outside ASCII has no such byte. *)
Fixpoint ts_bytes (s : string) : bool :=
  match s with
  | EmptyString => true
  | String c s => ts_rune (byte c) && ts_bytes s
  end.
Definition tsIdentifierRe (s : string) : bool :=
  negb (is_empty s) && negb (digit_first s) && ts_bytes s.
Definition tsIdentifier (value fallback : string) : string :=
  let identifier := replace_runes ts_rune "_" value in
  if is_empty identifier then fallback
  else if digit_first identifier then "_" +:+ identifier
  else identifier.

Section TypeScript.
Context `{Unicode} `{FloatKinds}.

Definition tsProperty (name : string) : string :=
  if tsIdentifierRe name then name else jsonDumps (JString name).

(** ** Types *)

Definition tsType_body (rec : Object -> option string) (defNames : gmap string string) (schema : Object)
    : option string :=
  let ref := Str schema "$ref" in
  if HasPrefix ref "#/$defs/" then
    let key := after_last "/" ref in
    Some (default (tsIdentifier key "unknown") (defNames !! key))
  else match Get schema "const" with
  | Some const => Some (jsonDumps const)
  | None =>
  match nonempty_array (Get schema "enum") with
  | Some enum => Some (Join " | " (jsonDumps <$> enum))
  | None =>
  match first_variants schema ["anyOf"; "oneOf"] with
  | Some variants => joinTypes variants rec " | "
  | None =>
  match nonempty_array (Get schema "allOf") with
  | Some allOf => joinTypes allOf rec " & "
  | None =>
  match Get schema "type" with
  | Some (JArray t) =>
      parts ← mapM (fun item => rec (With schema "type" item)) t; Some (Join " | " parts)
  | Some (JString t) =>
      if String.eqb t "integer" || String.eqb t "number" then Some "number"%string
      else if String.eqb t "string" then Some "string"%string
      else if String.eqb t "boolean" then Some "boolean"%string
      else if String.eqb t "null" then Some "null"%string
      else if String.eqb t "array" then
        item ← rec (default [] (Obj schema "items")); Some ("Array<" +:+ item +:+ ">")
      else if String.eqb t "object" then
        value ← match Get schema "additionalProperties" with
                | Some (JObject additional) => rec additional
                | None | Some JNull => rec []
                | _ => Some "unknown"%string
                end;
        Some ("Record<string, " +:+ value +:+ ">")
      else Some "unknown"%string
  | _ => Some "unknown"%string
  end end end end end.
Definition tsType_fuel (fuel : nat) (defNames : gmap string string) (schema : Object) : option string :=
  iterate (fun rec => tsType_body rec defNames) fuel schema.
Definition tsType (schema : Object) (defNames : gmap string string) : string :=
  default EmptyString (tsType_fuel (S (schema_size schema)) defNames schema).

(** ** Declarations *)

Definition tsField (required : list string) (defNames : gmap string string) (properties : Object)
    (propName : string) : gen string :=
  prop ← deref (Obj properties propName);
  mret ("  " +:+ tsProperty propName +:+ (if Contains required propName then EmptyString else "?")
        +:+ ": " +:+ tsType prop defNames +:+ ";").
(** A nil schema has no member, and no type either. *)
Definition renderTypeScriptDeclaration (name : string) (schema : option Object)
    (defNames : gmap string string) : gen (list string) :=
  let o := default [] schema in
  if String.eqb (Str o "type") "object" || Has o "properties" then
    let required := stringSet (Strings o "required") in
    let properties := default [] (Obj o "properties") in
    fields ← mapM (tsField required defNames properties) (Keys properties);
    mret (["export interface " +:+ name +:+ " {"] ++ fields
      ++ match Get o "additionalProperties" with
         | Some (JBool true) => ["  [key: string]: unknown;"%string]
         | Some (JObject additional) => ["  [key: string]: " +:+ tsType additional defNames +:+ ";"]
         | _ => []
         end
      ++ ["}"%string])
  else
    schema ← deref schema;
    mret ["export type " +:+ name +:+ " = " +:+ tsType schema defNames +:+ ";"].

(** [registry.Name] of a reference that may be nil. *)
Definition Name_at (registry : typeRegistry) (ref : option TypeRef) : gen string :=
  ref ← deref ref; mret (Name registry ref).

Definition receivedTypes (service : Service) (registry : typeRegistry) : list string :=
  Name registry <$> mjoin ((fun m => omap id [mt_Response m; mt_OutputItem m]) <$> sv_Methods service).

Definition tsDefinition (names : gmap string string) (defs : Object)
    (s : list string * list string) (key : string) : gen (list string * list string) :=
  let '(rendered, lines) := s in
  let name := default EmptyString (names !! key) in
  if Contains rendered name then mret (rendered, lines)
  else
    block ← renderTypeScriptDeclaration name (Obj defs key) names;
    mret (name :: rendered, lines ++ block ++ [EmptyString]).
Definition tsRoot (registry : typeRegistry) (received : list string)
    (s : list string * list string) (ref : TypeRef) : gen (list string * list string) :=
  let names := DefinitionNames registry ref in
  let defs := default [] (Obj (tr_Schema ref) "$defs") in
  '(rendered, lines) ← foldM (tsDefinition names defs) (Keys defs) s;
  let name := Name registry ref in
  block ← renderTypeScriptDeclaration name (Some (tr_Schema ref)) names;
  mret (rendered, lines ++ block ++ [EmptyString]
    ++ (if Contains received name
        then ["export const " +:+ name +:+ "Schema: JsonSchema = "
                +:+ jsonDumpsIndent (JObject (tr_Schema ref)) 2 +:+ ";"; EmptyString]
        else [])).
Definition renderTypeScriptDeclarations (registry : typeRegistry) (received : list string)
    : gen (list string) :=
  '(_, lines) ← foldM (tsRoot registry received) (rg_refs registry) ([], []); mret lines.

(** ** The client class *)

Definition tsDocLines (text : option string) (indent : string) : list string :=
  match text with
  | None | Some EmptyString => []
  | Some text =>
      let body := ReplaceAll (TrimSpace_ text) "*/" ("*" +:+ bs +:+ "/") in
      [indent +:+ "/**"]
      ++ ((fun line => TrimRight (indent +:+ " * " +:+ line) (" " +:+ tab)) <$> Split (of_byte 10) body)
      ++ [indent +:+ " */"]
  end.

Definition tsRpcType (service : Service) : string :=
  if hasStream service "duplex" then "MeshCallClient" else "MeshCallRpc".
Definition tsRuntimeTypes (service : Service) : string :=
  Join ", " ([tsRpcType service; "CallOptions"%string]
    ++ (if hasStream service "server_stream" then ["RpcStream"%string] else [])
    ++ (if hasStream service "duplex" then ["MeshCallDuplexCall"; "DuplexCallOptions"]%string else [])).

Definition tsParameter (m : Method) (required : list string) (defNames : gmap string string)
    (field : string) : gen string :=
  if negb (tsIdentifierRe field) then
    throw (GenError ("Request parameter " +:+ pyStringRepr field
                    +:+ " is not a valid TypeScript parameter name"))
  else match Obj (default [] (Obj (tr_Schema (mt_Request m)) "properties")) field with
  | None => throw (GenError ("Request parameter " +:+ pyStringRepr field +:+ " is missing from "
                              +:+ tr_Qualname (mt_Request m)))
  | Some prop =>
      let t := tsType prop defNames in
      mret (if Contains required field || String.eqb (mt_Stream m) "client_stream"
            then field +:+ ": " +:+ t
            else match Get prop "default" with
                 | Some v => field +:+ ": " +:+ t +:+ " = " +:+ jsonDumps v
                 | None => field +:+ "?: " +:+ t
                 end)
  end.
Definition tsParameters (m : Method) (registry : typeRegistry) : gen (list string) :=
  let required := stringSet (Strings (tr_Schema (mt_Request m)) "required") in
  mapM (tsParameter m required (DefinitionNames registry (mt_Request m))) (mt_Parameters m).

Definition tsPayload (m : Method) : list string :=
  match mt_Parameters m with
  | [] => ["      {},"%string]
  | fields =>
      ["      {"%string]
      ++ ((fun field => "        " +:+ tsProperty field +:+ ": " +:+ field +:+ ",") <$> fields)
      ++ ["      },"%string]
  end.

(** Result type, call of the runtime, parameters and arguments of their own. *)
Definition tsShape (registry : typeRegistry) (m : Method)
    : gen (string * string * list string * list string) :=
  let request := Name registry (mt_Request m) in
  if String.eqb (mt_Stream m) "unary" then
    response ← requiredRef (mt_Response m) "response";
    let response := Name registry response in
    mret ("Promise<" +:+ response +:+ ">", "unary<" +:+ request +:+ ", " +:+ response +:+ ">", [], [])
  else if String.eqb (mt_Stream m) "server_stream" then
    output ← requiredRef (mt_OutputItem m) "server stream item";
    let output := Name registry output in
    mret ("RpcStream<" +:+ output +:+ ">", "serverStream<" +:+ request +:+ ", " +:+ output +:+ ">", [], [])
  else if String.eqb (mt_Stream m) "client_stream" then
    input ← requiredRef (mt_InputItem m) "client stream item";
    response ← requiredRef (mt_Response m) "response";
    let input := Name registry input in
    let response := Name registry response in
    mret ("Promise<" +:+ response +:+ ">",
          "clientStream<" +:+ request +:+ ", " +:+ input +:+ ", " +:+ response +:+ ">",
          ["items: AsyncIterable<" +:+ input +:+ ">"], ["      items,"%string])
  else if String.eqb (mt_Stream m) "duplex" then
    input ← requiredRef (mt_InputItem m) "duplex input item";
    output ← requiredRef (mt_OutputItem m) "duplex output item";
    let input := Name registry input in
    let output := Name registry output in
    mret ("MeshCallDuplexCall<" +:+ input +:+ ", " +:+ output +:+ ">",
          "duplex<" +:+ request +:+ ", " +:+ input +:+ ", " +:+ output +:+ ">", [], [])
  else mret (EmptyString, EmptyString, [], []).

Definition tsMethod (service : Service) (registry : typeRegistry) (m : Method) : gen (list string) :=
  '(resultType, rpcCall, extraParams, extraArgs) ← tsShape registry m;
  let optionsType := if String.eqb (mt_Stream m) "duplex" then "DuplexCallOptions"%string
                     else "CallOptions"%string in
  params ← tsParameters m registry;
  schema ← (if String.eqb (mt_Stream m) "server_stream" || String.eqb (mt_Stream m) "duplex"
            then name ← Name_at registry (mt_OutputItem m); mret ("itemSchema: " +:+ name +:+ "Schema")
            else name ← Name_at registry (mt_Response m); mret ("responseSchema: " +:+ name +:+ "Schema"));
  let fields := (if an_Idempotent (mt_Annotations m) then ["idempotent: true"%string] else [])
                ++ ["...options"%string; schema] in
  mret ([EmptyString] ++ tsDocLines (mt_Description m) "  "
    ++ ["  public " +:+ mt_Name m +:+ "("]
    ++ ((fun p => "    " +:+ p +:+ ",") <$> params ++ extraParams)
    ++ [if sv_Targeted service
        then "    options: " +:+ optionsType +:+ " & { instance: string },"
        else "    options?: " +:+ optionsType +:+ ","]
    ++ ["  ): " +:+ resultType +:+ " {"; "    return this.rpc." +:+ rpcCall +:+ "(";
        "      " +:+ jsonDumps (JString (sv_Name service)) +:+ ",";
        "      " +:+ jsonDumps (JString (mt_Name m)) +:+ ","]
    ++ tsPayload m ++ extraArgs
    ++ ["      { " +:+ Join ", " fields +:+ " },"; "    );"%string; "  }"%string]).

Definition renderTypeScriptClientClass (service : Service) (registry : typeRegistry) (className : string)
    : gen (list string) :=
  methods ← mapM (tsMethod service registry) (sv_Methods service);
  mret (tsDocLines (sv_Description service) EmptyString
    ++ ["export class " +:+ className +:+ " {";
        "  public constructor(private readonly rpc: " +:+ tsRpcType service +:+ ") {}";
        EmptyString;
        "  public withOptions(options: CallOptions): " +:+ className +:+ " {";
        "    return new " +:+ className +:+ "(this.rpc.withOptions(options));";
        "  }"%string]
    ++ mjoin methods ++ ["}"%string; EmptyString]).

(** ** Modules *)

Record TypeScriptOptions := MkTypeScriptOptions {
  to_ClassName : string;
  to_RuntimeImport : string;
  to_RuntimeVersion : string;
  to_ModelsImport : string }.
Definition typescript_defaults (o : TypeScriptOptions) : TypeScriptOptions :=
  MkTypeScriptOptions (to_ClassName o) (or_default (to_RuntimeImport o) "meshcall")
    (or_default (to_RuntimeVersion o) ("^" +:+ RuntimeRelease))
    (or_default (to_ModelsImport o) "./models.js").

Definition TypeScriptClientClassName (service : Service) : string :=
  tsIdentifier (lastSegment (sv_SourceQualname service)) "Service" +:+ "Client".
Definition TypeScriptTypeNames (service : Service) : gen (list string) :=
  registry ← newTypeRegistry service tsIdentifier; mret (TypeNames registry).

Definition quoted_import (s : string) : string := jsonDumps (JString s).

Definition RenderTypeScriptClient (service : Service) (opts : TypeScriptOptions) : gen string :=
  let opts := typescript_defaults opts in
  registry ← newTypeRegistry service tsIdentifier;
  let received := receivedTypes service registry in
  let runtime := tsRuntimeTypes service +:+
    (match received with [] => EmptyString | _ => ", JsonSchema"%string end) in
  declarations ← renderTypeScriptDeclarations registry received;
  class ← renderTypeScriptClientClass service registry
    (or_default (to_ClassName opts) (TypeScriptClientClassName service));
  mret (Join nl (["// Generated by MeshCall. Do not edit manually."%string;
    "// External dependency: yarn add " +:+ to_RuntimeImport opts +:+ "@" +:+ to_RuntimeVersion opts;
    "import type { " +:+ runtime +:+ " } from " +:+ quoted_import (to_RuntimeImport opts) +:+ ";";
    EmptyString] ++ declarations ++ class)).

Definition RenderTypeScriptModels (service : Service) (opts : TypeScriptOptions) : gen string :=
  let opts := typescript_defaults opts in
  registry ← newTypeRegistry service tsIdentifier;
  let received := receivedTypes service registry in
  declarations ← renderTypeScriptDeclarations registry received;
  mret (Join nl (["// Generated by MeshCall. Do not edit manually."%string]
    ++ (match received with
        | [] => []
        | _ => ["import type { JsonSchema } from " +:+ quoted_import (to_RuntimeImport opts) +:+ ";"]
        end)
    ++ [EmptyString] ++ declarations)).

(** The nested types that the client's signatures mention. *)
Definition nested_import (class : string) (defs : gmap string string) (names : list string) (key : string)
    : list string :=
  let name := default EmptyString (defs !! key) in
  if negb (Contains names name) && has_word false name class then names ++ [name] else names.
Definition tsModelImports (registry : typeRegistry) (class : string) : list string :=
  fold_left (fun names ref =>
    let defs := DefinitionNames registry ref in
    fold_left (nested_import class defs) (Sort (map_to_list defs).*1) names)
    (rg_refs registry) (TypeNames registry).

Definition RenderTypeScriptClientModule (service : Service) (opts : TypeScriptOptions) : gen string :=
  let opts := typescript_defaults opts in
  registry ← newTypeRegistry service tsIdentifier;
  class ← renderTypeScriptClientClass service registry
    (or_default (to_ClassName opts) (TypeScriptClientClassName service));
  let received := receivedTypes service registry in
  mret (Join nl (["// Generated by MeshCall. Do not edit manually."%string;
    "import type { " +:+ tsRuntimeTypes service +:+ " } from " +:+ quoted_import (to_RuntimeImport opts) +:+ ";";
    "import type { " +:+ Join ", " (tsModelImports registry (Join nl class)) +:+ " } from "
      +:+ quoted_import (to_ModelsImport opts) +:+ ";"]
    ++ (match received with
        | [] => []
        | _ => ["import { " +:+ Join ", " ((fun name => name +:+ "Schema") <$>
                  List.filter (Contains received) (TypeNames registry)) +:+ " } from "
                  +:+ quoted_import (to_ModelsImport opts) +:+ ";"]
        end)
    ++ [EmptyString] ++ class)).
End TypeScript.
