(* ===== verification/GoClient.v ===== *)
(** * Go clients: internal/codegen/golang.go

    [go/format.Source] is a parameter: it formats a file or reports that it does
    not parse. *)
From S2P Require Import Prelude GoStd Json Libs Contract GoText Objects PyLiteral TypeNames PyClient.
#[local] Open Scope Z_scope.

(** ** Package names *)

Definition alnum_rune (r : Z) : bool := upper_rune r || lower_rune r || digit_rune r.

Fixpoint digits_only (s : string) : bool :=
  match s with
  | EmptyString => true
  | String c s => is_digit c && digits_only s
  end.
(** A v and digits. *)
Definition majorVersion (s : string) : bool :=
  match s with
  | String c s => Ascii.eqb c "v" && negb (is_empty s) && digits_only s
  | EmptyString => false
  end.
(** Digits, and behind a hyphen anything but a line feed. *)
Definition numericPart (s : string) : bool :=
  let '(d, r) := span_digits s in
  negb (is_empty d) &&
  match r with
  | EmptyString => true
  | String c r => Ascii.eqb c "-" && negb (ContainsByte r (of_byte 10))
  end.

(** The maximal runs of the runes that [keep] accepts. *)
Fixpoint runs (keep : Z -> bool) (word : string) (l : list (Z * string)) : list string :=
  match l with
  | [] => [word]
  | (r, b) :: l => if keep r then runs keep (word +:+ b) l else word :: runs keep EmptyString l
  end.
Definition words (s : string) : list string :=
  List.filter (fun w => negb (is_empty w)) (runs alnum_rune EmptyString (runes s)).

Definition goInitialisms : list (string * string) :=
  [("id", "ID"); ("url", "URL"); ("http", "HTTP"); ("json", "JSON"); ("api", "API"); ("ip", "IP");
   ("uri", "URI"); ("uuid", "UUID")]%string.

Section Go.
Context `{Unicode} `{FloatKinds}.

Definition to_lower (s : string) : string := concat_text ((fun rb => encode_rune (ToLower rb.1)) <$> runes s).

(** The last part of a name that is no version. *)
Definition name_part (name : string) : string :=
  let parts := Split "." name in
  default (hd EmptyString parts)
    (List.find (fun p => negb (majorVersion p) && negb (numericPart p)) (rev parts)).
Definition GoPackageName (service : Service) : string :=
  to_lower (replace_runes alnum_rune EmptyString (name_part (sv_Name service))) +:+ "client".

(** ** Identifiers *)

Definition capitalised (word : string) : string :=
  match runes word with
  | [] => EmptyString
  | (r, _) :: l => encode_rune (ToUpper r) +:+ concat_text (snd <$> l)
  end.
Definition go_word (word : string) : string :=
  match List.find (fun kv => String.eqb kv.1 (to_lower word)) goInitialisms with
  | Some (_, upper) => upper
  | None => capitalised word
  end.
(** The parts between other characters consist of letters and digits: [Fields]
    returns them as they are, without the empty ones. *)
Definition goIdentifier (value fallback : string) : string :=
  let out := concat_text (go_word <$> words (ReplaceAll value "_" " ")) in
  if is_empty out then fallback
  else if digit_first out then "X" +:+ out
  else out.

Fixpoint upper_count (l : list Z) : nat :=
  match l with
  | r :: l => if IsUpper r then S (upper_count l) else O
  | [] => O
  end.
Definition of_runes (l : list Z) : string := concat_text (encode_rune <$> l).
Definition lower_first (n : nat) (l : list Z) : list Z := (ToLower <$> take n l) ++ drop n l.
Definition goLowerIdentifier (value fallback : string) : string :=
  let id := goIdentifier value fallback in
  let rs := (runes id).*1 in
  let n := upper_count rs in
  if (n =? 0)%nat then id
  else if (n =? length rs)%nat then to_lower id
  else if (1 <? n)%nat then of_runes (lower_first (n - 1) rs)
  else of_runes (lower_first 1 rs).

Definition goReservedParams : list string :=
  ["break"; "case"; "chan"; "const"; "continue"; "default"; "defer"; "else"; "fallthrough"; "for";
   "func"; "go"; "goto"; "if"; "import"; "interface"; "map"; "package"; "range"; "return";
   "select"; "struct"; "switch"; "type"; "var"; "any"; "bool"; "byte"; "comparable"; "complex64";
   "complex128"; "error"; "float32"; "float64"; "int"; "int8"; "int16"; "int32"; "int64"; "nil";
   "rune"; "string"; "true"; "false"; "uint"; "uint8"; "uint16"; "uint32"; "uint64"; "uintptr";
   "c"; "ctx"; "instance"; "items"; "opts"; "context"; "meshcall"; "json"].

(** Names that are used again get a number: [used] counts them. *)
Definition next_name (used : gmap string Z) (name : string) : gmap string Z * string :=
  let n := default 0 (used !! name) + 1 in (<[name := n]> used, numbered name n).

(** ** Types *)

(** A type, whether it may be null, and whether json.RawMessage was used. *)
Definition goBase : Type := string * bool * bool.
Definition pointer_type (base : goBase) (optional : bool) : string :=
  let '(t, nullable, _) := base in
  if (optional || nullable) && negb (HasPrefix t "[]") && negb (HasPrefix t "map[")
     && negb (String.eqb t "any") && negb (String.eqb t "json.RawMessage")
  then "*" +:+ t else t.

Definition go_comment_lines (indent text : string) : string :=
  concat_text ((fun line => indent +:+ tab +:+ "// " +:+ TrimRight line (" " +:+ tab) +:+ nl)
               <$> Split (of_byte 10) (TrimSpace_ text)).

(** [structBody]: the fields, and whether json.RawMessage was used. *)
Definition structField (rec : option Object -> option goBase) (indent : string) (required : list string)
    (s : gmap string Z * (string * bool)) (kv : string * json)
    : option (gmap string Z * (string * bool)) :=
  let '(used, (body, raw)) := s in
  let '(key, value) := kv in
  let prop := as_object (Some value) in
  let '(used, name) := next_name used (goIdentifier key "Field") in
  let desc := Str (default [] prop) "description" in
  let comment := if is_empty desc then EmptyString else go_comment_lines indent desc in
  let optional := negb (Contains required key) in
  base ← rec prop;
  let tag := key +:+ (if optional then ",omitempty" else EmptyString) in
  Some (used, (body +:+ comment +:+ indent +:+ tab +:+ name +:+ " " +:+ pointer_type base optional
                 +:+ " `json:" +:+ dqs +:+ tag +:+ dqs +:+ "`" +:+ nl, raw || base.2)).
Fixpoint structFields (rec : option Object -> option goBase) (indent : string) (required : list string)
    (kvs : Object) (s : gmap string Z * (string * bool)) : option (string * bool) :=
  match kvs with
  | [] => Some s.2
  | kv :: kvs => s ← structField rec indent required s kv; structFields rec indent required kvs s
  end.
Definition structBody_with (rec : option Object -> option goBase) (schema : Object) (indent : string)
    : option (string * bool) :=
  '(fields, raw) ← structFields rec indent (stringSet (Strings schema "required"))
    (default [] (Obj schema "properties")) (∅, (EmptyString, false));
  Some ("struct {" +:+ nl +:+ fields +:+ indent +:+ "}", raw).

Definition is_null_type (v : json) : bool :=
  match v with JObject o => String.eqb (Str o "type") "null" | _ => false end.
Definition kind_strings (t : list json) : list string :=
  omap (fun v => match v with JString s => if String.eqb s "null" then None else Some s | _ => None end) t.

Definition base_variants (rec : option Object -> option goBase) (variants : list json) : option goBase :=
  let nullable := existsb is_null_type variants in
  match List.filter (fun v => negb (is_null_type v)) variants with
  | [other] => '(t, _, raw) ← rec (as_object (Some other)); Some (t, nullable, raw)
  | _ => Some ("json.RawMessage"%string, false, true)
  end.

Definition baseType_body (rec : option Object -> option goBase) (defNames : gmap string string)
    (schema : option Object) : option goBase :=
  match schema with
  | None => Some ("any"%string, false, false)
  | Some schema =>
  let plain t := Some (t, false, false) in
  let ref := Str schema "$ref" in
  if HasPrefix ref "#/$defs/" then
    let key := after_last "/" ref in
    plain (default (goIdentifier key "Value") (defNames !! key))
  else match first_variants schema ["anyOf"; "oneOf"] with
  | Some variants => base_variants rec variants
  | None =>
  match as_array (Get schema "allOf") with
  | Some [o] => rec (as_object (Some o))
  | _ =>
  if Has schema "enum" && is_empty (Str schema "type") then plain "string"%string
  else match Get schema "type" with
  | Some (JArray t) =>
      match kind_strings t with
      | [kind] =>
          '(base, _, raw) ← rec (Some (With schema "type" (JString kind)));
          Some (base, existsb (fun v => match v with JString s => String.eqb s "null" | _ => false end) t, raw)
      | _ => Some ("json.RawMessage"%string, false, true)
      end
  | Some (JString t) =>
      if String.eqb t "integer" then plain "int64"%string
      else if String.eqb t "number" then plain "float64"%string
      else if String.eqb t "string" then plain "string"%string
      else if String.eqb t "boolean" then plain "bool"%string
      else if String.eqb t "null" then plain "any"%string
      else if String.eqb t "array" then
        '(item, _, raw) ← rec (Obj schema "items"); Some ("[]" +:+ item, false, raw)
      else if String.eqb t "object" then
        match Obj schema "additionalProperties" with
        | Some additional =>
            '(value, _, raw) ← rec (Some additional); Some ("map[string]" +:+ value, false, raw)
        | None =>
            match Obj schema "properties" with
            | Some (_ :: _) =>
                '(body, raw) ← structBody_with rec schema EmptyString; Some (body, false, raw)
            | _ => plain "map[string]any"%string
            end
        end
      else plain "any"%string
  | _ => plain "any"%string
  end end end end.
Definition baseType_fuel (fuel : nat) (defNames : gmap string string) (schema : option Object) : option goBase :=
  iterate (fun rec => baseType_body rec defNames) fuel schema.
Definition baseType (schema : option Object) (defNames : gmap string string) : goBase :=
  default (EmptyString, false, false)
    (baseType_fuel (S (schema_size (default [] schema))) defNames schema).
Definition goType (schema : option Object) (defNames : gmap string string) (optional : bool) : string :=
  pointer_type (baseType schema defNames) optional.
Definition structBody (schema : Object) (defNames : gmap string string) : string * bool :=
  default (EmptyString, false)
    (structBody_with (baseType_fuel (S (schema_size schema)) defNames) schema EmptyString).

(** ** Declarations *)

Definition goComment (text : option string) (indent : string) : string :=
  match text with
  | None => EmptyString
  | Some text =>
      if is_empty (TrimSpace_ text) then EmptyString
      else concat_text ((fun line => TrimRight (indent +:+ "// " +:+ line) (" " +:+ tab) +:+ nl)
                        <$> Split (of_byte 10) (TrimSpace_ text))
  end.

(** A type declaration, and whether json.RawMessage was used. *)
Definition writeType (name : string) (schema : option Object) (defNames : gmap string string)
    : gen (string * bool) :=
  schema ← deref schema;
  let desc := Str schema "description" in
  let comment := if is_empty desc then EmptyString else goComment (Some desc) EmptyString in
  let type := Str schema "type" in
  let declare rest := comment +:+ "type " +:+ name +:+ rest in
  let no_fields := match Obj schema "properties" with None | Some [] => true | _ => false end in
  match as_array (Get schema "enum") with
  | Some enum =>
      let values := Sort (omap (fun v => as_string (Some v)) enum) in
      mret (declare (" = string" +:+ nl +:+ nl) +:+
        match values with
        | [] => EmptyString
        | _ => "// " +:+ name +:+ " values: " +:+ Join ", " values +:+ "." +:+ nl +:+ nl
        end, false)
  | None =>
      if no_fields && (String.eqb type "object" || is_empty type)
      then mret (declare (" struct{}" +:+ nl +:+ nl), false)
      else if negb (String.eqb type "object") && negb (bool_decide (is_Some (Obj schema "properties"))) then
        let '(base, _, raw) := baseType (Some schema) defNames in
        mret (declare (" = " +:+ base +:+ nl +:+ nl), raw)
      else
        let '(body, raw) := structBody schema defNames in
        mret (declare (" " +:+ body +:+ nl +:+ nl), raw)
  end.

(** What was rendered, the text and whether json.RawMessage was used. *)
Definition goOut : Type := list string * string * bool.
Definition goDeclare (name : string) (schema : option Object) (names : gmap string string) (s : goOut)
    : gen goOut :=
  let '(rendered, text, raw) := s in
  if Contains rendered name then mret s
  else '(t, r) ← writeType name schema names; mret (name :: rendered, text +:+ t, raw || r).
Definition goRoot (registry : typeRegistry) (s : goOut) (ref : TypeRef) : gen goOut :=
  let names := DefinitionNames registry ref in
  let defs := default [] (Obj (tr_Schema ref) "$defs") in
  s ← foldM (fun s key => goDeclare (default EmptyString (names !! key)) (Obj defs key) names s) (Keys defs) s;
  goDeclare (Name registry ref) (Some (tr_Schema ref)) names s.

(** ** Methods *)

Definition goStructFieldNames (schema : Object) : gmap string string :=
  (fold_left (fun '(used, out) key =>
     let '(used, name) := next_name used (goIdentifier key "Field") in (used, <[key := name]> out))
   (Keys (default [] (Obj schema "properties"))) (∅ : gmap string Z, ∅)).2.

Record goParams := MkGoParams {
  gp_used : gmap string Z; gp_decls : list string; gp_fields : list string; gp_raw : bool }.
Definition goParam (m : Method) (defNames fieldNames : gmap string string) (s : goParams) (field : string)
    : gen goParams :=
  match Obj (default [] (Obj (tr_Schema (mt_Request m)) "properties")) field with
  | None => throw (GenError ("Request parameter " +:+ pyStringRepr field +:+ " is missing from "
                              +:+ tr_Qualname (mt_Request m)))
  | Some prop =>
      let paramName := goLowerIdentifier field "param" in
      let paramName := if Contains goReservedParams paramName then paramName +:+ "Param" else paramName in
      let '(used, paramName) := next_name (gp_used s) paramName in
      let optional := negb (Contains (stringSet (Strings (tr_Schema (mt_Request m)) "required")) field) in
      mret (MkGoParams used
        (gp_decls s ++ [paramName +:+ " " +:+ goType (Some prop) defNames optional])
        (gp_fields s ++ [default EmptyString (fieldNames !! field) +:+ ": " +:+ paramName])
        (gp_raw s || (baseType (Some prop) defNames).2))
  end.
Definition goMethodParams (registry : typeRegistry) (m : Method) (requestType : string)
    : gen (list string * string * bool) :=
  match mt_Parameters m with
  | [] => mret ([], requestType +:+ "{}", false)
  | fields =>
      s ← foldM (goParam m (DefinitionNames registry (mt_Request m))
                  (goStructFieldNames (tr_Schema (mt_Request m)))) fields (MkGoParams ∅ [] [] false);
      mret (gp_decls s, requestType +:+ "{" +:+ Join ", " (gp_fields s) +:+ "}", gp_raw s)
  end.

(** The function of one method: its own parameters, result, and call. *)
Definition goFunction (className name : string) (params extra : list string) (result call : string) : string :=
  "func (c *" +:+ className +:+ ") " +:+ name +:+ "("
    +:+ Join ", " (params ++ extra ++ ["opts ...meshcall.CallOption"%string]) +:+ ") (" +:+ result
    +:+ ", error) {" +:+ nl +:+ tab +:+ "return " +:+ call +:+ nl +:+ "}" +:+ nl.

Definition goDeprecated (m : Method) : string :=
  match mt_Deprecated m with
  | None => EmptyString
  | Some d => "//" +:+ nl +:+ "// Deprecated: "
      +:+ (if is_empty d then "no replacement" else "use " +:+ d) +:+ "." +:+ nl
  end.

Definition writeMethod (registry : typeRegistry) (service : Service) (className : string) (m : Method)
    : gen (string * bool) :=
  let request := Name registry (mt_Request m) in
  let name := goIdentifier (mt_Name m) "Call" in
  let head := nl +:+ goComment (mt_Description m) EmptyString +:+ goDeprecated m in
  '(paramDecls, reqExpr, raw) ← goMethodParams registry m request;
  let sigParams := ["ctx context.Context"%string]
    ++ (if sv_Targeted service then ["instance string"%string] else []) ++ paramDecls in
  let defaults := (if sv_Targeted service then ["meshcall.WithInstance(instance)"%string] else [])
    ++ (if an_Idempotent (mt_Annotations m) && String.eqb (mt_Stream m) "unary"
        then ["meshcall.IdempotentCall()"%string] else []) in
  let options := match defaults with
    | [] => "opts..."%string
    | _ => "append([]meshcall.CallOption{" +:+ Join ", " defaults +:+ "}, opts...)..."
    end in
  let call fn types args :=
    "meshcall." +:+ fn +:+ "[" +:+ types +:+ "]("
      +:+ Join ", " (["ctx"; "c.rpc"; "ServiceName"]%string ++ [jsonDumps (JString (mt_Name m))] ++ args)
      +:+ ", " +:+ options +:+ ")" in
  function ←
    (if String.eqb (mt_Stream m) "unary" then
       response ← requiredRef (mt_Response m) (mt_Name m +:+ " response");
       let response := Name registry response in
       mret (goFunction className name sigParams [] response
               (call "Unary" (request +:+ ", " +:+ response) [reqExpr]))
     else if String.eqb (mt_Stream m) "server_stream" then
       item ← requiredRef (mt_OutputItem m) (mt_Name m +:+ " output item");
       let item := Name registry item in
       mret (goFunction className name sigParams [] ("*meshcall.Stream[" +:+ item +:+ "]")
               (call "ServerStream" (request +:+ ", " +:+ item) [reqExpr]))
     else if String.eqb (mt_Stream m) "client_stream" then
       input ← requiredRef (mt_InputItem m) (mt_Name m +:+ " input item");
       response ← requiredRef (mt_Response m) (mt_Name m +:+ " response");
       let input := Name registry input in
       let response := Name registry response in
       mret (goFunction className name sigParams ["items func(yield func(" +:+ input +:+ ") bool)"] response
               (call "ClientStream" (request +:+ ", " +:+ input +:+ ", " +:+ response) [reqExpr; "items"%string]))
     else if String.eqb (mt_Stream m) "duplex" then
       input ← requiredRef (mt_InputItem m) (mt_Name m +:+ " input item");
       output ← requiredRef (mt_OutputItem m) (mt_Name m +:+ " output item");
       let input := Name registry input in
       let output := Name registry output in
       mret (goFunction className name sigParams []
               ("*meshcall.DuplexCall[" +:+ input +:+ ", " +:+ output +:+ "]")
               (call "Duplex" (request +:+ ", " +:+ input +:+ ", " +:+ output) [reqExpr]))
     else mret EmptyString);
  mret (head +:+ function, raw).

(** ** The file *)

Record GoOptions := MkGoOptions { go_PackageName : string; go_RuntimeImport : string }.
Definition go_defaults (o : GoOptions) (service : Service) : GoOptions :=
  MkGoOptions (or_default (go_PackageName o) (GoPackageName service))
    (or_default (go_RuntimeImport o) "github.com/t4wefan/meshcall/meshcall-go").

Definition GoClassName (service : Service) : string :=
  let last := lastSegment (sv_Name service) in
  (if majorVersion last || numericPart last
   then goIdentifier (TrimSuffix (GoPackageName service) "client") "Service"
   else goIdentifier last "Service") +:+ "Client".

Definition goClientHead (service : Service) (className : string) : string :=
  goComment (sv_Description service) EmptyString
  +:+ "type " +:+ className +:+ " struct {" +:+ nl +:+ tab +:+ "rpc meshcall.Caller" +:+ nl +:+ "}" +:+ nl +:+ nl
  +:+ "// New" +:+ className +:+ " wraps a Mesh (or any Caller)." +:+ nl
  +:+ "func New" +:+ className +:+ "(rpc meshcall.Caller) *" +:+ className +:+ " {" +:+ nl
  +:+ tab +:+ "return &" +:+ className +:+ "{rpc: rpc}" +:+ nl +:+ "}" +:+ nl +:+ nl
  +:+ "// WithOptions returns a shallow copy of the client with default CallOptions applied to every call." +:+ nl
  +:+ "func (c *" +:+ className +:+ ") WithOptions(opts meshcall.CallOptions) *" +:+ className +:+ " {" +:+ nl
  +:+ tab +:+ "return &" +:+ className +:+ "{rpc: c.rpc.WithCallOptions(opts)}" +:+ nl +:+ "}" +:+ nl +:+ nl
  +:+ "// ServiceName is the service these calls address." +:+ nl
  +:+ "const ServiceName = " +:+ jsonDumps (JString (sv_Name service)) +:+ nl.

(** The file before it is formatted. *)
Definition goFile (service : Service) (opts : GoOptions) : gen string :=
  let opts := go_defaults opts service in
  registry ← newTypeRegistry service goIdentifier;
  '(_, types, raw) ← foldM (goRoot registry) (rg_refs registry) ([], EmptyString, false);
  let className := GoClassName service in
  methods ← mapM (writeMethod registry service className) (sv_Methods service);
  let raw := raw || existsb snd methods in
  mret ("// Code generated by MeshCall. DO NOT EDIT." +:+ nl +:+ nl
    +:+ "package " +:+ go_PackageName opts +:+ nl +:+ nl
    +:+ "import (" +:+ nl +:+ tab +:+ dqs +:+ "context" +:+ dqs +:+ nl
    +:+ (if raw then tab +:+ dqs +:+ "encoding/json" +:+ dqs +:+ nl else EmptyString)
    +:+ nl +:+ tab +:+ "meshcall " +:+ jsonDumps (JString (go_RuntimeImport opts)) +:+ nl +:+ ")" +:+ nl +:+ nl
    +:+ types +:+ goClientHead service className +:+ concat_text (fst <$> methods)).

Definition RenderGoClient (format_Source : string -> string + string) (service : Service) (opts : GoOptions)
    : gen string :=
  file ← goFile service opts;
  match format_Source file with
  | inl err => throw (GenError ("generated Go does not parse: " +:+ err))
  | inr formatted => mret formatted
  end.
End Go.
