(* ===== verification/Packages.v ===== *)
(** * Generated packages: internal/codegen/packages.go and internal/cli/generate.go

    Loading a contract, formatting Go and writing files are parameters of
    [Generate]. *)
From S2P Require Import Prelude GoStd Json Libs Contract GoText Objects PyLiteral TypeNames PyClient TsClient GoClient.
#[local] Open Scope Z_scope.

Record PackageOptions := MkPackageOptions {
  pk_PackageName : string;
  pk_PackageVersion : string;
  pk_ClassName : string;
  pk_MeshcallRequirement : string;
  pk_RuntimeImport : string;
  pk_RuntimeVersion : string }.

(** Contents by path. *)
Definition files : Type := list (string * string).

Definition lines_of (l : list string) : string := concat_text ((fun s => s +:+ nl) <$> l).

Section Packages.
Context `{Unicode} `{FloatKinds}.

Definition q (s : string) : string := jsonDumps (JString s).

(** ** Names *)

Definition package_rune (r : Z) : bool := lower_rune r || digit_rune r.
Definition trim_hyphens (s : string) : string :=
  drop_while (ContainsByte "-") (TrimRight s "-").
Definition defaultPackageName (service : Service) : string :=
  "meshcall-" +:+ trim_hyphens (replace_runs package_rune "-" (to_lower (sv_Name service))) +:+ "-client".

Definition pythonModuleName (packageName : string) : string :=
  let module := replace_runes word_rune "_" (after_last "/" packageName) in
  let module := if is_empty module || digit_first module then "meshcall_" +:+ module else module in
  to_lower module.

(** ** Python *)

Definition pythonPyproject (distribution module version requirement : string) : string :=
  lines_of ["[project]"%string;
    "name = " +:+ q distribution;
    "version = " +:+ q version;
    "description = " +:+ dqs +:+ "Generated MeshCall Python client" +:+ dqs;
    "readme = " +:+ dqs +:+ "README.md" +:+ dqs;
    "requires-python = " +:+ dqs +:+ ">=3.11" +:+ dqs;
    "dependencies = ["%string;
    "    " +:+ q requirement +:+ ",";
    "    " +:+ dqs +:+ "pydantic>=2.11" +:+ dqs +:+ ",";
    "]"%string; EmptyString;
    "[build-system]"%string;
    "requires = [" +:+ dqs +:+ "hatchling" +:+ dqs +:+ "]";
    "build-backend = " +:+ dqs +:+ "hatchling.build" +:+ dqs; EmptyString;
    "[tool.hatch.build.targets.wheel]"%string;
    "packages = [" +:+ q ("src/" +:+ module) +:+ "]"; EmptyString;
    "[tool.uv]"%string;
    "package = true"%string].

Definition pythonReadme (distribution module className : string) (typeNames : list string) : string :=
  lines_of ["# " +:+ distribution; EmptyString;
    "Generated MeshCall Python client package."%string; EmptyString;
    "```bash"%string; "uv sync"%string; "uv build"%string; "```"%string; EmptyString;
    "```python"%string;
    "from " +:+ module +:+ " import " +:+ Join ", " (className :: typeNames);
    "```"%string].

Definition pythonInit (className : string) (typeNames : list string) : string :=
  lines_of ["from .client import " +:+ className;
    "from .models import " +:+ Join ", " (Sort typeNames); EmptyString;
    "__all__ = [" +:+ Join ", " (pyStringRepr <$> Sort (className :: typeNames)) +:+ "]"].

Definition PythonPackage (service : Service) (opts : PackageOptions) : gen files :=
  let version := or_default (pk_PackageVersion opts) "0.1.0" in
  let requirement := or_default (pk_MeshcallRequirement opts) ("meshcall>=" +:+ RuntimeRelease) in
  let distribution := or_default (pk_PackageName opts) (defaultPackageName service) in
  let module := pythonModuleName distribution in
  let className := or_default (pk_ClassName opts) (PythonClientClassName service) in
  typeNames ← PythonTypeNames service;
  let src := "src/" +:+ module in
  models ← RenderPythonModels service;
  client ← RenderPythonClientModule service
    (MkPythonOptions className EmptyString EmptyString EmptyString);
  mret [("pyproject.toml"%string, pythonPyproject distribution module version requirement);
        ("README.md"%string, pythonReadme distribution module className typeNames);
        (src +:+ "/models.py", models);
        (src +:+ "/client.py", client);
        (src +:+ "/__init__.py", pythonInit className typeNames);
        (src +:+ "/py.typed", EmptyString)].

(** ** TypeScript *)

(** A member of a JSON text with an indentation. *)
Definition jm (indent key value : string) : string := indent +:+ dqs +:+ key +:+ dqs +:+ ": " +:+ value.
Definition js (s : string) : string := dqs +:+ s +:+ dqs.

Definition typescriptPackageJSON (name version runtimeImport runtimeVersion : string) : string :=
  lines_of ["{"%string;
    jm "  " "name" (q name +:+ ",");
    jm "  " "version" (q version +:+ ",");
    jm "  " "type" (js "module" +:+ ",");
    jm "  " "main" (js "dist/index.js" +:+ ",");
    jm "  " "types" (js "dist/index.d.ts" +:+ ",");
    jm "  " "exports" "{";
    jm "    " "." "{";
    jm "      " "types" (js "./dist/index.d.ts" +:+ ",");
    jm "      " "import" (js "./dist/index.js");
    "    }"%string;
    "  },"%string;
    jm "  " "files" "[";
    "    " +:+ js "dist";
    "  ],"%string;
    jm "  " "license" (js "UNLICENSED" +:+ ",");
    jm "  " "sideEffects" "false,";
    jm "  " "packageManager" (js "yarn@1.22.22" +:+ ",");
    jm "  " "scripts" "{";
    jm "    " "build" (js "tsc -p tsconfig.json" +:+ ",");
    jm "    " "check" (js "tsc -p tsconfig.json --noEmit");
    "  },"%string;
    jm "  " "dependencies" "{";
    "    " +:+ q runtimeImport +:+ ": " +:+ q runtimeVersion;
    "  },"%string;
    jm "  " "devDependencies" "{";
    jm "    " "typescript" (js "^7.0.2");
    "  }"%string;
    "}"%string].

Definition typescriptTsconfig : string :=
  lines_of ["{"%string;
    jm "  " "compilerOptions" "{";
    jm "    " "target" (js "ES2022" +:+ ",");
    jm "    " "module" (js "NodeNext" +:+ ",");
    jm "    " "moduleResolution" (js "NodeNext" +:+ ",");
    jm "    " "rootDir" (js "src" +:+ ",");
    jm "    " "outDir" (js "dist" +:+ ",");
    jm "    " "declaration" "true,";
    jm "    " "strict" "true,";
    jm "    " "noUncheckedIndexedAccess" "true,";
    jm "    " "exactOptionalPropertyTypes" "true,";
    jm "    " "skipLibCheck" "false";
    "  },"%string;
    jm "  " "include" "[";
    "    " +:+ js "src/**/*.ts";
    "  ]"%string;
    "}"%string].

Definition typescriptReadme (name className : string) (typeNames : list string) : string :=
  lines_of ["# " +:+ name; EmptyString;
    "Generated MeshCall TypeScript client package."%string; EmptyString;
    "```bash"%string; "yarn install"%string; "yarn build"%string; "```"%string; EmptyString;
    "```typescript"%string;
    "import { " +:+ Join ", " (className :: typeNames) +:+ " } from " +:+ q name +:+ ";";
    "```"%string].

Definition TypeScriptPackage (service : Service) (opts : PackageOptions) : gen files :=
  let version := or_default (pk_PackageVersion opts) "0.1.0" in
  let runtimeImport := or_default (pk_RuntimeImport opts) "meshcall" in
  let runtimeVersion := or_default (pk_RuntimeVersion opts) ("^" +:+ RuntimeRelease) in
  let name := or_default (pk_PackageName opts) (defaultPackageName service) in
  let className := or_default (pk_ClassName opts) (TypeScriptClientClassName service) in
  models ← RenderTypeScriptModels service
    (MkTypeScriptOptions EmptyString runtimeImport EmptyString EmptyString);
  client ← RenderTypeScriptClientModule service
    (MkTypeScriptOptions className runtimeImport EmptyString EmptyString);
  typeNames ← TypeScriptTypeNames service;
  mret [("package.json"%string, typescriptPackageJSON name version runtimeImport runtimeVersion);
        ("tsconfig.json"%string, typescriptTsconfig);
        ("README.md"%string, typescriptReadme name className typeNames);
        (".gitignore"%string, lines_of ["node_modules/"; "dist/"]%string);
        ("src/models.ts"%string, models);
        ("src/client.ts"%string, client);
        ("src/index.ts"%string, lines_of ["export * from " +:+ js "./models.js" +:+ ";";
           "export { " +:+ className +:+ " } from " +:+ js "./client.js" +:+ ";"])].

(** ** [Generate] *)

Record GenerateOptions := MkGenerateOptions {
  go_Source : string;
  go_Service : string;
  go_Language : string;
  go_Output : string;
  go_SingleFile : bool;
  go_ClassName : string;
  go_Package : string;
  go_PackageVersion : string;
  go_RuntimeImportPath : string;
  go_RuntimeVersion : string;
  go_MeshcallRequirement : string }.

Inductive generate_error :=
  | OutputRequired
  | UnknownLanguage (language : string)
  | LoadFailed (message : string)
  | WriteFailed (message : string).
(** What [Generate] returns: the paths it wrote and the error, each perhaps nil. *)
Definition generated : Type := list string * option generate_error.

(** What [Generate] calls: [format.Source], [filepath.Join], [loadService] of a
    source and a service name, and [WriteFile] or [WriteFiles], which may throw. *)
Record Tools := MkTools {
  format_Source : string -> string + string;
  filepath_Join : string -> string -> string;
  loadService : string -> string -> string + Service;
  writeFiles : files -> option string }.

(** The files with their paths; the files of a package are a Go map, so their order
    is open. *)
Definition render (tools : Tools) (opts : GenerateOptions) (language : string) (service : Service)
    : gen files :=
  if String.eqb language "go" then
    let path := if HasSuffix (go_Output opts) ".go" then go_Output opts
                else filepath_Join tools (go_Output opts) "client.go" in
    content ← RenderGoClient (format_Source tools) service
      (MkGoOptions (go_Package opts) (go_RuntimeImportPath opts));
    mret [(path, content)]
  else if go_SingleFile opts then
    content ← (if String.eqb language "python"
      then RenderPythonClient service
        (MkPythonOptions (go_ClassName opts) (go_MeshcallRequirement opts) EmptyString EmptyString)
      else RenderTypeScriptClient service
        (MkTypeScriptOptions (go_ClassName opts) (go_RuntimeImportPath opts) (go_RuntimeVersion opts) EmptyString));
    mret [(go_Output opts, content)]
  else
    let pkg := MkPackageOptions (go_Package opts) (go_PackageVersion opts) (go_ClassName opts)
      (go_MeshcallRequirement opts) (go_RuntimeImportPath opts) (go_RuntimeVersion opts) in
    content ← (if String.eqb language "python" then PythonPackage service pkg else TypeScriptPackage service pkg);
    mret ((fun f => (filepath_Join tools (go_Output opts) f.1, f.2)) <$> content).

(** The deferred function assigns the error of a panic to local variables: the
    results of [Generate] have no names, so a recovered call returns their zero
    values. *)
Definition recovered (p : panic) : generated := ([], None).

Definition Generate (tools : Tools) (opts : GenerateOptions) : generated :=
  if is_empty (go_Output opts) then ([], Some OutputRequired)
  else
    let language := or_default (go_Language opts) "python" in
    if negb (Contains ["python"; "typescript"; "go"]%string language)
    then ([], Some (UnknownLanguage language))
    else match loadService tools (go_Source opts) (go_Service opts) with
    | inl err => ([], Some (LoadFailed err))
    | inr service =>
        match render tools opts language service with
        | inl p => recovered p
        | inr content =>
            match writeFiles tools content with
            | Some err => ([], Some (WriteFailed err))
            | None => (content.*1, None)
            end
        end
    end.
End Packages.
