(* ===== verification/Codegen.v ===== *)
(** * What the generators guarantee

    Types are rendered for every schema, generated names are identifiers,
    docstrings read back, and where generation goes wrong. *)
From S2P Require Import Prelude GoStd Json Libs Contract GoText Objects PyLiteral TypeNames PyClient TsClient GoClient Packages Printing Literals.
#[local] Open Scope Z_scope.

(** ** Objects of schemas *)

Lemma schema_of_size v : (schema_size (schema_of v) <= json_size v)%nat.
Proof. unfold schema_size. destruct v; cbn; lia. Qed.

Lemma With_size o k v new : Get o k = Some v -> (json_size new < json_size v)%nat ->
  (schema_size (With o k new) < schema_size o)%nat.
Proof.
  unfold schema_size, With. intros Hg Hn. cbn. revert Hg.
  induction o as [|[k' v'] o IH]; [done|]. cbn. destruct (String.eqb_spec k k') as [->|].
  - intros [= ->]. cbn. lia.
  - intros Hg. specialize (IH Hg). cbn. lia.
Qed.

Lemma nonempty_array_elem o k l v : nonempty_array (Get o k) = Some l -> v ∈ l ->
  (json_size v < schema_size o)%nat.
Proof.
  unfold nonempty_array, as_array. destruct (Get o k) as [[| | | |items|]|] eqn:Hg; try done.
  destruct items as [|w items]; [done|]. intros [= <-] Hv. apply Get_size in Hg.
  apply array_size in Hv. lia.
Qed.
Lemma first_variants_elem o ks l v : first_variants o ks = Some l -> v ∈ l ->
  (json_size v < schema_size o)%nat.
Proof.
  induction ks as [|k ks IH]; [done|]. cbn [first_variants].
  destruct (nonempty_array (Get o k)) eqn:Hk; [|done]. intros [= <-]. by apply (nonempty_array_elem o k).
Qed.

(** The schema a nil or missing member stands for is small. *)
Lemma empty_size o k v : Get o k = Some v -> (schema_size [] < schema_size o)%nat.
Proof. intros H%Get_size. pose proof (json_size_pos v). change (schema_size []) with 1%nat. lia. Qed.
Lemma Obj_size o k s : Obj o k = Some s -> (schema_size s < schema_size o)%nat.
Proof.
  unfold Obj, as_object. destruct (Get o k) as [[]|] eqn:Hg; try done. intros [= <-].
  apply Get_size in Hg. exact Hg.
Qed.
Lemma default_Obj_size o k k' v : Get o k' = Some v -> (schema_size (default [] (Obj o k)) < schema_size o)%nat.
Proof.
  intros Hv. destruct (Obj o k) as [s|] eqn:E; cbn; [by apply (Obj_size o k)|by apply (empty_size o k' v)].
Qed.

(** ** Types *)

Section types.
Context `{Unicode} `{FloatKinds}.

Lemma joinTypes_ext r1 r2 o l sep : (forall v, v ∈ l -> (json_size v < schema_size o)%nat) ->
  (forall s, (schema_size s < schema_size o)%nat -> r1 s = r2 s) -> joinTypes l r1 sep = joinTypes l r2 sep.
Proof.
  intros Hl Hr. unfold joinTypes. rewrite (mapM_ext_elem _ (fun v => r2 (schema_of v))); [done|].
  intros v Hv. apply Hr. specialize (Hl v Hv). pose proof (schema_of_size v). lia.
Qed.
Lemma union_ext r1 r2 o (t : list json) : Get o "type" = Some (JArray t) ->
  (forall s, (schema_size s < schema_size o)%nat -> r1 s = r2 s) ->
  mapM (fun item => r1 (With o "type" item)) t = mapM (fun item => r2 (With o "type" item)) t
  :> option (list string).
Proof.
  intros Ht Hr. apply mapM_ext_elem. intros v Hv. apply Hr. eapply With_size; [done|]. by apply array_size.
Qed.

Lemma pyType_body_ext names r1 r2 o : (forall s, (schema_size s < schema_size o)%nat -> r1 s = r2 s) ->
  pyType_body r1 names o = pyType_body r2 names o.
Proof.
  intros Hr. unfold pyType_body. case_match; [done|]. destruct (Get o "const"); [done|].
  destruct (nonempty_array (Get o "enum")); [done|].
  destruct (first_variants o _) as [l|] eqn:Hv.
  { apply (joinTypes_ext _ _ o); [|done]. intros v. by eapply first_variants_elem. }
  destruct (Get o "type") as [[| | |t|t|]|] eqn:Ht; try done.
  - repeat (case_match; [reflexivity|]). case_match.
    { rewrite Hr; [done|]. by eapply default_Obj_size. }
    case_match; [|done]. destruct (Get o "additionalProperties") as [[]|] eqn:Ha; try done;
      (rewrite Hr; [done|]); [by eapply empty_size|by apply Get_size in Ha|by eapply empty_size].
  - by rewrite (union_ext r1 r2).
Qed.

Lemma pyType_body_total names g o : is_Some (pyType_body (fun s => Some (g s)) names o).
Proof.
  unfold pyType_body. case_match; [done|]. destruct (Get o "const"); [done|].
  destruct (nonempty_array (Get o "enum")); [done|].
  destruct (first_variants o _); [by unfold joinTypes; rewrite mapM_Some_map|].
  destruct (Get o "type") as [[| | |t|t|]|]; try done; [|by rewrite mapM_Some_map].
  repeat (case_match; [done|]). case_match; [|done]. by destruct (Get o "additionalProperties") as [[]|].
Qed.

Lemma tsType_body_ext names r1 r2 o : (forall s, (schema_size s < schema_size o)%nat -> r1 s = r2 s) ->
  tsType_body r1 names o = tsType_body r2 names o.
Proof.
  intros Hr. unfold tsType_body. case_match; [done|]. destruct (Get o "const"); [done|].
  destruct (nonempty_array (Get o "enum")); [done|].
  destruct (first_variants o _) as [l|] eqn:Hv.
  { apply (joinTypes_ext _ _ o); [|done]. intros v. by eapply first_variants_elem. }
  destruct (nonempty_array (Get o "allOf")) as [l|] eqn:Ha.
  { apply (joinTypes_ext _ _ o); [|done]. intros v. by eapply nonempty_array_elem. }
  destruct (Get o "type") as [[| | |t|t|]|] eqn:Ht; try done.
  - repeat (case_match; [reflexivity|]). case_match.
    { rewrite Hr; [done|]. by eapply default_Obj_size. }
    case_match; [|done]. destruct (Get o "additionalProperties") as [[]|] eqn:Hp; try done;
      (rewrite Hr; [done|]); [by eapply empty_size|by apply Get_size in Hp|by eapply empty_size].
  - by rewrite (union_ext r1 r2).
Qed.

Lemma tsType_body_total names g o : is_Some (tsType_body (fun s => Some (g s)) names o).
Proof.
  unfold tsType_body. case_match; [done|]. destruct (Get o "const"); [done|].
  destruct (nonempty_array (Get o "enum")); [done|].
  destruct (first_variants o _); [by unfold joinTypes; rewrite mapM_Some_map|].
  destruct (nonempty_array (Get o "allOf")); [by unfold joinTypes; rewrite mapM_Some_map|].
  destruct (Get o "type") as [[| | |t|t|]|]; try done; [|by rewrite mapM_Some_map].
  repeat (case_match; [done|]). case_match; [|done]. by destruct (Get o "additionalProperties") as [[]|].
Qed.

(** Go: a nil schema is smaller than any other. *)
Definition go_size (schema : option Object) : nat :=
  match schema with Some o => schema_size o | None => 0 end.

Lemma as_object_size v : (go_size (as_object (Some v)) <= json_size v)%nat.
Proof. destruct v; cbn; unfold schema_size; cbn; lia. Qed.
Lemma go_Obj_size o k : (go_size (Obj o k) < schema_size o)%nat.
Proof.
  destruct (Obj o k) as [s|] eqn:E; [by apply (Obj_size o k)|]. cbn. lia.
Qed.

Lemma structFields_ext r1 r2 indent required o kvs s :
  (forall kv, kv ∈ kvs -> (json_size kv.2 < schema_size o)%nat) ->
  (forall x, (go_size x < schema_size o)%nat -> r1 x = r2 x) ->
  structFields r1 indent required kvs s = structFields r2 indent required kvs s.
Proof.
  intros Hk Hr. revert s. induction kvs as [|[key value] kvs IH]; intros [used [body raw]]; [done|].
  cbn [structFields]. unfold structField. destruct (next_name used _) as [used' name].
  rewrite Hr.
  - destruct (r2 _); [|done]. cbn [mbind option_bind]. apply IH. intros. apply Hk. by right.
  - pose proof (as_object_size value). specialize (Hk (key, value) ltac:(left)). cbn [snd] in Hk. lia.
Qed.

Lemma baseType_body_ext names r1 r2 x : (forall y, (go_size y < go_size x)%nat -> r1 y = r2 y) ->
  baseType_body r1 names x = baseType_body r2 names x.
Proof.
  intros Hr. destruct x as [o|]; [|done]. unfold baseType_body. case_match; [done|].
  destruct (first_variants o _) as [l|] eqn:Hv.
  { unfold base_variants. destruct (List.filter _ l) as [|v [|? ?]] eqn:Hf; try done. rewrite Hr; [done|].
    assert (v ∈ l) as Hin.
    { apply list_elem_of_In, (List.filter_In (fun v => negb (is_null_type v))). rewrite Hf. by left. }
    pose proof (first_variants_elem _ _ _ _ Hv Hin). pose proof (as_object_size v). cbn [go_size]. lia. }
  match goal with |- match _ with Some _ => _ | None => ?t1 end = match _ with Some _ => _ | None => ?t2 end =>
    assert (t1 = t2) as Htail end.
  { case_match; [done|]. destruct (Get o "type") as [[| | |t|t|]|] eqn:Ht; try done.
    - repeat (case_match; [reflexivity|]). case_match.
      { rewrite Hr; [done|]. apply go_Obj_size. }
      case_match; [|done]. destruct (Obj o "additionalProperties") as [a|] eqn:Ha.
      { rewrite Hr; [done|]. by apply (Obj_size o "additionalProperties"). }
      destruct (Obj o "properties") as [[|kv kvs]|] eqn:Hp; try done.
      unfold structBody_with. rewrite Hp. cbn [default].
      rewrite (structFields_ext r1 r2 _ _ o); [done| |done].
      intros kv' Hin. apply (member_size kv' (kv :: kvs)) in Hin. apply Obj_size in Hp. cbn [go_size]. lia.
    - destruct (kind_strings t) as [|kind [|? ?]] eqn:Hk; try done. rewrite Hr; [done|].
      eapply With_size; [done|]. assert (exists v, v ∈ t) as [v Hin].
      { destruct t as [|v t]; [done|]. exists v. left. }
      apply array_size in Hin. pose proof (json_size_pos v). change (json_size (JString kind)) with 1%nat. lia. }
  destruct (as_array (Get o "allOf")) as [[|v [|? ?]]|] eqn:Ha; try exact Htail.
  rewrite Hr; [done|]. unfold as_array in Ha. destruct (Get o "allOf") as [[| | | |l|]|] eqn:Hg; try done.
  injection Ha as ->. apply Get_size in Hg. pose proof (as_object_size v).
  pose proof (array_size v [v] ltac:(left)). cbn [go_size]. lia.
Qed.

Lemma structFields_total g indent required kvs s :
  is_Some (structFields (fun x => Some (g x)) indent required kvs s).
Proof.
  revert s. induction kvs as [|[key value] kvs IH]; intros [used [body raw]]; [done|].
  cbn [structFields]. unfold structField. destruct (next_name used _). apply IH.
Qed.

Lemma baseType_body_total names g x : is_Some (baseType_body (fun y => Some (g y)) names x).
Proof.
  destruct x as [o|]; [|done]. unfold baseType_body. case_match; [done|].
  destruct (first_variants o _).
  { unfold base_variants. destruct (List.filter _ l) as [|? [|? ?]]; try done. cbn.
    by destruct (g _) as [[? ?] ?]. }
  match goal with |- is_Some (match _ with Some _ => _ | None => ?t1 end) => assert (is_Some t1) as Htail end.
  { case_match; [done|]. destruct (Get o "type") as [[| | |t|t|]|]; try done.
    - repeat (case_match; [done|]). case_match; [cbn; by destruct (g _) as [[? ?] ?]|]. case_match; [|done].
      case_match; [cbn; by destruct (g _) as [[? ?] ?]|]. case_match; [case_match; [done|]|done].
      unfold structBody_with. destruct (structFields_total g EmptyString
        (stringSet (Strings o "required")) (default [] (Obj o "properties")) (∅, (EmptyString, false))) as [[? ?] ->].
      done.
    - destruct (kind_strings t) as [|kind [|? ?]]; try done. cbn. by destruct (g _) as [[? ?] ?]. }
  by destruct (as_array (Get o "allOf")) as [[|v [|? ?]]|].
Qed.
End types.

(** A type is rendered for every schema, however its references, unions
    and containers are nested: the recursion of each generator calls itself on
    smaller schemas only, so that as much fuel as the size of the schema is enough,
    and what it renders fulfils the equation of one call. *)
Theorem types_rendered `{Unicode} `{FloatKinds} (schema : Object) names :
  (forall fuel, (schema_size schema < fuel)%nat ->
     pyType_fuel fuel names schema = Some (pyType schema names) /\
     tsType_fuel fuel names schema = Some (tsType schema names) /\
     baseType_fuel fuel names (Some schema) = Some (baseType (Some schema) names)) /\
  pyType_body (fun s => Some (pyType s names)) names schema = Some (pyType schema names) /\
  tsType_body (fun s => Some (tsType s names)) names schema = Some (tsType schema names) /\
  baseType_body (fun s => Some (baseType s names)) names (Some schema) = Some (baseType (Some schema) names).
Proof.
  pose proof (iterate_iterated schema_size (fun rec => pyType_body rec names)
    (pyType_body_ext names) (pyType_body_total names)) as Py.
  pose proof (iterate_iterated schema_size (fun rec => tsType_body rec names)
    (tsType_body_ext names) (tsType_body_total names)) as Ts.
  pose proof (iterate_iterated go_size (fun rec => baseType_body rec names)
    (baseType_body_ext names) (baseType_body_total names)) as Go.
  assert (forall s, pyType s names = iterated schema_size (fun rec => pyType_body rec names) s) as Ep.
  { intros s. unfold pyType, pyType_fuel. by rewrite Py by lia. }
  assert (forall s, tsType s names = iterated schema_size (fun rec => tsType_body rec names) s) as Et.
  { intros s. unfold tsType, tsType_fuel. by rewrite Ts by lia. }
  assert (forall s, baseType s names = iterated go_size (fun rec => baseType_body rec names) s) as Eg.
  { intros s. unfold baseType, baseType_fuel. rewrite Go; [done|]. destruct s; cbn; lia. }
  split_and!.
  - intros fuel Hf. rewrite Ep, Et, Eg. by split_and!; [apply Py|apply Ts|apply Go].
  - rewrite Ep, <- (iterated_equation schema_size _ (pyType_body_ext names) (pyType_body_total names)).
    apply pyType_body_ext. intros s _. by rewrite Ep.
  - rewrite Et, <- (iterated_equation schema_size _ (tsType_body_ext names) (tsType_body_total names)).
    apply tsType_body_ext. intros s _. by rewrite Et.
  - rewrite Eg, <- (iterated_equation go_size _ (baseType_body_ext names) (baseType_body_total names)).
    apply baseType_body_ext. intros s _. by rewrite Eg.
Qed.

(** ** Docstrings *)

(** The rest of a literal behind its three opening quotes: up to three quotes that
    are not escaped.  Python has no NUL in a source and turns CR into LF; the
    reader rejects both. *)
Fixpoint doc_body (fuel : nat) (s : string) : option (string * string) :=
  match fuel, s with
  | S fuel, String c s' =>
      if HasPrefix s q3 then Some (EmptyString, drop_bytes 3 s)
      else if (byte c =? 0) || (byte c =? 13) then None
      else if byte c =? 92 then
        '(t, r) ← py_escape s';
        '(u, r) ← doc_body fuel r;
        Some (t +:+ u, r)
      else
        '(u, r) ← doc_body fuel s';
        Some (String c u, r)
  | _, _ => None
  end.
Definition doc_literal (s : string) : option (string * string) :=
  if HasPrefix s q3 then doc_body (String.length s) (drop_bytes 3 s) else None.

Lemma replace_from_drop n old new s : replace_from n old new s = ReplaceAll (drop_bytes n s) old new.
Proof. revert s. induction n as [|n IH]; intros [|c s]; try done. apply IH. Qed.

Lemma ReplaceAll_cons old new c s : ReplaceAll (String c s) old new =
  if HasPrefix (String c s) old then new +:+ ReplaceAll (drop_bytes (String.length old - 1) s) old new
  else String c (ReplaceAll s old new).
Proof.
  unfold ReplaceAll at 1, HasPrefix. cbn [replace_from].
  destruct (String.prefix old (String c s)); [|done]. by rewrite replace_from_drop.
Qed.

Definition escape (t : string) : string :=
  ReplaceAll (ReplaceAll t bs (bs +:+ bs)) q3 (bs +:+ dqs +:+ bs +:+ dqs +:+ bs +:+ dqs).
Definition doubled (t : string) : string := ReplaceAll t bs (bs +:+ bs).

Lemma doubled_cons c t : doubled (String c t) =
  if byte c =? 92 then bs +:+ bs +:+ doubled t else String c (doubled t).
Proof.
  unfold doubled. rewrite ReplaceAll_cons. unfold HasPrefix, bs, chr. cbn [String.prefix].
  destruct (ascii_dec (of_byte 92) c) as [<-|Hc].
  - assert (String.prefix EmptyString t = true) as -> by by destruct t. reflexivity.
  - destruct (Z.eqb_spec (byte c) 92) as [Hb|]; [|done]. exfalso. apply Hc.
    rewrite <- Hb. unfold of_byte, byte. by rewrite N2Z.id, ascii_N_embedding.
Qed.

Lemma byte_quote c : byte c = 34 <-> c = dq.
Proof.
  split; [|by intros ->]. intros Hc. transitivity (of_byte (byte c)); [|by rewrite Hc].
  unfold of_byte, byte. by rewrite N2Z.id, ascii_N_embedding.
Qed.

(** A text that starts with three quotes, and one that does not. *)
Lemma doubled_q3 t : HasPrefix (doubled t) q3 = true -> exists t', t = q3 +:+ t'.
Proof.
  assert (forall c u, HasPrefix (doubled u) (String dq c) = true -> exists u',
    u = String dq u' /\ HasPrefix (doubled u') c = true) as Hone.
  { intros c [|d u]; [done|]. rewrite doubled_cons. unfold HasPrefix. destruct (Z.eqb_spec (byte d) 92).
    - discriminate 1.
    - cbn [String.prefix]. destruct (ascii_dec dq d) as [<-|]; [|done]. eauto. }
  intros H. apply (Hone (dqs +:+ dqs)) in H as (t1 & -> & H). apply (Hone dqs) in H as (t2 & -> & H).
  apply (Hone EmptyString) in H as (t3 & -> & _). by exists t3.
Qed.

Definition no_quote_end (t : string) : Prop := forall u, t <> u +:+ dqs.
Definition plain_text (t : string) : bool :=
  negb (ContainsByte t (of_byte 0)) && negb (ContainsByte t (of_byte 13)).

Lemma escape_cons c t : HasPrefix (doubled (String c t)) q3 = false ->
  escape (String c t) = (if byte c =? 92 then bs +:+ bs else String c EmptyString) +:+ escape t.
Proof.
  intros Hp. unfold escape. fold (doubled (String c t)) (doubled t). rewrite doubled_cons in *.
  destruct (Z.eqb_spec (byte c) 92) as [Hb|].
  - change (bs +:+ bs +:+ doubled t) with (String (of_byte 92) (String (of_byte 92) (doubled t))).
    rewrite !ReplaceAll_cons. done.
  - rewrite ReplaceAll_cons, Hp. done.
Qed.

Lemma escape_q3 t : escape (q3 +:+ t) = bs +:+ dqs +:+ bs +:+ dqs +:+ bs +:+ dqs +:+ escape t.
Proof.
  unfold escape. fold (doubled (q3 +:+ t)) (doubled t).
  change (q3 +:+ t) with (String dq (String dq (String dq t))). rewrite !doubled_cons.
  change (byte dq =? 92) with false. cbn iota.
  rewrite ReplaceAll_cons.
  change (String dq (String dq (String dq (doubled t)))) with (q3 +:+ doubled t) at 1.
  rewrite HasPrefix_app. by rewrite !append_assoc.
Qed.

Lemma prefix_first c s : c <> dq -> HasPrefix (String c s) q3 = false.
Proof.
  intros Hc. unfold HasPrefix. change q3 with (String dq (dqs +:+ dqs)). cbn [String.prefix].
  destruct (ascii_dec dq c); [congruence|done].
Qed.
Lemma prefix_dq s w : HasPrefix (String dq s) (dqs +:+ w) = HasPrefix s w.
Proof.
  unfold HasPrefix. change (dqs +:+ w) with (String dq w). cbn [String.prefix].
  by destruct (ascii_dec dq dq).
Qed.

Lemma doubled_first c t : c <> dq -> HasPrefix (doubled (String c t)) q3 = false.
Proof.
  intros Hc. rewrite doubled_cons. destruct (Z.eqb_spec (byte c) 92); [by apply prefix_first|].
  by apply prefix_first.
Qed.
Lemma escape_first c t : c <> dq -> exists c' u, escape (String c t) = String c' u /\ c' <> dq.
Proof.
  intros Hc. rewrite escape_cons by by apply doubled_first.
  destruct (Z.eqb_spec (byte c) 92); [|by exists c, (escape t)].
  exists (of_byte 92), (bs +:+ escape t). split; [done|discriminate].
Qed.

(** A quote that is written as it is ends nothing. *)
Lemma escape_no_end c t x : HasPrefix (doubled (String c t)) q3 = false -> no_quote_end (String c t) ->
  byte c <> 92 -> HasPrefix (String c (escape t +:+ x)) q3 = false.
Proof.
  intros Hp Hend Hbs. destruct (decide (c = dq)) as [->|Hc]; [|by apply prefix_first].
  destruct t as [|d t]; [exfalso; by apply (Hend EmptyString)|].
  change q3 with (dqs +:+ dqs +:+ dqs). rewrite prefix_dq. destruct (decide (d = dq)) as [->|Hd].
  2: { destruct (escape_first d t Hd) as (d' & u & -> & Hd'). rewrite append_cons.
       unfold HasPrefix. change (dqs +:+ dqs) with (String dq dqs). cbn [String.prefix].
       by destruct (ascii_dec dq d') as [<-|]. }
  destruct t as [|e t]; [exfalso; by apply (Hend dqs)|].
  assert (e <> dq) as He.
  { intros ->. rewrite !doubled_cons in Hp. change (byte dq =? 92) with false in Hp. cbn iota in Hp.
    change (String dq (String dq (String dq (doubled t)))) with (q3 +:+ doubled t) in Hp.
    by rewrite HasPrefix_app in Hp. }
  rewrite escape_cons.
  2: { rewrite doubled_cons. change (byte dq =? 92) with false. cbn iota.
       change q3 with (dqs +:+ dqs +:+ dqs). rewrite prefix_dq, doubled_cons. unfold HasPrefix.
       change (dqs +:+ dqs) with (String dq dqs). destruct (byte e =? 92); [done|].
       cbn [String.prefix]. by destruct (ascii_dec dq e) as [<-|]. }
  change (byte dq =? 92) with false. cbn iota. rewrite append_assoc, append_cons, prefix_dq.
  destruct (escape_first e t He) as (e' & u & -> & He'). rewrite append_cons.
  change (EmptyString +:+ ?y) with y. unfold HasPrefix. change dqs with (String dq EmptyString). cbn [String.prefix]. by destruct (ascii_dec dq e') as [<-|].
Qed.

Lemma doc_body_escape fuel s e t : py_escape s = Some (e, t) ->
  doc_body (S fuel) (bs +:+ s) = ('(u, r) ← doc_body fuel t; Some (e +:+ u, r)).
Proof.
  intros He. change (bs +:+ s) with (String (of_byte 92) s). cbn [doc_body].
  rewrite prefix_first by done. change (byte (of_byte 92)) with 92.
  change ((92 =? 0) || (92 =? 13)) with false. change (92 =? 92) with true. cbn iota. by rewrite He.
Qed.

Lemma no_quote_end_tail s t : no_quote_end (s +:+ t) -> no_quote_end t.
Proof. intros H u ->. apply (H (s +:+ u)). by rewrite append_assoc. Qed.

Lemma doc_body_end fuel rest : doc_body (S fuel) (q3 +:+ rest) = Some (EmptyString, rest).
Proof.
  change (q3 +:+ rest) with (String dq (dqs +:+ dqs +:+ rest)). cbn [doc_body].
  change (String dq (dqs +:+ dqs +:+ rest)) with (q3 +:+ rest). by rewrite HasPrefix_app.
Qed.

Lemma doc_body_reads rest n : forall t fuel, (String.length t <= n)%nat -> plain_text t = true ->
  no_quote_end t -> (String.length (escape t) < fuel)%nat ->
  doc_body fuel (escape t +:+ q3 +:+ rest) = Some (t, rest).
Proof.
  induction n as [|n IH]; intros [|c t] [|fuel] Hlen Hplain Hend Hf; cbn in Hlen; try lia;
    try apply doc_body_end.
  destruct (HasPrefix (doubled (String c t)) q3) eqn:Hp.
  - destruct (doubled_q3 _ Hp) as (t' & Ht). rewrite Ht in *. clear Hp.
    rewrite escape_q3 in *. rewrite !length_append in Hf.
    change (String.length bs) with 1%nat in Hf. change (String.length dqs) with 1%nat in Hf.
    do 2 (destruct fuel as [|fuel]; [lia|]). rewrite !append_assoc.
    assert (forall x, py_escape (dqs +:+ x) = Some (dqs, x)) as Hq by done.
    do 3 (rewrite (doc_body_escape _ _ _ _ (Hq _))). apply (f_equal String.length) in Ht as Hl.
    rewrite length_append in Hl. change (String.length q3) with 3%nat in Hl. cbn [String.length] in Hl.
    rewrite IH; [done|lia|by unfold plain_text in *|by apply (no_quote_end_tail q3)|lia].
  - pose proof Hplain as Hc. unfold plain_text in Hc. cbn [ContainsByte] in Hc. unbool.
    assert (plain_text t = true) as Ht by (unfold plain_text; by rewrite H1, H2).
    rewrite escape_cons in * by done. destruct (Z.eqb_spec (byte c) 92) as [Hb|Hb].
    + rewrite !append_assoc in *. rewrite !length_append in Hf. change (String.length bs) with 1%nat in Hf.
      rewrite (doc_body_escape _ _ (String c EmptyString) (escape t +:+ q3 +:+ rest)).
      * rewrite IH; [done|lia|done|by apply (no_quote_end_tail (String c EmptyString))|lia].
      * assert (c = of_byte 92) as ->; [|done]. rewrite <- Hb. unfold of_byte, byte.
        by rewrite N2Z.id, ascii_N_embedding.
    + change ((String c EmptyString +:+ escape t) +:+ q3 +:+ rest)
        with (String c (escape t +:+ q3 +:+ rest)).
      rewrite length_append in Hf. cbn [String.length doc_body] in *. rewrite escape_no_end by done.
      assert (forall z, 0 <= z < 256 -> Ascii.eqb (of_byte z) c = false -> (byte c =? z) = false) as Hz.
      { intros z Hz Hne. apply Z.eqb_neq. intros Hcz. apply Ascii.eqb_neq in Hne. apply Hne.
        rewrite <- Hcz. unfold of_byte, byte. by rewrite N2Z.id, ascii_N_embedding. }
      rewrite !Hz by (done || lia). cbn [orb]. destruct (Z.eqb_spec (byte c) 92); [done|].
      rewrite IH; [done|lia|done|by apply (no_quote_end_tail (String c EmptyString))|lia].
Qed.

Lemma Split_single sep s : ContainsByte s sep = false -> Split sep s = [s].
Proof.
  induction s as [|c s IH]; [done|]. cbn [ContainsByte Split]. intros [Hc Hs]%orb_false_iff.
  rewrite Ascii.eqb_sym, Hc, IH by done. done.
Qed.

Lemma ReplaceAll_byte s old new c : ContainsByte s c = false -> ContainsByte new c = false ->
  ContainsByte (ReplaceAll s old new) c = false.
Proof.
  intros Hs Hn. assert (forall n, ContainsByte (replace_from n old new s) c = false) as H; [|apply H].
  induction s as [|d s IH]; [by intros [|n]|]. cbn [ContainsByte] in Hs. apply orb_false_iff in Hs as [Hd Hs].
  intros [|n]; cbn [replace_from]; [|by apply IH]. case_match.
  - rewrite ContainsByte_app, Hn. by apply IH.
  - cbn [ContainsByte]. rewrite Hd. by apply IH.
Qed.

Lemma suffix_no_quote_end t : HasSuffix t dqs = false -> no_quote_end t.
Proof.
  intros H u ->. revert H. unfold HasSuffix. rewrite length_append. change (String.length dqs) with 1%nat.
  rewrite Nat.add_sub, drop_bytes_app. replace (1 <=? String.length u + 1)%nat with true; [done|].
  symmetry. apply Nat.leb_le. lia.
Qed.

(** A description of one line, trimmed, becomes a docstring that denotes it,
    backslashes and quotes included, if it does not end in a double quote. *)
Theorem docstring_reads_back text indent rest t :
  t = TrimSpace_ text -> is_empty text = false -> ContainsByte t (of_byte 10) = false ->
  plain_text t = true -> HasSuffix t dqs = false ->
  exists literal, pyDocstringLines (Some text) indent = [indent +:+ literal] /\
    doc_literal (literal +:+ rest) = Some (t, rest).
Proof.
  intros Ht Htext Hline Hplain Hend%suffix_no_quote_end. exists (q3 +:+ escape t +:+ q3). split.
  - unfold pyDocstringLines. destruct text as [|c text]; [done|]. unfold docstring_body. rewrite <- Ht.
    fold (escape t). rewrite Split_single; [done|].
    unfold escape. apply ReplaceAll_byte; [|done]. by apply ReplaceAll_byte.
  - unfold doc_literal. rewrite !append_assoc, HasPrefix_app.
    change (drop_bytes 3 ?x) with (drop_bytes (String.length q3) x). rewrite drop_bytes_app.
    apply (doc_body_reads rest (String.length t)); [done..|]. rewrite !length_append.
    change (String.length q3) with 3%nat. lia.
Qed.

Lemma docstring_reads_back_witness :
  let t := text_of [115; 97; 121; 32; 34; 34; 34; 92; 34; 33] in
  exists literal, pyDocstringLines (Some (" " +:+ t +:+ " ")) "    " = ["    " +:+ literal] /\
    doc_literal (literal +:+ nl) = Some (t, nl).
Proof.
  cbn zeta. refine (docstring_reads_back _ _ _ _ _ _ _ _ _); by vm_compute.
Defined.

(** A description that ends in a double quote becomes a docstring that
    ends one quote early: Python reads what stands before it, and the rest of the
    line opens a string that the line does not end, a syntax error. *)
Theorem docstring_trailing_quote :
  pyDocstringLines (Some (text "say 'hi'")) EmptyString = [text "'''say 'hi''''"] /\
  doc_literal (text "'''say 'hi''''" +:+ nl) = Some (text "say 'hi", dqs +:+ nl) /\
  py_literal (dqs +:+ nl) = None.
Proof. by vm_compute. Qed.

(** ** Identifiers *)

Fixpoint every_byte (p : Z -> bool) (s : string) : bool :=
  match s with
  | EmptyString => true
  | String c s => p (byte c) && every_byte p s
  end.

Lemma every_byte_app p s t : every_byte p (s +:+ t) = every_byte p s && every_byte p t.
Proof. induction s as [|c s IH]; [done|]. rewrite append_cons. cbn [every_byte]. by rewrite IH, andb_assoc. Qed.
Lemma every_byte_concat p l : Forall (fun s => every_byte p s = true) l -> every_byte p (concat_text l) = true.
Proof. induction 1 as [|s l Hs _ IH]; [done|]. cbn [concat_text]. by rewrite every_byte_app, Hs. Qed.
Lemma every_byte_imp (p p' : Z -> bool) s : (forall r, p r = true -> p' r = true) ->
  every_byte p s = true -> every_byte p' s = true.
Proof.
  intros Hp. induction s as [|c s IH]; [done|]. cbn [every_byte]. intros [Hc Hs]%andb_true_iff.
  by rewrite Hp, IH.
Qed.
Lemma ts_bytes_all s : ts_bytes s = every_byte ts_rune s.
Proof. induction s as [|c s IH]; [done|]. cbn [ts_bytes every_byte]. by rewrite IH. Qed.

(** A rune below 128 is a byte of its own. *)
Lemma decode_rune_ascii c s r w : decode_rune c s = (r, w) -> r < 128 -> byte c = r /\ w = 1%nat.
Proof.
  unfold decode_rune. pose proof (byte_range c). destruct (Z.ltb_spec (byte c) 128).
  { by intros [= <- <-] _. }
  unfold utf8_first, RuneError, in_range. rewrite !low5, !low4, !low3.
  intros Hd Hr. exfalso.
  repeat (case_match; try (simplify_eq/=; lia)); simplify_eq/=; rewrite ?low6 in *; euclid.
Qed.

Definition rune_bytes (rb : Z * string) : Prop :=
  rb.1 < 128 -> exists c, rb.2 = String c EmptyString /\ byte c = rb.1.
Lemma runes_bytes s : Forall rune_bytes (runes s).
Proof.
  unfold runes. generalize (String.length s) as n. intros n. revert s.
  induction n as [|n IH]; intros [|c s]; try constructor. cbn [runes_fuel].
  destruct (decode_rune c s) as [r w] eqn:Hd. constructor; [|apply IH].
  intros Hr. destruct (decode_rune_ascii _ _ _ _ Hd Hr) as [Hc ->]. exists c.
  split; [|done]. cbn. by destruct s.
Qed.

Lemma rune_bytes_all p rb : (forall r, p r = true -> r < 128) -> rune_bytes rb -> p rb.1 = true ->
  every_byte p rb.2 = true.
Proof. intros Hp Hb Hr. destruct (Hb (Hp _ Hr)) as (c & -> & Hc). cbn. by rewrite Hc, Hr. Qed.

Lemma replace_runes_bytes p s : (forall r, p r = true -> r < 128) -> p 95 = true ->
  every_byte p (replace_runes p "_" s) = true.
Proof.
  intros Hp H95. unfold replace_runes. apply every_byte_concat, Forall_fmap.
  eapply Forall_impl; [apply runes_bytes|]. intros rb Hb. cbn. destruct (p rb.1) eqn:Hr.
  - by apply rune_bytes_all.
  - cbn. change (byte "_") with 95. by rewrite H95.
Qed.

Lemma word_rune_ascii r : word_rune r = true -> r < 128.
Proof. unfold word_rune, upper_rune, lower_rune, digit_rune, in_range. lia. Qed.
Lemma ts_rune_ascii r : ts_rune r = true -> r < 128.
Proof. unfold ts_rune. intros [H%word_rune_ascii|H]%orb_true_iff; lia. Qed.
Lemma alnum_word r : alnum_rune r = true -> word_rune r = true.
Proof. unfold word_rune, alnum_rune. by intros ->. Qed.

(** Identifiers of Python, TypeScript ([tsIdentifierRe]) and exported ones of Go. *)
Definition py_identifier (s : string) : bool :=
  negb (is_empty s) && negb (digit_first s) && every_byte word_rune s.
Definition go_exported (s : string) : bool :=
  match s with
  | String c _ => upper_rune (byte c) && every_byte alnum_rune s
  | EmptyString => false
  end.

Lemma pyClassName_identifier v fallback : py_identifier fallback = true ->
  py_identifier (pyClassName v fallback) = true.
Proof.
  intros Hf. unfold pyClassName. pose proof (replace_runes_bytes word_rune v word_rune_ascii eq_refl) as Hb.
  destruct (is_empty _) eqn:He; [done|]. destruct (digit_first _) eqn:Hd.
  - unfold py_identifier. change ("Model_" +:+ ?x) with (String "M" ("odel_" +:+ x)).
    cbn [is_empty String.eqb digit_first]. cbn [negb andb]. change (String "M" ("odel_" +:+ ?x)) with ("Model_" +:+ x).
    by rewrite every_byte_app, Hb.
  - unfold py_identifier. by rewrite He, Hd, Hb.
Qed.

Lemma tsIdentifier_identifier v fallback : tsIdentifierRe fallback = true ->
  tsIdentifierRe (tsIdentifier v fallback) = true.
Proof.
  intros Hf. unfold tsIdentifier. pose proof (replace_runes_bytes ts_rune v ts_rune_ascii eq_refl) as Hb.
  destruct (is_empty _) eqn:He; [done|]. destruct (digit_first _) eqn:Hd; unfold tsIdentifierRe.
  - change ("_" +:+ ?x) with (String "_" x). cbn [is_empty String.eqb digit_first ts_bytes].
    by rewrite ts_bytes_all, Hb.
  - by rewrite He, Hd, ts_bytes_all, Hb.
Qed.

Lemma pyFieldName_identifier v : py_identifier (pyFieldName v) = true /\
  Contains pyKeywords (pyFieldName v) = false.
Proof.
  unfold pyFieldName. pose proof (replace_runes_bytes word_rune v word_rune_ascii eq_refl) as Hb.
  set (x := replace_runes word_rune "_" v) in *.
  set (y := if is_empty x || digit_first x then "field_" +:+ x else x).
  assert (py_identifier y = true) as Hy.
  { subst y. destruct (is_empty x || digit_first x) eqn:E.
    - unfold py_identifier. change ("field_" +:+ x) with (String "f" ("ield_" +:+ x)) at 1 2.
      cbn [is_empty String.eqb digit_first negb andb]. by rewrite every_byte_app, Hb.
    - apply orb_false_iff in E as [He Hd]. unfold py_identifier. by rewrite He, Hd, Hb. }
  clearbody y. destruct (Contains pyKeywords y) eqn:Hk; [|done]. apply Contains_spec in Hk.
  unfold pyKeywords, stringSet in Hk. repeat (apply elem_of_cons in Hk as [->|Hk]; [by vm_compute|]).
  by apply not_elem_of_nil in Hk.
Qed.

(** What the code relies on in the tables of package unicode. *)
Class UnicodeLaws `{Unicode} : Prop :=
  ToUpper_ascii : forall r, alnum_rune r = true -> ToUpper r = if lower_rune r then r - 32 else r.

Section Go.
Context `{UnicodeLaws}.

Lemma alnum_rune_ascii r : alnum_rune r = true -> 0 <= r < 128.
Proof. unfold alnum_rune, upper_rune, lower_rune, digit_rune, in_range. lia. Qed.

Lemma runs_bytes l word : Forall rune_bytes l -> every_byte alnum_rune word = true ->
  Forall (fun w => every_byte alnum_rune w = true) (runs alnum_rune word l).
Proof.
  intros Hl. revert word. induction Hl as [|[r b] l Hb _ IH]; intros word Hw; [by repeat constructor|].
  cbn [runs]. destruct (alnum_rune r) eqn:Hr; [|by constructor; [|apply IH]].
  apply IH. rewrite every_byte_app, Hw. apply (rune_bytes_all alnum_rune (r, b)); [|done..].
  intros x Hx. by apply alnum_rune_ascii.
Qed.

Lemma words_bytes s : Forall (fun w => every_byte alnum_rune w = true /\ w <> EmptyString) (words s).
Proof.
  unfold words. apply Forall_forall. intros w Hw%list_elem_of_In%List.filter_In. destruct Hw as [Hw Hne].
  split; [|by intros ->]. pose proof (runs_bytes (runes s) EmptyString (runes_bytes s) eq_refl) as Hall.
  rewrite Forall_forall in Hall. by apply Hall, list_elem_of_In.
Qed.

(** A word begins with an upper-case letter or a digit. *)
Definition capital (s : string) : bool :=
  match s with
  | String c _ => (upper_rune (byte c) || digit_rune (byte c)) && every_byte alnum_rune s
  | EmptyString => false
  end.

Lemma runes_cons c s : byte c < 128 -> runes (String c s) = (byte c, String c EmptyString) :: runes s.
Proof.
  intros Hc. unfold runes. cbn [String.length runes_fuel]. unfold decode_rune.
  destruct (Z.ltb_spec (byte c) 128); [|lia]. cbn [take_bytes drop_bytes]. by destruct s.
Qed.

Lemma runes_alnum s : every_byte alnum_rune s = true -> concat_text (runes s).*2 = s.
Proof.
  induction s as [|c s IH]; [done|]. cbn [every_byte]. intros [Hc Hs]%andb_true_iff.
  apply alnum_rune_ascii in Hc. rewrite runes_cons by lia. cbn [fmap list_fmap concat_text snd].
  transitivity (String c EmptyString +:+ concat_text (runes s).*2); [done|]. by rewrite IH.
Qed.

Lemma go_word_capital w : every_byte alnum_rune w = true -> w <> EmptyString -> capital (go_word w) = true.
Proof.
  intros Hw Hne. unfold go_word.
  destruct (List.find _ goInitialisms) as [[k upper]|] eqn:Hf.
  { apply List.find_some in Hf as [Hin _]. apply list_elem_of_In in Hin. unfold goInitialisms in Hin.
    repeat (apply elem_of_cons in Hin as [[= -> ->]|Hin]; [done|]). by apply not_elem_of_nil in Hin. }
  destruct w as [|c w]; [done|]. cbn [every_byte] in Hw. apply andb_true_iff in Hw as [Hc Hw].
  pose proof (alnum_rune_ascii _ Hc). unfold capitalised. rewrite runes_cons by lia.
  rewrite runes_alnum by done. rewrite ToUpper_ascii by done.
  assert (exists r, (if lower_rune (byte c) then byte c - 32 else byte c) = r /\ 0 <= r < 128 /\
    upper_rune r || digit_rune r = true) as (r & -> & Hr & Hu).
  { eexists. split; [done|]. unfold alnum_rune, upper_rune, lower_rune, digit_rune, in_range in *.
    case_match; lia. }
  rewrite ascii_rune by lia. unfold chr. rewrite append_cons. cbn [capital every_byte].
  rewrite byte_of_byte by lia. rewrite Hu. change (EmptyString +:+ w) with w. rewrite Hw, andb_true_r.
  unfold alnum_rune. by destruct (upper_rune r), (lower_rune r), (digit_rune r).
Qed.

Lemma goIdentifier_exported v fallback : go_exported fallback = true ->
  go_exported (goIdentifier v fallback) = true.
Proof.
  intros Hf. unfold goIdentifier. pose proof (words_bytes (ReplaceAll v "_" " ")) as Hw.
  assert (Forall (fun s => capital s = true) (go_word <$> words (ReplaceAll v "_" " "))) as Hcap.
  { apply Forall_fmap. eapply Forall_impl; [done|]. intros w [? ?]. by apply go_word_capital. }
  clear Hw. set (l := go_word <$> _) in *. clearbody l.
  assert (forall s, capital s = true -> every_byte alnum_rune s = true) as Hall.
  { intros [|c s]; [done|]. by intros [_ Hs]%andb_true_iff. }
  assert (every_byte alnum_rune (concat_text l) = true) as Hb.
  { apply every_byte_concat. eapply Forall_impl; [done|]. auto. }
  destruct Hcap as [|s l Hs _]; [done|]. destruct s as [|c s]; [done|]. cbn [concat_text] in *.
  rewrite append_cons in *. cbn [is_empty String.eqb digit_first]. destruct (is_digit c) eqn:Hd.
  - change ("X" +:+ ?x) with (String "X" x). cbn [go_exported]. change (upper_rune (byte "X")) with true.
    cbn [andb]. exact Hb.
  - cbn [go_exported]. rewrite Hb, andb_true_r. cbn [capital] in Hs. apply andb_true_iff in Hs as [Hs _].
    unfold is_digit in Hd. unfold digit_rune in Hs. by rewrite Hd, orb_false_r in Hs.
Qed.
End Go.


Lemma ascii_tables_laws : @UnicodeLaws ascii_tables.
Proof.
  intros r Hr. unfold alnum_rune, upper_rune, lower_rune, digit_rune, in_range in *. cbn.
  unfold in_range. done.
Qed.


(** ** [Generate] *)

Section Generate.
Context `{Unicode} `{FloatKinds}.

Lemma PythonPackage_files service opts content : PythonPackage service opts = inr content -> content <> [].
Proof.
  unfold PythonPackage. intros (? & _ & Hc)%bind_inr. apply bind_inr in Hc as (? & _ & Hc).
  apply bind_inr in Hc as (? & _ & Hc). by apply ret_inr in Hc as <-.
Qed.
Lemma TypeScriptPackage_files service opts content :
  TypeScriptPackage service opts = inr content -> content <> [].
Proof.
  unfold TypeScriptPackage. intros (? & _ & Hc)%bind_inr. apply bind_inr in Hc as (? & _ & Hc).
  apply bind_inr in Hc as (? & _ & Hc). by apply ret_inr in Hc as <-.
Qed.

Lemma render_files tools opts language service content :
  render tools opts language service = inr content -> content <> [].
Proof.
  unfold render. repeat case_match; intros (c & Hc & Hr)%bind_inr; apply ret_inr in Hr as <-; try done.
  - apply PythonPackage_files in Hc. by destruct c.
  - apply TypeScriptPackage_files in Hc. by destruct c.
Qed.
End Generate.


(** A contract: a method with a parameter that its request lacks. *)
Definition contract_service (t : string) : option Service :=
  match Parse (text t) with
  | inr d => match Select d EmptyString with inr s => Some s | inl _ => None end
  | inl _ => None
  end.
Definition lacking_parameter : string :=
  "{'services':[{'name':'S','source_qualname':'S','methods':[{'name':'m','stream':'unary','parameters':['x'],'request':{'module':'a','qualname':'Q','schema':{'type':'object','properties':{}}},'response':{'module':'a','qualname':'R','schema':{'type':'object'}}}]}]}".
Definition only_loads (service : Service) : Tools :=
  MkTools (fun s => inr s) (fun a b => a +:+ "/" +:+ b) (fun _ _ => inr service)
    (fun _ => Some "the disk is full"%string).
Definition generate_for (language : string) : GenerateOptions :=
  MkGenerateOptions "c.json" EmptyString language "out" false EmptyString EmptyString EmptyString
    EmptyString EmptyString EmptyString.

Theorem generate_hides_errors : exists service, contract_service lacking_parameter = Some service /\
  Forall (fun language =>
    @Generate ascii_tables one_float one_kind (only_loads service) (generate_for language) = ([], None))
    ["python"; "typescript"; "go"]%string.
Proof. eexists. split; [vm_compute; reflexivity|]. by repeat constructor. Qed.

(** ** Names that clash *)

(** Three types: X of module a, X of module b, and X2. *)
Definition clashing : string :=
  "{'services':[{'name':'S','source_qualname':'S','methods':[{'name':'m','stream':'unary','request':{'module':'a','qualname':'X','schema':{'type':'object'}},'response':{'module':'b','qualname':'X','schema':{'type':'object','properties':{'k':{'type':'string'}}}}},{'name':'n','stream':'unary','request':{'module':'a','qualname':'X2','schema':{'type':'object'}},'response':{'module':'a','qualname':'X','schema':{'type':'object'}}}]}]}".

(** Two types of a contract can get one name: the second X is numbered X2
    although the contract has a type X2, and the Python module defines the class
    X2 twice. *)
Theorem type_name_clash : exists service r, contract_service clashing = Some service /\
  @newTypeRegistry one_float service pyClassName = inr r /\
  TypeNames r = ["X"; "X2"; "X2"]%string /\
  NoDup (key_of <$> rg_refs r) /\
  (exists lines, @renderPythonModelDeclarations ascii_tables one_float one_kind r = inr lines /\
     length (List.filter (String.eqb "class X2(BaseModel):") lines) = 2%nat).
Proof.
  eexists _, _. split; [vm_compute; reflexivity|]. split; [vm_compute; reflexivity|].
  split; [vm_compute; reflexivity|]. split.
  - apply (bool_decide_eq_true_1 _). vm_compute. reflexivity.
  - eexists. split; vm_compute; reflexivity.
Qed.

(** A root and a definition, which gets the prefix of its root. *)
Definition prefixing : string :=
  "{'services':[{'name':'S','source_qualname':'S','methods':[{'name':'m','stream':'unary','request':{'module':'a','qualname':'X','schema':{'type':'object','$defs':{'R':{'type':'object'},'D':{'type':'object'}}}},'response':{'module':'b','qualname':'R','schema':{'type':'object'}}}]}]}".

