(* ===== verification/Golden.v ===== *)
(** * Expected output: internal/codegen/testdata/quickstart

    The contract of the test case and the files that the repository's tests expect
    for it, byte for byte; the tests compare them with [TestGeneratorsMatchGolden].
    Here [~] stands for the quotation mark. *)
From S2P Require Import Prelude GoStd Json Libs Contract GoText Objects PyLiteral TypeNames PyClient TsClient GoClient Packages Literals Codegen.
#[local] Open Scope Z_scope.

Fixpoint marked (s : string) : string :=
  match s with
  | EmptyString => EmptyString
  | String c s => String (if Ascii.eqb c "~" then dq else c) (marked s)
  end.
Definition golden (l : list string) : string := lines_of (marked <$> l).

(** contract.json *)
Definition quickstart_contract : list string :=
  ["{";
   "  ~protocol~: ~meshcall/1~,";
   "  ~services~: [";
   "    {";
   "      ~name~: ~example.v1.CounterService~,";
   "      ~version~: ~1~,";
   "      ~source_module~: ~quickstart_demo.service~,";
   "      ~source_qualname~: ~CounterService~,";
   "      ~balance~: {";
   "        ~kind~: ~round_robin~,";
   "        ~key~: null";
   "      },";
   "      ~description~: ~The smallest complete MeshCall service: one streaming method.~,";
   "      ~targeted~: false,";
   "      ~methods~: [";
   "        {";
   "          ~name~: ~count~,";
   "          ~stream~: ~server_stream~,";
   "          ~request~: {";
   "            ~module~: ~quickstart_demo.service~,";
   "            ~qualname~: ~CounterServiceCountRequest~,";
   "            ~schema~: {";
   "              ~properties~: {";
   "                ~stop~: {";
   "                  ~title~: ~Stop~,";
   "                  ~type~: ~integer~";
   "                }";
   "              },";
   "              ~required~: [";
   "                ~stop~";
   "              ],";
   "              ~title~: ~CounterServiceCountRequest~,";
   "              ~type~: ~object~";
   "            }";
   "          },";
   "          ~parameters~: [";
   "            ~stop~";
   "          ],";
   "          ~response~: null,";
   "          ~input_item~: null,";
   "          ~output_item~: {";
   "            ~module~: ~quickstart_demo.service~,";
   "            ~qualname~: ~CountItem~,";
   "            ~schema~: {";
   "              ~properties~: {";
   "                ~value~: {";
   "                  ~title~: ~Value~,";
   "                  ~type~: ~integer~";
   "                }";
   "              },";
   "              ~required~: [";
   "                ~value~";
   "              ],";
   "              ~title~: ~CountItem~,";
   "              ~type~: ~object~";
   "            }";
   "          },";
   "          ~balance~: {";
   "            ~kind~: ~round_robin~,";
   "            ~key~: null";
   "          },";
   "          ~binding~: ~instance~,";
   "          ~description~: ~Stream the integers from 0 up to, but not including, ``stop``.~,";
   "          ~annotations~: {";
   "            ~idempotent~: true,";
   "            ~read_only~: true,";
   "            ~destructive~: false";
   "          },";
   "          ~deprecated~: null";
   "        }";
   "      ]";
   "    }";
   "  ]";
   "}"]%string.

(** single.py *)
Definition quickstart_python : list string :=
  ["# Generated by MeshCall from a portable contract. Do not edit manually.";
   "# External dependencies: uv add 'meshcall>=0.3.0' 'pydantic>=2.11'";
   "from __future__ import annotations";
   "";
   "from pydantic import BaseModel";
   "";
   "from meshcall.rpc import RpcClient";
   "from meshcall.streams import RpcServerStream";
   "";
   "";
   "class CounterServiceCountRequest(BaseModel):";
   "    stop: int";
   "";
   "";
   "class CountItem(BaseModel):";
   "    value: int";
   "";
   "";
   "class CounterServiceClient(RpcClient):";
   "    ~~~The smallest complete MeshCall service: one streaming method.~~~";
   "    service_name = 'example.v1.CounterService'";
   "";
   "    def count(";
   "        self,";
   "        stop: int,";
   "    ) -> RpcServerStream[CountItem]:";
   "        ~~~Stream the integers from 0 up to, but not including, ``stop``.~~~";
   "        request = CounterServiceCountRequest(";
   "            stop=stop,";
   "        )";
   "        return self._rpc.call_server_stream(";
   "            self.service_name,";
   "            'count',";
   "            request,";
   "            CountItem,";
   "            idempotent=True,";
   "        )"]%string.

(** single.ts *)
Definition quickstart_typescript : list string :=
  ["// Generated by MeshCall. Do not edit manually.";
   "// External dependency: yarn add meshcall@^0.3.0";
   "import type { MeshCallRpc, CallOptions, RpcStream, JsonSchema } from ~meshcall~;";
   "";
   "export interface CounterServiceCountRequest {";
   "  stop: number;";
   "}";
   "";
   "export interface CountItem {";
   "  value: number;";
   "}";
   "";
   "export const CountItemSchema: JsonSchema = {";
   "  ~properties~: {";
   "    ~value~: {";
   "      ~title~: ~Value~,";
   "      ~type~: ~integer~";
   "    }";
   "  },";
   "  ~required~: [";
   "    ~value~";
   "  ],";
   "  ~title~: ~CountItem~,";
   "  ~type~: ~object~";
   "};";
   "";
   "/**";
   " * The smallest complete MeshCall service: one streaming method.";
   " */";
   "export class CounterServiceClient {";
   "  public constructor(private readonly rpc: MeshCallRpc) {}";
   "";
   "  public withOptions(options: CallOptions): CounterServiceClient {";
   "    return new CounterServiceClient(this.rpc.withOptions(options));";
   "  }";
   "";
   "  /**";
   "   * Stream the integers from 0 up to, but not including, ``stop``.";
   "   */";
   "  public count(";
   "    stop: number,";
   "    options?: CallOptions,";
   "  ): RpcStream<CountItem> {";
   "    return this.rpc.serverStream<CounterServiceCountRequest, CountItem>(";
   "      ~example.v1.CounterService~,";
   "      ~count~,";
   "      {";
   "        stop: stop,";
   "      },";
   "      { idempotent: true, ...options, itemSchema: CountItemSchema },";
   "    );";
   "  }";
   "}"]%string.

Definition quickstart : option Service :=
  match Parse (golden quickstart_contract) with
  | inr d => match Select d EmptyString with inr s => Some s | inl _ => None end
  | inl _ => None
  end.

Example generators_match_golden :
  match quickstart with
  | Some service =>
      @RenderPythonClient ascii_tables one_float one_kind service
        (MkPythonOptions EmptyString EmptyString EmptyString EmptyString) = inr (golden quickstart_python) /\
      @RenderTypeScriptClient ascii_tables one_float one_kind service
        (MkTypeScriptOptions EmptyString EmptyString EmptyString EmptyString)
        = inr (golden quickstart_typescript)
  | None => False
  end.
Proof. vm_compute. split; reflexivity. Qed.
