(* ===== verification/SdkSchema.v ===== *)
(** * JSON schemas of Go types: schema.go of the SDK

    [schemaOf] derives the schema of a Go type, [validate] checks a JSON text
    against it.  Package reflect is a table: a type is its number, so that types
    that refer to themselves are finite data and [==] compares identities. *)
From S2P Require Import Prelude GoStd Json Libs Contract GoText Objects SdkRuntime.
#[local] Open Scope Z_scope.

(** ** Ordered objects

    [keys] and [values] as one list; a key occurs once. *)
Definition obj_get (o : Object) (key : string) : option json := Get o key.
Definition obj_set (key : string) (value : json) (o : Object) : Object := Set_ o key value.
(** [newObject().set(...)] for a chain of members. *)
Definition newObject (members : list (string * json)) : Object :=
  fold_left (fun o kv => obj_set kv.1 kv.2 o) members [].
Definition MarshalSchema (o : Object) : string := Encode (JObject o).

(** ** Package reflect *)

Inductive Kind :=
  | KPointer | KString | KBool | KInt (bits : Z) | KUint (bits : Z) | KFloat (bits : Z)
  | KSlice | KArray | KMap | KStruct | KFunc | KOther.
#[global] Instance Kind_eq_dec : EqDecision Kind.
Proof. solve_decision. Defined.

(** A struct field; the tag as its key-value pairs, in order. *)
Record StructField := MkField {
  fd_Name : string;
  fd_Type : nat;
  fd_Tag : list (string * string);
  fd_Anonymous : bool;
  fd_Exported : bool }.
(** What reflect tells of a type; [Name] is empty for an unnamed type. *)
Record rtype := RType {
  rt_Name : string;
  rt_PkgPath : string;
  rt_Kind : Kind;
  rt_Elem : nat;
  rt_Fields : list StructField }.

Fixpoint tag_lookup (tag : list (string * string)) (key : string) : option string :=
  match tag with
  | [] => None
  | (k, v) :: tag => if String.eqb key k then Some v else tag_lookup tag key
  end.
(** [StructTag.Get]. *)
Definition tag_get (tag : list (string * string)) (key : string) : string :=
  default EmptyString (tag_lookup tag key).

(** The program's types with what [String] says of them, and which of them are
    [time.Time] and [json.RawMessage]. *)
Class Types : Type := {
  type_of : nat -> rtype;
  type_string : nat -> string;
  timeType : nat;
  rawType : nat }.

(** [json.Unmarshal] of a text into [any], and the value written again: Go's
    conversions of numbers, the rest as [unmarshal]. *)
Class AnyValues : Type := unmarshal_any : string -> option json.

(** [f == math.Trunc(f)]. *)
Class Truncation `{Floats} : Type := integral : float -> bool.

(** ** Fields *)

Record structField := MkStructField {
  sfd_name : string;
  sfd_index : list nat;
  sfd_type : nat;
  sfd_required : bool;
  sfd_tag : list (string * string) }.

Record schemaBuilder := MkBuilder {
  sb_defs : Object;
  sb_names : gmap nat string;
  sb_taken : gmap string nat }.
#[global] Instance schemaBuilder_eta : Eta schemaBuilder :=
  fun x => MkBuilder (sb_defs x) (sb_names x) (sb_taken x).
Definition newBuilder : schemaBuilder := MkBuilder [] ∅ ∅.

Definition schema_type (name : string) : Object := newObject [("type"%string, JString name)].

Section Schemas.
Context `{Types} `{AnyValues}.

Definition kind (t : nat) : Kind := rt_Kind (type_of t).
Definition is_kind (k : Kind) (t : nat) : bool := bool_decide (kind t = k).

(** One field of [fieldsOf]'s walk; [walk] flattens an embedded struct. *)
Definition walk_field (walk : nat -> list nat -> option (list structField)) (prefix : list nat)
    (i : nat) (f : StructField) : option (list structField) :=
  let index := prefix ++ [i] in
  let tag := tag_get (fd_Tag f) "json" in
  if String.eqb tag "-" then Some [] else
  let '(name, opts, _) := Cut "," tag in
  let ft := if is_kind KPointer (fd_Type f) then rt_Elem (type_of (fd_Type f)) else fd_Type f in
  if fd_Anonymous f && is_empty name && is_kind KStruct ft then walk ft index
  else if negb (fd_Exported f) then Some []
  else
    let omitempty := has_sub ",omitempty," ("," +:+ opts +:+ ",")
                     || has_sub ",omitzero," ("," +:+ opts +:+ ",") in
    Some [MkStructField (or_default name (fd_Name f)) index (fd_Type f)
            (negb omitempty && negb (is_kind KPointer (fd_Type f))) (fd_Tag f)].

Fixpoint walk (fuel : nat) (t : nat) (prefix : list nat) : option (list structField) :=
  match fuel with
  | O => None
  | S fuel =>
      fields ← mapM (fun jf => walk_field (walk fuel) prefix jf.1 jf.2)
                 (imap pair (rt_Fields (type_of t)));
      Some (mjoin fields)
  end.
Definition fieldsOf (fuel : nat) (t : nat) : option (list structField) := walk fuel t [].

(** ** Schemas

    A function of the recursive calls on types it makes, in the state of the
    builder; without fuel, a type that contains itself through unnamed types or
    by embedding has no schema. *)

Definition Builds (A : Type) : Type := schemaBuilder -> option (A * schemaBuilder).

(** The members that [doc], [enum] and [default] tags add. *)
Definition decorate (f : structField) (s : Object) : Object :=
  let doc := tag_get (sfd_tag f) "doc" in
  let enum := tag_get (sfd_tag f) "enum" in
  let def := tag_get (sfd_tag f) "default" in
  let s := if is_empty doc then s else obj_set "description" (JString doc) s in
  let s := if is_empty enum then s
           else obj_set "enum" (JArray (JString <$> Split "," enum)) s in
  if is_empty def then s
  else match unmarshal_any def with Some v => obj_set "default" v s | None => s end.

(** The loop of [structSchema] over the fields. *)
Fixpoint struct_fields (rec : nat -> Builds Object) (fs : list structField)
    (properties : Object) (required : list json) : Builds (Object * list json) := fun b =>
  match fs with
  | [] => Some (properties, required, b)
  | f :: fs =>
      match rec (sfd_type f) b with
      | None => None
      | Some (s, b) =>
          struct_fields rec fs (obj_set (sfd_name f) (JObject (decorate f s)) properties)
            (if sfd_required f then required ++ [JString (sfd_name f)] else required) b
      end
  end.

Definition struct_object (name : string) (properties : Object) (required : list json) : Object :=
  newObject ([("properties"%string, JObject properties)]
    ++ (match required with [] => [] | _ => [("required"%string, JArray required)] end)
    ++ (if is_empty name then [] else [("title"%string, JString name)])
    ++ [("type"%string, JString "object")]).

Definition structSchema (fuel : nat) (rec : nat -> Builds Object) (t : nat) : Builds Object := fun b =>
  match fieldsOf fuel t with
  | None => None
  | Some fs =>
      match struct_fields rec fs [] [] b with
      | None => None
      | Some (properties, required, b) =>
          Some (struct_object (rt_Name (type_of t)) properties required, b)
      end
  end.

(** [b.taken[name] != nil && b.taken[name] != t]. *)
Definition name_taken (b : schemaBuilder) (t : nat) (name : string) : bool :=
  match sb_taken b !! name with Some t' => negb (t' =? t)%nat | None => false end.
(** The loop of [define]; each further name needs one that is taken. *)
Fixpoint next_name (fuel : nat) (b : schemaBuilder) (t : nat) (name : string) (i : Z) : string :=
  match fuel with
  | O => name
  | S fuel =>
      if name_taken b t name then next_name fuel b t (rt_Name (type_of t) +:+ itoa i) (i + 1)
      else name
  end.
Definition definition_name (b : schemaBuilder) (t : nat) : string :=
  next_name (S (size (sb_taken b))) b t (rt_Name (type_of t)) 2.

Definition define (fuel : nat) (rec : nat -> Builds Object) (t : nat) : Builds string := fun b =>
  match sb_names b !! t with
  | Some name => Some (name, b)
  | None =>
      let name := definition_name b t in
      let b := b {{ sb_names ::= insert t name }} {{ sb_taken ::= insert name t }}
                 {{ sb_defs ::= obj_set name JNull }} in
      match structSchema fuel rec t b with
      | None => None
      | Some (s, b) => Some (name, b {{ sb_defs ::= obj_set name (JObject s) }})
      end
  end.

(** The schema of a type made of the schema of its element. *)
Definition around (f : Object -> Object) (rec : nat -> Builds Object) (t : nat) : Builds Object := fun b =>
  match rec (rt_Elem (type_of t)) b with
  | None => None
  | Some (s, b) => Some (f s, b)
  end.

Definition type_case (fuel : nat) (rec : nat -> Builds Object) (t : nat) : Builds Object := fun b =>
  let plain s := Some (s, b) in
  if (t =? timeType)%nat
  then plain (newObject [("type"%string, JString "string"); ("format"%string, JString "date-time")])
  else if (t =? rawType)%nat then plain (newObject [])
  else match kind t with
  | KPointer =>
      around (fun s => newObject [("anyOf"%string, JArray [JObject s; JObject (schema_type "null")])]) rec t b
  | KString => plain (schema_type "string")
  | KBool => plain (schema_type "boolean")
  | KInt _ | KUint _ => plain (schema_type "integer")
  | KFloat _ => plain (schema_type "number")
  | KSlice =>
      if is_kind (KUint 8) (rt_Elem (type_of t))
      then plain (newObject [("type"%string, JString "string"); ("contentEncoding"%string, JString "base64")])
      else around (fun s => newObject [("type"%string, JString "array"); ("items"%string, JObject s)]) rec t b
  | KArray => around (fun s => newObject [("type"%string, JString "array"); ("items"%string, JObject s)]) rec t b
  | KMap =>
      around (fun s => newObject [("type"%string, JString "object"); ("additionalProperties"%string, JObject s)])
        rec t b
  | KStruct =>
      if is_empty (rt_Name (type_of t)) then structSchema fuel rec t b
      else match define fuel rec t b with
      | None => None
      | Some (name, b) => Some (newObject [("$ref"%string, JString ("#/$defs/" +:+ name))], b)
      end
  | KFunc | KOther => plain (newObject [])
  end.

Fixpoint typeSchema (fuel : nat) (t : nat) : Builds Object := fun b =>
  match fuel with
  | O => None
  | S fuel => type_case fuel (typeSchema fuel) t b
  end.

(** [for t.Kind() == reflect.Pointer { t = t.Elem() }]. *)
Fixpoint strip_pointers (fuel : nat) (t : nat) : option nat :=
  match fuel with
  | O => None
  | S fuel => if is_kind KPointer t then strip_pointers fuel (rt_Elem (type_of t)) else Some t
  end.

(** The root with [$defs] in front. *)
Definition with_defs (defs root : Object) : Object :=
  match defs with
  | [] => root
  | _ => fold_left (fun o kv => obj_set kv.1 kv.2 o) root (newObject [("$defs"%string, JObject defs)])
  end.

Definition schemaOf (fuel : nat) (t : nat) : option Object :=
  match strip_pointers fuel t with
  | None => None
  | Some t =>
      match (if is_kind KStruct t && negb (t =? timeType)%nat
             then structSchema fuel (typeSchema fuel) t newBuilder
             else typeSchema fuel t newBuilder) with
      | None => None
      | Some (root, b) => Some (with_defs (sb_defs b) root)
      end
  end.
End Schemas.

(** ** Validation *)

Record Violation := MkViolation { vi_Path : string; vi_Code : string; vi_Message : string }.
Definition violation (path : list string) (code message : string) : Violation :=
  MkViolation (GoStd.Join "." path) code message.

(** The inner loop of [sortedKeys]: [k] moves down past the keys above it; [r] is
    the sorted part from its end. *)
Fixpoint sink (k : string) (r : list string) : list string :=
  match r with
  | [] => [k]
  | x :: r' => if String.ltb k x then x :: sink k r' else k :: r
  end.
Definition sortedKeys (keys : list string) : list string :=
  rev (fold_left (fun r k => sink k r) keys []).

(** [fmt.Sprint] of a decoded value. *)
Fixpoint Sprint (v : json) : string :=
  match v with
  | JNull => "<nil>"
  | JBool b => marshal_bool b
  | JNumber n => n
  | JString s => s
  | JArray l => "[" +:+ GoStd.Join " " (Sprint <$> l) +:+ "]"
  | JObject kvs =>
      let texts := (fix members (kvs : list (string * json)) :=
        match kvs with [] => [] | (k, v) :: kvs => (k, Sprint v) :: members kvs end) kvs in
      "map[" +:+ GoStd.Join " "
        ((fun k => k +:+ ":" +:+ default EmptyString (lookup_last k texts)) <$>
           sortedKeys (remove_dups (fst <$> kvs))) +:+ "]"
  end.

Section Validation.
Context {F : Floats} {Tr : Truncation} (defs : Object).

(** [v.defs[name]]. *)
Definition defined (name : string) : option Object := Obj defs name.

Definition expect (ok : bool) (path : list string) (message : string) : list Violation :=
  if ok then [] else [violation path "type" message].

(** [f, err := n.Float64()], [err == nil] and [f == math.Trunc(f)]. *)
Definition integer_number (v : json) : bool :=
  match v with
  | JNumber n => match parseFloat n with Some f => integral f | None => false end
  | _ => false
  end.

(** The calls of [v.check], which answer with what they append to [v.out];
    [None]: a type assertion failed, or no fuel. *)
Definition Checks : Type := Object * json * list string -> option (list Violation).

Definition schema_at (v : option json) : option (option Object) :=
  match v with None => Some None | Some (JObject o) => Some (Some o) | Some _ => None end.

(** The loop over the options of [anyOf]. *)
Fixpoint any_option (rec : Checks) (options : list json) (value : json) (path : list string)
    : option (list Violation) :=
  match options with
  | [] => Some [violation path "type" "Input does not match any allowed type"]
  | JObject o :: options =>
      match rec (o, value, path) with
      | Some [] => Some []
      | Some _ => any_option rec options value path
      | None => None
      end
  | _ => None
  end.

(** Whether the value is one of the [enum]; [None]: not a list. *)
Definition enum_found (s : Object) (value : json) : option bool :=
  match obj_get s "enum" with
  | None => Some true
  | Some (JArray es) => Some (existsb (fun e => String.eqb (Sprint e) (Sprint value)) es)
  | Some _ => None
  end.

Definition check_items (rec : Checks) (item : option json) (items : list json) (path : list string)
    : option (list Violation) :=
  match item with
  | None => Some []
  | Some item =>
      mjoin <$> mapM (fun ie => match item with
                                 | JObject o => rec (o, ie.2, path ++ [itoa (Z.of_nat ie.1)])
                                 | _ => None
                                 end) (imap pair items)
  end.

Definition check_required (required : option json) (object : list (string * json)) (path : list string)
    : option (list Violation) :=
  match required with
  | None => Some []
  | Some (JArray names) =>
      mjoin <$> mapM (fun name => match name with
        | JString n =>
            Some (match lookup_last n object with
                  | Some _ => []
                  | None => [violation (path ++ [n]) "missing" "Field required"]
                  end)
        | _ => None
        end) names
  | Some _ => None
  end.

Definition check_member (rec : Checks) (props additional : option Object)
    (object : list (string * json)) (path : list string) (key : string) : option (list Violation) :=
  let child := path ++ [key] in
  let value := default JNull (lookup_last key object) in
  match props ≫= fun p => obj_get p key with
  | Some (JObject p) => rec (p, value, child)
  | Some _ => None
  | None => match additional with Some a => rec (a, value, child) | None => Some [] end
  end.

Definition check_object (rec : Checks) (s : Object) (object : list (string * json)) (path : list string)
    : option (list Violation) :=
  missing ← check_required (obj_get s "required") object path;
  members ← mapM (check_member rec (as_object (obj_get s "properties"))
                    (as_object (obj_get s "additionalProperties")) object path)
              (sortedKeys (remove_dups (fst <$> object)));
  Some (missing ++ mjoin members).

Definition check_type (rec : Checks) (s : Object) (value : json) (path : list string)
    : option (list Violation) :=
  match as_string (obj_get s "type") with
  | None => Some []
  | Some k =>
      let named (k' : string) := String.eqb k k' in
      if named "null" then
        Some (expect (match value with JNull => true | _ => false end) path "Input should be null")
      else if named "string" then
        Some (expect (match value with JString _ => true | _ => false end) path "Input should be a valid string")
      else if named "boolean" then
        Some (expect (match value with JBool _ => true | _ => false end) path "Input should be a valid boolean")
      else if named "integer" then Some (expect (integer_number value) path "Input should be a valid integer")
      else if named "number" then
        Some (expect (match value with JNumber _ => true | _ => false end) path "Input should be a valid number")
      else if named "array" then
        match value with
        | JArray items => check_items rec (obj_get s "items") items path
        | _ => Some [violation path "type" "Input should be a valid array"]
        end
      else if named "object" then
        match value with
        | JObject object => check_object rec s object path
        | _ => Some [violation path "type" "Input should be a valid object"]
        end
      else Some []
  end.

Definition check_body (rec : Checks) : Checks := fun svp =>
  let '(s, value, path) := svp in
  match obj_get s "$ref" with
  | Some (JString ref) =>
      match defined (TrimPrefix ref "#/$defs/") with
      | Some target => rec (target, value, path)
      | None => Some []
      end
  | Some _ => None
  | None =>
      match obj_get s "anyOf" with
      | Some (JArray options) => any_option rec options value path
      | Some _ => None
      | None =>
          match enum_found s value with
          | None => None
          | Some false => Some [violation path "enum" "Input is not one of the allowed values"]
          | Some true => check_type rec s value path
          end
      end
  end.

Definition check (fuel : nat) : Checks := iterate check_body fuel.
End Validation.

(** [$defs] of the schema, as [validate] collects them. *)
Definition defs_of (schema : Object) : Object := default [] (as_object (obj_get schema "$defs")).

(** A bound on the calls of [check] on a value: see [check_terminates]. *)
Definition check_fuel (schema : Object) (value : json) : nat :=
  (json_size value * (schema_size schema + 2) + schema_size schema + 1)%nat.

Definition validate `{Truncation} (schema : Object) (raw : string) : option (list Violation) :=
  match decode_next raw with
  | None => Some [violation [] "json_invalid" "Invalid JSON"]
  | Some (value, _) => check (defs_of schema) (check_fuel schema value) (schema, value, [])
  end.

Definition violationList (vs : list Violation) : json :=
  JArray ((fun v => JObject [("path"%string, JString (vi_Path v)); ("code"%string, JString (vi_Code v));
                             ("message"%string, JString (vi_Message v))]) <$> vs).
