(* ===== verification/SdkValidate.v ===== *)
(** * What validation means: schema.go of the SDK

    [conforms] says when a value has a schema.  [check] finds no violation exactly
    when the value conforms, and on well-formed schemas it always ends. *)
From S2P Require Import Prelude GoStd Json Libs Contract GoText Objects SdkRuntime SdkSchema.
#[local] Open Scope Z_scope.

(** ** Sorted keys *)

Lemma sink_Permutation k r : sink k r ≡ₚ k :: r.
Proof.
  induction r as [|x r IH]; [done|]. cbn. destruct (String.ltb k x); [|done].
  rewrite IH. apply Permutation_swap.
Qed.

Definition string_ge (a b : string) : Prop := string_le b a.

Lemma string_ltb_leb a b : String.ltb a b = negb (String.leb b a).
Proof.
  unfold String.ltb, String.leb. rewrite String.compare_antisym. by destruct (String.compare b a).
Qed.

Lemma sink_sorted k r : StronglySorted string_ge r -> StronglySorted string_ge (sink k r).
Proof.
  induction 1 as [|x r Hr IH Hx]; cbn; [by repeat constructor|].
  rewrite string_ltb_leb. destruct (String.leb x k) eqn:Hk; cbn.
  - constructor; [by constructor|]. constructor; [done|].
    eapply Forall_impl; [exact Hx|]. intros y Hy. unfold string_ge in *. by transitivity x.
  - constructor; [done|]. rewrite sink_Permutation. constructor; [|done].
    destruct (total string_le x k) as [Hle|]; [|done]. unfold string_le in Hle. congruence.
Qed.

Lemma StronglySorted_snoc {A} (R : A -> A -> Prop) l x :
  StronglySorted R l -> Forall (fun y => R y x) l -> StronglySorted R (l ++ [x]).
Proof.
  induction 1 as [|y l Hl IH Hy]; intros Hx; [by repeat constructor|].
  inversion Hx; subst. cbn. constructor; [auto|]. rewrite Forall_app. auto.
Qed.
Lemma StronglySorted_rev {A} (R : A -> A -> Prop) l :
  StronglySorted (flip R) l -> StronglySorted R (rev l).
Proof.
  induction 1 as [|x l Hl IH Hx]; cbn; [constructor|]. apply StronglySorted_snoc; [done|].
  by apply List.Forall_rev.
Qed.

(** The loops of [sortedKeys] sort: the result does not depend on the order in
    which Go visits the map. *)
Lemma sortedKeys_Sort keys : sortedKeys keys = Sort keys.
Proof.
  apply (StronglySorted_unique string_le).
  - unfold sortedKeys. apply StronglySorted_rev.
    assert (StronglySorted string_ge []) as Hnil by constructor. revert Hnil.
    generalize (@nil string) as r. induction keys as [|k keys IH]; intros r Hr; cbn; [done|].
    apply IH, sink_sorted, Hr.
  - apply Sort_sorted.
  - rewrite Sort_Permutation. unfold sortedKeys. rewrite <- Permutation_rev.
    transitivity (keys ++ []); [|by rewrite app_nil_r]. generalize (@nil string) as r.
    induction keys as [|k keys IH]; intros r; cbn; [done|].
    rewrite IH, sink_Permutation. by rewrite Permutation_middle.
Qed.

(** ** Members *)

Lemma lookup_last_elem {A} k (kvs : list (string * A)) v : lookup_last k kvs = Some v -> (k, v) ∈ kvs.
Proof.
  induction kvs as [|[k' v'] kvs IH]; [done|]. cbn. destruct (lookup_last k kvs).
  - intros [= ->]. right. auto.
  - destruct (String.eqb_spec k k') as [->|]; [|done]. intros [= ->]. left.
Qed.

Lemma lookup_last_some {A} k (kvs : list (string * A)) v : (k, v) ∈ kvs -> exists w, lookup_last k kvs = Some w.
Proof.
  induction kvs as [|[k' v'] kvs IH]; intros Hin; [by apply not_elem_of_nil in Hin|]. cbn.
  apply elem_of_cons in Hin as [[= -> ->]|Hin].
  - rewrite String.eqb_refl. destruct (lookup_last k' kvs); eauto.
  - destruct (IH Hin) as [w ->]. eauto.
Qed.

(** ** The meaning of a schema *)

Section Meaning.
Context {F : Floats} {Tr : Truncation} (defs : Object).

(** [s] is no reference and no choice, [v] is one of its [enum], and its type is [k]. *)
Record plain (s : Object) (v : json) (k : option string) : Prop := {
  plain_ref : obj_get s "$ref" = None;
  plain_any : obj_get s "anyOf" = None;
  plain_enum : enum_found s v = Some true;
  plain_type : as_string (obj_get s "type") = k }.

(** The schema of a member: of the property of that name, else of the others. *)
Definition member_schema (s : Object) (key : string) : option json :=
  match as_object (obj_get s "properties") ≫= fun p => obj_get p key with
  | Some p => Some p
  | None => JObject <$> as_object (obj_get s "additionalProperties")
  end.

Definition known_types : list string :=
  ["null"; "string"; "boolean"; "integer"; "number"; "array"; "object"].

Inductive conforms : Object -> json -> Prop :=
  | conforms_ref s ref v :
      obj_get s "$ref" = Some (JString ref) ->
      (forall target, defined defs (TrimPrefix ref "#/$defs/") = Some target -> conforms target v) ->
      conforms s v
  | conforms_any s options o v :
      obj_get s "$ref" = None -> obj_get s "anyOf" = Some (JArray options) ->
      JObject o ∈ options -> conforms o v -> conforms s v
  | conforms_untyped s v : plain s v None -> conforms s v
  | conforms_unknown s v k : plain s v (Some k) -> (k ∉ known_types) -> conforms s v
  | conforms_null s : plain s JNull (Some "null"%string) -> conforms s JNull
  | conforms_string s t : plain s (JString t) (Some "string"%string) -> conforms s (JString t)
  | conforms_bool s b : plain s (JBool b) (Some "boolean"%string) -> conforms s (JBool b)
  | conforms_integer s v :
      plain s v (Some "integer"%string) -> integer_number v = true -> conforms s v
  | conforms_number s n : plain s (JNumber n) (Some "number"%string) -> conforms s (JNumber n)
  | conforms_array s items :
      plain s (JArray items) (Some "array"%string) ->
      (forall o e, obj_get s "items" = Some (JObject o) -> e ∈ items -> conforms o e) ->
      conforms s (JArray items)
  | conforms_object s members :
      plain s (JObject members) (Some "object"%string) ->
      (forall names n, obj_get s "required" = Some (JArray names) -> JString n ∈ names ->
         is_Some (lookup_last n members)) ->
      (forall key w o, lookup_last key members = Some w ->
         member_schema s key = Some (JObject o) -> conforms o w) ->
      conforms s (JObject members).

(** ** [check] against the meaning *)

Lemma mapM_join_nil {A} (f : A -> option (list Violation)) l :
  mjoin <$> mapM f l = Some [] -> forall x, x ∈ l -> f x = Some [].
Proof.
  induction l as [|a l IH]; intros H x Hx; [by apply not_elem_of_nil in Hx|]. cbn in H.
  destruct (f a) as [r|] eqn:Ha; [|done]. cbn in H. destruct (mapM f l) as [rs|]; [|done]. cbn in H.
  injection H as H. apply app_nil in H as [-> H]. apply elem_of_cons in Hx as [->|Hx]; [done|].
  apply IH; [|done]. cbn. by f_equal.
Qed.
Lemma mapM_join_all {A} (f : A -> option (list Violation)) l vs :
  mjoin <$> mapM f l = Some vs -> (forall x r, x ∈ l -> f x = Some r -> r = []) -> vs = [].
Proof.
  revert vs. induction l as [|a l IH]; intros vs H Hf; cbn in H; [by injection H as <-|].
  destruct (f a) as [r|] eqn:Ha; [|done]. cbn in H. destruct (mapM f l) as [rs|] eqn:Hl; [|done].
  cbn in H. injection H as <-. rewrite (Hf a r) by (done || left). cbn.
  apply IH; [done|]. intros x r' Hx. apply Hf. by right.
Qed.
Lemma mapM_join_total {A} (f : A -> option (list Violation)) l :
  (forall x, x ∈ l -> is_Some (f x)) -> is_Some (mjoin <$> mapM f l).
Proof.
  intros H. apply fmap_is_Some, mapM_is_Some. by apply Forall_forall.
Qed.

Lemma expect_nil ok path m : expect ok path m = [] -> ok = true.
Proof. by destruct ok. Qed.

Lemma key_listed {A} key (kvs : list (string * A)) w :
  lookup_last key kvs = Some w -> key ∈ sortedKeys (remove_dups (fst <$> kvs)).
Proof.
  intros H%lookup_last_elem. rewrite sortedKeys_Sort, Sort_Permutation, elem_of_remove_dups.
  apply list_elem_of_fmap. by exists (key, w).
Qed.

Lemma any_option_nil rec options v p :
  any_option rec options v p = Some [] ->
  exists o, JObject o ∈ options /\ rec (o, v, p) = Some [].
Proof.
  induction options as [|[| | | | |o] options IH]; cbn; try done.
  destruct (rec (o, v, p)) as [[|? ?]|] eqn:Ho; [|intros H|done].
  - intros _. exists o. split; [left|done].
  - destruct (IH H) as (o' & Ho' & Hc). exists o'. split; [by right|done].
Qed.

Lemma check_object_nil rec s ms p : check_object rec s ms p = Some [] ->
  (forall names n, obj_get s "required" = Some (JArray names) -> JString n ∈ names ->
     is_Some (lookup_last n ms)) /\
  (forall key w o, lookup_last key ms = Some w -> member_schema s key = Some (JObject o) ->
     rec (o, w, p ++ [key]) = Some []).
Proof.
  unfold check_object. destruct (check_required _ _ _) as [missing|] eqn:Hr; [|done]. cbn.
  destruct (mapM _ _) as [vss|] eqn:Hm; [|done]. cbn. intros [= [-> Hj]%app_nil]. split.
  - intros names n Hn Hin. unfold check_required in Hr. rewrite Hn in Hr.
    pose proof (mapM_join_nil _ _ Hr _ Hin) as H1. cbn in H1. destruct (lookup_last n ms); [done|].
    done.
  - intros key w o Hk Hs. pose proof (key_listed _ _ _ Hk) as Hin.
    assert (mjoin <$> mapM (check_member rec (as_object (obj_get s "properties"))
      (as_object (obj_get s "additionalProperties")) ms p)
      (sortedKeys (remove_dups (fst <$> ms))) = Some []) as H1 by (rewrite Hm; cbn; by f_equal).
    pose proof (mapM_join_nil _ _ H1 _ Hin) as H2. unfold check_member in H2. rewrite Hk in H2.
    cbn [default] in H2. unfold member_schema in Hs.
    destruct (as_object (obj_get s "properties") ≫= _) as [q|]; simplify_eq/=; [done|].
    by destruct (as_object (obj_get s "additionalProperties")); simplify_eq/=.
Qed.

(** No violation: the value conforms. *)
Lemma check_sound fuel s v p : check defs fuel (s, v, p) = Some [] -> conforms s v.
Proof.
  revert s v p. induction fuel as [|fuel IH]; intros s v p; [done|].
  unfold check. cbn [iterate]. fold (check defs fuel). unfold check_body.
  destruct (obj_get s "$ref") as [[| | |ref| |]|] eqn:Href; try done.
  { intros H. eapply conforms_ref; [done|]. intros target Ht. rewrite Ht in H. eauto. }
  destruct (obj_get s "anyOf") as [[| | | |options|]|] eqn:Hany; try done.
  { intros (o & Ho & Hc)%any_option_nil. eapply conforms_any; eauto. }
  destruct (enum_found s v) as [[]|] eqn:Henum; try done. unfold check_type.
  destruct (as_string (obj_get s "type")) as [k|] eqn:Htype; [|intros _; by apply conforms_untyped].
  assert (plain s v (Some k)) as Hp by done.
  repeat match goal with |- context [String.eqb k ?c] => destruct (String.eqb_spec k c) as [->|] end.
  - destruct v; try done. intros _. by apply conforms_null.
  - destruct v; try done. intros _. by apply conforms_string.
  - destruct v; try done. intros _. by apply conforms_bool.
  - intros [= H%expect_nil]. by apply conforms_integer.
  - destruct v; try done. intros _. by apply conforms_number.
  - destruct v as [| | | |items|]; try done. intros Hc. apply conforms_array; [done|].
    intros o e Ho He. unfold check_items in Hc. rewrite Ho in Hc.
    apply list_elem_of_lookup in He as [i He].
    eapply (IH o e), (mapM_join_nil _ _ Hc (i, e)).
    apply elem_of_lookup_imap. eauto.
  - destruct v as [| | | | |ms]; try done. intros [H1 H2]%check_object_nil.
    apply conforms_object; [done..|]. eauto.
  - intros _. eapply conforms_unknown; [done|]. unfold known_types. set_solver.
Qed.

(** The value conforms: no violation. *)
Lemma check_complete fuel s v p vs :
  conforms s v -> check defs fuel (s, v, p) = Some vs -> vs = [].
Proof.
  intros Hc. revert fuel p vs. induction Hc; intros [|fuel] p vs Hv; try done;
    unfold check in Hv; cbn [iterate] in Hv; fold (check defs fuel) in Hv; unfold check_body in Hv;
    repeat match goal with
    | H : plain _ _ _ |- _ => destruct H as [Hp1 Hp2 Hp3 Hp4]
    | H : obj_get _ _ = _ |- _ => rewrite H in Hv
    | H : enum_found _ _ = _ |- _ => rewrite H in Hv
    end; unfold check_type in Hv; try rewrite Hp4 in Hv; cbn in Hv; try by injection Hv as <-.
  - destruct (defined defs _) as [target|]; [eauto|by injection Hv as <-].
  - clear -Hv IHHc H1. induction options as [|w options IH]; [by apply not_elem_of_nil in H1|].
    destruct w as [| | | | |o']; try done. cbn in Hv.
    apply elem_of_cons in H1 as [[= ->]|H1].
    + destruct (check defs fuel (o', v, p)) as [vs'|] eqn:Ho; [|done].
      apply IHHc in Ho as ->. by injection Hv as <-.
    + destruct (check defs fuel (o', v, p)) as [[|? ?]|]; [by injection Hv as <-|auto|done].
  - unfold known_types in *.
    repeat match goal with H : context [String.eqb k ?c] |- _ =>
      destruct (String.eqb_spec k c) as [->|]; [exfalso; set_solver|] end.
    by injection Hv as <-.
  - match goal with H : integer_number _ = true |- _ => rewrite H in Hv end. by injection Hv as <-.
  - unfold check_items in Hv. destruct (obj_get s "items") as [item|] eqn:Hi; [|by injection Hv as <-].
    eapply mapM_join_all; [exact Hv|]. intros [i e] r Hin Hr. cbn in Hr.
    destruct item as [| | | | |o]; try done. eapply H1; [done| |exact Hr].
    apply elem_of_lookup_imap in Hin as (j & y & [= -> ->] & Hj). by apply list_elem_of_lookup_2 in Hj.
  - unfold check_object in Hv. destruct (check_required _ _ _) as [missing|] eqn:Hr; [|done].
    cbn in Hv. destruct (mapM _ _) as [vss|] eqn:Hm; [|done]. cbn in Hv. injection Hv as <-.
    assert (missing = []) as ->.
    { unfold check_required in Hr. destruct (obj_get s "required") as [[| | | |names|]|] eqn:Hn; try done;
        [|by injection Hr as <-].
      eapply mapM_join_all; [exact Hr|]. intros [| | |n| |] r Hin; try done. intros [= <-].
      by destruct (H0 names n eq_refl Hin) as [? ->]. }
    cbn. apply (mapM_join_all (check_member (check defs fuel) (as_object (obj_get s "properties"))
      (as_object (obj_get s "additionalProperties")) members p)
      (sortedKeys (remove_dups (fst <$> members)))); [by rewrite Hm|].
    intros key r Hin Hr'. unfold check_member in Hr'. unfold member_schema in *.
    rewrite sortedKeys_Sort, Sort_Permutation, elem_of_remove_dups in Hin.
    apply list_elem_of_fmap in Hin as ([key' w0] & -> & Hin). cbn in *.
    assert (exists w, lookup_last key' members = Some w) as [w Hw] by (by eapply lookup_last_some).
    rewrite Hw in Hr'. cbn in Hr'. specialize (H2 key' w).
    destruct (as_object (obj_get s "properties") ≫= _) as [[| | | | |q]|] eqn:Hq; try done;
      [eapply (H2 q); [done|done|exact Hr']|].
    destruct (as_object (obj_get s "additionalProperties")) as [a|] eqn:Ha; [|by injection Hr' as <-].
    eapply (H2 a); [done|done|exact Hr'].
Qed.

End Meaning.

(** ** Well-formed schemas

    What [check] asserts of the schemas it meets: the members it reads have the
    types that [schemaOf] gives them. *)
Inductive well_formed : Object -> Prop :=
  | wf_ref s ref : obj_get s "$ref" = Some (JString ref) -> well_formed s
  | wf_any s options :
      obj_get s "$ref" = None -> obj_get s "anyOf" = Some (JArray options) ->
      (forall w, w ∈ options -> exists o, w = JObject o) ->
      (forall o, JObject o ∈ options -> well_formed o) -> well_formed s
  | wf_plain s :
      obj_get s "$ref" = None -> obj_get s "anyOf" = None ->
      (forall w, obj_get s "enum" = Some w -> exists es, w = JArray es) ->
      (forall w, obj_get s "required" = Some w ->
         exists names, w = JArray names /\ forall n, n ∈ names -> exists t, n = JString t) ->
      (forall w, obj_get s "items" = Some w -> exists o, w = JObject o) ->
      (forall o, obj_get s "items" = Some (JObject o) -> well_formed o) ->
      (forall key w, member_schema s key = Some w -> exists o, w = JObject o) ->
      (forall key o, member_schema s key = Some (JObject o) -> well_formed o) ->
      well_formed s.

(** Definitions are neither references nor choices, so that following a
    reference leads to a schema that takes the value apart. *)
Definition definitions_ok (defs : Object) : Prop :=
  forall name target, defined defs name = Some target ->
    well_formed target /\ obj_get target "$ref" = None /\ obj_get target "anyOf" = None.

Definition is_plain (s : Object) : bool :=
  match obj_get s "$ref", obj_get s "anyOf" with None, None => true | _, _ => false end.
Definition weight (s : Object) : nat := if is_plain s then 0%nat else schema_size s.

Lemma member_schema_size s key o : member_schema s key = Some (JObject o) ->
  (schema_size o < schema_size s)%nat.
Proof.
  unfold member_schema, obj_get. intros H.
  destruct (as_object (Get s "properties")) as [p|] eqn:Hp.
  - cbn in H. destruct (Get p key) as [w|] eqn:Hk.
    + injection H as ->. apply Get_size in Hk. change (json_size (JObject o)) with (schema_size o) in Hk.
      destruct (Get s "properties") as [[]|] eqn:Hs; try done. injection Hp as ->.
      apply Get_size in Hs. change (json_size (JObject p)) with (schema_size p) in Hs. lia.
    + destruct (Get s "additionalProperties") as [[]|] eqn:Hs; simplify_eq/=. by apply Get_size in Hs.
  - cbn in H. destruct (Get s "additionalProperties") as [[]|] eqn:Hs; simplify_eq/=.
    by apply Get_size in Hs.
Qed.

Section Termination.
Context {F : Floats} {Tr : Truncation} (defs : Object) (M : nat).
Hypothesis defs_ok : definitions_ok defs.
Hypothesis defs_small : forall name target, defined defs name = Some target ->
  (schema_size target <= M)%nat.

(** What [check] may use up on a value. *)
Definition enough (s : Object) (v : json) (fuel : nat) : Prop :=
  (json_size v * (M + 2) + weight s <= fuel)%nat.

Lemma enough_smaller s v o w fuel : enough s v (S fuel) -> is_plain s = true ->
  (json_size w < json_size v)%nat -> (schema_size o <= M)%nat -> enough o w fuel.
Proof.
  unfold enough, weight. intros H Hp Hw Ho. rewrite Hp in H.
  assert (json_size w * (M + 2) + (M + 2) <= json_size v * (M + 2))%nat by nia.
  destruct (is_plain o); lia.
Qed.

Lemma check_object_total rec s ms p :
  (forall w, obj_get s "required" = Some w ->
     exists names, w = JArray names /\ forall n, n ∈ names -> exists t, n = JString t) ->
  (forall key w, member_schema s key = Some w -> exists o, w = JObject o) ->
  (forall key w o, lookup_last key ms = Some w -> member_schema s key = Some (JObject o) ->
     is_Some (rec (o, w, p ++ [key]))) ->
  is_Some (check_object rec s ms p).
Proof.
  intros Hreq Hobj Hrec. unfold check_object.
  assert (is_Some (check_required (obj_get s "required") ms p)) as [missing ->].
  { unfold check_required. destruct (obj_get s "required") as [w|]; [|by eexists].
    destruct (Hreq _ eq_refl) as (names & -> & Hn). apply mapM_join_total.
    intros n [t ->]%Hn. by eexists. }
  cbn. enough (is_Some (mapM (check_member rec (as_object (obj_get s "properties"))
    (as_object (obj_get s "additionalProperties")) ms p) (sortedKeys (remove_dups (fst <$> ms)))))
    as [vss ->] by (by eexists).
  apply mapM_is_Some, Forall_forall. intros key Hkey. unfold check_member.
  rewrite sortedKeys_Sort, Sort_Permutation, elem_of_remove_dups in Hkey.
  apply list_elem_of_fmap in Hkey as ([key' w0] & -> & Hin). cbn.
  destruct (lookup_last_some _ _ _ Hin) as [w Hw]. rewrite Hw. cbn.
  specialize (Hobj key'). specialize (Hrec key' w). unfold member_schema in Hobj, Hrec.
  destruct (as_object (obj_get s "properties") ≫= _) as [q|].
  - destruct (Hobj q eq_refl) as [o ->]. eauto.
  - destruct (as_object (obj_get s "additionalProperties")); [by apply Hrec|by eexists].
Qed.

Lemma any_option_total rec options v p :
  (forall w, w ∈ options -> exists o, w = JObject o) ->
  (forall o, JObject o ∈ options -> is_Some (rec (o, v, p))) ->
  is_Some (any_option rec options v p).
Proof.
  induction options as [|w options IH]; intros Hobj Hrec; [by eexists|].
  destruct (Hobj w) as [o ->]; [by left|]. cbn. destruct (Hrec o) as [vs ->]; [by left|].
  destruct vs; [by eexists|]. apply IH; intros; [apply Hobj|apply Hrec]; by right.
Qed.

Lemma check_total fuel s v p : well_formed s -> (schema_size s <= M)%nat -> enough s v fuel ->
  is_Some (check defs fuel (s, v, p)).
Proof.
  revert s v p. induction fuel as [|fuel IH]; intros s v p Hwf Hs Hfuel.
  { unfold enough in Hfuel. pose proof (json_size_pos v). nia. }
  unfold check. cbn [iterate]. fold (check defs fuel). unfold check_body.
  pose proof (json_size_pos (JObject s)) as Hpos. change (json_size (JObject s)) with (schema_size s) in Hpos.
  destruct Hwf as [s ref Href|s options Href Hany Hobj Hwf|s Href Hany Henum Hreq Hi Hi' Hm Hm'].
  - rewrite Href. destruct (defined defs _) as [target|] eqn:Ht; [|by eexists].
    destruct (defs_ok _ _ Ht) as (Hwf & H1 & H2). apply IH; [done|eauto|].
    unfold enough, weight, is_plain in *. rewrite H1, H2. rewrite Href in Hfuel. lia.
  - rewrite Href, Hany. apply any_option_total; [done|]. intros o Ho.
    pose proof (Get_size _ _ _ Hany) as H1. pose proof (array_size _ _ Ho) as H2.
    change (json_size (JObject o)) with (schema_size o) in H2. apply IH; [auto|lia|].
    unfold enough, weight in *. unfold is_plain in Hfuel. rewrite Href, Hany in Hfuel.
    destruct (is_plain o); lia.
  - rewrite Href, Hany.
    assert (is_plain s = true) as Hplain by (unfold is_plain; by rewrite Href, Hany).
    assert (is_Some (enum_found s v)) as [found ->].
    { unfold enum_found. destruct (obj_get s "enum") as [w|]; [|by eexists].
      destruct (Henum _ eq_refl) as [es ->]. by eexists. }
    destruct found; [|by eexists]. unfold check_type.
    destruct (as_string (obj_get s "type")) as [k|]; [|by eexists].
    repeat (case_match; try by eexists).
    + unfold check_items. destruct (obj_get s "items") as [w|] eqn:Hw; [|by eexists].
      destruct (Hi _ eq_refl) as [o ->]. apply mapM_join_total. intros [i e] Hin. cbn.
      apply elem_of_lookup_imap in Hin as (j & y & [= -> ->] & Hj%list_elem_of_lookup_2).
      pose proof (Get_size _ _ _ Hw) as Hsz. change (json_size (JObject o)) with (schema_size o) in Hsz.
      apply IH; [auto|lia|]. eapply enough_smaller; [done..|by apply array_size|lia].
    + apply check_object_total; [done..|]. intros key w o Hw Ho.
      pose proof (member_schema_size _ _ _ Ho). apply IH; [eauto|lia|].
      eapply enough_smaller; [done..| |lia]. by apply lookup_last_elem, member_size in Hw.
Qed.
End Termination.
