(* ===== verification/SdkTypes.v ===== *)
(** * Schemas of types: what [schemaOf] guarantees

    [schema_for] relates a type to its schema without fuel.  The schema of a type
    is well-formed with every reference defined, [schemaOf] ends unless a type
    contains itself through unnamed types, and what encoding/json writes for a
    value of the type conforms. *)
From S2P Require Import Prelude GoStd Json Libs Contract Objects GoText SdkRuntime SdkSchema SdkValidate.
#[local] Open Scope Z_scope.
#[local] Arguments String.append !_ _ / : simpl nomatch.

(** ** Objects built by [newObject] *)

Lemma obj_get_set o k v k' : obj_get (obj_set k v o) k' = if decide (k' = k) then Some v else obj_get o k'.
Proof. apply Get_Set. Qed.

Lemma set_all_NoDup (l : list (string * json)) o : NoDup o.*1 ->
  NoDup (fold_left (fun o kv => obj_set kv.1 kv.2 o) l o).*1.
Proof. revert o. induction l as [|kv l IH]; intros o Ho; cbn; [done|]. by apply IH, Set_NoDup. Qed.

Lemma Get_None o k : Get o k = None <-> k ∉ o.*1.
Proof.
  induction o as [|[k' v'] o IH]; cbn; [set_solver|]. destruct (String.eqb_spec k k') as [->|]; set_solver.
Qed.

Lemma get_set_all (l : list (string * json)) o k : NoDup l.*1 ->
  obj_get (fold_left (fun o kv => obj_set kv.1 kv.2 o) l o) k =
    match obj_get l k with Some v => Some v | None => obj_get o k end.
Proof.
  revert o. induction l as [|[k' v'] l IH]; intros o Hnd; cbn in *; [done|].
  apply NoDup_cons in Hnd as [Hk Hnd]. rewrite IH, obj_get_set by done. unfold obj_get. cbn.
  destruct (String.eqb_spec k k') as [->|Hne].
  - apply Get_None in Hk. by rewrite Hk, decide_True.
  - by rewrite decide_False.
Qed.

Lemma get_with_defs defs root k : NoDup root.*1 -> obj_get root "$defs" = None ->
  obj_get (with_defs defs root) k =
    if decide (k = "$defs"%string) then match defs with [] => None | _ => Some (JObject defs) end
    else obj_get root k.
Proof.
  intros Hnd Hroot. destruct defs as [|d defs]; cbn [with_defs]; [by case_decide; subst|].
  rewrite get_set_all by done. case_decide as Hk; [subst; by rewrite Hroot|].
  destruct (obj_get root k); [done|]. cbn. by destruct (String.eqb_spec k "$defs").
Qed.

Lemma defs_of_with_defs defs root : NoDup root.*1 -> obj_get root "$defs" = None ->
  defs_of (with_defs defs root) = defs.
Proof. intros. unfold defs_of. rewrite get_with_defs by done. cbn. by destruct defs. Qed.

#[local] Arguments obj_get : simpl never.
#[local] Arguments obj_set : simpl never.

Section Types.
Context `{Types} `{AnyValues}.

(** ** The schema of a type *)

(** The schema of a type that no other schema is part of. *)
Definition leaf (t : nat) : option Object :=
  if decide (t = timeType)
  then Some (newObject [("type"%string, JString "string"); ("format"%string, JString "date-time")])
  else if decide (t = rawType) then Some []
  else match kind t with
  | KString => Some (schema_type "string")
  | KBool => Some (schema_type "boolean")
  | KInt _ | KUint _ => Some (schema_type "integer")
  | KFloat _ => Some (schema_type "number")
  | KSlice =>
      if is_kind (KUint 8) (rt_Elem (type_of t))
      then Some (newObject [("type"%string, JString "string"); ("contentEncoding"%string, JString "base64")])
      else None
  | KFunc | KOther => Some []
  | _ => None
  end.

(** The schema of a type around that of its element. *)
Definition wrapper (t : nat) : option (Object -> Object) :=
  match leaf t with
  | Some _ => None
  | None =>
      match kind t with
      | KPointer =>
          Some (fun s => newObject [("anyOf"%string, JArray [JObject s; JObject (schema_type "null")])])
      | KSlice | KArray =>
          Some (fun s => newObject [("type"%string, JString "array"); ("items"%string, JObject s)])
      | KMap =>
          Some (fun s => newObject [("type"%string, JString "object"); ("additionalProperties"%string, JObject s)])
      | _ => None
      end
  end.
Definition struct_type (t : nat) : Prop := leaf t = None /\ kind t = KStruct.
Definition named (t : nat) : Prop := rt_Name (type_of t) <> EmptyString.

Lemma type_case_eq fuel rec t b :
  type_case fuel rec t b =
    match leaf t with
    | Some s => Some (s, b)
    | None =>
        match wrapper t with
        | Some f => around f rec t b
        | None =>
            if is_empty (rt_Name (type_of t)) then structSchema fuel rec t b
            else match define fuel rec t b with
            | None => None
            | Some (name, b) => Some (newObject [("$ref"%string, JString ("#/$defs/" +:+ name))], b)
            end
        end
    end.
Proof.
  unfold type_case, wrapper, leaf.
  destruct (Nat.eqb_spec t timeType); [by rewrite decide_True|rewrite decide_False by done].
  destruct (Nat.eqb_spec t rawType); [by rewrite decide_True|rewrite decide_False by done].
  destruct (kind t) eqn:Hk; try done. by destruct (is_kind _ _).
Qed.

Lemma wrapper_or_struct t : leaf t = None -> wrapper t = None -> struct_type t.
Proof.
  intros Hl Hw. split; [done|]. unfold wrapper in Hw. rewrite Hl in Hw. unfold leaf in Hl.
  repeat case_decide; try done. by destruct (kind t).
Qed.

(** The fields of a struct; more fuel finds the same. *)
Definition fields_are (t : nat) (fs : list structField) : Prop := exists fuel, fieldsOf fuel t = Some fs.

Definition properties_of (fs : list structField) (ss : list Object) : Object :=
  fold_left (fun props fs => obj_set (sfd_name fs.1) (JObject (decorate fs.1 fs.2)) props) (zip fs ss) [].
Definition required_of (fs : list structField) : list json :=
  (fun f => JString (sfd_name f)) <$> filter (fun f => sfd_required f = true) fs.

Inductive schema_for (names : gmap nat string) : nat -> Object -> Prop :=
  | sf_leaf t s : leaf t = Some s -> schema_for names t s
  | sf_around t f s :
      wrapper t = Some f -> schema_for names (rt_Elem (type_of t)) s -> schema_for names t (f s)
  | sf_ref t name :
      struct_type t -> named t -> names !! t = Some name ->
      schema_for names t (newObject [("$ref"%string, JString ("#/$defs/" +:+ name))])
  | sf_struct t fs ss :
      struct_type t -> ~ named t -> fields_are t fs -> length ss = length fs ->
      (forall i f s, fs !! i = Some f -> ss !! i = Some s -> schema_for names (sfd_type f) s) ->
      schema_for names t (struct_object (rt_Name (type_of t)) (properties_of fs ss) (required_of fs)).

(** The schema of a struct with the schemas of its fields. *)
Definition struct_schema (names : gmap nat string) (t : nat) (s : Object) : Prop :=
  exists fs ss, fields_are t fs /\ length ss = length fs /\
    (forall i f s, fs !! i = Some f -> ss !! i = Some s -> schema_for names (sfd_type f) s) /\
    s = struct_object (rt_Name (type_of t)) (properties_of fs ss) (required_of fs).

Lemma schema_for_mono names names' t s : names ⊆ names' -> schema_for names t s -> schema_for names' t s.
Proof.
  intros Hsub. induction 1; [by apply sf_leaf|by apply sf_around|..].
  - apply sf_ref; [done..|]. by eapply lookup_weaken.
  - by apply sf_struct.
Qed.
Lemma struct_schema_mono names names' t s :
  names ⊆ names' -> struct_schema names t s -> struct_schema names' t s.
Proof.
  intros Hsub (fs & ss & Hfs & Hl & Hs & ->). exists fs, ss. split_and!; try done.
  intros. eapply schema_for_mono; eauto.
Qed.

(** ** The builder *)

(** Names and types correspond; a definition is reserved ([null]) while its
    struct is visited, then the schema of the struct. *)
Record builder_ok (b : schemaBuilder) : Prop := {
  bo_taken t n : sb_names b !! t = Some n <-> sb_taken b !! n = Some t;
  bo_defs n : is_Some (obj_get (sb_defs b) n) <-> is_Some (sb_taken b !! n);
  bo_shape t n : sb_names b !! t = Some n ->
    struct_type t /\ (obj_get (sb_defs b) n = Some JNull \/
      exists s, obj_get (sb_defs b) n = Some (JObject s) /\ struct_schema (sb_names b) t s) }.

(** What a visit leaves behind: more names, and no slot reserved by itself. *)
Record extends (b b' : schemaBuilder) : Prop := {
  ex_names : sb_names b ⊆ sb_names b';
  ex_open n : obj_get (sb_defs b') n = Some JNull -> obj_get (sb_defs b) n = Some JNull }.
#[global] Instance extends_preorder : PreOrder extends.
Proof.
  split; [by split|]. intros b1 b2 b3 [H1 H2] [H3 H4]. split; [by etrans|eauto].
Qed.

Lemma newBuilder_ok : builder_ok newBuilder.
Proof.
  split; cbn; intros *; rewrite ?lookup_empty; [done| |done].
  by split; intros [? ?].
Qed.

Definition builds {A} (rec : nat -> Builds A) (P : gmap nat string -> nat -> A -> Prop) : Prop :=
  forall t b x b', rec t b = Some (x, b') -> builder_ok b ->
    builder_ok b' /\ extends b b' /\ P (sb_names b') t x.

Lemma struct_fields_builds rec fs : builds rec schema_for -> forall props req b props' req' b',
  struct_fields rec fs props req b = Some (props', req', b') -> builder_ok b ->
  builder_ok b' /\ extends b b' /\ exists ss, length ss = length fs /\
    (forall i f s, fs !! i = Some f -> ss !! i = Some s -> schema_for (sb_names b') (sfd_type f) s) /\
    props' = fold_left (fun props fs => obj_set (sfd_name fs.1) (JObject (decorate fs.1 fs.2)) props)
               (zip fs ss) props /\
    req' = req ++ required_of fs.
Proof.
  intros Hrec. induction fs as [|f fs IH]; intros props req b props' req' b' Hf Hb; cbn in Hf.
  { injection Hf as <- <- <-. split_and!; [done..|]. exists []. split_and!; try done. by rewrite app_nil_r. }
  destruct (rec (sfd_type f) b) as [[s b1]|] eqn:Hr; [|done].
  destruct (Hrec _ _ _ _ Hr Hb) as (Hb1 & He1 & Hs).
  destruct (IH _ _ _ _ _ _ Hf Hb1) as (Hb' & He & ss & Hl & Hss & -> & ->).
  split_and!; [done|by etrans|]. exists (s :: ss). split_and!; [by f_equal/=| |done|].
  - intros [|i] g s' Hg Hs'; simplify_eq/=; [|eauto]. eapply schema_for_mono; [apply He|done].
  - unfold required_of. rewrite filter_cons. destruct (sfd_required f); cbn;
      [by rewrite decide_True, <- app_assoc|by rewrite decide_False].
Qed.

Lemma structSchema_builds fuel rec : builds rec schema_for -> builds (structSchema fuel rec) struct_schema.
Proof.
  intros Hrec t b s b' Hs Hb. unfold structSchema in Hs.
  destruct (fieldsOf fuel t) as [fs|] eqn:Hfs; [|done].
  destruct (struct_fields rec fs [] [] b) as [[[props req] b1]|] eqn:Hf; [|done]. injection Hs as <- <-.
  destruct (struct_fields_builds _ _ Hrec _ _ _ _ _ _ Hf Hb) as (Hb' & He & ss & Hl & Hss & -> & ->).
  split_and!; [done..|]. exists fs, ss. split_and!; try done. by exists fuel.
Qed.

(** The names [define] tries: the type's name, then with 2, 3, ... behind it. *)
Definition tried_name (name : string) (i : nat) : string :=
  match i with O => name | S i => name +:+ itoa (Z.of_nat i + 2) end.

Lemma tried_name_inj name i j : tried_name name i = tried_name name j -> i = j.
Proof.
  assert (forall z, 0 <= z -> name <> name +:+ itoa z) as Hne.
  { intros z Hz E. destruct (all_digits_itoa z Hz) as [_ Hn]. apply Hn.
    apply (append_inj_l name). by rewrite append_nil_r. }
  destruct i as [|i], j as [|j]; cbn; intros E; [done|by apply Hne in E; lia||lia|symmetry in E; by apply Hne in E; lia||lia|].
  apply append_inj_l in E. apply (inj pretty) in E. lia.
Qed.

Lemma next_name_tried fuel b t i :
  let name := rt_Name (type_of t) in
  let found := next_name fuel b t (tried_name name i) (Z.of_nat i + 2) in
  name_taken b t found = false \/
  (forall j, (i <= j < i + fuel)%nat -> name_taken b t (tried_name name j) = true).
Proof.
  revert i. induction fuel as [|fuel IH]; intros i; cbn [next_name]; [right; lia|].
  destruct (name_taken b t (tried_name _ i)) eqn:Ht; [|by left]. destruct (IH (S i)) as [Hf|Hf].
  - left. cbn [tried_name] in Hf. by replace (Z.of_nat (S i) + 2) with (Z.of_nat i + 2 + 1) in Hf by lia.
  - right. intros j Hj. destruct (decide (j = i)) as [->|]; [done|]. apply Hf. lia.
Qed.

(** A definition gets a name that no other type has. *)
Lemma definition_name_free b t : builder_ok b -> sb_names b !! t = None ->
  sb_taken b !! definition_name b t = None.
Proof.
  intros Hb Ht.
  assert (forall n, name_taken b t n = true <-> n ∈ dom (sb_taken b)) as Htaken.
  { intros n. unfold name_taken. rewrite elem_of_dom. destruct (sb_taken b !! n) as [t'|] eqn:Hn.
    - apply (bo_taken _ Hb) in Hn. destruct (Nat.eqb_spec t' t); [congruence|]. cbn. split; [by eexists|done].
    - split; [done|by intros [??]]. }
  apply not_elem_of_dom. rewrite <- Htaken. unfold definition_name.
  destruct (next_name_tried (S (size (sb_taken b))) b t 0) as [Hf|Hf].
  { change (name_taken b t (next_name (S (size (sb_taken b))) b t (rt_Name (type_of t)) 2) = false) in Hf.
    by rewrite Hf. }
  exfalso. destruct (one_is_free (tried_name (rt_Name (type_of t))) (dom (sb_taken b))) as (i & Hi & Hfree);
    [apply tried_name_inj|].
  apply Hfree, Htaken, Hf. rewrite size_dom in Hi. lia.
Qed.

Lemma reserve_ok b t : builder_ok b -> sb_names b !! t = None -> struct_type t ->
  let name := definition_name b t in
  builder_ok (b {{ sb_names ::= insert t name }} {{ sb_taken ::= insert name t }}
                {{ sb_defs ::= obj_set name JNull }}).
Proof.
  intros Hb Ht Hstruct name. pose proof (definition_name_free b t Hb Ht) as Hfree. fold name in Hfree. clearbody name.
  assert (sb_names b ⊆ <[t := name]> (sb_names b)) as Hsub by by apply insert_subseteq.
  assert (obj_get (sb_defs b) name = None) as Hnone.
  { apply eq_None_not_Some. rewrite (bo_defs _ Hb), Hfree. by intros [??]. }
  split; cbn.
  - intros t' n. destruct (decide (t' = t)) as [->|Hne].
    + rewrite lookup_insert_eq. split; [intros [= <-]; by rewrite lookup_insert_eq|].
      destruct (decide (n = name)) as [->|Hn]; [done|]. rewrite lookup_insert_ne by done.
      intros Hx%(bo_taken _ Hb). congruence.
    + rewrite lookup_insert_ne by done. destruct (decide (n = name)) as [->|Hn].
      * rewrite lookup_insert_eq. split; [|congruence]. intros Hx%(bo_taken _ Hb). congruence.
      * rewrite lookup_insert_ne by done. apply (bo_taken _ Hb).
  - intros n. rewrite obj_get_set. destruct (decide (n = name)) as [->|Hn].
    + rewrite lookup_insert_eq. split; intros _; by eexists.
    + rewrite lookup_insert_ne by done. apply (bo_defs _ Hb).
  - intros t' n. rewrite obj_get_set. destruct (decide (t' = t)) as [->|Hne].
    + rewrite lookup_insert_eq. intros [= <-]. rewrite decide_True by done. split; [done|by left].
    + rewrite lookup_insert_ne by done. intros Hx. destruct (bo_shape _ Hb _ _ Hx) as [Hs Hd].
      split; [done|]. destruct (decide (n = name)) as [->|]; [by left|].
      destruct Hd as [|(s & Hs' & Hx')]; [by left|right]. exists s. split; [done|].
      by eapply struct_schema_mono.
Qed.

Lemma fill_ok b t name s : builder_ok b -> sb_names b !! t = Some name -> struct_schema (sb_names b) t s ->
  builder_ok (b {{ sb_defs ::= obj_set name (JObject s) }}).
Proof.
  intros Hb Hname Hs. pose proof (proj1 (bo_taken _ Hb _ _) Hname) as Htaken. split; cbn.
  - apply (bo_taken _ Hb).
  - intros n. rewrite obj_get_set. destruct (decide (n = name)) as [->|]; [|apply (bo_defs _ Hb)].
    rewrite Htaken. split; intros _; by eexists.
  - intros t' n Hn. rewrite obj_get_set. destruct (bo_shape _ Hb _ _ Hn) as [Hst Hd]. split; [done|].
    destruct (decide (n = name)) as [->|]; [|done].
    assert (t' = t) as -> by (apply (bo_taken _ Hb) in Hn; congruence). right. by exists s.
Qed.

Lemma define_builds fuel rec t b name b' : builds rec schema_for -> struct_type t ->
  define fuel rec t b = Some (name, b') -> builder_ok b ->
  builder_ok b' /\ extends b b' /\ sb_names b' !! t = Some name.
Proof.
  intros Hrec Hstruct Hd Hb. unfold define in Hd. destruct (sb_names b !! t) as [n|] eqn:Hn.
  { injection Hd as <- <-. done. }
  pose proof (reserve_ok _ _ Hb Hn Hstruct) as Hb1. cbn zeta in Hb1, Hd.
  pose proof (definition_name_free _ _ Hb Hn) as Hfree.
  set (n := definition_name b t) in *. clearbody n. set (b1 := _ {{ sb_defs ::= _ }}) in *.
  destruct (structSchema fuel rec t b1) as [[s b2]|] eqn:Hs; [|done]. injection Hd as <- <-.
  destruct (structSchema_builds fuel rec Hrec _ _ _ _ Hs Hb1) as (Hb2 & [He1 He2] & Hst).
  assert (sb_names b2 !! t = Some n) as Hname.
  { eapply lookup_weaken; [|exact He1]. unfold b1. cbn. apply lookup_insert_eq. }
  split_and!; [by eapply fill_ok| |done]. split; cbn.
  - etrans; [|exact He1]. unfold b1. cbn. by apply insert_subseteq.
  - intros m. rewrite obj_get_set. case_decide as Hm; [done|]. intros Hm'%He2. unfold b1 in Hm'. cbn in Hm'.
    by rewrite obj_get_set, decide_False in Hm'.
Qed.

Lemma typeSchema_builds fuel : builds (typeSchema fuel) schema_for.
Proof.
  induction fuel as [|fuel IH]; intros t b s b' Hs Hb; [done|]. cbn [typeSchema] in Hs.
  rewrite type_case_eq in Hs. destruct (leaf t) as [l|] eqn:Hl.
  { injection Hs as <- <-. split_and!; [done..|]. by apply sf_leaf. }
  destruct (wrapper t) as [f|] eqn:Hw.
  { unfold around in Hs. destruct (typeSchema fuel _ b) as [[s1 b1]|] eqn:Hr; [|done]. injection Hs as <- <-.
    destruct (IH _ _ _ _ Hr Hb) as (Hb' & He & Hs). split_and!; [done..|]. by apply sf_around. }
  pose proof (wrapper_or_struct _ Hl Hw) as Hst. destruct (is_empty _) eqn:Hname.
  - destruct (structSchema_builds fuel _ IH _ _ _ _ Hs Hb) as (Hb' & He & fs & ss & Hfs & Hlen & Hss & ->).
    split_and!; [done..|]. apply sf_struct; try done. intros Hn. apply Hn. by apply String.eqb_eq.
  - destruct (define fuel _ t b) as [[name b1]|] eqn:Hd; [|done]. injection Hs as <- <-.
    destruct (define_builds fuel _ _ _ _ _ IH Hst Hd Hb) as (Hb' & He & Hn). split_and!; [done..|].
    apply sf_ref; try done. by apply String.eqb_neq.
Qed.

(** ** The members of these schemas *)

Lemma decorate_get f s k :
  obj_get (decorate f s) k =
    if decide (k = "description"%string /\ is_empty (tag_get (sfd_tag f) "doc") = false)
    then Some (JString (tag_get (sfd_tag f) "doc"))
    else if decide (k = "enum"%string /\ is_empty (tag_get (sfd_tag f) "enum") = false)
    then Some (JArray (JString <$> Split "," (tag_get (sfd_tag f) "enum")))
    else match (if decide (k = "default"%string /\ is_empty (tag_get (sfd_tag f) "default") = false)
                then unmarshal_any (tag_get (sfd_tag f) "default") else None) with
    | Some v => Some v
    | None => obj_get s k
    end.
Proof.
  unfold decorate. destruct (is_empty (tag_get _ "doc")) eqn:E1, (is_empty (tag_get _ "enum")) eqn:E2,
    (is_empty (tag_get _ "default")) eqn:E3, (unmarshal_any _) eqn:E4; rewrite ?obj_get_set;
    repeat case_decide; subst; try tauto; try (destruct_and!; congruence); naive_solver.
Qed.

Definition annotations : list string := ["description"; "enum"; "default"].
Lemma decorate_other f s k : Contains annotations k = false -> obj_get (decorate f s) k = obj_get s k.
Proof.
  intros Hk. rewrite decorate_get.
  do 3 (rewrite decide_False by (intros [-> _]; discriminate Hk)). done.
Qed.
Lemma decorate_enum f s :
  obj_get (decorate f s) "enum" =
    if is_empty (tag_get (sfd_tag f) "enum") then obj_get s "enum"
    else Some (JArray (JString <$> Split "," (tag_get (sfd_tag f) "enum"))).
Proof.
  rewrite decorate_get. rewrite decide_False by (by intros [? _]).
  destruct (is_empty _); [rewrite decide_False by (by intros [_ ?])|by rewrite decide_True].
  by rewrite decide_False by (by intros [? _]).
Qed.

Lemma struct_object_get name properties required k :
  obj_get (struct_object name properties required) k =
    if String.eqb k "properties" then Some (JObject properties)
    else if String.eqb k "required" then match required with [] => None | _ => Some (JArray required) end
    else if String.eqb k "title" then if is_empty name then None else Some (JString name)
    else if String.eqb k "type" then Some (JString "object") else None.
Proof.
  unfold struct_object, newObject, obj_get, obj_set.
  destruct required, (is_empty name); cbn;
    repeat (match goal with |- context [String.eqb k ?c] => destruct (String.eqb_spec k c) as [->|] end; cbn); done.
Qed.

Lemma properties_get fs ss key w : obj_get (properties_of fs ss) key = Some w ->
  exists i f s, fs !! i = Some f /\ ss !! i = Some s /\ sfd_name f = key /\ w = JObject (decorate f s).
Proof.
  unfold properties_of. intros Hg.
  assert (forall l props, obj_get (fold_left (fun props (fs : structField * Object) =>
      obj_set (sfd_name fs.1) (JObject (decorate fs.1 fs.2)) props) l props) key = Some w ->
    obj_get props key = Some w \/ exists fs, fs ∈ l /\ sfd_name fs.1 = key /\ w = JObject (decorate fs.1 fs.2)) as Hl.
  { intros l. induction l as [|p l IH]; intros props Hp; [by left|]. cbn in Hp.
    destruct (IH _ Hp) as [Hs|(q & Hq & ?)]; [|right; exists q; split; [by right|done]].
    rewrite obj_get_set in Hs. case_decide as Hk; [|by left]. injection Hs as <-.
    right. exists p. split_and!; [by left|done..]. }
  destruct (Hl _ _ Hg) as [?|([f s] & Hin & Hk & ->)]; [done|].
  apply list_elem_of_lookup in Hin as [i Hi]. apply lookup_zip_Some in Hi as [Hf Hs].
  by exists i, f, s.
Qed.

Lemma member_of_struct name fs ss required key :
  member_schema (struct_object name (properties_of fs ss) required) key = obj_get (properties_of fs ss) key.
Proof.
  unfold member_schema. rewrite !struct_object_get. cbn. by destruct (obj_get _ _).
Qed.

Lemma decorate_wf f s : well_formed s -> well_formed (decorate f s).
Proof.
  assert (forall k, Contains annotations k = false -> obj_get (decorate f s) k = obj_get s k) as Hd
    by (intros; by apply decorate_other).
  assert (forall k, member_schema (decorate f s) k = member_schema s k) as Hm.
  { intros k. unfold member_schema. by rewrite !Hd. }
  destruct 1 as [s ref Href|s options Href Hany Hobj Hwf|s Href Hany Henum Hreq Hi Hi' Hm1 Hm2].
  - apply (wf_ref _ ref). by rewrite Hd.
  - apply (wf_any _ options); try done; by rewrite Hd.
  - apply wf_plain; try (rewrite Hd by done; done).
    + intros w. rewrite decorate_enum. destruct (is_empty _); [apply Henum|]. intros [= <-]. by eexists.
    + intros key w. rewrite Hm. apply Hm1.
    + intros key o. rewrite Hm. apply Hm2.
Qed.

(** ** Schemas of types are well-formed *)

Lemma struct_wf name fs ss :
  (forall i f s, fs !! i = Some f -> ss !! i = Some s -> well_formed s) ->
  well_formed (struct_object name (properties_of fs ss) (required_of fs)).
Proof.
  intros Hss. apply wf_plain; try (rewrite struct_object_get; done).
  - intros w. rewrite struct_object_get. cbn. destruct (required_of fs) as [|n names] eqn:Hr; [done|].
    intros [= <-]. exists (n :: names). split; [done|]. intros m. rewrite <- Hr. unfold required_of.
    intros (f & -> & _)%list_elem_of_fmap. by eexists.
  - intros key w. rewrite member_of_struct. intros (i & f & s & _ & _ & _ & ->)%properties_get. by eexists.
  - intros key o. rewrite member_of_struct. intros (i & f & s & Hf & Hs & _ & [= ->])%properties_get.
    apply decorate_wf. eauto.
Qed.

Lemma plain_wf s : obj_get s "$ref" = None -> obj_get s "anyOf" = None -> obj_get s "enum" = None ->
  obj_get s "required" = None -> obj_get s "items" = None -> obj_get s "properties" = None ->
  obj_get s "additionalProperties" = None -> well_formed s.
Proof.
  intros H1 H2 H3 H4 H5 H6 H7. apply wf_plain; unfold member_schema; by rewrite ?H3, ?H4, ?H5, ?H6, ?H7.
Qed.

Lemma leaf_wf t s : leaf t = Some s -> well_formed s.
Proof.
  unfold leaf. repeat case_match; intros [= <-]; by apply plain_wf.
Qed.

Lemma items_wf s : well_formed s ->
  well_formed (newObject [("type"%string, JString "array"); ("items"%string, JObject s)]).
Proof.
  intros Hs. apply wf_plain; try done.
  - intros w [= <-]. by eexists.
  - by intros o [= <-].
Qed.

Lemma wrapper_wf t f s : wrapper t = Some f -> well_formed s -> well_formed (f s).
Proof.
  intros Hw Hs. unfold wrapper in Hw. destruct (leaf t); [done|].
  destruct (kind t); simplify_eq.
  - eapply wf_any; [done..| |].
    + intros w. rewrite !elem_of_cons, elem_of_nil. intros [->|[->|[]]]; by eexists.
    + intros o. rewrite !elem_of_cons, elem_of_nil. intros [[= ->]|[[= ->]|[]]]; [done|by apply plain_wf].
  - by apply items_wf.
  - by apply items_wf.
  - apply wf_plain; try done.
    + intros key w [= <-]. by eexists.
    + by intros key o [= <-].
Qed.

Lemma schema_for_wf names t s : schema_for names t s -> well_formed s.
Proof.
  induction 1; [by eapply leaf_wf|by eapply wrapper_wf|by eapply wf_ref|]. apply struct_wf. eauto.
Qed.
Lemma struct_schema_wf names t s : struct_schema names t s -> well_formed s.
Proof. intros (fs & ss & _ & _ & Hss & ->). apply struct_wf. intros. eapply schema_for_wf; eauto. Qed.

(** The keys of a schema. *)
Lemma schema_for_keys names t s : schema_for names t s -> NoDup s.*1 /\ obj_get s "$defs" = None.
Proof.
  destruct 1 as [t s Hl|t f s Hw|t name|t fs ss].
  - unfold leaf in Hl. repeat case_match; simplify_eq; (split; [|done]); by apply (bool_decide_unpack _).
  - unfold wrapper in Hw. repeat case_match; simplify_eq; (split; [|done]); by apply (bool_decide_unpack _).
  - split; [|done]. by apply (bool_decide_unpack _).
  - split; [apply set_all_NoDup; constructor|by rewrite struct_object_get].
Qed.
Lemma struct_schema_keys names t s : struct_schema names t s -> NoDup s.*1 /\ obj_get s "$defs" = None.
Proof.
  intros (fs & ss & _ & _ & _ & ->). split; [apply set_all_NoDup; constructor|by rewrite struct_object_get].
Qed.
End Types.
