(* ===== verification/SdkMarshal.v ===== *)
(** * Values and schemas: the guarantees of schema.go

    Validation against the schema of a type ends and decides [conforms]; the
    schema exists unless a type contains itself through unnamed types; what
    encoding/json writes for a value conforms, except where a slice or map is nil. *)
From S2P Require Import Prelude GoStd Json Libs Contract Objects GoText SdkRuntime SdkSchema SdkValidate SdkTypes.
#[local] Open Scope Z_scope.
#[local] Arguments String.append !_ _ / : simpl nomatch.
#[local] Arguments obj_get : simpl never.
#[local] Arguments obj_set : simpl never.

(** ** Schemas that differ in [$defs] only *)

Definition same_members (s s' : Object) : Prop := forall k, k <> "$defs"%string -> obj_get s k = obj_get s' k.

Lemma member_schema_same s s' k : same_members s s' -> member_schema s k = member_schema s' k.
Proof. intros Hs. unfold member_schema. by rewrite !(Hs _) by done. Qed.

Lemma well_formed_same s s' : same_members s s' -> well_formed s -> well_formed s'.
Proof.
  intros Hs. destruct 1 as [s ref Href|s options Href Hany Hobj Hwf|s Href Hany Henum Hreq Hi Hi' Hm1 Hm2].
  - apply (wf_ref _ ref). by rewrite <- Hs.
  - by apply (wf_any _ options); rewrite <- ?Hs.
  - apply wf_plain; rewrite <- ?Hs by done; try done; intros key w; rewrite <- (member_schema_same _ _ _ Hs); eauto.
Qed.

Section Same.
Context {F : Floats} {Tr : Truncation} (defs : Object).
Lemma plain_same s s' v k : same_members s s' -> plain s v k -> plain s' v k.
Proof.
  intros Hs [H1 H2 H3 H4]. split; rewrite <- ?Hs; try done.
  unfold enum_found in *. by rewrite <- Hs.
Qed.
Lemma conforms_same s s' v : same_members s s' -> conforms defs s v -> conforms defs s' v.
Proof.
  intros Hs. destruct 1 as [s ref v Href Ht|s options o v Href Hany Hin Ho|s v Hp|s v k Hp Hk|s Hp|s t Hp|s b Hp
    |s v Hp Hi|s n Hp|s items Hp Hi|s ms Hp Hr Hm].
  - apply (conforms_ref _ _ ref); [by rewrite <- Hs|done].
  - eapply conforms_any; rewrite <- ?Hs; eauto.
  - apply conforms_untyped. by eapply plain_same.
  - eapply conforms_unknown; [by eapply plain_same|done].
  - apply conforms_null. by eapply plain_same.
  - apply conforms_string. by eapply plain_same.
  - apply conforms_bool. by eapply plain_same.
  - apply conforms_integer; [by eapply plain_same|done].
  - apply conforms_number. by eapply plain_same.
  - apply conforms_array; [by eapply plain_same|]. intros o e. rewrite <- Hs by done. apply Hi.
  - apply conforms_object; [by eapply plain_same|..].
    + intros names n. rewrite <- Hs by done. apply Hr.
    + intros key w o. rewrite <- (member_schema_same s s') by done. apply Hm.
Qed.
End Same.

Section Schemas.
Context `{Types} `{AnyValues}.

(** ** The parts of [schemaOf] *)

(** [t'] is [t] without pointers. *)
Inductive points_to : nat -> nat -> Prop :=
  | points_here t : kind t <> KPointer -> points_to t t
  | points_on t t' : kind t = KPointer -> points_to (rt_Elem (type_of t)) t' -> points_to t t'.

Lemma strip_pointers_spec fuel t t' : strip_pointers fuel t = Some t' -> points_to t t'.
Proof.
  revert t. induction fuel as [|fuel IH]; intros t; [done|]. cbn. unfold is_kind. case_bool_decide as Hk.
  - intros Ht. apply points_on; auto.
  - intros [= <-]. by apply points_here.
Qed.

(** All definitions are filled in, and those that are referred to exist. *)
Record schema_parts (schema : Object) (t : nat) (b : schemaBuilder) : Prop := {
  sp_builder : builder_ok b;
  sp_filled n : obj_get (sb_defs b) n <> Some JNull;
  sp_defs : defs_of schema = sb_defs b;
  sp_root : exists root, same_members root schema /\
    ((kind t = KStruct /\ t <> timeType /\ struct_schema (sb_names b) t root) \/ schema_for (sb_names b) t root) }.

Lemma schemaOf_parts fuel t schema : schemaOf fuel t = Some schema ->
  exists t' b, points_to t t' /\ schema_parts schema t' b.
Proof.
  unfold schemaOf. destruct (strip_pointers fuel t) as [t'|] eqn:Ht; [|done].
  apply strip_pointers_spec in Ht.
  assert (forall root b', NoDup root.*1 /\ obj_get root "$defs" = None -> builder_ok b' -> extends newBuilder b' ->
    ((kind t' = KStruct /\ t' <> timeType /\ struct_schema (sb_names b') t' root) \/ schema_for (sb_names b') t' root) ->
    schema_parts (with_defs (sb_defs b') root) t' b') as Hparts.
  { intros root b' [Hnd Hd] Hb He Hs. split; [done| |by apply defs_of_with_defs|].
    - by intros n Hn%(ex_open _ _ He).
    - exists root. split; [|done]. intros k Hk. by rewrite get_with_defs, decide_False. }
  destruct (is_kind KStruct t' && negb (t' =? timeType)%nat) eqn:Hstruct.
  - destruct (structSchema fuel (typeSchema fuel) t' newBuilder) as [[root b]|] eqn:Hs; [|done].
    intros [= <-]. exists t', b. split; [done|].
    destruct (structSchema_builds fuel _ (typeSchema_builds fuel) _ _ _ _ Hs newBuilder_ok) as (Hb & He & Hst).
    apply Hparts; [by eapply struct_schema_keys|done..|]. left.
    apply andb_true_iff in Hstruct as [Hk Ht'%negb_true_iff%Nat.eqb_neq]. by apply bool_decide_eq_true in Hk.
  - destruct (typeSchema fuel t' newBuilder) as [[root b]|] eqn:Hs; [|done].
    intros [= <-]. exists t', b. split; [done|].
    destruct (typeSchema_builds fuel _ _ _ _ Hs newBuilder_ok) as (Hb & He & Hst).
    apply Hparts; [by eapply schema_for_keys|done..|]. by right.
Qed.

(** A definition belongs to one type, of which it is the schema. *)
Lemma definition_of schema t b n target : schema_parts schema t b -> defined (defs_of schema) n = Some target ->
  exists t', sb_names b !! t' = Some n /\ struct_type t' /\ struct_schema (sb_names b) t' target.
Proof.
  intros Hp. rewrite (sp_defs _ _ _ Hp). unfold defined, Obj. fold (obj_get (sb_defs b) n). intros Hd.
  pose proof (sp_builder _ _ _ Hp) as Hb.
  destruct (obj_get (sb_defs b) n) as [w|] eqn:Hg; [|done]. destruct w as [| | | | |s]; try done. injection Hd as ->.
  destruct (proj1 (bo_defs _ Hb n)) as [t' Ht']; [by eexists|]. apply (bo_taken _ Hb) in Ht'.
  exists t'. split; [done|]. destruct (bo_shape _ Hb _ _ Ht') as [Hst [Hn|(s & Hs & Hst')]]; [congruence|].
  split; [done|]. congruence.
Qed.
Lemma definition_for schema t b t' n : schema_parts schema t b -> sb_names b !! t' = Some n ->
  exists target, defined (defs_of schema) n = Some target /\ struct_schema (sb_names b) t' target.
Proof.
  intros Hp Hn. rewrite (sp_defs _ _ _ Hp).
  destruct (bo_shape _ (sp_builder _ _ _ Hp) _ _ Hn) as [_ [Hnull|(s & Hs & Hst)]].
  - by apply (sp_filled _ _ _ Hp) in Hnull.
  - exists s. split; [|done]. unfold defined, Obj. fold (obj_get (sb_defs b) n). by rewrite Hs.
Qed.

Lemma schemaOf_definitions schema t b : schema_parts schema t b -> definitions_ok (defs_of schema).
Proof.
  intros Hp n target (t' & _ & _ & Hs)%(definition_of _ _ _ _ _ Hp).
  split; [by eapply struct_schema_wf|]. destruct Hs as (fs & ss & _ & _ & _ & ->).
  by rewrite !struct_object_get.
Qed.
Lemma schemaOf_well_formed schema t b : schema_parts schema t b -> well_formed schema.
Proof.
  intros Hp. destruct (sp_root _ _ _ Hp) as (root & Hs & Hroot). eapply well_formed_same; [done|].
  destruct Hroot as [(_ & _ & Hst)|Hst]; [by eapply struct_schema_wf|by eapply schema_for_wf].
Qed.

Lemma defined_small schema n target : defined (defs_of schema) n = Some target ->
  (schema_size target <= schema_size schema)%nat.
Proof.
  unfold defined, Obj, defs_of, obj_get.
  destruct (Get schema "$defs") as [[| | | | |defs]|] eqn:Hd; try (intros [=]; fail); try (cbn; done).
  cbn [from_option as_object id].
  destruct (Get defs n) as [[| | | | |s]|] eqn:Hn; try done.
  intros Heq. injection Heq as ->. apply Get_size in Hd, Hn. unfold schema_size in *. lia.
Qed.

(** Validation of a text that is a JSON value. *)
Lemma validates_iff {F : Floats} {Tr : Truncation} fuel t schema raw value rest :
  schemaOf fuel t = Some schema -> decode_next raw = Some (value, rest) ->
  exists violations, validate schema raw = Some violations /\
    (violations = [] <-> conforms (defs_of schema) schema value).
Proof.
  intros (t' & b & _ & Hp)%schemaOf_parts Hraw. unfold validate. rewrite Hraw.
  destruct (check_total (defs_of schema) (schema_size schema) (schemaOf_definitions _ _ _ Hp) (defined_small schema)
    (check_fuel schema value) schema value []) as [vs Hvs]; [by eapply schemaOf_well_formed|done| |].
  { unfold enough, check_fuel, weight. destruct (is_plain schema); lia. }
  exists vs. split; [done|]. split; [intros ->; by eapply check_sound|intros Hc; by eapply check_complete].
Qed.


(** ** Termination *)

(** What an embedded field flattens to. *)
Definition embedded (f : StructField) : nat :=
  if is_kind KPointer (fd_Type f) then rt_Elem (type_of (fd_Type f)) else fd_Type f.

(** The fields of a struct, those of embedded structs included. *)
Inductive flattened : nat -> StructField -> Prop :=
  | flattened_here t f : f ∈ rt_Fields (type_of t) -> flattened t f
  | flattened_deep t f g : g ∈ rt_Fields (type_of t) -> kind (embedded g) = KStruct ->
      flattened (embedded g) f -> flattened t f.

(** The types below [n], none of which contains itself through unnamed types,
    pointers or embedding: there a rank decreases.  Through the fields of a named
    struct a type may well contain itself. *)
Record ranked (n : nat) (rank : nat -> nat) (R : nat) : Prop := {
  rk_bound t : (t < n)%nat -> (rank t <= R)%nat;
  rk_pointer t : (t < n)%nat -> kind t = KPointer ->
    (rt_Elem (type_of t) < n)%nat /\ (rank (rt_Elem (type_of t)) < rank t)%nat;
  rk_wrapper t f : (t < n)%nat -> wrapper t = Some f ->
    (rt_Elem (type_of t) < n)%nat /\ (rank (rt_Elem (type_of t)) < rank t)%nat;
  rk_field t f : (t < n)%nat -> kind t = KStruct -> flattened t f ->
    (fd_Type f < n)%nat /\ (~ named t -> (rank (fd_Type f) < rank t)%nat);
  rk_embedded t f : (t < n)%nat -> kind t = KStruct -> f ∈ rt_Fields (type_of t) ->
    kind (embedded f) = KStruct -> (embedded f < n)%nat /\ (rank (embedded f) < rank t)%nat }.

Section Ranked.
Context (n : nat) (rank : nat -> nat) (R : nat) (Hr : ranked n rank R).

Lemma strip_pointers_total t fuel : (t < n)%nat -> (rank t < fuel)%nat ->
  exists t', strip_pointers fuel t = Some t' /\ (t' < n)%nat.
Proof.
  revert t. induction fuel as [|fuel IH]; intros t Ht Hf; [lia|]. cbn. unfold is_kind. case_bool_decide as Hk; [|eauto].
  destruct (rk_pointer _ _ _ Hr t Ht Hk). apply IH; [done|lia].
Qed.

Lemma walk_total t fuel prefix : (t < n)%nat -> kind t = KStruct -> (rank t < fuel)%nat ->
  exists fs, walk fuel t prefix = Some fs /\
    forall sf, sf ∈ fs -> exists f, flattened t f /\ sfd_type sf = fd_Type f.
Proof.
  revert t prefix. induction fuel as [|fuel IH]; intros t prefix Ht Hk Hf; [lia|]. cbn [walk].
  assert (forall jf, jf ∈ imap pair (rt_Fields (type_of t)) ->
    exists fs, walk_field (walk fuel) prefix jf.1 jf.2 = Some fs /\
      forall sf, sf ∈ fs -> exists f, flattened t f /\ sfd_type sf = fd_Type f) as Hfield.
  { intros jf (j & f & -> & Hj%list_elem_of_lookup_2)%elem_of_lookup_imap. cbn [fst snd]. unfold walk_field.
    case_match; [exists []; split; [done|set_solver]|].
    destruct (Cut "," _) as [[name opts] ok]. fold (embedded f).
    destruct (fd_Anonymous f && is_empty name && is_kind KStruct (embedded f)) eqn:He.
    - apply andb_true_iff in He as [_ He]. apply bool_decide_eq_true in He.
      destruct (rk_embedded _ _ _ Hr t f Ht Hk Hj He) as [Hn Hrk].
      destruct (IH (embedded f) (prefix ++ [j])) as (fs & Hfs & Hin); [done..|lia|].
      exists fs. split; [done|]. intros sf (g & Hg & Hty)%Hin. exists g. split; [|done].
      by eapply flattened_deep.
    - destruct (fd_Exported f); cbn [negb]; [|exists []; split; [done|set_solver]].
      eexists. split; [done|]. intros sf ->%list_elem_of_singleton. exists f. split; [|done].
      by apply flattened_here. }
  assert (is_Some (mapM (fun jf => walk_field (walk fuel) prefix jf.1 jf.2)
    (imap pair (rt_Fields (type_of t))))) as [fss Hfss].
  { apply mapM_is_Some, Forall_forall. intros jf Hjf. destruct (Hfield _ Hjf) as (fs & Hfs & _). by exists fs. }
  rewrite Hfss. cbn. eexists. split; [done|]. intros sf Hsf.
  apply list_elem_of_join in Hsf as (fs & Hsf & Hfs).
  apply list_elem_of_lookup in Hfs as [i Hi]. apply mapM_Some in Hfss.
  destruct (Forall2_lookup_r _ _ _ _ _ Hfss Hi) as (jf & Hjf%list_elem_of_lookup_2 & Hw).
  destruct (Hfield _ Hjf) as (fs' & Hw' & Hin). apply Hin. congruence.
Qed.

(** The named types without a definition. *)
Definition pending (b : schemaBuilder) : nat :=
  length (filter (fun t => sb_names b !! t = None) (seq 0 n)).

Lemma pending_mono b b' : sb_names b ⊆ sb_names b' -> (pending b' <= pending b)%nat.
Proof.
  intros Hsub. unfold pending. apply sublist_length. generalize (seq 0 n). intros l.
  induction l as [|t l IH]; [done|]. rewrite !filter_cons.
  repeat case_decide; [by constructor| |by constructor|done].
  exfalso. destruct (sb_names b !! t) as [m|] eqn:E; [|done]. eapply lookup_weaken in E; [|done]. congruence.
Qed.
Lemma pending_define b b' t : sb_names b ⊆ sb_names b' -> (t < n)%nat ->
  sb_names b !! t = None -> is_Some (sb_names b' !! t) -> (pending b' < pending b)%nat.
Proof.
  intros Hsub Ht Hb [m Hb']. unfold pending.
  assert (t ∈ seq 0 n) as Hin by (apply elem_of_seq; lia). clear Ht. revert Hin. generalize (seq 0 n). intros l.
  induction l as [|t' l IH]; intros Hin; [by apply not_elem_of_nil in Hin|]. rewrite !filter_cons.
  assert (length (filter (fun t => sb_names b' !! t = None) l) <= length (filter (fun t => sb_names b !! t = None) l))%nat as Hle.
  { clear IH Hin. induction l as [|u l IH]; [done|]. rewrite !filter_cons. repeat case_decide; cbn; try lia.
    exfalso. destruct (sb_names b !! u) as [k|] eqn:E; [|done]. eapply lookup_weaken in E; [|done]. congruence. }
  apply elem_of_cons in Hin as [<-|Hin].
  - rewrite decide_False by congruence. rewrite decide_True by done. cbn. lia.
  - specialize (IH Hin). repeat case_decide; cbn; try lia.
    exfalso. destruct (sb_names b !! t') as [k|] eqn:E; [|done]. eapply lookup_weaken in E; [|done]. congruence.
Qed.

Lemma struct_fields_total fuel fs b : builder_ok b ->
  (forall sf b', sf ∈ fs -> builder_ok b' -> extends b b' -> is_Some (typeSchema fuel (sfd_type sf) b')) ->
  forall props req, is_Some (struct_fields (typeSchema fuel) fs props req b).
Proof.
  revert b. induction fs as [|f fs IH]; intros b Hb Hrec props req; [by eexists|]. cbn.
  destruct (Hrec f b) as [[s b1] Hs]; [by left|done..|]. rewrite Hs.
  destruct (typeSchema_builds fuel _ _ _ _ Hs Hb) as (Hb1 & He & _). apply IH; [done|].
  intros sf b' Hin Hb' He'. apply Hrec; [by right|done|by etrans].
Qed.

(** The fuel that visits a type: an amount per definition that is left to write. *)
Definition visit_fuel (t : nat) (b : schemaBuilder) : nat := pending b * (R + 2) + rank t + 2.

Lemma structSchema_total fuel t b : (t < n)%nat -> kind t = KStruct -> builder_ok b -> (rank t < fuel)%nat ->
  (forall f b', flattened t f -> builder_ok b' -> extends b b' -> is_Some (typeSchema fuel (fd_Type f) b')) ->
  is_Some (structSchema fuel (typeSchema fuel) t b).
Proof.
  intros Ht Hk Hb Hf Hrec. unfold structSchema, fieldsOf.
  destruct (walk_total t fuel [] Ht Hk Hf) as (fs & -> & Hfs).
  destruct (struct_fields_total fuel fs b Hb) with (props := @nil (string * json)) (req := @nil json) as [[[props req] b'] ->];
    [|by eexists].
  intros sf b' (f & Hfl & ->)%Hfs. by apply Hrec.
Qed.

Lemma typeSchema_total fuel t b : (t < n)%nat -> builder_ok b -> (visit_fuel t b <= fuel)%nat ->
  is_Some (typeSchema fuel t b).
Proof.
  unfold visit_fuel. revert t b. induction fuel as [|fuel IH]; intros t b Ht Hb Hf; [lia|]. cbn [typeSchema].
  rewrite type_case_eq. destruct (leaf t) as [l|] eqn:Hl; [by eexists|].
  destruct (wrapper t) as [f|] eqn:Hw.
  { destruct (rk_wrapper _ _ _ Hr t f Ht Hw) as [He Hlt]. unfold around.
    destruct (IH (rt_Elem (type_of t)) b) as [[s b'] ->]; [done..|lia|]. by eexists. }
  destruct (wrapper_or_struct _ Hl Hw) as [_ Hk]. destruct (is_empty _) eqn:Hname.
  - assert (~ named t) as Hun by (intros Hn; apply Hn; by apply String.eqb_eq).
    apply structSchema_total; [done..|lia|]. intros f b' Hfl Hb' He.
    destruct (rk_field _ _ _ Hr t f Ht Hk Hfl) as [Hn Hlt]. specialize (Hlt Hun).
    apply IH; [done..|]. pose proof (pending_mono _ _ (ex_names _ _ He)). nia.
  - enough (is_Some (define fuel (typeSchema fuel) t b)) as [[name b'] ->] by by eexists.
    unfold define. destruct (sb_names b !! t) as [name|] eqn:Hnone; [by eexists|]. cbn zeta.
    pose proof (reserve_ok b t Hb Hnone (conj Hl Hk)) as Hb1. cbn zeta in Hb1.
    set (b1 := _ {{ sb_defs ::= _ }}) in *.
    assert (sb_names b ⊆ sb_names b1 /\ is_Some (sb_names b1 !! t)) as [Hsub Hin].
    { unfold b1. cbn [sb_names]. cbn. split; [by apply insert_subseteq|by rewrite lookup_insert_eq]. }
    pose proof (pending_define b b1 t Hsub Ht Hnone Hin) as Hp. clearbody b1.
    destruct (structSchema_total fuel t b1) as [[s b2] ->]; [done..|lia| |by eexists].
    intros f b' Hfl Hb' He. destruct (rk_field _ _ _ Hr t f Ht Hk Hfl) as [Hn _].
    apply IH; [done..|]. pose proof (pending_mono _ _ (ex_names _ _ He)).
    pose proof (rk_bound _ _ _ Hr _ Hn). nia.
Qed.
End Ranked.

(** C19: [schemaOf] ends on every type whose only ways back to itself lead through
    the fields of named structs: with fuel for each of [n] types and for the longest
    way, and with any more. *)
Theorem schemaOf_terminates n rank R t fuel :
  ranked n rank R -> (t < n)%nat -> (n * (R + 2) + R + 3 <= fuel)%nat ->
  exists schema, schemaOf fuel t = Some schema.
Proof.
  intros Hr Ht Hf. pose proof (rk_bound _ _ _ Hr _ Ht) as HR. unfold schemaOf.
  destruct (strip_pointers_total n rank R Hr t fuel) as (t' & -> & Ht'); [done|lia|].
  pose proof (rk_bound _ _ _ Hr _ Ht') as HR'.
  assert (forall b, pending n b <= n)%nat as Hp.
  { intros b. unfold pending. rewrite <- (length_seq n 0) at 2. apply sublist_length, sublist_filter. }
  assert (forall u b, (u < n)%nat -> builder_ok b -> is_Some (typeSchema fuel u b)) as Htotal.
  { intros u b Hu Hb. eapply (typeSchema_total n rank R Hr); [done..|]. unfold visit_fuel.
    pose proof (rk_bound _ _ _ Hr _ Hu). specialize (Hp b). nia. }
  enough (is_Some (if is_kind KStruct t' && negb (t' =? timeType)%nat
    then structSchema fuel (typeSchema fuel) t' newBuilder else typeSchema fuel t' newBuilder)) as [[root b] ->]
    by by eexists.
  destruct (is_kind KStruct t' && _) eqn:Hs; [|by apply Htotal, newBuilder_ok].
  apply andb_true_iff in Hs as [Hk%bool_decide_eq_true _].
  eapply (structSchema_total n rank R Hr); [done..|apply newBuilder_ok|lia|].
  intros f b' Hfl Hb' _. destruct (rk_field _ _ _ Hr t' f Ht' Hk Hfl). by apply Htotal.
Qed.
End Schemas.
