(* ===== verification/SdkEncoding.v ===== *)
(** * What encoding/json writes conforms

    [marshals] relates a Go type to the JSON values that encoding/json writes for
    its values in which no slice, map or embedded pointer is nil. *)
From S2P Require Import Prelude GoStd Json Libs Contract Objects GoText SdkRuntime SdkSchema SdkValidate SdkTypes SdkMarshal.
#[local] Open Scope Z_scope.
#[local] Arguments String.append !_ _ / : simpl nomatch.
#[local] Arguments obj_get : simpl never.
#[local] Arguments obj_set : simpl never.

(** Facts of packages time, json and reflect and of float64: [time.Time] is a struct,
    [json.RawMessage] a slice, and the
    decimal text of a 64-bit integer parses to an integral number. *)
Class TypeLaws `{Types} : Prop := {
  time_struct : kind timeType = KStruct;
  raw_slice : kind rawType = KSlice }.
Class IntegerLaws {F : Floats} {Tr : Truncation} : Prop :=
  itoa_integral z : - 2 ^ 63 <= z < 2 ^ 64 -> integer_number (JNumber (itoa z)) = true.

Lemma mapM_more {A B} (f g : A -> option B) l k :
  (forall x y, f x = Some y -> g x = Some y) -> mapM f l = Some k -> mapM g l = Some k.
Proof.
  intros Hfg. revert k. induction l as [|x l IH]; intros k Hk; [done|]. cbn in *.
  destruct (f x) as [y|] eqn:Hx; [|done]. rewrite (Hfg _ _ Hx). cbn in *.
  destruct (mapM f l) as [k'|]; [|done]. by rewrite (IH k').
Qed.

Section Encoding.
Context `{Types} `{AnyValues}.

Lemma walk_more fuel fuel' t prefix fs : (fuel <= fuel')%nat ->
  walk fuel t prefix = Some fs -> walk fuel' t prefix = Some fs.
Proof.
  revert fuel' t prefix fs. induction fuel as [|fuel IH]; intros [|fuel'] t prefix fs Hle Hw; try done; [lia|].
  cbn [walk] in *. destruct (mapM _ _) as [k|] eqn:Hk in Hw; [|done].
  erewrite mapM_more; [exact Hw| |exact Hk]. intros jf y. cbn. unfold walk_field.
  case_match; [done|]. destruct (Cut _ _) as [[name opts] ok]. case_match; [|done]. apply IH. lia.
Qed.
Lemma fields_unique t fs fs' : fields_are t fs -> fields_are t fs' -> fs = fs'.
Proof.
  intros [f1 H1] [f2 H2]. unfold fieldsOf in *.
  apply (walk_more _ (Nat.max f1 f2)) in H1, H2; [congruence|lia..].
Qed.

(** ** The values of a type as JSON *)

Definition regular (t : nat) : Prop := t <> timeType /\ t <> rawType.
Definition int_range (k : Kind) (z : Z) : Prop :=
  match k with
  | KInt bits => - 2 ^ (bits - 1) <= z < 2 ^ (bits - 1) /\ 1 <= bits <= 64
  | KUint bits => 0 <= z < 2 ^ bits /\ 1 <= bits <= 64
  | _ => False
  end.
(** The values that a field's [enum] tag allows. *)
Definition enum_allows (f : structField) (v : json) : Prop :=
  let enum := tag_get (sfd_tag f) "enum" in
  is_empty enum = true \/ Sprint v ∈ Split "," enum.

Inductive marshals : nat -> json -> Prop :=
  | ma_time s : marshals timeType (JString s)
  | ma_raw v : marshals rawType v
  | ma_string t s : regular t -> kind t = KString -> marshals t (JString s)
  | ma_bool t b : regular t -> kind t = KBool -> marshals t (JBool b)
  | ma_int t z : regular t -> int_range (kind t) z -> marshals t (JNumber (itoa z))
  | ma_float t bits n : regular t -> kind t = KFloat bits -> marshals t (JNumber n)
  | ma_any t v : regular t -> kind t = KFunc \/ kind t = KOther -> marshals t v
  | ma_nil t : regular t -> kind t = KPointer -> marshals t JNull
  | ma_pointer t v : regular t -> kind t = KPointer -> marshals (rt_Elem (type_of t)) v -> marshals t v
  | ma_bytes t s : regular t -> kind t = KSlice -> kind (rt_Elem (type_of t)) = KUint 8 -> marshals t (JString s)
  | ma_list t items : regular t ->
      kind t = KArray \/ (kind t = KSlice /\ kind (rt_Elem (type_of t)) <> KUint 8) ->
      (forall v, v ∈ items -> marshals (rt_Elem (type_of t)) v) -> marshals t (JArray items)
  | ma_map t members : regular t -> kind t = KMap ->
      (forall k v, (k, v) ∈ members -> marshals (rt_Elem (type_of t)) v) -> marshals t (JObject members)
  | ma_struct t fs members : regular t -> kind t = KStruct -> fields_are t fs ->
      NoDup (sfd_name <$> fs) ->
      (forall f, f ∈ fs -> sfd_required f = true -> sfd_name f ∈ members.*1) ->
      (forall k, k ∈ members.*1 -> k ∈ sfd_name <$> fs) ->
      (forall f v, f ∈ fs -> (sfd_name f, v) ∈ members -> enum_allows f v) ->
      (forall f v, f ∈ fs -> (sfd_name f, v) ∈ members -> marshals (sfd_type f) v) ->
      marshals t (JObject members).

(** ** They conform *)

Lemma regular_leaf t : regular t -> leaf t =
  match kind t with
  | KString => Some (schema_type "string")
  | KBool => Some (schema_type "boolean")
  | KInt _ | KUint _ => Some (schema_type "integer")
  | KFloat _ => Some (schema_type "number")
  | KSlice =>
      if is_kind (KUint 8) (rt_Elem (type_of t))
      then Some (newObject [("type"%string, JString "string"); ("contentEncoding"%string, JString "base64")])
      else None
  | KFunc | KOther => Some []
  | _ => None
  end.
Proof. intros [H1 H2]. unfold leaf. by rewrite !decide_False. Qed.

Section Conform.
Context {F : Floats} {Tr : Truncation} {Laws : TypeLaws} {Ints : IntegerLaws}.
Context (schema : Object) (t0 : nat) (b : schemaBuilder) (Hparts : schema_parts schema t0 b).

Lemma no_enum names t s : schema_for names t s -> obj_get s "enum" = None.
Proof.
  destruct 1 as [t s Hl|t f s Hw|t name|t fs ss].
  - unfold leaf in Hl. by repeat case_match; simplify_eq.
  - unfold wrapper in Hw. by repeat case_match; simplify_eq.
  - done.
  - by rewrite struct_object_get.
Qed.

Lemma existsb_strings (l : list string) v :
  existsb (fun e => String.eqb (Sprint e) (Sprint v)) (JString <$> l) = true <-> Sprint v ∈ l.
Proof.
  rewrite existsb_exists. split.
  - intros (e & He & Heq). apply list_elem_of_In, list_elem_of_fmap in He as (x & -> & Hx).
    apply String.eqb_eq in Heq. cbn in Heq. by subst.
  - intros Hin. exists (JString (Sprint v)). split; [|by apply String.eqb_eq].
    apply list_elem_of_In, list_elem_of_fmap. eauto.
Qed.

Lemma conforms_decorate f s v : obj_get s "enum" = None -> enum_allows f v ->
  conforms (defs_of schema) s v -> conforms (defs_of schema) (decorate f s) v.
Proof.
  intros Hnone Hen Hc.
  assert (forall k, Contains annotations k = false -> obj_get (decorate f s) k = obj_get s k) as Hd
    by (intros; by apply decorate_other).
  assert (forall k, plain s v k -> plain (decorate f s) v k) as Hplain.
  { intros k [H1 H2 H3 H4]. split; rewrite ?Hd by done; try done. unfold enum_found. rewrite decorate_enum.
    destruct Hen as [->|Hen]; [by rewrite Hnone|]. destruct (is_empty _); [by rewrite Hnone|].
    f_equal. by apply existsb_strings. }
  assert (forall k, member_schema (decorate f s) k = member_schema s k) as Hm.
  { intros k. unfold member_schema. by rewrite !Hd. }
  destruct Hc as [s ref v Href Ht|s options o v Href Hany Hin Ho|s v Hp|s v k Hp Hk|s Hp|s t Hp|s b' Hp
    |s v Hp Hi|s n Hp|s items Hp Hi|s ms Hp Hr Hms].
  - apply (conforms_ref _ _ ref); [by rewrite Hd|done].
  - eapply conforms_any; rewrite ?Hd; eauto.
  - by apply conforms_untyped, Hplain.
  - eapply conforms_unknown; [by apply Hplain|done].
  - by apply conforms_null, Hplain.
  - by apply conforms_string, Hplain.
  - by apply conforms_bool, Hplain.
  - apply conforms_integer; [by apply Hplain|done].
  - by apply conforms_number, Hplain.
  - apply conforms_array; [by apply Hplain|]. intros o e. rewrite Hd by done. apply Hi.
  - apply conforms_object; [by apply Hplain|..].
    + intros names n. rewrite Hd by done. apply Hr.
    + intros key w o. rewrite Hm. apply Hms.
Qed.

(** The value of a struct whose members conform. *)
Lemma conforms_struct t s members fs :
  struct_schema (sb_names b) t s -> fields_are t fs ->
  (forall f, f ∈ fs -> sfd_required f = true -> sfd_name f ∈ members.*1) ->
  (forall f v, f ∈ fs -> (sfd_name f, v) ∈ members -> enum_allows f v) ->
  (forall f v s, f ∈ fs -> (sfd_name f, v) ∈ members -> schema_for (sb_names b) (sfd_type f) s ->
     conforms (defs_of schema) s v) ->
  conforms (defs_of schema) s (JObject members).
Proof.
  intros (fs' & ss & Hfs' & Hlen & Hss & ->) Hfs Hreq Hen Hc.
  rewrite (fields_unique _ _ _ Hfs' Hfs) in *. clear Hfs' fs'.
  apply conforms_object.
  - split; try (by rewrite struct_object_get). unfold enum_found. by rewrite struct_object_get.
  - intros names n. rewrite struct_object_get. cbn [String.eqb Ascii.eqb Bool.eqb].
    destruct (required_of fs) as [|r rs] eqn:Hr; [done|]. intros [= <-]. rewrite <- Hr. unfold required_of.
    intros (f & [= ->] & [Hf Hin]%list_elem_of_filter)%list_elem_of_fmap.
    specialize (Hreq f Hin Hf). apply list_elem_of_fmap in Hreq as ([k w] & -> & Hkw).
    destruct (lookup_last_some _ _ _ Hkw) as [w' Hw']. by exists w'.
  - intros key w o Hw%lookup_last_elem. rewrite member_of_struct.
    intros (i & f & s & Hf & Hs & <- & [= ->])%properties_get.
    pose proof (Hss _ _ _ Hf Hs) as Hsf. apply list_elem_of_lookup_2 in Hf.
    apply conforms_decorate; [by eapply no_enum|by apply Hen|]. eapply Hc; eauto.
Qed.

(** Which rule gives a type its schema. *)
Lemma schema_for_leaf names t s l : schema_for names t s -> leaf t = Some l -> s = l.
Proof.
  destruct 1 as [t s Hl|t f s Hw|t name [Hn _]|t fs ss [Hn _]]; intros Hx; [congruence| |congruence..].
  unfold wrapper in Hw. by rewrite Hx in Hw.
Qed.
Lemma schema_for_wrapper names t s f : schema_for names t s -> wrapper t = Some f ->
  exists s', s = f s' /\ schema_for names (rt_Elem (type_of t)) s'.
Proof.
  destruct 1 as [t s Hl|t f' s Hw|t name [Hn Hk]|t fs ss [Hn Hk]]; intros Hx.
  - unfold wrapper in Hx. by rewrite Hl in Hx.
  - rewrite Hw in Hx. injection Hx as ->. by exists s.
  - unfold wrapper in Hx. by rewrite Hn, Hk in Hx.
  - unfold wrapper in Hx. by rewrite Hn, Hk in Hx.
Qed.
Lemma schema_for_struct t s : schema_for (sb_names b) t s -> struct_type t ->
  (exists name, sb_names b !! t = Some name /\ s = newObject [("$ref"%string, JString ("#/$defs/" +:+ name))]) \/
  struct_schema (sb_names b) t s.
Proof.
  destruct 1 as [t s Hl|t f' s Hw|t name|t fs ss]; intros [Hx Hk].
  - congruence.
  - unfold wrapper in Hw. by rewrite Hx, Hk in Hw.
  - left. eauto.
  - right. exists fs, ss. done.
Qed.

Lemma conforms_pointer s v : v = JNull \/ conforms (defs_of schema) s v ->
  conforms (defs_of schema)
    (newObject [("anyOf"%string, JArray [JObject s; JObject (schema_type "null")])]) v.
Proof.
  intros [->|Hc]; (eapply conforms_any; [done|done| |]).
  - right. left.
  - by apply conforms_null.
  - left.
  - done.
Qed.

Lemma plain_type v k : obj_get (schema_type k) "type" = Some (JString k) -> plain (schema_type k) v (Some k).
Proof. intros Hk. by split. Qed.

Lemma marshals_conform t v : marshals t v ->
  (forall s, schema_for (sb_names b) t s -> conforms (defs_of schema) s v) /\
  (forall s, kind t = KStruct -> t <> timeType -> struct_schema (sb_names b) t s -> conforms (defs_of schema) s v).
Proof.
  induction 1 as [str|v|t str Hreg Hk|t bo Hreg Hk|t z Hreg Hz|t bits num Hreg Hk|t v Hreg Hk|t Hreg Hk|t v Hreg Hk Hv IH
    |t str Hreg Hk He|t items Hreg Hk Hi IH|t members Hreg Hk Hi IH|t fs members Hreg Hk Hfs Hnd Hreq Hkeys Hen Hm IH].
  - split; [|done]. intros s Hs. eapply schema_for_leaf in Hs; [|unfold leaf; by rewrite decide_True].
    subst s. by apply conforms_string.
  - split; [|by rewrite raw_slice]. intros s Hs. eapply schema_for_leaf in Hs;
      [|unfold leaf; rewrite decide_False, decide_True; [done|done|]].
    + subst s. by apply conforms_untyped.
    + intros E. pose proof time_struct as Ht. rewrite <- E, raw_slice in Ht. done.
  - split; [|by rewrite Hk]. intros s Hs. eapply schema_for_leaf in Hs; [|rewrite regular_leaf, Hk; done].
    subst s. by apply conforms_string.
  - split; [|by rewrite Hk]. intros s Hs. eapply schema_for_leaf in Hs; [|rewrite regular_leaf, Hk; done].
    subst s. by apply conforms_bool.
  - assert (leaf t = Some (schema_type "integer") /\ kind t <> KStruct /\ - 2 ^ 63 <= z < 2 ^ 64) as (Hl & Hk & Hr).
    { rewrite regular_leaf by done. destruct (kind t) as [| | |bits|bits| | | | | | |]; try done; split_and!; try done;
        destruct Hz as [Hz Hb];
        pose proof (Z.pow_le_mono_r 2 (bits - 1) 63 ltac:(lia)); pose proof (Z.pow_le_mono_r 2 bits 64 ltac:(lia)); lia. }
    split; [|done]. intros s Hs. eapply schema_for_leaf in Hs; [|done]. subst s.
    by apply conforms_integer, itoa_integral.
  - split; [|by rewrite Hk]. intros s Hs. eapply schema_for_leaf in Hs; [|rewrite regular_leaf, Hk; done].
    subst s. by apply conforms_number.
  - split; [|by destruct Hk as [->| ->]]. intros s Hs.
    eapply schema_for_leaf in Hs; [|rewrite regular_leaf by done; by destruct Hk as [->| ->]].
    subst s. by apply conforms_untyped.
  - split; [|by rewrite Hk]. intros s Hs.
    eapply schema_for_wrapper in Hs as (s' & -> & Hs); [|unfold wrapper; rewrite regular_leaf, Hk; done].
    apply conforms_pointer. by left.
  - split; [|by rewrite Hk]. intros s Hs.
    eapply schema_for_wrapper in Hs as (s' & -> & Hs); [|unfold wrapper; rewrite regular_leaf, Hk; done].
    apply conforms_pointer. right. by apply (proj1 IH).
  - split; [|by rewrite Hk]. intros s Hs. eapply schema_for_leaf in Hs;
      [|rewrite regular_leaf, Hk by done; unfold is_kind; by rewrite He, bool_decide_true].
    subst s. by apply conforms_string.
  - split; [|by destruct Hk as [->|[-> _]]]. intros s Hs.
    eapply schema_for_wrapper in Hs as (s' & -> & Hs); [|unfold wrapper; rewrite regular_leaf by done].
    2: { destruct Hk as [->|[-> He]]; [done|]. unfold is_kind. by rewrite bool_decide_false. }
    apply conforms_array; [done|]. intros o e [= <-] He. by apply (proj1 (IH _ He)).
  - split; [|by rewrite Hk]. intros s Hs.
    eapply schema_for_wrapper in Hs as (s' & -> & Hs); [|unfold wrapper; rewrite regular_leaf, Hk; done].
    apply conforms_object; [done|done|]. intros key w o Hw%lookup_last_elem [= <-]. by apply (proj1 (IH _ _ Hw)).
  - assert (forall s, struct_schema (sb_names b) t s -> conforms (defs_of schema) s (JObject members)) as Hst.
    { intros s Hs. eapply conforms_struct; try done. intros f v s' Hf Hv. apply (proj1 (IH _ _ Hf Hv)). }
    split; [|auto]. intros s Hs. destruct (schema_for_struct _ _ Hs) as [(name & Hn & ->)|];
      [split; [by rewrite regular_leaf, Hk|done]| |by auto].
    destruct (definition_for _ _ _ _ _ Hparts Hn) as (target & Ht & Hts).
    eapply conforms_ref; [done|]. intros target'. rewrite TrimPrefix_app. intros Ht'. simplify_eq. auto.
Qed.
End Conform.

Lemma points_to_unique t t1 t2 : points_to t t1 -> points_to t t2 -> t1 = t2.
Proof. intros H1. induction H1; inversion 1; subst; congruence || auto. Qed.

(** What a Go client sends passes the server's validation, and what a handler
    returns passes its own: the JSON that encoding/json writes for a value of the
    type conforms to the type's schema (no slice, map or embedded pointer nil, and
    enumerated fields with one of their values). *)
Theorem marshalled_validates {F : Floats} {Tr : Truncation} {Laws : TypeLaws} {Ints : IntegerLaws}
    fuel t t' schema raw value rest :
  schemaOf fuel t = Some schema -> points_to t t' -> marshals t' value ->
  decode_next raw = Some (value, rest) -> validate schema raw = Some [].
Proof.
  intros Hs Ht Hv Hraw. destruct (validates_iff fuel t schema raw value rest Hs Hraw) as (vs & -> & Hiff).
  f_equal. apply Hiff. destruct (schemaOf_parts _ _ _ Hs) as (t'' & b & Ht' & Hp).
  rewrite (points_to_unique _ _ _ Ht' Ht) in Hp.
  destruct (marshals_conform schema t' b Hp _ _ Hv) as [H1 H2].
  destruct (sp_root _ _ _ Hp) as (root & Hsame & Hroot). eapply conforms_same; [done|].
  destruct Hroot as [(Hk & Hne & Hst)|Hst]; auto.
Qed.
End Encoding.

(** ** A tree of nodes

    [type Node struct { Name string; Count int; Children []*Node; Mode *string }] with
    tags, and [type L []L]. *)

Definition tagged (name json_tag : string) (t : nat) (more : list (string * string)) : StructField :=
  MkField name t (("json"%string, json_tag) :: more) false true.
Definition simple_type (k : Kind) (elem : nat) : rtype := RType "" "" k elem [].
Definition node_types : list rtype :=
  [simple_type KString 0;
   simple_type (KInt 64) 0;
   RType "Node" "trees" KStruct 0
     [tagged "Name" "name" 0 [("doc"%string, "The label."%string)];
      MkField "Count" 1 [] false true;
      tagged "Children" "children" 3 [];
      tagged "Mode" "mode,omitempty" 5 [("enum"%string, "open,closed"%string)]];
   simple_type KSlice 4;
   simple_type KPointer 2;
   simple_type KPointer 0;
   RType "Time" "time" KStruct 0 [];
   RType "RawMessage" "encoding/json" KSlice 8 [];
   simple_type (KUint 8) 0;
   RType "L" "trees" KSlice 9 []].
Definition tree_types : Types :=
  {| type_of := fun t => default (simple_type KOther 0) (node_types !! t);
     type_string := fun _ => "T"; timeType := 6; rawType := 7 |}.
Definition any_values : AnyValues := unmarshal.
Definition unit_floats : Floats :=
  {| float := unit; parseFloat := fun _ => Some tt; float_eqb := fun _ _ => true;
     needs_exponent := fun _ => false; formatFloat := fun _ _ => "0" |}.
Definition all_integral : @Truncation unit_floats := fun _ => true.

#[local] Existing Instance tree_types.
#[local] Existing Instance any_values.

Lemma tree_laws : @TypeLaws tree_types.
Proof. by split. Qed.
Lemma all_integral_laws : @IntegerLaws unit_floats all_integral.
Proof. done. Qed.

Definition tree_rank (t : nat) : nat := match t with 3%nat => 2%nat | 4%nat | 5%nat => 1%nat | _ => 0%nat end.
Lemma tree_ranked : @ranked tree_types 9 tree_rank 2.
Proof.
  split.
  - intros t Ht. do 9 (destruct t as [|t]; [cbn; lia|]). lia.
  - intros t Ht Hk. do 9 (destruct t as [|t]; [first [discriminate Hk|cbn; lia]|]). lia.
  - intros t f Ht Hw. do 9 (destruct t as [|t]; [first [discriminate Hw|cbn; lia]|]). lia.
  - intros t f Ht Hk Hf.
    assert (forall g, g ∈ rt_Fields (@type_of tree_types t) -> @kind tree_types (embedded g) <> KStruct) as Hflat.
    { intros g Hg. do 9 (destruct t as [|t]; [cbn in Hg; set_unfold in Hg;
        repeat match goal with H : _ \/ _ |- _ => destruct H as [-> |H] end; done|]). lia. }
    destruct Hf as [t f Hin|t f g Hg Hs]; [|by apply Hflat in Hg].
    do 9 (destruct t as [|t]; [cbn in Hin; set_unfold in Hin;
      repeat match goal with H : _ \/ _ |- _ => destruct H as [-> |H] end; try done;
      cbn; (split; [lia|intros Hn; exfalso; by apply Hn])|]). lia.
  - intros t g Ht Hk Hg Hs. exfalso. do 9 (destruct t as [|t]; [cbn in Hg; set_unfold in Hg;
      repeat match goal with H : _ \/ _ |- _ => destruct H as [-> |H] end; done|]). lia.
Qed.

Lemma schemaOf_terminates_witness : exists schema, @schemaOf tree_types any_values 41 4 = Some schema.
Proof. apply (@schemaOf_terminates tree_types any_values 9 tree_rank 2 4 41 tree_ranked); lia. Defined.

Definition node_schema : Object :=
  default [] (@schemaOf tree_types any_values 41 2).


Definition sample_tree : string :=
  text "{'name':'root','Count':2,'children':[{'name':'leaf','Count':-1,'children':[],'mode':'open'},null]}".

Lemma node_fields : @fields_are tree_types 2 (default [] (@fieldsOf tree_types 3 2)).
Proof. by exists 3%nat. Qed.

Lemma node_marshals members :
  members.*1 = ["name"; "Count"; "children"]%string \/ members.*1 = ["name"; "Count"; "children"; "mode"]%string ->
  (forall v, ("name"%string, v) ∈ members -> @marshals tree_types 0 v) ->
  (forall v, ("Count"%string, v) ∈ members -> @marshals tree_types 1 v) ->
  (forall v, ("children"%string, v) ∈ members -> @marshals tree_types 3 v) ->
  (forall v, ("mode"%string, v) ∈ members -> v = JString "open") ->
  @marshals tree_types 2 (JObject members).
Proof.
  intros Hkeys H0 H1 H3 H5. eapply (ma_struct 2); [done|done|apply node_fields| | | | |].
  - by apply (bool_decide_unpack _).
  - intros f Hf. vm_compute in Hf. set_unfold in Hf. intros Hreq.
    destruct Hf as [->|[->|[->|[->|[]]]]]; try discriminate; destruct Hkeys as [-> | ->]; cbn; set_solver.
  - intros k. cbn. destruct Hkeys as [-> | ->]; set_solver.
  - intros f v Hf. vm_compute in Hf. set_unfold in Hf.
    destruct Hf as [->|[->|[->|[->|[]]]]]; cbn [sfd_name]; intros Hv; try (by left).
    right. apply H5 in Hv as ->. vm_compute. left.
  - intros f v Hf. vm_compute in Hf. set_unfold in Hf.
    destruct Hf as [->|[->|[->|[->|[]]]]]; cbn [sfd_name sfd_type]; intros Hv; auto.
    apply H5 in Hv as ->. apply ma_pointer; [done|done|]. by apply ma_string.
Qed.

Lemma sample_tree_marshals : exists value rest, decode_next sample_tree = Some (value, rest) /\
  @marshals tree_types 2 value.
Proof.
  eexists _, _. split; [vm_compute; reflexivity|].
  apply node_marshals; [by left| | | |].
  all: intros v Hv; set_unfold in Hv;
    repeat match goal with H : _ \/ _ |- _ => destruct H as [H|H] end; simplify_eq/=; try done.
  - by apply ma_string.
  - by apply (ma_int 1 2).
  - apply ma_list; [done|by right|]. intros v Hv. set_unfold in Hv. destruct Hv as [->|[->|[]]];
      [apply ma_pointer; [done|done|]|by apply ma_nil].
    apply node_marshals; [by right| | | |].
    all: intros v Hv; set_unfold in Hv;
      repeat match goal with H : _ \/ _ |- _ => destruct H as [H|H] end; simplify_eq/=; try done.
    + by apply ma_string.
    + by apply (ma_int 1 (-1)).
    + apply ma_list; [done|by right|]. intros v Hv. by apply not_elem_of_nil in Hv.
Qed.

Lemma marshalled_validates_witness :
  @validate unit_floats all_integral node_schema sample_tree = Some [].
Proof.
  destruct sample_tree_marshals as (value & rest & Hraw & Hv).
  apply (@marshalled_validates tree_types any_values unit_floats all_integral tree_laws all_integral_laws
    41 2 2 node_schema sample_tree value rest); [vm_compute; reflexivity| |exact Hv|exact Hraw].
  apply points_here. discriminate.
Defined.

(** ** Where it ends *)

(** A nil slice is [null] in JSON, and [null] is no array: a struct with a nil slice
    is refused, although [children] is a plain [[]*Node]. *)
Theorem nil_slice_rejected :
  @validate unit_floats all_integral node_schema (text "{'name':'root','Count':0,'children':null}") =
    Some [MkViolation "children" "type" "Input should be a valid array"].
Proof. by vm_compute. Qed.

(** The [enum] of an optional field is in its schema but is never checked: [check]
    answers for [anyOf] before it looks at [enum]. *)
Theorem optional_enum_unchecked :
  @validate unit_floats all_integral node_schema (text "{'name':'root','Count':0,'children':[],'mode':'ajar'}") =
    Some [].
Proof. by vm_compute. Qed.

(** [schemaOf] of [type L []L], which encoding/json supports, never ends. *)
Theorem schemaOf_diverges fuel : @schemaOf tree_types any_values fuel 9 = None.
Proof.
  assert (forall b, @typeSchema tree_types any_values fuel 9 b = None) as Hnone.
  { induction fuel as [|fuel IH]; intros b; [done|]. cbn [typeSchema]. rewrite type_case_eq.
    change (leaf 9) with (@None Object). change (wrapper 9) with (Some (fun s =>
      newObject [("type"%string, JString "array"); ("items"%string, JObject s)])). unfold around.
    change (rt_Elem (type_of 9)) with 9%nat. by rewrite IH. }
  unfold schemaOf. destruct fuel as [|fuel]; [done|].
  change (strip_pointers (S fuel) 9) with (Some 9%nat). cbn iota.
  change (is_kind KStruct 9 && negb (9 =? timeType)%nat) with false. cbn iota. by rewrite Hnone.
Qed.
