(* ===== verification/SdkInject.v ===== *)
(** * Dependency injection: di.go of the SDK

    Providers are registered by the type of their result; the registry refuses
    circular providers.  Each call has a scope, which calls a provider at most once
    and closes what was acquired in reverse order.  Types are numbers, as in
    SdkSchema; a scope keeps a log of the calls of providers and cleanups. *)
From S2P Require Import Prelude GoStd Json Libs Contract Objects GoText SdkRuntime SdkSchema.
#[local] Open Scope Z_scope.

(** ** Providers *)

(** A header converted to a type of its own. *)
Inductive metaValue :=
  | MetaString (s : string) | MetaBool (b : bool) | MetaInt (n : Z) | MetaFloat (text : string)
  | MetaJSON (v : json) | MetaPointer (m : metaValue).

(** Values that are injected: what a provider made, a header, a default of
    [WithMetaDefault] or [reflect.Zero]. *)
Inductive value (V : Type) :=
  | Made (v : V) | Header (m : metaValue) | DefaultValue (v : V) | ZeroValue (t : nat).
Arguments Made {V} _. Arguments Header {V} _. Arguments DefaultValue {V} _. Arguments ZeroValue {V} _.

Inductive argument (V : Type) := ArgRpcContext | ArgContext | Arg (v : value V).
Arguments ArgRpcContext {V}. Arguments ArgContext {V}. Arguments Arg {V} _.

(** A cleanup function: its error is ignored, a panic is not. *)
Inductive cleanupFn := CleansUp | CleanupPanics.

(** What a call of a provider comes to; [None] is a nil error or function. *)
Inductive returned (V E : Type) :=
  | Returns1 (v : V)
  | Returns2 (v : V) (err : option E)
  | Returns3 (v : V) (c : option cleanupFn) (err : option E)
  | Panics.
Arguments Returns1 {V E} _. Arguments Returns2 {V E} _ _. Arguments Returns3 {V E} _ _ _. Arguments Panics {V E}.

Record depSpec (V E : Type) := MkDepSpec {
  ds_outType : nat;
  ds_isMetaDep : bool;
  ds_metaKey : string;
  ds_metaReq : bool;
  ds_hasDefault : bool;
  ds_defaultVal : option V;
  ds_fn : list (argument V) -> returned V E;
  ds_depTypes : list nat;
  ds_takesStdCtx : bool;
  ds_takesRpcCtx : bool }.
Arguments MkDepSpec {V E} _ _ _ _ _ _ _ _ _ _.
Arguments ds_outType {V E} _. Arguments ds_isMetaDep {V E} _. Arguments ds_metaKey {V E} _.
Arguments ds_metaReq {V E} _. Arguments ds_hasDefault {V E} _. Arguments ds_defaultVal {V E} _.
Arguments ds_fn {V E} _ _. Arguments ds_depTypes {V E} _. Arguments ds_takesStdCtx {V E} _.
Arguments ds_takesRpcCtx {V E} _.

(** What a call comes to: an error of the SDK or of a provider or method, or a result. *)
Inductive outcome (E A : Type) := Returned (r : (Error + E) + A) | CallPanicked.
Arguments Returned {E A} _. Arguments CallPanicked {E A}.

(** What reflect tells of function types. *)
Record signature := MkSignature { sg_ins : list nat; sg_outs : list nat }.
Class Signatures : Type := {
  signature_of : nat -> option signature;  (* None: not a function *)
  implements_error : nat -> bool;
  stdCtxType : nat;
  rpcCtxType : nat }.

Inductive provider_panic :=
  | NotAFunction | WrongArity | SecondNotError | SecondNotCleanup | ThirdNotError | EmptyMetaKey.

Section Providers.
Context {V E : Type} `{Signatures}.

(** [func()] or [func() error]. *)
Definition is_cleanup (t : nat) : bool :=
  match signature_of t with
  | Some (MkSignature [] []) => true
  | Some (MkSignature [] [out]) => implements_error out
  | _ => false
  end.

(** [Dependency] of a function of type [t]. *)
Definition Dependency (t : nat) (fn : list (argument V) -> returned V E) : provider_panic + depSpec V E :=
  match signature_of t with
  | None => inl NotAFunction
  | Some sg =>
      match sg_outs sg with
      | out :: outs =>
          let checked :=
            match outs with
            | [] => None
            | [err] => if implements_error err then None else Some SecondNotError
            | [c; err] =>
                if negb (is_cleanup c) then Some SecondNotCleanup
                else if implements_error err then None else Some ThirdNotError
            | _ => Some WrongArity
            end in
          match checked with
          | Some p => inl p
          | None =>
              let '(rpc, std, deps) :=
                match sg_ins sg with
                | first :: rest =>
                    if (first =? rpcCtxType)%nat then (true, false, rest)
                    else if (first =? stdCtxType)%nat then (false, true, rest)
                    else (false, false, first :: rest)
                | [] => (false, false, [])
                end in
              inr (MkDepSpec out false EmptyString false false None fn deps std rpc)
          end
      | [] => inl WrongArity
      end
  end.

Record metaConfig := MkMetaConfig { mc_required : bool; mc_hasDefault : bool; mc_defaultVal : option V }.

(** [Meta[T]]; the keys of headers are ASCII. *)
Definition Meta_ (outType : nat) (key : string) (cfg : metaConfig) : provider_panic + depSpec V E :=
  let trimmed := lower_ascii (TrimSpace key) in
  if is_empty trimmed then inl EmptyMetaKey
  else inr (MkDepSpec outType true trimmed (mc_required cfg && negb (mc_hasDefault cfg)) (mc_hasDefault cfg)
              (if mc_hasDefault cfg then mc_defaultVal cfg else None) (fun _ => Panics) [] false false).

(** ** The registry *)

#[local] Abbreviation registry := (gmap nat (depSpec V E)).

(** The loop over the providers: the last one for a type counts. *)
Definition register_all (providers : list (option (depSpec V E))) : registry :=
  fold_left (fun reg p => match p with None => reg | Some spec => <[ds_outType spec := spec]> reg end)
    providers ∅.

Definition provider_of (reg : registry) (t : nat) : option (depSpec V E) := reg !! t.
Definition is_meta (reg : registry) (t : nat) : bool :=
  match provider_of reg t with Some spec => ds_isMetaDep spec | None => false end.
(** The types a provider of [t] takes. *)
Definition sub_types (reg : registry) (t : nat) : list nat :=
  match provider_of reg t with
  | Some spec => if ds_isMetaDep spec then [] else ds_depTypes spec
  | None => []
  end.

Inductive mark := Visiting | Visited.
#[global] Instance mark_eq_dec : EqDecision mark.
Proof. solve_decision. Defined.
(** [state], where unvisited types are absent, and [stack]. *)
Record search := MkSearch { se_state : gmap nat mark; se_stack : list nat }.

(** "circular dependency detected": the types of the path that is reported. *)
Inductive registry_error := Circular (path : list nat).

(** The loop over the dependencies of a type. *)
Fixpoint visit_subs (rec : nat -> search -> option (registry_error + search)) (subs : list nat) (st : search)
    : option (registry_error + search) :=
  match subs with
  | [] => Some (inr st)
  | sub :: subs =>
      match se_state st !! sub with
      | Some Visiting => Some (inl (Circular (se_stack st ++ [sub])))
      | Some Visited => visit_subs rec subs st
      | None =>
          match rec sub st with
          | Some (inr st) => visit_subs rec subs st
          | other => other
          end
      end
  end.

Definition dfs_body (reg : registry) (rec : nat -> search -> option (registry_error + search))
    (t : nat) (st : search) : option (registry_error + search) :=
  let st := MkSearch (<[t := Visiting]> (se_state st)) (se_stack st ++ [t]) in
  match visit_subs rec (sub_types reg t) st with
  | Some (inr st) => Some (inr (MkSearch (<[t := Visited]> (se_state st)) (removelast (se_stack st))))
  | other => other
  end.
Fixpoint dfs (reg : registry) (fuel : nat) (t : nat) (st : search) : option (registry_error + search) :=
  match fuel with
  | O => None
  | S fuel => dfs_body reg (dfs reg fuel) t st
  end.

(** [for t := range reg.byType]. *)
Fixpoint dfs_all (reg : registry) (fuel : nat) (order : list nat) (st : search) : option (registry_error + search) :=
  match order with
  | [] => Some (inr st)
  | t :: order =>
      match se_state st !! t with
      | Some _ => dfs_all reg fuel order st
      | None =>
          match dfs reg fuel t st with
          | Some (inr st) => dfs_all reg fuel order st
          | other => other
          end
      end
  end.

(** The types the registry mentions; each is visited once. *)
Definition mentioned (reg : registry) : gset nat :=
  dom reg ∪ list_to_set (flat_map (sub_types reg) (elements (dom reg))).

(** [order] is the order in which Go visits the keys of the map. *)
Definition newDependencyRegistry (order : list nat) (providers : list (option (depSpec V E)))
    : option (registry_error + registry) :=
  let reg := register_all providers in
  match dfs_all reg (S (size (mentioned reg))) order (MkSearch ∅ []) with
  | None => None
  | Some (inl err) => Some (inl err)
  | Some (inr _) => Some (inr reg)
  end.

Definition has (reg : option registry) (t : nat) : bool :=
  match reg with None => false | Some reg => bool_decide (is_Some (reg !! t)) end.

(** ** Headers *)

Definition ParseBool (s : string) : option bool :=
  if Contains ["1"; "t"; "T"; "TRUE"; "true"; "True"]%string s then Some true
  else if Contains ["0"; "f"; "F"; "FALSE"; "false"; "False"]%string s then Some false
  else None.
(** [strconv.ParseUint(s, 10, bits)] and [ParseInt]. *)
Definition ParseUint (s : string) (bits : Z) : option Z :=
  if is_empty s then None else
  n ← digits_val 0 s;
  if n <? 2 ^ bits then Some n else None.
Definition ParseInt (s : string) (bits : Z) : option Z :=
  let '(neg, d) := match s with
    | String c s' =>
        if Ascii.eqb c "-" then (true, s') else if Ascii.eqb c "+" then (false, s') else (false, s)
    | EmptyString => (false, s)
    end in
  if is_empty d then None else
  n ← digits_val 0 d;
  let z := if neg : bool then - n else n in
  if in_range (- 2 ^ (bits - 1)) (2 ^ (bits - 1) - 1) z then Some z else None.

(** What the standard library makes of a header: [strconv.ParseFloat] of a width,
    and [json.Unmarshal] into a type. *)
Class HeaderValues : Type := {
  parse_float : string -> Z -> option string;
  unmarshal_into : nat -> string -> option json }.

Definition bad_header (kind_text key : string) : Error :=
  let e := detailed CodeInvalidArgument ("Invalid " +:+ kind_text +:+ " metadata header " +:+ quote key)
             "server" "metadata" false in
  MkError (er_Code e) (er_Message e) (er_Retryable e) (set_detail "header" (JString key) (er_Details e)).

Context `{Types} `{HeaderValues}.

(** [fuel] is for pointers to pointers. *)
Fixpoint convertMetaValue (fuel : nat) (raw : string) (targetType : nat) (headerKey : string)
    : option (Error + metaValue) :=
  match fuel with
  | O => None
  | S fuel =>
      let or_bad {A} (f : A -> metaValue) (what : string) (r : option A) :=
        Some (match r with Some x => inr (f x) | None => inl (bad_header what headerKey) end) in
      match kind targetType with
      | KPointer =>
          match convertMetaValue fuel raw (rt_Elem (type_of targetType)) headerKey with
          | Some (inr m) => Some (inr (MetaPointer m))
          | other => other
          end
      | KString => Some (inr (MetaString raw))
      | KBool => or_bad MetaBool "boolean" (ParseBool raw)
      | KInt bits => or_bad MetaInt "integer" (ParseInt raw bits)
      | KUint bits => or_bad MetaInt "unsigned integer" (ParseUint raw bits)
      | KFloat bits => or_bad MetaFloat "float" (parse_float raw bits)
      | _ => or_bad MetaJSON "JSON" (unmarshal_into targetType raw)
      end
  end.

Definition missing_header (key : string) : Error :=
  let e := detailed CodeInvalidArgument ("Missing required metadata header: " +:+ key) "server" "metadata" false in
  MkError (er_Code e) (er_Message e) (er_Retryable e) (set_detail "header" (JString key) (er_Details e)).

(** The header of a key: the exact one, else the first that is equal under case
    folding in the order in which Go visits the map. *)
Definition find_header (metadata : list (string * string)) (key : string) : option string :=
  match List.find (fun kv => String.eqb kv.1 key) metadata with
  | Some kv => Some kv.2
  | None => snd <$> List.find (fun kv => bool_decide (fold_name kv.1 = fold_name key)) metadata
  end.

Definition resolveMeta (fuel : nat) (metadata : list (string * string)) (spec : depSpec V E)
    : option (Error + value V) :=
  match find_header metadata (ds_metaKey spec) with
  | None =>
      Some (if ds_hasDefault spec
            then inr (match ds_defaultVal spec with Some v => DefaultValue v | None => ZeroValue (ds_outType spec) end)
            else if ds_metaReq spec then inl (missing_header (ds_metaKey spec))
            else inr (ZeroValue (ds_outType spec)))
  | Some raw =>
      match convertMetaValue fuel raw (ds_outType spec) (ds_metaKey spec) with
      | Some (inr m) => Some (inr (Header m))
      | Some (inl e) => Some (inl e)
      | None => None
      end
  end.

(** ** Scopes *)

(** The log: a call of a provider, with whether it left a cleanup; the method; a cleanup. *)
Inductive event := Called (t : nat) (acquires : bool) | Handled | Cleaned (t : nat).
#[global] Instance event_eq_dec : EqDecision event.
Proof. solve_decision. Defined.

Record depScope := MkScope {
  dp_cache : gmap nat (value V);
  dp_cleanups : list (nat * cleanupFn);   (* a cleanupFn with the type of its provider *)
  dp_events : list event }.
#[global] Instance depScope_eta : Eta depScope :=
  fun x => MkScope (dp_cache x) (dp_cleanups x) (dp_events x).
Definition newDepScope : depScope := MkScope ∅ [] [].

Inductive fault := SdkError (e : Error) | ProviderError (e : E) | Panicked.

(** A computation in a scope; [None]: no fuel. *)
Definition Scoped (A : Type) : Type := depScope -> option ((fault + A) * depScope).
Definition ok {A} (x : A) : Scoped A := fun sc => Some (inr x, sc).
Definition failing {A} (f : fault) : Scoped A := fun sc => Some (inl f, sc).
Definition and_then {A B} (m : Scoped A) (k : A -> Scoped B) : Scoped B := fun sc =>
  match m sc with
  | Some (inr x, sc) => k x sc
  | Some (inl f, sc) => Some (inl f, sc)
  | None => None
  end.

(** [for _, t := range types { v, err := rec(t); ... }]. *)
Fixpoint resolve_each (rec : nat -> Scoped (value V)) (types : list nat) : Scoped (list (value V)) :=
  match types with
  | [] => ok []
  | t :: types => and_then (rec t) (fun v => and_then (resolve_each rec types) (fun vs => ok (v :: vs)))
  end.

Definition cached (t : nat) (v : value V) : Scoped (value V) := fun sc =>
  Some (inr v, sc {{ dp_cache ::= insert t v }}).

(** [spec.fnVal.Call(args)] and the switch on its results. *)
Definition call_provider (t : nat) (spec : depSpec V E) (args : list (argument V)) : Scoped (value V) := fun sc =>
  let result := ds_fn spec args in
  let acquires := match result with Returns3 _ (Some _) None => true | _ => false end in
  let sc := sc {{ dp_events ::= fun l => l ++ [Called t acquires] }} in
  match result with
  | Returns1 v => cached t (Made v) sc
  | Returns2 v None => cached t (Made v) sc
  | Returns2 _ (Some e) => failing (ProviderError e) sc
  | Returns3 _ _ (Some e) => failing (ProviderError e) sc
  | Returns3 v c None =>
      let sc := match c with
                | Some c => sc {{ dp_cleanups ::= fun l => l ++ [(t, c)] }}
                | None => sc
                end in
      cached t (Made v) sc
  | Panics => failing Panicked sc
  end.

Definition context_args (spec : depSpec V E) : list (argument V) :=
  if ds_takesRpcCtx spec then [ArgRpcContext] else if ds_takesStdCtx spec then [ArgContext] else [].

Definition unregistered (t : nat) : Error :=
  detailed CodeInternal ("Unregistered dependency type: " +:+ type_string t) "server" "dependency" false.

Definition resolve_body (reg : registry) (metadata : list (string * string)) (fuel : nat)
    (rec : nat -> Scoped (value V)) (t : nat) : Scoped (value V) := fun sc =>
  match dp_cache sc !! t with
  | Some v => ok v sc
  | None =>
      match provider_of reg t with
      | None => failing (SdkError (unregistered t)) sc
      | Some spec =>
          if ds_isMetaDep spec then
            match resolveMeta fuel metadata spec with
            | None => None
            | Some (inl e) => failing (SdkError e) sc
            | Some (inr v) => cached t v sc
            end
          else
            and_then (resolve_each rec (filter (fun sub => is_meta reg sub = true) (ds_depTypes spec))) (fun _ =>
            and_then (resolve_each rec (ds_depTypes spec)) (fun vs =>
            call_provider t spec (context_args spec ++ (Arg <$> vs)))) sc
      end
  end.
(** [depth] bounds the pointers of header types. *)
Fixpoint resolve (reg : registry) (metadata : list (string * string)) (depth fuel : nat) (t : nat)
    : Scoped (value V) :=
  match fuel with
  | O => fun _ => None
  | S fuel => resolve_body reg metadata depth (resolve reg metadata depth fuel) t
  end.

Definition resolveAll (reg : registry) (metadata : list (string * string)) (depth fuel : nat) (types : list nat)
    : Scoped (list (value V)) :=
  and_then (resolve_each (resolve reg metadata depth fuel) (filter (fun t => is_meta reg t = true) types)) (fun _ =>
  resolve_each (resolve reg metadata depth fuel) types).

(** [close], from the end; a cleanup that panics keeps the others from running. *)
Fixpoint run_cleanups (cleanups : list (nat * cleanupFn)) : list event * bool :=
  match cleanups with
  | [] => ([], false)
  | (t, CleansUp) :: cleanups => let '(evs, p) := run_cleanups cleanups in (Cleaned t :: evs, p)
  | (t, CleanupPanics) :: _ => ([Cleaned t], true)
  end.

(** ** One call

    The closure [mEntry.invoke] of [ReflectService] after the parameters are
    decoded: [handler] is [call.intercept] with the method. *)
Definition invoke {A : Type} (reg : registry) (metadata : list (string * string)) (depth : nat)
    (diTypes : list nat) (handler : list (value V) -> outcome E A) : option (outcome E A * list event) :=
  match resolveAll reg metadata depth (S (size (mentioned reg))) diTypes newDepScope with
  | None => None
  | Some (result, sc) =>
      let '(out, evs) :=
        match result with
        | inl (SdkError e) => (Returned (inl (inl e)), dp_events sc)
        | inl (ProviderError e) => (Returned (inl (inr e)), dp_events sc)
        | inl Panicked => (CallPanicked, dp_events sc)
        | inr vs => (handler vs, dp_events sc ++ [Handled])
        end in
      let '(cleaned, panicked) := run_cleanups (rev (dp_cleanups sc)) in
      Some (if panicked : bool then CallPanicked else out, evs ++ cleaned)
  end.
End Providers.
