(* ===== verification/Injection.v ===== *)
(** * What dependency injection guarantees: di.go of the SDK

    The registry accepts exactly the providers without a cycle; then resolving
    ends, calls each provider at most once and after what it depends on, and the
    cleanups run once each, before those of what they depend on. *)
From S2P Require Import Prelude GoStd Json Libs Contract Objects GoText SdkRuntime SdkSchema SdkInject.
#[local] Open Scope Z_scope.

(** ** Cycles *)

Section Registry.
Context {V E : Type} (reg : gmap nat (depSpec V E)).

(** The provider of [t] takes a [u]. *)
Definition depends (t u : nat) : Prop := u ∈ sub_types reg t.
Definition acyclic : Prop := forall t, ~ tc depends t t.

(** Each type of the list depends on the next. *)
Definition chained (l : list nat) : Prop :=
  forall i x y, l !! i = Some x -> l !! S i = Some y -> depends x y.
(** A path that comes back to a type it has passed. *)
Definition circular (path : list nat) : Prop :=
  exists before t, path = before ++ [t] /\ t ∈ before /\ chained path.

Lemma chained_snoc l t : chained l -> (forall x, last l = Some x -> depends x t) -> chained (l ++ [t]).
Proof.
  intros Hl Ht i x y Hx Hy. assert (S i < length (l ++ [t]))%nat as Hi by by eapply lookup_lt_Some.
  rewrite length_app in Hi. cbn in Hi. rewrite lookup_app_l in Hx by lia.
  destruct (decide (S i < length l)%nat) as [Hlt|Hge].
  - rewrite lookup_app_l in Hy by done. eauto.
  - assert (S i = length l) as Heq by lia. rewrite Heq, list_lookup_middle in Hy by done. injection Hy as <-.
    apply Ht. rewrite last_lookup, <- Heq. done.
Qed.

Lemma chained_tc l i j x y : chained l -> l !! i = Some x -> l !! j = Some y -> (i < j)%nat -> tc depends x y.
Proof.
  intros Hl Hx Hy Hij. revert y Hy. induction Hij as [|j Hij IH]; intros y Hy; [by apply tc_once, (Hl i)|].
  destruct (lookup_lt_is_Some_2 l j) as [z Hz]; [apply lookup_lt_Some in Hy; lia|].
  eapply tc_r; [by apply IH|by eapply Hl].
Qed.

Lemma circular_cycle path : circular path -> ~ acyclic.
Proof.
  intros (before & t & -> & [i Hi]%list_elem_of_lookup & Hc) Ha. apply (Ha t).
  eapply (chained_tc _ i (length before)); [done|by apply lookup_app_l_Some|by apply list_lookup_middle|].
  by eapply lookup_lt_Some.
Qed.

(** ** The search *)

Record search_ok (st : search) : Prop := {
  so_visiting t : se_state st !! t = Some Visiting <-> t ∈ se_stack st;
  so_chained : chained (se_stack st);
  so_visited t : se_state st !! t = Some Visited -> Acc (flip depends) t }.

(** What a search leaves as it was. *)
Definition keeps (st st' : search) : Prop :=
  se_stack st' = se_stack st /\ se_state st ⊆ se_state st'.

Definition found (st : search) (subs : list nat) (r : option (registry_error + search)) : Prop :=
  match r with
  | None => False
  | Some (inl (Circular path)) => circular path
  | Some (inr st') => search_ok st' /\ keeps st st' /\ forall t, t ∈ subs -> se_state st' !! t = Some Visited
  end.

(** A search from [t], which the last type of the stack depends on. *)
Definition searches (rec : nat -> search -> option (registry_error + search)) (fuel : nat) : Prop :=
  forall t st, search_ok st -> se_state st !! t = None -> t ∈ mentioned reg ->
    (forall x, last (se_stack st) = Some x -> depends x t) ->
    (size (mentioned reg ∖ dom (se_state st)) <= fuel)%nat -> found st [t] (rec t st).

Lemma mentioned_closed t u : depends t u -> u ∈ mentioned reg.
Proof.
  intros Hd. unfold mentioned. apply elem_of_union_r, elem_of_list_to_set. rewrite list_elem_of_In, in_flat_map.
  exists t. split; [|by apply list_elem_of_In]. rewrite <- list_elem_of_In, elem_of_elements.
  apply (elem_of_dom (M := gmap nat) (D := gset nat)).
  unfold depends, sub_types, provider_of in Hd. destruct (reg !! t) as [d|] eqn:Hr; [by exists d|].
  by apply not_elem_of_nil in Hd.
Qed.

Lemma visit_subs_found rec fuel t subs st : searches rec fuel -> search_ok st -> last (se_stack st) = Some t ->
  (forall u, u ∈ subs -> depends t u) -> (size (mentioned reg ∖ dom (se_state st)) <= fuel)%nat ->
  found st subs (visit_subs rec subs st).
Proof.
  intros Hrec. revert st. induction subs as [|sub subs IH]; intros st Hok Hlast Hsubs Hfuel.
  { cbn. split_and!; [done|by split|set_solver]. }
  assert (depends t sub) as Hdep by (apply Hsubs; by left). cbn.
  destruct (se_state st !! sub) as [[]|] eqn:Hsub.
  - exists (se_stack st), sub. split_and!; [done|by apply (so_visiting _ Hok)|].
    apply chained_snoc; [apply Hok|]. intros x Hx. rewrite Hlast in Hx. by injection Hx as <-.
  - specialize (IH st Hok Hlast (fun u Hu => Hsubs u (list_elem_of_further _ _ _ Hu)) Hfuel).
    destruct (visit_subs rec subs st) as [[[path]|st']|]; [done| |done].
    destruct IH as (Hok' & [Hstack Hsub'] & Hall). split_and!; [done|done|].
    intros u [->|Hu]%elem_of_cons; [|auto]. by eapply lookup_weaken.
  - pose proof (Hrec sub st Hok Hsub (mentioned_closed _ _ Hdep)) as Hs.
    specialize (Hs ltac:(intros x Hx; rewrite Hlast in Hx; by injection Hx as <-) Hfuel).
    destruct (rec sub st) as [[[path]|st1]|]; [done| |done]. destruct Hs as (Hok1 & [Hstack1 Hsub1] & Hv1).
    assert (size (mentioned reg ∖ dom (se_state st1)) <= fuel)%nat as Hfuel1.
    { etrans; [|exact Hfuel]. apply subseteq_size. apply subseteq_dom in Hsub1. set_solver. }
    specialize (IH st1 Hok1 ltac:(by rewrite Hstack1) (fun u Hu => Hsubs u (list_elem_of_further _ _ _ Hu)) Hfuel1).
    destruct (visit_subs rec subs st1) as [[[path]|st']|]; [done| |done].
    destruct IH as (Hok' & [Hstack Hsub'] & Hall). split_and!; [done|split; [congruence|by etrans]|].
    intros u [->|Hu]%elem_of_cons; [|auto]. eapply lookup_weaken; [apply Hv1; by left|done].
Qed.

Lemma dfs_searches fuel : searches (dfs reg (S fuel)) fuel.
Proof.
  induction fuel as [|fuel IH]; intros t st Hok Ht Hin Hlast Hfuel.
  { exfalso. apply (not_elem_of_dom (D := gset nat)) in Ht.
    assert (t ∈ mentioned reg ∖ dom (se_state st)) as Hd by set_solver.
    assert (mentioned reg ∖ dom (se_state st) ≡ ∅) as He by (apply size_empty_inv; lia). set_solver. }
  change (dfs reg (S (S fuel)) t st) with (dfs_body reg (dfs reg (S fuel)) t st). unfold dfs_body.
  set (st1 := MkSearch _ _). assert (t ∉ se_stack st) as Hnew.
  { intros Hs%(so_visiting _ Hok). congruence. }
  assert (search_ok st1) as Hok1.
  { split; cbn.
    - intros u. rewrite elem_of_app, list_elem_of_singleton. destruct (decide (u = t)) as [->|Hne].
      + rewrite lookup_insert_eq. tauto.
      + rewrite lookup_insert_ne by done. rewrite (so_visiting _ Hok). tauto.
    - apply chained_snoc; [apply Hok|done].
    - intros u. destruct (decide (u = t)) as [->|Hne]; [by rewrite lookup_insert_eq|].
      rewrite lookup_insert_ne by done. apply (so_visited _ Hok). }
  assert (size (mentioned reg ∖ dom (se_state st1)) <= fuel)%nat as Hfuel1.
  { assert (size (mentioned reg ∖ dom (se_state st1)) < size (mentioned reg ∖ dom (se_state st)))%nat; [|lia].
    apply subset_size. cbn. rewrite dom_insert_L. apply (not_elem_of_dom (D := gset nat)) in Ht. set_solver. }
  pose proof (visit_subs_found (dfs reg (S fuel)) fuel t (sub_types reg t) st1 IH Hok1
    ltac:(cbn; apply last_snoc) (fun u Hu => Hu) Hfuel1) as Hs.
  destruct (visit_subs _ _ st1) as [[[path]|st2]|]; [done| |done].
  destruct Hs as (Hok2 & [Hstack2 Hsub2] & Hall). cbn in Hstack2.
  assert (se_state st2 !! t = Some Visiting) as Hvt.
  { eapply lookup_weaken; [|exact Hsub2]. cbn. apply lookup_insert_eq. }
  cbn. rewrite Hstack2, removelast_last. split_and!.
  - split; cbn.
    + intros u. destruct (decide (u = t)) as [->|Hne]; [by rewrite lookup_insert_eq|].
      rewrite lookup_insert_ne by done. rewrite (so_visiting _ Hok2), Hstack2, elem_of_app, list_elem_of_singleton.
      tauto.
    + apply Hok.
    + intros u. destruct (decide (u = t)) as [->|Hne].
      * intros _. constructor. intros w Hw. apply (so_visited _ Hok2). by apply Hall.
      * rewrite lookup_insert_ne by done. apply (so_visited _ Hok2).
  - split; cbn; [done|]. etrans; [|apply insert_mono, Hsub2]. cbn. rewrite insert_insert_eq.
    by apply insert_subseteq.
  - intros u ->%list_elem_of_singleton. apply lookup_insert_eq.
Qed.

Lemma dfs_all_found fuel order st : search_ok st -> se_stack st = [] -> (forall t, t ∈ order -> t ∈ mentioned reg) ->
  (size (mentioned reg) <= fuel)%nat -> found st order (dfs_all reg (S fuel) order st).
Proof.
  intros Hok Hstack Hin Hfuel. revert st Hok Hstack. induction order as [|t order IH]; intros st Hok Hstack.
  { cbn. split_and!; [done|by split|set_solver]. }
  cbn [dfs_all]. specialize (IH (fun u Hu => Hin u (list_elem_of_further _ _ _ Hu))).
  destruct (se_state st !! t) as [m|] eqn:Ht.
  - specialize (IH st Hok Hstack). destruct (dfs_all _ _ _ st) as [[[path]|st']|]; [done| |done].
    destruct IH as (Hok' & [Hs' Hsub'] & Hall). split_and!; [done|done|].
    intros u [->|Hu]%elem_of_cons; [|auto]. destruct m; [|by eapply lookup_weaken].
    apply (so_visiting _ Hok) in Ht. rewrite Hstack in Ht. by apply not_elem_of_nil in Ht.
  - pose proof (dfs_searches fuel t st Hok Ht (Hin t (list_elem_of_here _ _))) as Hs.
    specialize (Hs ltac:(by rewrite Hstack)).
    assert (size (mentioned reg ∖ dom (se_state st)) <= fuel)%nat as Hf1.
    { etrans; [|exact Hfuel]. apply subseteq_size. set_solver. }
    specialize (Hs Hf1). destruct (dfs reg (S fuel) t st) as [[[path]|st1]|]; [done| |done].
    destruct Hs as (Hok1 & [Hstack1 Hsub1] & Hv1).
    specialize (IH st1 Hok1 ltac:(congruence)). destruct (dfs_all _ _ _ st1) as [[[path]|st']|]; [done| |done].
    destruct IH as (Hok' & [Hs' Hsub'] & Hall). split_and!; [done|split; [congruence|by etrans]|].
    intros u [->|Hu]%elem_of_cons; [|auto]. eapply lookup_weaken; [apply Hv1; by left|done].
Qed.

(** A type whose dependencies end is on no cycle. *)
Lemma acc_no_cycle t : Acc (flip depends) t -> ~ tc depends t t.
Proof.
  induction 1 as [t _ IH]. intros Ht. inversion Ht as [x y H1|x u y Hu Hrest]; subst; [by apply (IH t)|].
  apply (IH u Hu). by eapply tc_r.
Qed.

Lemma depends_registered t u : depends t u -> is_Some (reg !! t).
Proof.
  unfold depends, sub_types, provider_of. destruct (reg !! t) as [d|]; [by exists d|]. intros H%not_elem_of_nil. done.
Qed.
End Registry.

(** What the search over all types finds. *)
Lemma all_searched {V E : Type} (reg : gmap nat (depSpec V E)) order : order ≡ₚ (map_to_list reg).*1 ->
  match dfs_all reg (S (size (mentioned reg))) order (MkSearch ∅ []) with
  | None => False
  | Some (inl (Circular path)) => circular reg path
  | Some (inr _) => forall t, Acc (flip (depends reg)) t
  end.
Proof.
  intros Horder. assert (forall t, t ∈ order <-> is_Some (reg !! t)) as Hkeys.
  { intros t. rewrite Horder, list_elem_of_fmap. split.
    - intros ([t' d] & -> & Hd%elem_of_map_to_list). by exists d.
    - intros [d Hd]. exists (t, d). split; [done|]. by apply elem_of_map_to_list. }
  assert (search_ok reg (MkSearch ∅ [])) as Hok.
  { split; cbn; [intros t; rewrite lookup_empty; set_solver|by intros ? ? ? ?|by intros t; rewrite lookup_empty]. }
  pose proof (dfs_all_found reg (size (mentioned reg)) order _ Hok eq_refl) as Hs.
  specialize (Hs ltac:(intros t Ht%Hkeys; apply elem_of_union_l; by apply (elem_of_dom (M := gmap nat))) ltac:(lia)).
  destruct (dfs_all _ _ _ _) as [[[path]|st]|]; [done|destruct Hs as (Hok' & _ & Hall)|done].
  intros t. destruct (decide (t ∈ order)) as [Ht|Ht].
  - apply (so_visited _ _ Hok'). auto.
  - constructor. intros u Hu%depends_registered. by apply Hkeys in Hu.
Qed.

(** C24: [newDependencyRegistry] ends, and accepts the providers exactly when none
    depends on itself; the path it reports otherwise leads from a type back to a
    type it has passed.  Of several providers of a type the last counts. *)
Theorem registry_rejects_cycles {V E : Type} order (providers : list (option (depSpec V E))) :
  order ≡ₚ (map_to_list (register_all providers)).*1 ->
  match newDependencyRegistry order providers with
  | None => False
  | Some (inl (Circular path)) => circular (register_all providers) path /\ ~ acyclic (register_all providers)
  | Some (inr reg) => reg = register_all providers /\ acyclic reg /\ forall t, Acc (flip (depends reg)) t
  end.
Proof.
  intros Horder. unfold newDependencyRegistry. pose proof (all_searched _ _ Horder) as Hs.
  destruct (dfs_all _ _ _ _) as [[[path]|st]|]; [|split_and!; [done| |done]|done].
  - split; [done|]. by eapply circular_cycle.
  - intros t. by apply acc_no_cycle.
Qed.

(** ** Resolving *)

Section Resolving.
Context {V E : Type} `{Types} `{HeaderValues}.
Context (reg : gmap nat (depSpec V E)) (metadata : list (string * string)) (depth : nat).

(** The providers that were called, in order. *)
Definition called (sc : @depScope V) : list nat :=
  omap (fun e => match e with Called t _ => Some t | _ => None end) (dp_events sc).
(** Those that left a cleanup. *)
Definition acquired (sc : @depScope V) : list nat :=
  omap (fun e => match e with Called t true => Some t | _ => None end) (dp_events sc).
Definition is_call (e : event) : Prop := match e with Called _ _ => True | _ => False end.

(** Each type comes after those it depends on (headers apart, which are not called). *)
Definition in_order (calls : list nat) : Prop :=
  forall i t u, calls !! i = Some t -> depends reg t u -> is_meta reg u = false ->
    exists j, (j < i)%nat /\ calls !! j = Some u.

(** The log of a scope, at any time. *)
Record log_ok (sc : @depScope V) : Prop := {
  lo_events : Forall is_call (dp_events sc);
  lo_once : NoDup (called sc);
  lo_order : in_order (called sc);
  lo_cleanups : (dp_cleanups sc).*1 = acquired sc;
  lo_plain t : t ∈ called sc -> is_meta reg t = false }.
(** The scope while nothing has failed. *)
Record scope_ok (sc : @depScope V) : Prop := {
  sc_log : log_ok sc;
  sc_cached t : t ∈ called sc <-> is_Some (dp_cache sc !! t) /\ is_meta reg t = false }.

Record grows (sc sc' : @depScope V) : Prop := {
  gr_cache : dp_cache sc ⊆ dp_cache sc';
  gr_events : exists l, dp_events sc' = dp_events sc ++ l }.
#[local] Instance grows_preorder : PreOrder grows.
Proof.
  split; [intros sc; split; [done|exists []; by rewrite app_nil_r]|].
  intros a b c [H1 [l Hl]] [H2 [k Hk]]. split; [by etrans|]. exists (l ++ k). by rewrite Hk, Hl, app_assoc.
Qed.

(** Only what is reachable from [roots] was called. *)
Definition reaches (roots : list nat) (sc sc' : @depScope V) : Prop :=
  forall x, x ∈ called sc' -> x ∈ called sc \/ exists t, t ∈ roots /\ rtc (depends reg) t x.

Definition runs {A} (roots : list nat) (m : @Scoped V E A) (post : A -> @depScope V -> Prop) : Prop :=
  forall sc r sc', scope_ok sc -> m sc = Some (r, sc') ->
    log_ok sc' /\ grows sc sc' /\ reaches roots sc sc' /\
    match r with inr v => scope_ok sc' /\ post v sc' | inl _ => True end.

Lemma runs_ok {A} roots (v : A) (post : A -> @depScope V -> Prop) :
  (forall sc, post v sc) -> runs roots (ok v) post.
Proof. intros Hp sc r sc' Hsc [= <- <-]. split_and!; [apply Hsc|done|by left|done|done]. Qed.

Lemma and_then_assoc {A B C} (m : @Scoped V E A) (k : A -> Scoped B) (h : B -> Scoped C) sc :
  and_then m (fun x => and_then (k x) h) sc = and_then (and_then m k) h sc.
Proof. unfold and_then. by destruct (m sc) as [[[?|?] ?]|]. Qed.

Lemma runs_then {A B} roots (m : Scoped A) (k : A -> Scoped B) post post' :
  runs roots m post -> (forall v sc r sc', scope_ok sc -> post v sc -> k v sc = Some (r, sc') ->
    log_ok sc' /\ grows sc sc' /\ reaches roots sc sc' /\
    match r with inr w => scope_ok sc' /\ post' w sc' | inl _ => True end) ->
  runs roots (and_then m k) post'.
Proof.
  intros Hm Hk sc r sc' Hsc Hr. unfold and_then in Hr. destruct (m sc) as [[[f|v] sc1]|] eqn:Hm1; [|..|done].
  - injection Hr as <- <-. destruct (Hm _ _ _ Hsc Hm1) as (H1 & H2 & H3 & _). done.
  - destruct (Hm _ _ _ Hsc Hm1) as (H1 & H2 & H3 & H4 & Hpost).
    destruct (Hk _ _ _ _ H4 Hpost Hr) as (K1 & K2 & K3 & K4). split_and!; [done|by etrans| |done].
    intros x [Hx|Hx]%K3; [by apply H3|by right].
Qed.

Definition holds (t : nat) (v : value V) (sc : @depScope V) : Prop := dp_cache sc !! t = Some v.

Lemma runs_each rec types : (forall t, t ∈ types -> runs [t] (rec t) (holds t)) ->
  runs types (resolve_each rec types) (fun vs sc => Forall2 (fun t v => holds t v sc) types vs).
Proof.
  induction types as [|t types IH]; intros Hrec.
  { apply runs_ok. constructor. }
  intros sc r sc' Hsc Hr. cbn [resolve_each] in Hr. unfold and_then in Hr.
  destruct (rec t sc) as [[[f|v] sc1]|] eqn:Ht; [|..|done].
  - injection Hr as <- <-. destruct (Hrec t (list_elem_of_here _ _) _ _ _ Hsc Ht) as (H1 & H2 & H3 & _).
    split_and!; try done. intros x [Hx|(u & ->%list_elem_of_singleton & Hx)]%H3; [by left|right].
    exists t. split; [by left|done].
  - destruct (Hrec t (list_elem_of_here _ _) _ _ _ Hsc Ht) as (H1 & H2 & H3 & H4 & Hv).
    specialize (IH (fun u Hu => Hrec u (list_elem_of_further _ _ _ Hu))).
    destruct (resolve_each rec types sc1) as [[[f|vs] sc2]|] eqn:Hts; [|..|done]; injection Hr as <- <-;
      destruct (IH _ _ _ H4 Hts) as (K1 & K2 & K3 & K4).
    + split_and!; [done|by etrans| |done]. intros x [Hx|(u & Hu & Hx)]%K3; [|right; exists u; split; [by right|done]].
      apply H3 in Hx as [Hx|(u & ->%list_elem_of_singleton & Hx)]; [by left|right]. exists t. split; [by left|done].
    + destruct K4 as [K4 Hvs]. split_and!; [done|by etrans| |done|].
      * intros x [Hx|(u & Hu & Hx)]%K3; [|right; exists u; split; [by right|done]].
        apply H3 in Hx as [Hx|(u & ->%list_elem_of_singleton & Hx)]; [by left|right]. exists t. split; [by left|done].
      * constructor; [|done]. unfold holds. eapply lookup_weaken; [exact Hv|apply K2].
Qed.

Lemma called_snoc sc e : called (sc {{ dp_events ::= fun l => l ++ [e] }}) =
  called sc ++ match e with Called t _ => [t] | _ => [] end.
Proof. unfold called. cbn. rewrite omap_app. by destruct e. Qed.
Definition gives (c : option cleanupFn) : bool := match c with Some _ => true | None => false end.

(** The log with one more provider called, all of whose dependencies were. *)
Lemma call_log sc t c : scope_ok sc -> dp_cache sc !! t = None -> is_meta reg t = false ->
  (forall u, depends reg t u -> is_meta reg u = false -> is_Some (dp_cache sc !! u)) ->
  log_ok ((sc {{ dp_events ::= fun l => l ++ [Called t (gives c)] }})
            {{ dp_cleanups ::= fun l => l ++ match c with Some c => [(t, c)] | None => [] end }}).
Proof.
  intros [[Hev Hnd Hord Hcl Hplain] Hcached] Hnone Hmeta Hdeps.
  assert (called ((sc {{ dp_events ::= fun l => l ++ [Called t (gives c)] }})
            {{ dp_cleanups ::= fun l => l ++ match c with Some c => [(t, c)] | None => [] end }}) = called sc ++ [t])
    as Hcalled by apply (called_snoc sc (Called t (gives c))).
  assert (t ∉ called sc) as Hnew by (intros Ht%Hcached; rewrite Hnone in Ht; by destruct Ht as [[? ?] _]).
  split; rewrite ?Hcalled; cbn.
  - apply Forall_app. split; [done|by repeat constructor].
  - apply NoDup_app. split_and!; [done|set_solver|apply NoDup_singleton].
  - intros i x u Hx Hu Hmu. destruct (decide (i < length (called sc))%nat) as [Hi|Hi].
    + rewrite lookup_app_l in Hx by done. destruct (Hord _ _ _ Hx Hu Hmu) as (j & Hj & Hju).
      exists j. split; [done|by apply lookup_app_l_Some].
    + rewrite lookup_app_r in Hx by lia. apply list_lookup_singleton_Some in Hx as [Hi' <-].
      assert (u ∈ called sc) as [j Hj]%list_elem_of_lookup by (apply Hcached; auto).
      exists j. split; [apply lookup_lt_Some in Hj; lia|by apply lookup_app_l_Some].
  - rewrite fmap_app, Hcl. unfold acquired. cbn. rewrite omap_app. by destruct c.
  - intros x [Hx| ->%list_elem_of_singleton]%elem_of_app; auto.
Qed.

Lemma call_provider_ok t (spec : depSpec V E) args sc r sc' : scope_ok sc -> dp_cache sc !! t = None -> is_meta reg t = false ->
  (forall u, depends reg t u -> is_meta reg u = false -> is_Some (dp_cache sc !! u)) ->
  call_provider t spec args sc = Some (r, sc') ->
  log_ok sc' /\ grows sc sc' /\ reaches [t] sc sc' /\
  match r with inr v => scope_ok sc' /\ holds t v sc' | inl _ => True end.
Proof.
  intros Hsc Hnone Hmeta Hdeps Hcall.
  assert (exists c, sc' = (sc {{ dp_events ::= fun l => l ++ [Called t (gives c)] }})
      {{ dp_cleanups ::= fun l => l ++ match c with Some c => [(t, c)] | None => [] end }}
      {{ dp_cache ::= match r with inr v => insert t v | inl _ => fun m => m end }}) as [c ->].
  { unfold call_provider in Hcall. repeat case_match; unfold failing, cached in *; simplify_eq;
      first [exists None; destruct sc; cbn; by rewrite app_nil_r|eexists (Some _); by destruct sc]. }
  pose proof (call_log sc t c Hsc Hnone Hmeta Hdeps) as Hlog. set (sc1 := _ {{ dp_cleanups ::= _ }}) in *.
  set (sc2 := sc1 {{ dp_cache ::= _ }}).
  assert (called sc2 = called sc ++ [t]) as Hcalled by apply (called_snoc sc (Called t (gives c))).
  assert (log_ok sc2) as Hlog2 by (destruct Hlog; by split).
  split_and!; [done| | |].
  - split; [|exists [Called t (gives c)]; done]. cbn. destruct r; [done|by apply insert_subseteq].
  - intros x. rewrite Hcalled, elem_of_app, list_elem_of_singleton. intros [Hx| ->]; [by left|right].
    exists t. split; [by left|done].
  - destruct r as [f|v]; [done|]. split; [split; [done|]|unfold holds; cbn; apply lookup_insert_eq].
    intros x. rewrite Hcalled, elem_of_app, list_elem_of_singleton, (sc_cached _ Hsc). cbn.
    destruct (decide (x = t)) as [->|Hne].
    + rewrite lookup_insert_eq. split; [intros _; split; [by eexists|done]|by right].
    + rewrite lookup_insert_ne by done. tauto.
Qed.

Lemma meta_cached_ok t v sc : scope_ok sc -> is_meta reg t = true -> dp_cache sc !! t = None ->
  scope_ok (sc {{ dp_cache ::= insert t v }}).
Proof.
  intros [Hlog Hcached] Hmeta Hnone. split; [destruct Hlog; by split|]. intros x. change (called _) with (called sc).
  rewrite Hcached. cbn. destruct (decide (x = t)) as [->|Hne]; [|by rewrite lookup_insert_ne].
  rewrite lookup_insert_eq, Hmeta. naive_solver.
Qed.

Lemma resolve_runs (Hacyclic : acyclic reg) fuel t : runs [t] (resolve reg metadata depth fuel t) (holds t).
Proof.
  revert t. induction fuel as [|fuel IH]; intros t sc r sc' Hsc Hr; [done|]. cbn [resolve] in Hr.
  unfold resolve_body in Hr. destruct (dp_cache sc !! t) as [v|] eqn:Hc.
  { injection Hr as <- <-. split_and!; [apply Hsc|done|by left|done|done]. }
  destruct (provider_of reg t) as [spec|] eqn:Hspec.
  2: { injection Hr as <- <-. split_and!; [apply Hsc|done|by left|done]. }
  destruct (ds_isMetaDep spec) eqn:Hm.
  { assert (is_meta reg t = true) as Hmeta by (unfold is_meta; by rewrite Hspec).
    destruct (resolveMeta depth metadata spec) as [[e|v]|]; [..|done]; injection Hr as <- <-.
    - split_and!; [apply Hsc|done|by left|done].
    - pose proof (meta_cached_ok t v sc Hsc Hmeta Hc) as Hok. split_and!; [apply Hok| |by left|done|].
      + split; [cbn; by apply insert_subseteq|exists []; by rewrite app_nil_r].
      + unfold holds. cbn. apply lookup_insert_eq. }
  assert (is_meta reg t = false) as Hmeta by (unfold is_meta; by rewrite Hspec).
  assert (sub_types reg t = ds_depTypes spec) as Hsubs by (unfold sub_types; by rewrite Hspec, Hm).
  assert (runs (ds_depTypes spec)
    (and_then (resolve_each (resolve reg metadata depth fuel)
                 (filter (fun sub => is_meta reg sub = true) (ds_depTypes spec))) (fun _ =>
              resolve_each (resolve reg metadata depth fuel) (ds_depTypes spec)))
    (fun vs sc => Forall2 (fun u v => holds u v sc) (ds_depTypes spec) vs)) as Hargs.
  { eapply (runs_then _ _ _ (fun _ _ => True)).
    - intros sc1 r1 sc1' Hok1 Hr1. destruct (runs_each (resolve reg metadata depth fuel) _
        (fun u _ => IH u) _ _ _ Hok1 Hr1) as (H1 & H2 & H3 & H4).
      split_and!; [done|done| |by destruct r1; [|destruct H4]].
      intros x [Hx|(u & [_ Hu]%list_elem_of_filter & Hx)]%H3; [by left|right; by exists u].
    - intros _ sc1 r1 sc1' Hok1 _ Hr1. by apply (runs_each _ _ (fun u _ => IH u) _ _ _ Hok1 Hr1). }
  rewrite and_then_assoc in Hr.
  assert (forall sc2, reaches (ds_depTypes spec) sc sc2 -> reaches [t] sc sc2) as Hreach.
  { intros sc2 H2 x [Hx|(u & Hu & Hx)]%H2; [by left|right]. exists t. split; [by left|].
    eapply rtc_l; [|done]. unfold depends. by rewrite Hsubs. }
  unfold and_then at 1 in Hr.
  destruct (and_then _ _ sc) as [[[f|vs] sc2]|] eqn:Hm2 in Hr; [|..|done].
  { injection Hr as <- <-. destruct (Hargs _ _ _ Hsc Hm2) as (H1 & H2 & H3 & _). auto. }
  destruct (Hargs _ _ _ Hsc Hm2) as (H1 & H2 & H3 & H4 & Hvs).
  assert (dp_cache sc2 !! t = None) as Hc2.
  { apply eq_None_not_Some. intros Ht. assert (t ∈ called sc2) as Hcall by (by apply (sc_cached _ H4)).
    apply H3 in Hcall as [Hin|(u & Hu & Hx)].
    - apply (sc_cached _ Hsc) in Hin as [[? ?] _]. congruence.
    - apply (Hacyclic t). eapply tc_rtc_r; [apply tc_once|exact Hx]. unfold depends. by rewrite Hsubs. }
  destruct (call_provider_ok t spec (context_args spec ++ (Arg <$> vs)) sc2 r sc') as (K1 & K2 & K3 & K4); try done.
  { intros u Hu _. unfold depends in Hu. rewrite Hsubs in Hu. apply list_elem_of_lookup in Hu as [j Hj].
    destruct (Forall2_lookup_l _ _ _ _ _ Hvs Hj) as (v & _ & Hv). by exists v. }
  split_and!; [done|by etrans| |done]. intros x [Hx|Hx]%K3; [exact (Hreach _ H3 _ Hx)|by right].
Qed.

(** Headers are resolved without calling a provider. *)
Lemma resolve_meta_silent fuel t sc r sc' : is_meta reg t = true ->
  resolve reg metadata depth fuel t sc = Some (r, sc') -> dp_events sc' = dp_events sc /\ dp_cleanups sc' = dp_cleanups sc.
Proof.
  intros Hmeta. destruct fuel as [|fuel]; [done|]. cbn [resolve]. unfold resolve_body, is_meta in *.
  destruct (dp_cache sc !! t); [by intros [= <- <-]|].
  destruct (provider_of reg t) as [spec|]; [|done]. rewrite Hmeta.
  destruct (resolveMeta _ _ _) as [[?|?]|]; [by intros [= <- <-]..|done].
Qed.
Lemma each_meta_silent fuel types sc r sc' : (forall t, t ∈ types -> is_meta reg t = true) ->
  resolve_each (resolve reg metadata depth fuel) types sc = Some (r, sc') ->
  dp_events sc' = dp_events sc /\ dp_cleanups sc' = dp_cleanups sc.
Proof.
  revert sc r. induction types as [|t types IH]; intros sc r Hm Hr; cbn [resolve_each] in Hr; [by injection Hr as <- <-|].
  unfold and_then in Hr. destruct (resolve reg metadata depth fuel t sc) as [[r1 sc1]|] eqn:Ht; [|done].
  destruct (resolve_meta_silent _ _ _ _ _ (Hm t (list_elem_of_here _ _)) Ht) as [H1 H2].
  destruct r1 as [f|v]; [by injection Hr as <- <-|].
  destruct (resolve_each _ types sc1) as [[r2 sc2]|] eqn:Hts; [|done].
  assert (sc2 = sc') as -> by (destruct r2; by injection Hr).
  destruct (IH _ _ (fun u Hu => Hm u (list_elem_of_further _ _ _ Hu)) Hts) as [H3 H4].
  split; congruence.
Qed.

(** ** Resolving ends *)

(** The conversions of headers end: see [convertMetaValue_ends]. *)
Definition headers_end : Prop := forall t spec, reg !! t = Some spec -> ds_isMetaDep spec = true ->
  is_Some (resolveMeta depth metadata spec).

Lemma each_total rec types : (forall t sc, t ∈ types -> is_Some (rec t sc)) ->
  forall sc : @depScope V, is_Some (resolve_each (E := E) rec types sc).
Proof.
  induction types as [|t types IH]; intros Hrec sc; [by eexists|]. cbn [resolve_each]. unfold and_then.
  destruct (Hrec t sc (list_elem_of_here _ _)) as [[[f|v] sc1] ->]; [by eexists|].
  destruct (IH (fun u sc Hu => Hrec u sc (list_elem_of_further _ _ _ Hu)) sc1) as [[[f|vs] sc2] ->]; by eexists.
Qed.

Lemma chained_bound l : acyclic reg -> chained reg l -> (length l <= S (size (mentioned reg)))%nat.
Proof.
  intros Hac Hl. destruct l as [|x0 l0] eqn:Hl0; [cbn; lia|]. rewrite <- Hl0 in *. clear x0 l0 Hl0.
  set (l' := take (length l - 1) l).
  assert (NoDup l') as Hnd.
  { apply NoDup_alt. intros i j x Hi Hj. unfold l' in Hi, Hj.
    apply lookup_take_Some in Hi as [Hi _], Hj as [Hj _].
    destruct (Nat.lt_trichotomy i j) as [Hlt|[->|Hlt]]; [|done|]; exfalso; apply (Hac x).
    - by apply (chained_tc _ _ _ _ _ _ Hl Hi Hj).
    - by apply (chained_tc _ _ _ _ _ _ Hl Hj Hi). }
  assert (length l' <= size (mentioned reg))%nat as Hle.
  { rewrite <- (size_list_to_set (C := gset nat)) by done. apply subseteq_size. intros x.
    rewrite elem_of_list_to_set. intros [i Hi]%list_elem_of_lookup. unfold l' in Hi.
    apply lookup_take_Some in Hi as [Hi Hlt]. destruct (lookup_lt_is_Some_2 l (S i)) as [y Hy]; [lia|].
    apply elem_of_union_l. apply (elem_of_dom (M := gmap nat)). eapply depends_registered. by eapply Hl. }
  unfold l' in Hle. rewrite length_take in Hle. lia.
Qed.

Lemma resolve_total fuel P t sc : acyclic reg -> headers_end -> chained reg (P ++ [t]) ->
  (S (size (mentioned reg)) <= fuel + length P)%nat -> is_Some (resolve reg metadata depth fuel t sc).
Proof.
  intros Hac Hend. revert P t sc. induction fuel as [|fuel IH]; intros P t sc Hl Hf.
  { pose proof (chained_bound _ Hac Hl) as Hb. rewrite length_app in Hb. cbn in Hb. lia. }
  cbn [resolve]. unfold resolve_body. destruct (dp_cache sc !! t); [by eexists|].
  destruct (provider_of reg t) as [spec|] eqn:Hspec; [|by eexists]. destruct (ds_isMetaDep spec) eqn:Hm.
  { destruct (Hend t spec Hspec Hm) as [[e|v] ->]; by eexists. }
  assert (forall u sc, u ∈ ds_depTypes spec -> is_Some (resolve reg metadata depth fuel u sc)) as Hsubs.
  { intros u sc1 Hu. apply (IH (P ++ [t])); [|rewrite length_app; cbn; lia].
    apply chained_snoc; [done|]. intros x. rewrite last_snoc. intros [= <-].
    unfold depends, sub_types. by rewrite Hspec, Hm. }
  unfold and_then at 1.
  destruct (each_total (resolve reg metadata depth fuel)
    (filter (fun sub => is_meta reg sub = true) (ds_depTypes spec))
    (fun u sc Hu => Hsubs u sc (proj2 (proj1 (list_elem_of_filter _ _ _) Hu))) sc) as [[[f|ms] sc1] ->]; [by eexists|].
  unfold and_then. destruct (each_total (resolve reg metadata depth fuel) (ds_depTypes spec) Hsubs sc1)
    as [[[f|vs] sc2] ->]; [by eexists|].
  unfold call_provider. by repeat case_match; eexists.
Qed.

Lemma resolveAll_total types sc : acyclic reg -> headers_end ->
  is_Some (resolveAll reg metadata depth (S (size (mentioned reg))) types sc).
Proof.
  intros Hac Hend. assert (forall t sc, is_Some (resolve reg metadata depth (S (size (mentioned reg))) t sc)) as Ht.
  { intros t sc1. apply (resolve_total _ []); [done|done| |cbn; lia]. by intros [|i] x y. }
  unfold resolveAll, and_then. destruct (each_total _ (filter (fun t => is_meta reg t = true) types)
    (fun t sc _ => Ht t sc) sc) as [[[f|vs] sc1] ->]; [by eexists|].
  apply each_total. intros t sc2 _. apply Ht.
Qed.

Lemma resolveAll_runs types fuel : acyclic reg ->
  runs types (resolveAll reg metadata depth fuel types)
    (fun vs sc => Forall2 (fun t v => holds t v sc) types vs).
Proof.
  intros Hac. eapply (runs_then _ _ _ (fun _ _ => True)).
  - intros sc r sc' Hok Hr. destruct (runs_each (resolve reg metadata depth fuel) _
      (fun u _ => resolve_runs Hac fuel u) _ _ _ Hok Hr) as (H1 & H2 & H3 & H4).
    split_and!; [done|done| |by destruct r; [|destruct H4]].
    intros x [Hx|(u & [_ Hu]%list_elem_of_filter & Hx)]%H3; [by left|right; by exists u].
  - intros _ sc r sc' Hok _ Hr. by apply (runs_each _ _ (fun u _ => resolve_runs Hac fuel u) _ _ _ Hok Hr).
Qed.

Lemma newDepScope_ok : scope_ok newDepScope.
Proof.
  split; [split; [constructor|constructor|by intros i t u Hi|done|by intros t Ht%not_elem_of_nil]|].
  - intros t. cbn. rewrite lookup_empty. split; [intros Ht%not_elem_of_nil; done|by intros [[? ?] _]].
Qed.
End Resolving.

Lemma registry_acyclic {V E : Type} order (providers : list (option (depSpec V E))) reg :
  order ≡ₚ (map_to_list (register_all providers)).*1 -> newDependencyRegistry order providers = Some (inr reg) ->
  acyclic reg.
Proof.
  intros Horder Hreg. unfold newDependencyRegistry in Hreg. pose proof (all_searched _ _ Horder) as Hs.
  destruct (dfs_all _ _ _ _) as [[[path]|st]|]; [done| |done]. injection Hreg as <-.
  intros t. by apply acc_no_cycle.
Qed.

(** ** One call *)

Lemma sublist_acquired (calls : list (nat * bool)) :
  sublist (filter (fun c => c.2 = true) calls).*1 calls.*1.
Proof.
  induction calls as [|[t b] calls IH]; [constructor|]. rewrite filter_cons. case_decide; cbn; by constructor.
Qed.

Lemma calls_of events : Forall is_call events -> exists calls : list (nat * bool),
  events = (fun c => Called c.1 c.2) <$> calls /\
  omap (fun e => match e with Called t _ => Some t | _ => None end) events = calls.*1 /\
  omap (fun e => match e with Called t true => Some t | _ => None end) events =
    (filter (fun c => c.2 = true) calls).*1.
Proof.
  induction 1 as [|e events He _ (calls & -> & H1 & H2)]; [by exists []|]. destruct e as [t b| |]; [|done..].
  exists ((t, b) :: calls). split_and!; [done|cbn; by rewrite H1|]. rewrite filter_cons.
  destruct b; cbn; [by rewrite decide_True, H2|by rewrite decide_False].
Qed.

Lemma run_cleanups_spec cleanups evs p : run_cleanups cleanups = (evs, p) ->
  exists cleaned, evs = Cleaned <$> cleaned /\
    if p : bool then cleaned `prefix_of` cleanups.*1 else cleaned = cleanups.*1.
Proof.
  revert evs p. induction cleanups as [|[t []] cleanups IH]; cbn; intros evs p Hr.
  - injection Hr as <- <-. by exists [].
  - destruct (run_cleanups cleanups) as [evs' p']. injection Hr as <- <-.
    destruct (IH _ _ eq_refl) as (cleaned & -> & Hp). exists (t :: cleaned). split; [done|].
    destruct p'; [by apply prefix_cons|by subst].
  - injection Hr as <- <-. exists [t]. split; [done|]. apply prefix_cons, prefix_nil.
Qed.

(** In a list in order, what a type depends on comes before it. *)
Lemma in_order_tc {V E} (reg : gmap nat (depSpec V E)) calls : in_order reg calls ->
  (forall t, t ∈ calls -> is_meta reg t = false) -> forall x y, tc (depends reg) x y -> is_meta reg y = false ->
  forall i, calls !! i = Some x -> exists j, (j < i)%nat /\ calls !! j = Some y.
Proof.
  intros Hord Hmeta x y Hxy Hy. induction Hxy as [x y H1|x u y Hxu Huy IH]; intros i Hi; [by eapply Hord|].
  assert (is_meta reg u = false) as Hu.
  { destruct (is_meta reg u) eqn:Hu; [|done]. exfalso.
    assert (exists w, depends reg u w) as [w Hw] by (destruct Huy; eauto).
    unfold depends, sub_types, is_meta in *. destruct (provider_of reg u); [|by apply not_elem_of_nil in Hw].
    rewrite Hu in Hw. by apply not_elem_of_nil in Hw. }
  destruct (Hord _ _ _ Hi Hxu Hu) as (j & Hj & Hju). destruct (IH Hy j Hju) as (k & Hk & Hky).
  exists k. split; [lia|done].
Qed.

(** [x] stands before [y]. *)
Definition before (l : list nat) (x y : nat) : Prop :=
  exists i j, (i < j)%nat /\ l !! i = Some x /\ l !! j = Some y.

Lemma before_sublist l k x y : sublist l k -> before l x y -> before k x y.
Proof.
  intros Hs. revert x y. induction Hs as [|z l k Hs IH|z l k Hs IH]; intros x y (i & j & Hij & Hi & Hj); [done|..].
  - destruct j as [|j]; [lia|]. destruct i as [|i]; simplify_eq/=.
    + assert (y ∈ k) as [m Hm]%list_elem_of_lookup by (eapply elem_of_sublist; [by eapply list_elem_of_lookup_2|exact Hs]).
      exists 0%nat, (S m). split; [lia|done].
    + destruct (IH x y) as (i' & j' & ? & ? & ?); [exists i, j; split; [lia|done]|].
      exists (S i'), (S j'). split; [lia|done].
  - destruct (IH x y) as (i' & j' & ? & ? & ?); [by exists i, j|]. exists (S i'), (S j'). split; [lia|done].
Qed.
Lemma before_rev l x y : before (rev l) x y -> before l y x.
Proof.
  intros (i & j & Hij & Hi & Hj). rewrite rev_alt in Hi, Hj. fold (reverse l) in Hi, Hj.
  apply reverse_lookup_Some in Hi as [Hi ?], Hj as [Hj ?].
  exists (length l - S j)%nat, (length l - S i)%nat. split; [lia|done].
Qed.
Lemma before_prefix l k x y : l `prefix_of` k -> before l x y -> before k x y.
Proof.
  intros [k' ->] (i & j & Hij & Hi & Hj). exists i, j. split_and!; [done|by apply lookup_app_l_Some..].
Qed.
Lemma before_asym l x y : NoDup l -> before l x y -> ~ before l y x.
Proof.
  intros Hnd (i & j & Hij & Hi & Hj) (k & m & Hkm & Hk & Hm). rewrite NoDup_alt in Hnd.
  pose proof (Hnd _ _ _ Hi Hm). pose proof (Hnd _ _ _ Hj Hk). lia.
Qed.

(** Cleanups in reverse release a type before those it was made of. *)
Lemma cleaned_first {V E} (reg : gmap nat (depSpec V E)) calls acquired cleaned : acyclic reg -> NoDup calls ->
  in_order reg calls -> (forall t, t ∈ calls -> is_meta reg t = false) -> sublist acquired calls ->
  cleaned `prefix_of` rev acquired ->
  forall i j x y, cleaned !! i = Some x -> cleaned !! j = Some y -> tc (depends reg) x y -> (i < j)%nat.
Proof.
  intros Hac Hnd Hord Hmeta Hsub Hpre i j x y Hi Hj Hxy.
  assert (forall k z, cleaned !! k = Some z -> z ∈ calls) as Hin.
  { intros k z Hk. eapply elem_of_sublist; [|exact Hsub]. apply list_elem_of_In, in_rev, list_elem_of_In.
    destruct Hpre as [rest ->]. apply elem_of_app. left. by eapply list_elem_of_lookup_2. }
  destruct (Nat.lt_trichotomy i j) as [|[->|Hlt]]; [done| |]; exfalso.
  - simplify_eq. by apply (Hac x).
  - pose proof (Hin _ _ Hi) as [m Hm]%list_elem_of_lookup.
    destruct (in_order_tc reg calls Hord Hmeta x y Hxy (Hmeta _ (Hin _ _ Hj)) m Hm) as (n & Hn & Hny).
    apply (before_asym calls y x Hnd); [by exists n, m|].
    apply (before_sublist acquired); [done|]. apply before_rev. eapply before_prefix; [exact Hpre|].
    by exists j, i.
Qed.


(** ** Headers *)

Section Headers.
Context {V E : Type} `{Types} `{HeaderValues}.

Lemma convertMetaValue_ends fuel raw t key : is_Some (strip_pointers fuel t) ->
  is_Some (convertMetaValue fuel raw t key).
Proof.
  revert t. induction fuel as [|fuel IH]; intros t [t' Ht]; [done|]. cbn in *. unfold is_kind in Ht.
  case_bool_decide as Hk.
  - rewrite Hk. destruct (IH (rt_Elem (type_of t))) as [[e|m] ->]; by eexists.
  - destruct (kind t); try done; by eexists.
Qed.

(** The pointers of the header types bound the depth. *)
Lemma headers_end_strip (reg : gmap nat (depSpec V E)) metadata depth :
  (forall t spec, reg !! t = Some spec -> ds_isMetaDep spec = true -> is_Some (strip_pointers depth (ds_outType spec))) ->
  headers_end reg metadata depth.
Proof.
  intros Hs t spec Hspec Hm. unfold resolveMeta. destruct (find_header _ _) as [raw|]; [|by repeat case_match; eexists].
  destruct (convertMetaValue_ends depth raw _ (ds_metaKey spec) (Hs _ _ Hspec Hm)) as [[e|m] ->]; by eexists.
Qed.

Lemma each_meta_fails (reg : gmap nat (depSpec V E)) metadata depth fuel metas t spec e sc r sc' :
  (forall x, x ∈ metas -> is_meta reg x = true) -> t ∈ metas -> reg !! t = Some spec ->
  resolveMeta depth metadata spec = Some (inl e) -> dp_cache sc !! t = None ->
  resolve_each (resolve reg metadata depth (S fuel)) metas sc = Some (r, sc') -> exists e', r = inl (SdkError e').
Proof.
  intros Hm Hin Hspec He. revert sc r. induction metas as [|u metas IH]; intros sc r Hnone Hr;
    [by apply not_elem_of_nil in Hin|].
  specialize (IH (fun x Hx => Hm x (list_elem_of_further _ _ _ Hx))).
  assert (is_meta reg u = true) as Hu by (apply Hm; by left). cbn [resolve_each] in Hr. unfold and_then in Hr.
  destruct (resolve reg metadata depth (S fuel) u sc) as [[ru sc1]|] eqn:Hres; [|done].
  cbn [resolve] in Hres. unfold resolve_body in Hres. unfold is_meta in Hu.
  assert (u = t \/ t ∈ metas) as Hcase by (apply elem_of_cons in Hin as [->|Hin]; [by left|by right]).
  assert ((exists e', ru = inl (SdkError e')) \/ (u <> t /\ (exists v, ru = inr v) /\ dp_cache sc1 !! t = None)) as Hcases.
  { destruct (dp_cache sc !! u) as [v|] eqn:Hcu.
    - injection Hres as <- <-. right. split_and!; [congruence|by eexists|done].
    - destruct (provider_of reg u) as [spec'|] eqn:Hspec'; [|done]. rewrite Hu in Hres.
      destruct (resolveMeta depth metadata spec') as [[e'|v]|] eqn:He'; [|..|done]; injection Hres as <- <-.
      + left. by eexists.
      + right. assert (u <> t) as Hne by (intros ->; unfold provider_of in Hspec'; congruence).
        split_and!; [done|by eexists|]. cbn. by rewrite lookup_insert_ne. }
  destruct Hcases as [[e' ->]|(Hne & [v ->] & Hn1)]; [injection Hr as <- <-; by eexists|].
  destruct (resolve_each _ metas sc1) as [[r2 sc2]|] eqn:Hts; [|done].
  assert (sc2 = sc') as -> by (destruct r2; by injection Hr).
  destruct (IH ltac:(tauto) _ _ Hn1 Hts) as [e' ->]. injection Hr as <-. by eexists.
Qed.

(** A header that is missing or does not convert, of those the method takes
    itself, ends the call before any provider runs: nothing is acquired, nothing
    is cleaned up, the method is not called. *)
Theorem headers_fail_first {A : Type} (reg : gmap nat (depSpec V E)) metadata depth diTypes
    (handler : list (value V) -> outcome E A) t spec e out events :
  t ∈ diTypes -> reg !! t = Some spec -> ds_isMetaDep spec = true ->
  resolveMeta depth metadata spec = Some (inl e) ->
  invoke reg metadata depth diTypes handler = Some (out, events) ->
  events = [] /\ exists e', out = Returned (inl (inl e')).
Proof.
  intros Hin Hspec Hmeta He. unfold invoke, resolveAll, and_then.
  set (metas := filter _ diTypes). set (fuel := S (size (mentioned reg))).
  assert (t ∈ metas) as Ht by (unfold metas; rewrite list_elem_of_filter; unfold is_meta, provider_of; by rewrite Hspec).
  assert (forall x, x ∈ metas -> is_meta reg x = true) as Hmetas by (intros x; unfold metas; rewrite list_elem_of_filter; tauto).
  destruct (resolve_each (resolve reg metadata depth fuel) metas newDepScope) as [[r sc]|] eqn:Hr; [|done].
  destruct (each_meta_silent reg metadata depth fuel metas _ _ _ Hmetas Hr) as [Hev Hcl].
  destruct (each_meta_fails reg metadata depth _ metas t spec e newDepScope r sc Hmetas Ht Hspec He eq_refl Hr)
    as [e' ->].
  destruct (run_cleanups (rev (dp_cleanups sc))) as [cevs p] eqn:Hrun. rewrite Hcl in Hrun. injection Hrun as <- <-.
  rewrite Hev. intros [= <- <-]. split; [done|by eexists].
Qed.
End Headers.

(** ** A database, a repository and a header

    The providers of the SDK's own tests: 0 is a database with a cleanup, 1 a
    repository on the database, with a cleanup of its own, 2 the required header
    x-user-id, 3 an audit that takes the header. *)
Definition di_types : Types :=
  {| type_of := fun _ => RType "T" "p" KString 0 []; type_string := fun _ => "p.T"; timeType := 8; rawType := 9 |}.
Definition no_values : HeaderValues := {| parse_float := fun _ _ => None; unmarshal_into := fun _ _ => None |}.
Definition provider (t : nat) (deps : list nat) (r : returned nat unit) : depSpec nat unit :=
  MkDepSpec t false EmptyString false false None (fun _ => r) deps true false.
Definition database : depSpec nat unit := provider 0 [] (Returns3 10%nat (Some CleansUp) None).
Definition repository (c : cleanupFn) : depSpec nat unit := provider 1 [0%nat] (Returns3 11%nat (Some c) None).
Definition user_id : depSpec nat unit :=
  MkDepSpec 2 true "x-user-id" true false None (fun _ => Panics) [] false false.
Definition audit : depSpec nat unit := provider 3 [2%nat] (Returns1 13%nat).
Definition test_providers (c : cleanupFn) : list (option (depSpec nat unit)) :=
  [Some database; Some (repository c); Some user_id; Some audit].
Definition test_order (c : cleanupFn) : list nat := (map_to_list (register_all (test_providers c))).*1.
Definition test_registry (c : cleanupFn) : gmap nat (depSpec nat unit) := register_all (test_providers c).
Definition answering (vs : list (value nat)) : outcome unit nat := Returned (inr (length vs)).
Definition calling (c : cleanupFn) (metadata : list (string * string)) (diTypes : list nat) :=
  @invoke nat unit di_types no_values nat (test_registry c) metadata 1 diTypes answering.

Lemma registry_rejects_cycles_witness :
  match newDependencyRegistry (test_order CleansUp) (test_providers CleansUp) with
  | None => False
  | Some (inl (Circular path)) =>
      circular (register_all (test_providers CleansUp)) path /\ ~ acyclic (register_all (test_providers CleansUp))
  | Some (inr reg) =>
      reg = register_all (test_providers CleansUp) /\ acyclic reg /\ forall t, Acc (flip (depends reg)) t
  end.
Proof. apply (registry_rejects_cycles (test_order CleansUp) (test_providers CleansUp)). reflexivity. Defined.

(** A type that depends on itself through another. *)
Example circular_providers :
  newDependencyRegistry [0; 1]%nat [Some (provider 0 [1%nat] (Returns1 0%nat)); Some (provider 1 [0%nat] (Returns1 0%nat))] =
    Some (inl (Circular [0; 1; 0]%nat)).
Proof. reflexivity. Qed.

Lemma test_headers_end c metadata :
  @headers_end nat unit di_types no_values (test_registry c) metadata 1.
Proof. apply headers_end_strip. intros. by eexists. Qed.


(** What that call does: the cleanups in reverse, after the method. *)
Example lifecycle_run :
  calling CleansUp [("X-User-ID", "u_42")]%string [1; 0; 2]%nat =
    Some (Returned (inr 3%nat), [Called 0 true; Called 1 true; Handled; Cleaned 1; Cleaned 0]).
Proof. vm_compute. reflexivity. Qed.

Lemma headers_fail_first_witness :
  forall out events, calling CleansUp [] [0; 2]%nat = Some (out, events) ->
    events = [] /\ exists e, out = Returned (inl (inl e)).
Proof.
  intros out events. apply (@headers_fail_first nat unit di_types no_values nat
    (test_registry CleansUp) [] 1 [0; 2]%nat answering 2%nat user_id (missing_header "x-user-id"));
    [right; left|vm_compute; reflexivity..].
Defined.

(** ** Where it ends *)

(** A required header that only a provider takes fails the call late: the database
    is acquired before the missing header is noticed, although [WithMetaRequired]
    promises to fail "before acquiring other dependencies". *)
Theorem nested_header_late :
  calling CleansUp [] [0; 3]%nat =
    Some (Returned (inl (inl (missing_header "x-user-id"))), [Called 0 true; Cleaned 0]).
Proof. vm_compute. reflexivity. Qed.

(** A cleanup that panics leaves the database open and turns the answer of the
    method into a panic. *)
Theorem cleanup_panic_leaks :
  calling CleanupPanics [] [1]%nat =
    Some (CallPanicked, [Called 0 true; Called 1 true; Handled; Cleaned 1]).
Proof. vm_compute. reflexivity. Qed.
