(* ===== verification/SdkService.v ===== *)
(** * Declaring services: service.go of the SDK

    A service is built by [NewService], options and the [Handle] functions; its
    contract is the object other parts read (SdkSchema's objects).  Declaration
    errors are panics in Go, values here. *)
From S2P Require Import Prelude GoStd Json LocalSock Protocol Outbox Breaker Libs Auth State.
From S2P Require Import Deadline Dedup Contract Objects Balance Management OpenApi Router.
From S2P Require Import GoText SdkNames SdkRuntime SdkServer SdkSchema.
#[local] Open Scope Z_scope.

(** ** Options *)

Record BalancePolicy := MkBalancePolicy { bp_Kind : string; bp_Key : option string }.
Definition RoundRobin : BalancePolicy := MkBalancePolicy "round_robin" None.
Definition LeastInflight : BalancePolicy := MkBalancePolicy "least_inflight" None.
Definition Random : BalancePolicy := MkBalancePolicy "random" None.
Definition NoBalancing : BalancePolicy := MkBalancePolicy "disabled" None.
Definition Sticky (field : string) : BalancePolicy := MkBalancePolicy "sticky" (Some ("request." +:+ field)).

Record methodOptions := MkMethodOptions {
  mo_description : option string;
  mo_idempotent : bool;
  mo_readOnly : bool;
  mo_destructive : bool;
  mo_deprecated : option string;
  mo_balance : option BalancePolicy }.
#[global] Instance methodOptions_eta : Eta methodOptions := fun x =>
  MkMethodOptions (mo_description x) (mo_idempotent x) (mo_readOnly x) (mo_destructive x)
    (mo_deprecated x) (mo_balance x).
Definition noOptions : methodOptions := MkMethodOptions None false false false None None.

(** [MethodOption]: one of the functions below. *)
Inductive MethodOption :=
  | Doc (text : string) | Idempotent | ReadOnly | Destructive
  | Deprecated (replacement : string) | BalanceWith (p : BalancePolicy).
Definition apply_option (o : MethodOption) (m : methodOptions) : methodOptions :=
  match o with
  | Doc text => m {{ mo_description := Some text }}
  | Idempotent => m {{ mo_idempotent := true }}
  | ReadOnly => m {{ mo_readOnly := true }} {{ mo_idempotent := true }}
  | Destructive => m {{ mo_destructive := true }}
  | Deprecated replacement => m {{ mo_deprecated := Some replacement }}
  | BalanceWith p => m {{ mo_balance := Some p }}
  end.

(** ** Services *)

(** [method]; [md_schemas] are the request, response, input and output schemas. *)
Record methodDecl := MkMethodDecl {
  md_name : string;
  md_stream : string;
  md_request : option nat;
  md_response : option nat;
  md_input : option nat;
  md_output : option nat;
  md_parameters : list string;
  md_requestQualname : string;
  md_reflected : bool;
  md_opts : methodOptions;
  md_duplexReason : string;
  md_requestSchema : option Object;
  md_responseSchema : option Object;
  md_inputSchema : option Object;
  md_outputSchema : option Object }.
#[global] Instance methodDecl_eta : Eta methodDecl := fun x =>
  MkMethodDecl (md_name x) (md_stream x) (md_request x) (md_response x) (md_input x) (md_output x)
    (md_parameters x) (md_requestQualname x) (md_reflected x) (md_opts x) (md_duplexReason x)
    (md_requestSchema x) (md_responseSchema x) (md_inputSchema x) (md_outputSchema x).

(** [Service] without the functions of its methods; [byName] is [sd_methods] by name. *)
Record serviceDecl := MkServiceDecl {
  sd_name : string;
  sd_version : string;
  sd_description : option string;
  sd_targeted : bool;
  sd_balance : BalancePolicy;
  sd_module : string;
  sd_methods : list methodDecl;
  sd_methodOpts : gmap string (list MethodOption) }.
#[global] Instance serviceDecl_eta : Eta serviceDecl := fun x =>
  MkServiceDecl (sd_name x) (sd_version x) (sd_description x) (sd_targeted x) (sd_balance x)
    (sd_module x) (sd_methods x) (sd_methodOpts x).

Inductive ServiceOption :=
  | Describe (text : string) | Targeted | DefaultBalance (p : BalancePolicy)
  | SourceModule (module : string) | WithMethodOptions (methodName : string) (opts : list MethodOption).
Definition applyService (o : ServiceOption) (s : serviceDecl) : serviceDecl :=
  match o with
  | Describe text => s {{ sd_description := Some text }}
  | Targeted => s {{ sd_targeted := true }}
  | DefaultBalance p => s {{ sd_balance := p }}
  | SourceModule module => s {{ sd_module := module }}
  | WithMethodOptions name opts =>
      s {{ sd_methodOpts ::= insert name (default [] (sd_methodOpts s !! name) ++ opts) }}
  end.

(** A nil option is skipped. *)
Definition NewService (name : string) (opts : list (option ServiceOption)) : name_error + serviceDecl :=
  match normalizeServiceName name with
  | inl err => inl err
  | inr (full, version) =>
      inr (fold_left (fun s o => match o with Some o => applyService o s | None => s end) opts
             (MkServiceDecl full version None false RoundRobin EmptyString [] ∅))
  end.

(** [^[A-Za-z_][A-Za-z0-9_]*$]. *)
Definition method_name_ok (s : string) : bool :=
  match s with
  | String c s => (is_alpha c || Ascii.eqb c "_") && all_bytes (fun c => is_alnum c || Ascii.eqb c "_") s
  | EmptyString => false
  end.

Inductive add_panic :=
  | InvalidMethodName (name : string)
  | DeclaredTwice (name : string)
  | ReadOnlyAndDestructive (name : string)
  | DuplexReplayed (name : string)
  | NotAStruct (t : nat)
  | NoDuplexReason.

Section Services.
Context `{Types} `{AnyValues}.

(** [structType]; [None]: no fuel. *)
Definition structType (fuel : nat) (t : nat) : option (option nat) :=
  t' ← strip_pointers fuel t;
  Some (if is_kind KStruct t' then Some t' else None).

(** The first of the types that is no struct. *)
Fixpoint first_not_struct (fuel : nat) (types : list (option nat)) : option (option nat) :=
  match types with
  | [] => Some None
  | None :: types => first_not_struct fuel types
  | Some t :: types =>
      match structType fuel t with
      | None => None
      | Some None => Some (Some t)
      | Some (Some _) => first_not_struct fuel types
      end
  end.

(** The schema of a type that may be absent. *)
Definition schema_if (fuel : nat) (t : option nat) : option (option Object) :=
  match t with
  | None => Some None
  | Some t => s ← schemaOf fuel t; Some (Some s)
  end.

Definition with_options (opts : list MethodOption) (m : methodDecl) : methodDecl :=
  m {{ md_opts := fold_left (fun mo o => apply_option o mo) opts (md_opts m) }}.

(** The checks of [add] on names and options. *)
Definition add_refuses (s : serviceDecl) (m : methodDecl) : option add_panic :=
  if negb (method_name_ok (md_name m)) then Some (InvalidMethodName (md_name m))
  else if existsb (fun m' => String.eqb (md_name m') (md_name m)) (sd_methods s)
  then Some (DeclaredTwice (md_name m))
  else if mo_readOnly (md_opts m) && mo_destructive (md_opts m) then Some (ReadOnlyAndDestructive (md_name m))
  else if String.eqb (md_stream m) "duplex" && (mo_idempotent (md_opts m) || mo_readOnly (md_opts m))
  then Some (DuplexReplayed (md_name m))
  else None.

(** The schemas of a method that is not reflected, and the module of its request. *)
Definition with_schemas (fuel : nat) (s : serviceDecl) (m : methodDecl)
    : option (add_panic + (serviceDecl * methodDecl)) :=
  bad ← first_not_struct fuel [md_request m; md_response m; md_input m; md_output m];
  match bad with
  | Some t => Some (inl (NotAStruct t))
  | None =>
      request ← schema_if fuel (md_request m);
      response ← schema_if fuel (md_response m);
      input ← schema_if fuel (md_input m);
      output ← schema_if fuel (md_output m);
      st ← match md_request m with Some t => structType fuel t | None => Some None end;
      let s := match st with
               | Some t => if is_empty (sd_module s) then s {{ sd_module := rt_PkgPath (type_of t) }} else s
               | None => s
               end in
      Some (inr (s, m {{ md_requestSchema := request }} {{ md_responseSchema := response }}
                      {{ md_inputSchema := input }} {{ md_outputSchema := output }}))
  end.

Definition add (fuel : nat) (m : methodDecl) (opts : list MethodOption) (s : serviceDecl)
    : option (add_panic + serviceDecl) :=
  let m := with_options opts m in
  match add_refuses s m with
  | Some p => Some (inl p)
  | None =>
      match (if md_reflected m then Some (inr (s, m)) else with_schemas fuel s m) with
      | None => None
      | Some (inl p) => Some (inl p)
      | Some (inr (s, m)) => Some (inr (s {{ sd_methods ::= fun l => l ++ [m] }}))
      end
  end.

(** A method that is not reflected, before [add]. *)
Definition declare (name stream : string) (request response input output : option nat) (reason : string)
    : methodDecl :=
  MkMethodDecl name stream request response input output [] EmptyString false noOptions reason None None None None.

Definition HandleUnary (fuel : nat) (name : string) (req resp : nat) (opts : list MethodOption) :=
  add fuel (declare name "unary" (Some req) (Some resp) None None EmptyString) opts.
Definition HandleServerStream (fuel : nat) (name : string) (req item : nat) (opts : list MethodOption) :=
  add fuel (declare name "server_stream" (Some req) None None (Some item) EmptyString) opts.
Definition HandleClientStream (fuel : nat) (name : string) (req item resp : nat) (opts : list MethodOption) :=
  add fuel (declare name "client_stream" (Some req) (Some resp) (Some item) None EmptyString) opts.
Definition HandleDuplex (fuel : nat) (name reason : string) (req input output : nat) (opts : list MethodOption)
    (s : serviceDecl) : option (add_panic + serviceDecl) :=
  if blank reason then Some (inl NoDuplexReason)
  else add fuel (declare name "duplex" (Some req) None (Some input) (Some output) (TrimSpace_ reason)) opts s.

(** ** The contract *)

Definition json_opt (s : option string) : json := match s with Some s => JString s | None => JNull end.

Definition typeRef (fuel : nat) (t : option nat) (schema : Object) (module qualnameOverride : string)
    : option Object :=
  named ← match t with
          | None => Some (module, qualnameOverride)
          | Some t =>
              st ← structType fuel t;
              let t' := default t st in
              let name := rt_Name (type_of t') in
              let name := match st with None => or_default name (type_string t) | Some _ => name end in
              Some (or_default (rt_PkgPath (type_of t')) module, or_default qualnameOverride name)
          end;
  Some (newObject [("module"%string, JString named.1); ("qualname"%string, JString named.2);
                   ("schema"%string, JObject schema)]).

(** [ref]: nil, or the reference. *)
Definition ref_json (fuel : nat) (t : option nat) (schema : option Object) (module qualname : string)
    : option json :=
  match t, schema with
  | None, None => Some JNull
  | _, _ => o ← typeRef fuel t (default [] schema) module qualname; Some (JObject o)
  end.

Definition balance_json (p : BalancePolicy) : json :=
  JObject [("kind"%string, JString (bp_Kind p)); ("key"%string, json_opt (bp_Key p))].

(** The parameters: those of the Go method, or the fields of the request. *)
Definition parameters_of (fuel : nat) (m : methodDecl) : option (list string) :=
  if md_reflected m then Some (md_parameters m)
  else match md_request m with
  | None => Some []
  | Some t =>
      st ← structType fuel t;
      match st with
      | None => Some []
      | Some t' =>
          match fieldsOf fuel t' with Some fs => Some (sfd_name <$> (fs : list structField)) | None => None end
      end
  end.

Definition effective_balance (s : serviceDecl) (m : methodDecl) : BalancePolicy :=
  default (sd_balance s) (mo_balance (md_opts m)).

Definition method_entry (fuel : nat) (s : serviceDecl) (m : methodDecl) : option json :=
  params ← parameters_of fuel m;
  request ← ref_json fuel (md_request m) (md_requestSchema m) (sd_module s) (md_requestQualname m);
  response ← ref_json fuel (md_response m) (md_responseSchema m) (sd_module s) EmptyString;
  input ← ref_json fuel (md_input m) (md_inputSchema m) (sd_module s) EmptyString;
  output ← ref_json fuel (md_output m) (md_outputSchema m) (sd_module s) EmptyString;
  Some (JObject (newObject
    [("name"%string, JString (md_name m));
     ("stream"%string, JString (md_stream m));
     ("request"%string, request);
     ("parameters"%string, JArray (JString <$> params));
     ("response"%string, response);
     ("input_item"%string, input);
     ("output_item"%string, output);
     ("balance"%string, balance_json (effective_balance s m));
     ("binding"%string, JString "instance");
     ("description"%string, json_opt (mo_description (md_opts m)));
     ("annotations"%string, JObject (newObject
        [("idempotent"%string, JBool (mo_idempotent (md_opts m)));
         ("read_only"%string, JBool (mo_readOnly (md_opts m)));
         ("destructive"%string, JBool (mo_destructive (md_opts m)))]));
     ("deprecated"%string, json_opt (mo_deprecated (md_opts m)));
     ("duplex_reason"%string,
        if is_empty (md_duplexReason m) then JNull else JString (md_duplexReason m))])).

Definition contract_object (fuel : nat) (s : serviceDecl) : option json :=
  methods ← mapM (method_entry fuel s) (sd_methods s);
  Some (JObject (newObject
    [("name"%string, JString (sd_name s));
     ("version"%string, JString (sd_version s));
     ("source_module"%string, JString (sd_module s));
     ("source_qualname"%string, JString (after_last "." (sd_name s)));
     ("balance"%string, balance_json (sd_balance s));
     ("description"%string, json_opt (sd_description s));
     ("targeted"%string, JBool (sd_targeted s));
     ("methods"%string, JArray methods)])).

(** [Contract]: the text of the entry. *)
Definition ServiceContract (fuel : nat) (s : serviceDecl) : option string := Encode <$> contract_object fuel s.

(** The document of [WriteContract], without its indentation. *)
Definition contract_document (fuel : nat) (services : list serviceDecl) : option json :=
  entries ← mapM (contract_object fuel) services;
  Some (JObject [("protocol"%string, JString "meshcall/1"); ("services"%string, JArray entries)]).

Definition service_registration (fuel : nat) (s : serviceDecl) : option registration :=
  contract ← ServiceContract fuel s;
  Some (Registration (sd_name s)
    ((fun m => let b := effective_balance s m in
               MethodShape (md_name m) (md_stream m) (bp_Kind b, bp_Key b)) <$> sd_methods s)
    (sd_targeted s) (Some contract)).
End Services.

(** ** Requests and answers *)

Definition with_violations (e : Error) (vs : json) : Error :=
  MkError (er_Code e) (er_Message e) (er_Retryable e) (set_detail "violations" vs (er_Details e)).
Definition not_decoded : json :=
  JArray [JObject [("path"%string, JString EmptyString); ("code"%string, JString "type");
                   ("message"%string, JString "Input does not decode")]].

(** [decodeInto]; [decode] is [json.Unmarshal] into the Go type. *)
Definition decodeInto `{Truncation} {A} (decode : string -> option A) (schema : Object) (raw reason message : string)
    : option (Error + A) :=
  let raw := if is_empty raw then "null"%string else raw in
  vs ← validate schema raw;
  let invalid := detailed CodeInvalidArgument message "server" reason false in
  Some (match vs with
        | _ :: _ => inl (with_violations invalid (violationList vs))
        | [] => match decode raw with
                | None => inl (with_violations invalid not_decoded)
                | Some v => inr v
                end
        end).

(** [encodeOutput] of a value that [json.Marshal] writes as [raw] ([None]: it fails). *)
Definition encodeOutput `{Truncation} (schema : Object) (raw : option string) (reason : string)
    : option (Error + string) :=
  let bug := detailed CodeInternal "Internal service error" "server" reason false in
  match raw with
  | None => Some (inl bug)
  | Some raw =>
      vs ← validate schema raw;
      Some (match vs with [] => inr raw | _ :: _ => inl bug end)
  end.

(** ** Handlers

    What a handler or an interceptor does to the program is the state [W]. *)

Section Handlers.
Context `{Truncation} {W A : Type}.

Definition ServerCallNext : Type := W -> (handlerError + A) * W.

(** [chain]: the first interceptor is the outermost. *)
Definition chain {Req} (interceptors : list (Req -> ServerCallNext -> ServerCallNext)) (request : Req)
    (handler : ServerCallNext) : ServerCallNext :=
  fold_right (fun interceptor next => interceptor request next) handler interceptors.

(** The [invoke] that the [Handle] functions put into a method; [None]: a panic in [validate]. *)
Definition invoke_method {Req} (decode : string -> option Req) (schema : Object)
    (interceptors : list (Req -> ServerCallNext -> ServerCallNext)) (handler : Req -> ServerCallNext)
    (raw : string) (w : W) : option ((handlerError + A) * W) :=
  req ← decodeInto decode schema raw "request" "Invalid request";
  Some (match req with
        | inl e => (inl (MeshError e), w)
        | inr req => chain interceptors req (handler req) w
        end).

End Handlers.

(** What [Recv] returns: [EndOfInput] is io.EOF. *)
Inductive received (Item : Type) :=
  | EndOfInput | Failed (err : handlerError) | Received (item : Item).
Arguments EndOfInput {Item}.
Arguments Failed {Item}.
Arguments Received {Item}.

Section Input.
Context `{Truncation} {Item : Type} (decode : string -> option Item) (schema : Object).

(** [Recv] after what [nextInput] answered. *)
Definition Recv (next : received string) : option (received Item) :=
  match next with
  | EndOfInput => Some EndOfInput
  | Failed err => Some (Failed err)
  | Received raw =>
      item ← decodeInto decode schema raw "input_item" "Invalid input stream item";
      Some (match item with inl e => Failed (MeshError e) | inr item => Received item end)
  end.

(** [All]: what is yielded while [yield] answers true, of the answers of [nextInput]. *)
Fixpoint All (yield : received Item -> bool) (nexts : list (received string)) : option (list (received Item)) :=
  match nexts with
  | [] => Some []
  | next :: nexts =>
      item ← Recv next;
      match item with
      | EndOfInput => Some []
      | Failed _ => Some [item]
      | Received _ =>
          if yield item then items ← All yield nexts; Some (item :: items) else Some [item]
      end
  end.
End Input.
