(* ===== verification/SdkContract.v ===== *)
(** * Contracts of declared services

    What [WriteContract] writes for services that were built with [NewService] and
    the [Handle] functions, the contract parser reads; and the Router accepts the
    registration the SDK derives from the same service.  This file joins service.go
    of the SDK with internal/contract and with the Router's registration. *)
From S2P Require Import Prelude GoStd Json LocalSock Protocol Outbox Breaker Libs Auth State.
From S2P Require Import Deadline Dedup Contract Objects Balance Management OpenApi Router.
From S2P Require Import GoText Printing SdkNames SdkRuntime SdkSchema SdkEncoding SdkService.
#[local] Open Scope Z_scope.

(** ** Definitions *)

Section Built.
Context `{Types} `{AnyValues}.

(** The services a program can declare; a duplex reason is a Go string of UTF-8. *)
Inductive built (fuel : nat) : serviceDecl -> Prop :=
  | built_new name opts s : NewService name opts = inr s -> built fuel s
  | built_unary name req resp opts s s' : built fuel s ->
      HandleUnary fuel name req resp opts s = Some (inr s') -> built fuel s'
  | built_server_stream name req item opts s s' : built fuel s ->
      HandleServerStream fuel name req item opts s = Some (inr s') -> built fuel s'
  | built_client_stream name req item resp opts s s' : built fuel s ->
      HandleClientStream fuel name req item resp opts s = Some (inr s') -> built fuel s'
  | built_duplex name reason req input output opts s s' : built fuel s -> well_formed reason ->
      HandleDuplex fuel name reason req input output opts s = Some (inr s') -> built fuel s'.

(** Whether the types of a method have names. *)
Definition named_type (fuel : nat) (t : nat) : bool :=
  match structType fuel t with
  | Some (Some t') => negb (is_empty (rt_Name (type_of t')))
  | _ => false
  end.
Definition named_if (fuel : nat) (t : option nat) : bool :=
  match t with Some t => named_type fuel t | None => true end.
Definition named_method (fuel : nat) (m : methodDecl) : bool :=
  named_if fuel (md_request m) && named_if fuel (md_response m)
  && named_if fuel (md_input m) && named_if fuel (md_output m).
Definition named (fuel : nat) (s : serviceDecl) : bool := forallb (named_method fuel) (sd_methods s).

Definition read_balance (p : BalancePolicy) : Balance :=
  MkBalance (or_default (bp_Kind p) "round_robin") (bp_Key p).

(** A method and a service as the parser reads them. *)
Record reads_method (fuel : nat) (s : serviceDecl) (m : methodDecl) (r : Method) : Prop := {
  rm_name : mt_Name r = md_name m;
  rm_stream : mt_Stream r = md_stream m;
  rm_parameters : parameters_of fuel m = Some (mt_Parameters r);
  rm_request : md_requestSchema m = Some (tr_Schema (mt_Request r));
  rm_response : md_responseSchema m = tr_Schema <$> mt_Response r;
  rm_input : md_inputSchema m = tr_Schema <$> mt_InputItem r;
  rm_output : md_outputSchema m = tr_Schema <$> mt_OutputItem r;
  rm_balance : mt_Balance r = read_balance (effective_balance s m);
  rm_description : mt_Description r = mo_description (md_opts m);
  rm_annotations : mt_Annotations r =
    MkAnnotations (mo_idempotent (md_opts m)) (mo_readOnly (md_opts m)) (mo_destructive (md_opts m));
  rm_deprecated : mt_Deprecated r = mo_deprecated (md_opts m);
  rm_reason : default EmptyString (mt_DuplexReason r) = md_duplexReason m }.
Record reads_service (fuel : nat) (s : serviceDecl) (r : Service) : Prop := {
  rs_name : sv_Name r = sd_name s;
  rs_version : sv_Version r = sd_version s;
  rs_module : sv_SourceModule r = sd_module s;
  rs_balance : sv_Balance r = read_balance (sd_balance s);
  rs_description : sv_Description r = sd_description s;
  rs_targeted : sv_Targeted r = sd_targeted s;
  rs_methods : Forall2 (reads_method fuel s) (sd_methods s) (sv_Methods r) }.

(** The registration as the Router decodes it from the hello frame. *)
Definition registered (r : registration) : Protocol.service :=
  Protocol.Service (rg_name r)
    (Some ((fun m => Protocol.Method (ms_name m) (ms_stream m)
                       (Protocol.Balance (ms_balance m).1 (ms_balance m).2)) <$> rg_methods r))
    (rg_targeted r) (rg_contract r).
(** A policy made of the package's constants and of [Sticky]. *)
Definition offered (p : BalancePolicy) : Prop :=
  p = RoundRobin \/ p = LeastInflight \/ p = Random \/ p = NoBalancing \/
  exists field, is_empty field = false /\ HasSuffix field "." = false /\ p = Sticky field.

(** ** What [add] leaves *)

(** The shape of a method that a [Handle] function adds. *)
Inductive shape : string -> option nat -> option nat -> option nat -> option nat -> string -> Prop :=
  | unary_shape req resp : shape "unary" (Some req) (Some resp) None None EmptyString
  | server_stream_shape req out : shape "server_stream" (Some req) None None (Some out) EmptyString
  | client_stream_shape req resp inp : shape "client_stream" (Some req) (Some resp) (Some inp) None EmptyString
  | duplex_shape req inp out reason : blank reason = false ->
      shape "duplex" (Some req) None (Some inp) (Some out) reason.
(** A type of a method with its schema. *)
Inductive typed (fuel : nat) : option nat -> option Object -> Prop :=
  | no_type : typed fuel None None
  | typed_struct t t' s : structType fuel t = Some (Some t') -> typed fuel (Some t) (Some s).

Record method_ok (fuel : nat) (m : methodDecl) : Prop := {
  mk_reflected : md_reflected m = false;
  mk_qualname : md_requestQualname m = EmptyString;
  mk_name : method_name_ok (md_name m) = true;
  mk_shape : shape (md_stream m) (md_request m) (md_response m) (md_input m) (md_output m) (md_duplexReason m);
  mk_duplex : md_stream m = "duplex"%string ->
    mo_idempotent (md_opts m) = false /\ mo_readOnly (md_opts m) = false;
  mk_request : typed fuel (md_request m) (md_requestSchema m);
  mk_response : typed fuel (md_response m) (md_responseSchema m);
  mk_input : typed fuel (md_input m) (md_inputSchema m);
  mk_output : typed fuel (md_output m) (md_outputSchema m) }.
Record service_ok (fuel : nat) (s : serviceDecl) : Prop := {
  sk_name : exists name, normalizeServiceName name = inr (sd_name s, sd_version s);
  sk_methods : Forall (method_ok fuel) (sd_methods s);
  sk_distinct : NoDup (md_name <$> sd_methods s) }.

Lemma first_not_struct_typed fuel l t s :
  first_not_struct fuel l = Some None -> t ∈ l -> schema_if fuel t = Some s -> typed fuel t s.
Proof.
  induction l as [|[t0|] l IH]; [by intros _ ?%not_elem_of_nil| |]; cbn.
  - destruct (structType fuel t0) as [[t'|]|] eqn:E; [|done..].
    intros Hl [->|Ht]%elem_of_cons; [|by auto]. cbn.
    destruct (schemaOf fuel t0); [|done]. cbn. intros [= <-]. by econstructor.
  - intros Hl [->|Ht]%elem_of_cons; [|by auto]. cbn. intros [= <-]. constructor.
Qed.

Lemma add_built fuel m opts s s' :
  add fuel m opts s = Some (inr s') -> md_reflected m = false -> md_requestQualname m = EmptyString ->
  shape (md_stream m) (md_request m) (md_response m) (md_input m) (md_output m) (md_duplexReason m) ->
  service_ok fuel s -> service_ok fuel s'.
Proof.
  unfold add. set (m' := with_options opts m). unfold add_refuses.
  intros Hadd Hr Hq Hsh [Hname Hms Hnd].
  destruct (method_name_ok (md_name m')) eqn:Hok; [|done]. cbn [negb] in Hadd.
  destruct (existsb _ _) eqn:Hfresh; [done|].
  destruct (mo_readOnly (md_opts m') && mo_destructive (md_opts m')); [done|].
  destruct (String.eqb (md_stream m') "duplex" && _) eqn:Hd; [done|].
  change (md_reflected m') with (md_reflected m) in Hadd. rewrite Hr in Hadd.
  unfold with_schemas in Hadd.
  destruct (first_not_struct fuel _) as [[|]|] eqn:Hst; [done| |done]. cbn [mbind option_bind] in Hadd.
  destruct (schema_if fuel (md_request m')) as [s1|] eqn:H1; [|done].
  destruct (schema_if fuel (md_response m')) as [s2|] eqn:H2; [|done].
  destruct (schema_if fuel (md_input m')) as [s3|] eqn:H3; [|done].
  destruct (schema_if fuel (md_output m')) as [s4|] eqn:H4; [|done]. cbn [mbind option_bind] in Hadd.
  destruct (match md_request m' with Some _ => _ | None => _ end) as [st|]; [|done]. cbn in Hadd.
  assert (exists s0, s' = s0 /\ sd_name s0 = sd_name s /\ sd_version s0 = sd_version s /\
    sd_methods s0 = sd_methods s ++ [m' {{ md_requestSchema := s1 }} {{ md_responseSchema := s2 }}
                      {{ md_inputSchema := s3 }} {{ md_outputSchema := s4 }}]) as (s0 & -> & Hn & Hv & Hm).
  { eexists. split; [reflexivity|]. injection Hadd as <-. by destruct st as [t|]; [destruct (is_empty _)|]. }
  split.
  - destruct Hname as [name Hname]. exists name. by rewrite Hn, Hv.
  - rewrite Hm. apply Forall_app. split; [done|]. constructor; [|done].
    split; try done; cbn.
    + intros E. apply andb_false_iff in Hd as [Hd|Hd]; [by apply String.eqb_neq in Hd|].
      by apply orb_false_iff in Hd.
    + eapply first_not_struct_typed; [done| |done]. left.
    + eapply first_not_struct_typed; [done| |done]. right. left.
    + eapply first_not_struct_typed; [done| |done]. right. right. left.
    + eapply first_not_struct_typed; [done| |done]. right. right. right. left.
  - rewrite Hm, fmap_app. apply NoDup_app. split; [done|]. split; [|apply NoDup_singleton].
    cbn. intros x Hx ->%list_elem_of_singleton. apply list_elem_of_fmap in Hx as (m0 & Hx & Hm0).
    assert (existsb (fun m0 => String.eqb (md_name m0) (md_name m')) (sd_methods s) = true) as E; [|congruence].
    apply existsb_exists. exists m0. split; [by apply list_elem_of_In|]. apply String.eqb_eq. by rewrite <- Hx.
Qed.
End Built.

(** ** Texts *)

(** A rune with its bytes. *)
Definition rune_pair (r : Z) : Z * string := (r, encode_rune r).

Lemma rev_fmap {A B} (f : A -> B) l : f <$> rev l = rev (f <$> l).
Proof. induction l as [|x l IH]; [done|]. cbn. by rewrite fmap_app, IH. Qed.

Lemma elem_of_rev {A} (x : A) l : x ∈ rev l <-> x ∈ l.
Proof. rewrite !list_elem_of_In. symmetry. apply in_rev. Qed.

Lemma trim_keeps rs : exists rs', trim_runes (rune_pair <$> rs) = rune_pair <$> rs' /\ rs' ⊆ rs /\
  (forall r, r ∈ rs -> IsSpace r = false -> r ∈ rs').
Proof.
  induction rs as [|r rs (rs' & Ht & Hsub & Hkeep)]; cbn.
  - exists []. split; [done|]. split; [done|]. auto.
  - destruct (IsSpace r) eqn:E.
    + exists rs'. split; [done|]. split; [set_solver|].
      intros x [->|Hx]%elem_of_cons Hs; [congruence|auto].
    + exists (r :: rs). auto.
Qed.

(** A text that is not blank is not blank when trimmed. *)
Lemma TrimSpace_not_blank s : well_formed s -> blank s = false -> blank (TrimSpace_ s) = false.
Proof.
  intros (rs & Hrs & ->) Hb. unfold blank in Hb. rewrite runes_text in Hb by done.
  assert (exists r, r ∈ rs /\ IsSpace r = false) as (r & Hr & Hsp).
  { clear Hrs. induction rs as [|r rs IH]; [done|]. cbn in Hb.
    destruct (IsSpace r) eqn:E; [|exists r; split; [left|done]].
    destruct (IH Hb) as (r' & Hr' & ?). exists r'. split; [by right|done]. }
  unfold TrimSpace_. rewrite runes_text by done. fold rune_pair.
  destruct (trim_keeps rs) as (l1 & -> & Hsub1 & Hk1). rewrite <- rev_fmap.
  destruct (trim_keeps (rev l1)) as (l2 & -> & Hsub2 & Hk2). rewrite <- rev_fmap.
  replace (concat_text (rune_pair <$> rev l2).*2) with (text_of (rev l2)).
  2: { clear. induction (rev l2) as [|x l IH]; [done|].
    change (encode_rune x +:+ text_of l = encode_rune x +:+ concat_text (rune_pair <$> l).*2). by rewrite IH. }
  assert (rev l2 ⊆ rs) as Hsub.
  { intros x Hx. rewrite elem_of_rev in Hx. apply Hsub1. rewrite <- (elem_of_rev x l1). auto. }
  unfold blank. rewrite runes_text.
  2: { rewrite Forall_forall in *. auto. }
  apply not_true_iff_false. rewrite forallb_forall. intros Hall.
  assert (r ∈ rev l2) as Hin. { rewrite elem_of_rev. apply Hk2; [|done]. rewrite elem_of_rev. auto. }
  specialize (Hall (rune_pair r)). cbn in Hall. rewrite Hall in Hsp; [done|].
  apply list_elem_of_In, list_elem_of_fmap. eauto.
Qed.

(** The bytes behind the last separator are a segment of [Split]. *)
Lemma last_segment c s : exists k,
  (forall i last, LastIndexByte_from i last s c = if ContainsByte s c then i + Z.of_nat k else last) /\
  (if ContainsByte s c then drop_bytes (S k) s ∈ tail (Split c s) else Split c s = [s]).
Proof.
  induction s as [|d s (k & Hk & Hs)]; [by exists 0%nat|]. cbn [LastIndexByte_from ContainsByte Split].
  rewrite (Ascii.eqb_sym d c). destruct (ContainsByte s c).
  - exists (S k). rewrite orb_true_r. split; [intros i last; rewrite Hk; lia|].
    change (drop_bytes (S (S k)) (String d s)) with (drop_bytes (S k) s).
    destruct (Split c s) as [|w ws]; [by apply not_elem_of_nil in Hs|].
    destruct (Ascii.eqb c d); [right|]; exact Hs.
  - exists 0%nat. rewrite orb_false_r. rewrite Hs. split.
    + intros i last. rewrite Hk. destruct (Ascii.eqb c d); lia.
    + destruct (Ascii.eqb c d); [|done]. left.
Qed.
Lemma after_last_segment c s : after_last c s ∈ Split c s.
Proof.
  destruct (last_segment c s) as (k & Hk & Hs). unfold after_last, LastIndexByte. rewrite Hk.
  destruct (ContainsByte s c).
  - replace (Z.to_nat (0 + Z.of_nat k + 1)) with (S k) by lia. destruct (Split c s); [done|by right].
  - rewrite Hs. destruct s; left.
Qed.

(** No segment of a name is empty. *)
Lemma segments_nonempty l : forall v names c, count_segments l v names = Some c -> EmptyString ∉ l.
Proof.
  induction l as [[|s rest] IH] using segments_ind; intros v names c; [intros _ ?%not_elem_of_nil; done|].
  rewrite count_cons.
  assert (forall k w n, (length k < length (s :: rest))%nat -> count_segments k w n = Some c -> EmptyString ∉ k) as Hk.
  { intros k w n Hlt Hc. by eapply IH. }
  intros H. rewrite not_elem_of_cons. destruct (majorSegment s) eqn:Hm.
  - split; [by intros <-|]. destruct rest as [|minor [|patch rest]]; try (eapply Hk; [|exact H]; simpl; lia).
    destruct (numericSegment minor && patchSegment patch) eqn:E; [|eapply Hk; [|exact H]; simpl; lia].
    apply andb_true_iff in E as [Hmi Hpa]. rewrite !not_elem_of_cons.
    split; [by intros <-|]. split; [by intros <-|]. eapply Hk; [|exact H]. simpl. lia.
  - destruct (nameSegment s) eqn:Hn; [|done]. split; [by intros <-|]. eapply Hk; [|exact H]. simpl. lia.
Qed.

(** The qualified name of a declared service, and its version. *)
Lemma declared_name name full version : normalizeServiceName name = inr (full, version) ->
  is_empty full = false /\ is_empty (after_last "." full) = false /\ is_empty version = false.
Proof.
  intros H. pose proof H as (names & _ & Hc)%normalized_counts. apply segments_nonempty in Hc.
  pose proof (after_last_segment "." full) as Hin.
  split_and!.
  - destruct full; [|done]. exfalso. apply Hc. left.
  - destruct (after_last "." full); [|done]. by contradict Hc.
  - revert H. unfold normalizeServiceName.
    destruct (normalize_segments _ _ _ _ _) as [|[[norm v] n]]; [done|]. destruct (n =? 0); [done|].
    destruct (is_empty v) eqn:E; intros [= <- <-]; [done|exact E].
Qed.

(** ** Reading the contract back *)

Section Contracts.
Context `{Types} `{AnyValues}.

Lemma built_ok fuel s : built fuel s -> service_ok fuel s.
Proof.
  induction 1 as [name opts s Hs|name req resp opts s s' _ IH Hs|name req item opts s s' _ IH Hs
    |name req item resp opts s s' _ IH Hs|name reason req input output opts s s' _ IH Hw Hs].
  - unfold NewService in Hs. destruct (normalizeServiceName name) as [|[full version]] eqn:E; [done|].
    injection Hs as <-.
    assert (forall l s0, sd_methods s0 = [] -> sd_name s0 = full -> sd_version s0 = version ->
      service_ok fuel (fold_left (fun s o => match o with Some o => applyService o s | None => s end) l s0)) as Hl.
    { intros l. induction l as [|o l IH]; intros s0 Hm <- <-.
      - cbn [fold_left]. split; [by exists name|rewrite Hm; constructor..].
      - apply IH; destruct o as [[]|]; done. }
    by apply Hl.
  - eapply add_built; [exact Hs|done|done|constructor|done].
  - eapply add_built; [exact Hs|done|done|constructor|done].
  - eapply add_built; [exact Hs|done|done|constructor|done].
  - unfold HandleDuplex in Hs. destruct (blank reason) eqn:Hb; [done|].
    eapply add_built; [exact Hs|done|done|constructor; by apply TrimSpace_not_blank|done].
Qed.

Lemma ref_reads fuel t schema module j : typed fuel t schema ->
  ref_json fuel t schema module EmptyString = Some j ->
  exists r, parseTypeRef (as_object (Some j)) = (if named_if fuel t then Some r else None) /\
    schema = tr_Schema <$> r /\ (is_Some r <-> is_Some t).
Proof.
  intros [|t0 t' s Hst]; cbn.
  - intros [= <-]. exists None. split_and!; try done; by intros [].
  - unfold typeRef. rewrite Hst. cbn. intros [= <-]. unfold named_type. rewrite Hst.
    exists (Some (MkTypeRef (or_default (rt_PkgPath (type_of t')) module) (rt_Name (type_of t')) s)).
    split_and!; [|done|by split; eauto]. unfold parseTypeRef. cbn. by destruct (rt_Name (type_of t')).
Qed.

Lemma omap_strings (l : list string) : omap (fun v => as_string (Some v)) (JString <$> l) = l.
Proof. induction l as [|x l IH]; [done|]. exact (f_equal (cons x) IH). Qed.

Lemma reads_annotations (a b c : bool) :
  parseAnnotations (as_object (Some (JObject (newObject
    [("idempotent"%string, JBool a); ("read_only"%string, JBool b); ("destructive"%string, JBool c)]))))
  = MkAnnotations a b c.
Proof. done. Qed.
Lemma reads_balance p : parseBalance (as_object (Some (balance_json p))) = read_balance p.
Proof. by destruct p as [k [key|]]. Qed.
Lemma reads_opt s : as_string (Some (json_opt s)) = s.
Proof. by destruct s. Qed.

Lemma shape_checks m (shown := fun o : option TypeRef => (fun _ => 0%nat) <$> o) :
  shape (mt_Stream m) (Some 0%nat) (shown (mt_Response m)) (shown (mt_InputItem m)) (shown (mt_OutputItem m))
    (default EmptyString (mt_DuplexReason m)) ->
  (mt_DuplexReason m = Some EmptyString -> False) ->
  (mt_Stream m = "duplex"%string -> an_Idempotent (mt_Annotations m) = false /\ an_ReadOnly (mt_Annotations m) = false) ->
  checkDuplex m = None.
Proof.
  destruct m as [name stream req params resp inp out bal bind desc ann dep reason raw]. unfold shown. cbn.
  intros Hsh Hr Hd. unfold checkDuplex. cbn.
  destruct resp, inp, out; inversion Hsh; subst; cbn; try (destruct reason as [[]|]; done).
  destruct Hd as [-> ->]; [done|]. destruct reason as [reason|]; [|done].
  rename select (blank _ = false) into Hb. change (blank reason = false) in Hb. by rewrite Hb.
Qed.

Lemma stream_known fuel m : method_ok fuel m -> Contains stream_kinds (md_stream m) = true.
Proof. intros [_ _ _ Hs _ _ _ _ _]. by destruct Hs. Qed.

Lemma method_reads fuel s m j : method_ok fuel m -> method_entry fuel s m = Some j ->
  exists o, j = JObject o /\
    if named_method fuel m then exists r, parseMethod o = inr r /\ reads_method fuel s m r
    else exists e, parseMethod o = inl e.
Proof.
  intros Hm. pose proof (stream_known fuel m Hm) as Hst. destruct Hm as [Hrefl Hq Hname Hsh Hdup H1 H2 H3 H4].
  unfold method_entry. rewrite Hq. destruct (parameters_of fuel m) as [params|] eqn:Hparams; [|done].
  destruct (ref_json fuel (md_request m) _ _ _) as [j1|] eqn:E1; [|done].
  destruct (ref_json fuel (md_response m) _ _ _) as [j2|] eqn:E2; [|done].
  destruct (ref_json fuel (md_input m) _ _ _) as [j3|] eqn:E3; [|done].
  destruct (ref_json fuel (md_output m) _ _ _) as [j4|] eqn:E4; [|done].
  destruct (ref_reads _ _ _ _ _ H1 E1) as (r1 & P1 & S1 & I1).
  destruct (ref_reads _ _ _ _ _ H2 E2) as (r2 & P2 & S2 & I2).
  destruct (ref_reads _ _ _ _ _ H3 E3) as (r3 & P3 & S3 & I3).
  destruct (ref_reads _ _ _ _ _ H4 E4) as (r4 & P4 & S4 & I4).
  intros Hj. injection Hj as <-. eexists. split; [reflexivity|].
  set (o := newObject _). unfold parseMethod.
  change (Str o "name") with (md_name m). change (Str o "stream") with (md_stream m).
  change (Obj o "request") with (as_object (Some j1)). change (Obj o "response") with (as_object (Some j2)).
  change (Obj o "input_item") with (as_object (Some j3)). change (Obj o "output_item") with (as_object (Some j4)).
  rewrite P1, P2, P3, P4, Hst. cbn [negb]. unfold named_method.
  destruct (is_empty (md_name m)) eqn:He; [by destruct (md_name m)|].
  assert (is_Some r1) as [q ->]. { apply I1. by destruct Hsh. }
  destruct (named_if fuel (md_request m)); cbn [andb]; [|by eauto].
  destruct (named_if fuel (md_response m)); cbn [andb]; [|by eauto].
  destruct (named_if fuel (md_input m)); cbn [andb]; [|by eauto].
  destruct (named_if fuel (md_output m)); [|by eauto].
  set (r := MkMethod _ _ _ _ _ _ _ _ _ _ _ _ _ _).
  assert (mt_Annotations r = MkAnnotations (mo_idempotent (md_opts m)) (mo_readOnly (md_opts m))
            (mo_destructive (md_opts m))) as Hann by done.
  assert (mt_DuplexReason r = if is_empty (md_duplexReason m) then None else Some (md_duplexReason m)) as Hreason.
  { unfold r. cbn [mt_DuplexReason]. unfold optionalString.
    change (Get o "duplex_reason") with (Some (if is_empty (md_duplexReason m) then JNull else JString (md_duplexReason m))).
    by destruct (md_duplexReason m). }
  assert (default EmptyString (mt_DuplexReason r) = md_duplexReason m) as Hdefault.
  { rewrite Hreason. by destruct (md_duplexReason m). }
  rewrite (shape_checks r).
  - exists r. split; [done|]. split; try done.
    + unfold r. cbn [mt_Parameters]. unfold Strings.
      change (as_array (Get o "parameters")) with (Some (JString <$> params)). rewrite Hparams.
      f_equal. symmetry. exact (omap_strings params).
    + unfold r. cbn [mt_Balance]. apply reads_balance.
    + unfold r. cbn [mt_Description]. apply reads_opt.
    + unfold r. cbn [mt_Deprecated]. apply reads_opt.
  - rewrite Hdefault. unfold r. cbn [mt_Stream mt_Response mt_InputItem mt_OutputItem].
    clear -Hsh I2 I3 I4. destruct Hsh; destruct r2, r3, r4; try (constructor; done);
      exfalso; repeat match goal with
        | H : is_Some (Some _) <-> is_Some None |- _ => destruct H as [H _]; by destruct H
        | H : is_Some None <-> is_Some (Some _) |- _ => destruct H as [_ H]; by destruct H
        end.
  - rewrite Hreason. by destruct (md_duplexReason m).
  - intros E. rewrite Hann. by apply Hdup.
Qed.

Lemma methods_read fuel s ms entries : Forall (method_ok fuel) ms -> mapM (method_entry fuel s) ms = Some entries ->
  if forallb (named_method fuel) ms
  then exists l, parse_methods (sd_name s) entries = inr l /\ Forall2 (reads_method fuel s) ms l
  else exists e, parse_methods (sd_name s) entries = inl e.
Proof.
  intros Hms. revert entries. induction Hms as [|m ms Hm _ IH]; intros entries.
  { intros [= <-]. by exists []. }
  cbn [mapM]. destruct (method_entry fuel s m) as [j|] eqn:Ej; [|done]. cbn [mbind option_bind].
  destruct (mapM _ ms) as [js|]; [|done]. intros [= <-]. specialize (IH js eq_refl).
  destruct (method_reads _ _ _ _ Hm Ej) as (o & -> & Ho). cbn [forallb parse_methods].
  destruct (named_method fuel m); cbn [andb].
  - destruct Ho as (r & -> & Hr). destruct (forallb _ ms).
    + destruct IH as (l & -> & Hl). eauto.
    + destruct IH as (e & ->). eauto.
  - destruct Ho as (e & ->). eauto.
Qed.

Lemma service_reads fuel s j : service_ok fuel s -> contract_object fuel s = Some j ->
  exists o, j = JObject o /\
    if named fuel s then exists r, parseService o = inr r /\ reads_service fuel s r
    else exists e, parseService o = inl e.
Proof.
  intros [[name Hname] Hms _]. unfold contract_object.
  destruct (mapM _ _) as [entries|] eqn:E; [|done]. intros Hj. injection Hj as <-.
  eexists. split; [reflexivity|]. set (o := newObject _). unfold parseService.
  change (Str o "name") with (sd_name s). change (Str o "source_qualname") with (after_last "." (sd_name s)).
  change (as_array (Get o "methods")) with (Some entries). change (Str o "version") with (sd_version s).
  change (default [] (Some entries)) with entries.
  destruct (declared_name _ _ _ Hname) as (-> & -> & Hv). cbn [orb].
  pose proof (methods_read _ _ _ _ Hms E) as Hread. unfold named.
  destruct (forallb _ _); [destruct Hread as (l & -> & Hl)|destruct Hread as (e & ->); by eauto].
  eexists. split; [reflexivity|]. split; try done; cbn.
  - unfold or_default. by rewrite Hv.
  - apply reads_balance.
  - apply reads_opt.
Qed.

Lemma services_read fuel ss entries : Forall (built fuel) ss -> mapM (contract_object fuel) ss = Some entries ->
  forall i, if forallb (named fuel) ss
  then exists l, parse_services i entries = inr l /\ Forall2 (reads_service fuel) ss l
  else exists e, parse_services i entries = inl e.
Proof.
  intros Hss. revert entries. induction Hss as [|s ss Hs _ IH]; intros entries.
  { intros [= <-] i. by exists []. }
  cbn [mapM]. destruct (contract_object fuel s) as [j|] eqn:Ej; [|done]. cbn [mbind option_bind].
  destruct (mapM _ ss) as [js|]; [|done]. intros [= <-] i. specialize (IH js eq_refl (S i)).
  destruct (service_reads _ _ _ (built_ok _ _ Hs) Ej) as (o & -> & Ho). cbn [forallb parse_services].
  destruct (named fuel s); cbn [andb].
  - destruct Ho as (r & -> & Hr). destruct (forallb _ ss).
    + destruct IH as (l & -> & Hl). eauto.
    + destruct IH as (e & ->). eauto.
  - destruct Ho as (e & ->). eauto.
Qed.

(** C26: the contract that [WriteContract] writes for declared services is what the
    contract parser reads: if the structs of the methods have names, every service
    and every method with its schemas, parameters, balance and annotations comes back;
    if a method uses an unnamed struct, no parser accepts the document.  The text may
    be indented or not. *)
Theorem contract_parses fuel services document depth data :
  Forall (built fuel) services -> contract_document fuel services = Some document ->
  printable depth document -> writes depth document data ->
  if forallb (named fuel) services
  then exists doc, Parse data = inr doc /\ dc_Protocol doc = "meshcall/1"%string /\
         Forall2 (reads_service fuel) services (dc_Services doc)
  else exists err, Parse data = inl err.
Proof.
  intros Hss Hdoc Hp Hw. unfold Parse. rewrite (DecodeOrdered_writes depth document data Hp Hw).
  unfold contract_document in Hdoc. destruct (mapM _ _) as [entries|] eqn:E; [|done].
  injection Hdoc as <-. pose proof (services_read _ _ _ Hss E 0) as Hr.
  change (default [] (as_array (Get [("protocol"%string, JString "meshcall/1");
    ("services"%string, JArray entries)] "services"))) with entries.
  destruct (forallb _ _).
  - destruct Hr as (l & -> & Hl). eexists. split; [reflexivity|]. done.
  - destruct Hr as (e & ->). eauto.
Qed.

(** ** The Router's registration *)

Lemma drop_bytes_more p s n : drop_bytes (String.length p + n) (p +:+ s) = drop_bytes n s.
Proof. induction p; simpl; auto. Qed.

Lemma offered_ok p : offered p -> balance_kind_ok (bp_Kind p) = true /\
  sticky_ok (Protocol.Balance (bp_Kind p) (bp_Key p)) = true.
Proof.
  intros [->|[->|[->|[->|(field & Hne & Hdot & ->)]]]]; try done.
  split; [done|]. unfold sticky_ok. cbn [b_kind b_key bp_Kind bp_Key Sticky].
  apply orb_true_iff. right. apply andb_true_iff. split; [apply HasPrefix_app|].
  destruct field as [|c field]; [done|]. unfold HasSuffix in *. rewrite length_append.
  set (n := String.length "request.") in *. set (k := String.length (String c field)) in *.
  assert (1 <= k)%nat by (cbn; lia). change (String.length ".") with 1%nat in *.
  replace (n + k - 1)%nat with (n + (k - 1))%nat by lia.
  pose proof (drop_bytes_more "request." (String c field) (k - 1)) as Hd. fold n in Hd. rewrite Hd.
  rewrite (proj2 (Nat.leb_le 1 k)) in Hdot by lia. cbn [andb] in Hdot. by rewrite Hdot, andb_false_r.
Qed.

Definition policies_offered (s : serviceDecl) : Prop :=
  offered (sd_balance s) /\
  forall m p, m ∈ sd_methods s -> mo_balance (md_opts m) = Some p -> offered p.

Definition router_methods (s : serviceDecl) : list Protocol.method :=
  (fun m => let b := effective_balance s m in
            Protocol.Method (md_name m) (md_stream m) (Protocol.Balance (bp_Kind b) (bp_Key b))) <$> sd_methods s.

Lemma checked_methods fuel s : service_ok fuel s -> policies_offered s ->
  check_methods [] (router_methods s) = None.
Proof.
  intros [_ Hms Hnd] [Hdef Hpol]. unfold router_methods.
  assert (forall seen, (forall m, m ∈ sd_methods s -> md_name m ∉ seen) -> check_methods seen ((fun m =>
    let b := effective_balance s m in
    Protocol.Method (md_name m) (md_stream m) (Protocol.Balance (bp_Kind b) (bp_Key b))) <$> sd_methods s) = None)
    as Hall; [|apply Hall; intros ? _ ?%not_elem_of_nil; done].
  revert Hms Hnd Hpol. generalize (sd_methods s) as ms. induction ms as [|m ms IH]; [done|].
  intros [Hm Hms]%Forall_cons [Hn Hnd]%NoDup_cons Hpol seen Hseen.
  cbn [fmap list_fmap check_methods m_name m_stream m_balance b_kind].
  assert (offered (effective_balance s m)) as [-> ->]%offered_ok.
  { unfold effective_balance. destruct (mo_balance (md_opts m)) as [p|] eqn:E; [|done]. eapply Hpol; [left|done]. }
  change (stream_kind_ok (md_stream m)) with (Contains stream_kinds (md_stream m)).
  rewrite (stream_known _ _ Hm). destruct (is_empty (md_name m)) eqn:He.
  { pose proof (mk_name _ _ Hm) as Hok. by destruct (md_name m). }
  destruct (Contains seen (md_name m)) eqn:Hc.
  { exfalso. apply (Hseen m); [left|]. by apply Contains_spec. }
  cbn [orb negb]. apply IH; [done|done| |].
  - intros m' p Hm'. apply Hpol. by right.
  - intros m' Hm'. apply not_elem_of_cons. split; [|apply Hseen; by right].
    intros Heq. apply Hn. rewrite <- Heq. apply list_elem_of_fmap. eauto.
Qed.

End Contracts.

(** ** A service of trees

    [trees.v1] with a unary method and a duplex method on the type [Node] of
    SdkEncoding, and one whose request is an unnamed struct. *)

#[local] Existing Instance any_values.
Definition contract_types : Types :=
  {| type_of := fun t => default (simple_type KStruct 0) (node_types !! t);
     type_string := fun _ => "T"; timeType := 6; rawType := 7 |}.
#[local] Existing Instance contract_types.

Definition declared (s : option (add_panic + serviceDecl)) : serviceDecl :=
  match s with
  | Some (inr s) => s
  | _ => MkServiceDecl EmptyString EmptyString None false RoundRobin EmptyString [] ∅
  end.
Definition empty_trees : serviceDecl :=
  declared (match NewService "trees.v1" [Some (Describe "Trees."); None; Some (DefaultBalance (Sticky "name"))] with
            | inr s => Some (inr s) | inl _ => None end).
Definition grown_trees : serviceDecl :=
  declared (HandleUnary 41 "grow" 2 2 [ReadOnly; Doc "Grows."; BalanceWith LeastInflight] empty_trees).
Definition trees : serviceDecl :=
  declared (HandleDuplex 41 "watch" "  both ends talk " 2 2 2 [] grown_trees).
Definition unnamed : serviceDecl := declared (HandleUnary 41 "grow" 20 2 [] empty_trees).

Lemma trees_built : built 41 trees.
Proof.
  apply (built_duplex 41 "watch" "  both ends talk " 2 2 2 [] grown_trees).
  - apply (built_unary 41 "grow" 2 2 [ReadOnly; Doc "Grows."; BalanceWith LeastInflight] empty_trees).
    + by eapply (built_new 41 "trees.v1" [Some (Describe "Trees."); None; Some (DefaultBalance (Sticky "name"))]).
    + vm_compute. reflexivity.
  - exists ((fun c => Z.of_nat (nat_of_ascii c)) <$> String.list_ascii_of_string "  both ends talk "). split; [|done].
    by apply (bool_decide_unpack _).
  - vm_compute. reflexivity.
Qed.
Lemma unnamed_built : built 41 unnamed.
Proof.
  apply (built_unary 41 "grow" 20 2 [] empty_trees).
  - by eapply (built_new 41 "trees.v1" [Some (Describe "Trees."); None; Some (DefaultBalance (Sticky "name"))]).
  - vm_compute. reflexivity.
Qed.

Definition trees_document : json := default JNull (contract_document 41 [trees]).
Definition unnamed_document : json := default JNull (contract_document 41 [unnamed]).

Lemma contract_parses_witness :
  (exists doc, Parse (Encode trees_document) = inr doc /\ dc_Protocol doc = "meshcall/1"%string /\
     Forall2 (reads_service 41) [trees] (dc_Services doc)) /\
  exists err, Parse (Encode unnamed_document) = inl err.
Proof.
  assert (exists d, printable d trees_document) as (d & Hd).
  { apply (decoded_printable (Encode trees_document)). vm_compute. reflexivity. }
  assert (exists d, printable d unnamed_document) as (d' & Hd').
  { apply (decoded_printable (Encode unnamed_document)). vm_compute. reflexivity. }
  assert (forallb (named 41) [trees] = true) as Hn by (vm_compute; reflexivity).
  assert (forallb (named 41) [unnamed] = false) as Hn' by (vm_compute; reflexivity).
  assert (contract_document 41 [trees] = Some trees_document) as Hdoc by (vm_compute; reflexivity).
  assert (contract_document 41 [unnamed] = Some unnamed_document) as Hdoc' by (vm_compute; reflexivity).
  pose proof (contract_parses 41 [trees] trees_document d (Encode trees_document)
    ltac:(repeat constructor; apply trees_built) Hdoc Hd (encode_writes _ _ Hd)) as Hx.
  pose proof (contract_parses 41 [unnamed] unnamed_document d' (Encode unnamed_document)
    ltac:(repeat constructor; apply unnamed_built) Hdoc' Hd' (encode_writes _ _ Hd')) as Hx'.
  rewrite Hn in Hx. rewrite Hn' in Hx'. split; [exact Hx|exact Hx'].
Defined.


(** *** What goes wrong *)

(** A method may use an unnamed struct, and [add] accepts it; the contract then has an
    empty qualified name, and no tool reads it. *)
Theorem unnamed_struct_unreadable :
  built 41 unnamed /\ Parse (Encode unnamed_document) = inl (RequestRequired "grow").
Proof. split; [exact unnamed_built|vm_compute; reflexivity]. Qed.
