(* ===== verification/SdkConnections.v ===== *)
(** * Connecting: the connection manager of the Go client (client.go)

    The client keeps at most one connection: the first goroutine that needs it
    connects, the others wait on a channel; a reader per connection takes it away
    when it is lost and fails its calls.  A goroutine is a list of operations, an
    operation is one section under [Client.mu] or one blocking step, and [exec] runs
    one, on what the environment answers: it returns the client, what
    the goroutine does next, and the goroutines it starts.

    A connection is its number in the order of the handshakes, with whether its
    context has ended.  What goes over it is not tracked here (SdkLink follows one
    call): [conn.send] answers with an outcome, and never that it sent a frame when
    the connection was closed. *)
From S2P Require Import Prelude GoStd Json SdkRuntime SdkClient.
#[local] Open Scope Z_scope.

(** ** State *)

(** [ReconnectPolicy]: what decides whether [delays] goes on. *)
Record ReconnectPolicy := MkReconnectPolicy { rp_Disabled : bool; rp_MaxAttempts : Z }.
(** [delays] after [attempt] calls: whether there is another delay. *)
Definition delays (p : ReconnectPolicy) (attempt : Z) : bool :=
  negb (rp_Disabled p || ((0 <? rp_MaxAttempts p) && (rp_MaxAttempts p <=? attempt))).

(** [clientState]; [cs_waits] counts the channels made for [connecting], so channel
    [w] is closed iff it is not the one in [cs_connecting].  A call of [calls] is a
    call of [cl_calls] that is listed. *)
Record clientState := MkClientState {
  cs_cursor : nat;
  cs_conn : option nat;
  cs_connecting : option nat;
  cs_waits : nat;
  cs_everConnected : bool;
  cs_closed : bool;
  cs_onClose : bool }.
#[global] Instance clientState_eta : Eta clientState := fun x =>
  MkClientState (cs_cursor x) (cs_conn x) (cs_connecting x) (cs_waits x) (cs_everConnected x)
    (cs_closed x) (cs_onClose x).

(** The client with every connection it made ([true]: open) and every call, with the
    number of its connection. *)
Record Client := MkClient {
  cl_endpoints : nat;
  cl_reconnect : ReconnectPolicy;
  cl_state : clientState;
  cl_conns : list bool;
  cl_calls : list (clientCall * nat) }.
#[global] Instance Client_eta : Eta Client := fun x =>
  MkClient (cl_endpoints x) (cl_reconnect x) (cl_state x) (cl_conns x) (cl_calls x).

(** [NewClient] for some endpoints. *)
Definition NewClient (endpoints : nat) (reconnect : ReconnectPolicy) (onClose : bool) : option Client :=
  if (endpoints =? 0)%nat then None
  else Some (MkClient endpoints reconnect (MkClientState 0 None None 0 false false onClose) [] []).

(** ** Operations *)

(** What [open] was called with, as far as the client's state goes. *)
Record openRequest := MkOpen { oq_id : string; oq_stream : string; oq_idle : Z }.

(** An error of a handshake: one of the SDK, or another one with its text. *)
Inductive connectError := MeshFailure (e : Error) | DialFailure (text : string).

(** [connectWithBackoff] under way: [ct_attempt] delays were taken, and this pass of
    [connectAny] has tried the endpoints [ct_tried]; its length is [offset]. *)
Record connector := MkConnector {
  ct_open : openRequest;
  ct_retry : bool;
  ct_attempt : Z;
  ct_tried : list nat;
  ct_last : connectError }.
#[global] Instance connector_eta : Eta connector := fun x =>
  MkConnector (ct_open x) (ct_retry x) (ct_attempt x) (ct_tried x) (ct_last x).

Inductive cop :=
  (* connection *)
  | OConnection (o : openRequest)
  | OWait (o : openRequest) (w : nat)
  | OPass (ct : connector)
  | ODial (ct : connector) (index : nat)
  | OCursor (ct : connector) (index conn : nat)
  | OPause (ct : connector)
  | OInstall (o : openRequest) (result : Error + nat)
  | OStart (o : openRequest) (conn : nat)
  (* open behind connection *)
  | ORegister (o : openRequest) (conn : nat)
  | OSendOpen (k : nat)
  (* one section of a method of call [k] *)
  | OCall (k : nat) (a : caction)
  (* readLoop *)
  | ORead (conn : nat)
  | OLost (conn : nat)
  | OFailAll (e : Error) (only : option nat)
  (* Close *)
  | OClose
  | OCloseConn (conn : nat)
  | OOnClose.

(** What the environment answers: nothing is asked, the context of the caller ended
    (by its deadline or not), what dialling and sending envAnswer, that a delay is over,
    what [conn.receive] returns, and the order in which the map of calls is visited. *)
Inductive envAnswer :=
  | Proceed
  | ContextDone (deadline : bool)
  | Handshake (dialled sent : option connectError) (ack : option sframe)
  | SendAnswers (o : sendOutcome)
  | FrameRead (k : nat) (f : sframe)
  | ReadFailed
  | MapOrder (ks : list nat).

Definition contextError (deadline : bool) : Error :=
  if deadline then detailed CodeDeadlineExceeded "Call deadline exceeded" "client" "" false
  else error CodeCancelled "Call was cancelled" false.
(** The error [connectWithBackoff] gives up with. *)
Definition gaveUp (e : connectError) : Error :=
  match e with
  | MeshFailure e => e
  | DialFailure text => error CodeUnavailable ("Could not connect: " +:+ text) true
  end.
Definition connectionWasLost : Error := error CodeUnavailable "Connection was lost" true.
Definition clientClosed : Error := error CodeUnavailable "Client is closed" false.

Definition conn_open (cl : Client) (c : nat) : bool := default false (cl_conns cl !! c).
(** [conn.close]. *)
Definition conn_close (c : nat) (cl : Client) : Client := cl {{ cl_conns ::= <[c := false]> }}.

(** The calls that [failAll] fails, by their numbers. *)
Definition fails (only : option nat) (x : clientCall * nat) : bool :=
  cc_listed x.1 && match only with Some c => (x.2 =? c)%nat | None => true end.
Definition calls_of (only : option nat) (cl : Client) : list nat :=
  omap (fun kx => if fails only kx.2 then Some kx.1 else None) (imap pair (cl_calls cl)).

Definition set_state (f : clientState -> clientState) (cl : Client) : Client := cl {{ cl_state ::= f }}.

(** What running an operation makes of the client and of its goroutine; [None]: the
    goroutine does not go on by this envAnswer. *)
Definition outcome : Type := option (Client * list cop * list (list cop)).
Definition go_on (cl : Client) (next : list cop) : outcome := Some (cl, next, []).

(** [connection], the first section. *)
Definition exec_connection (o : openRequest) (cl : Client) : outcome :=
  let s := cl_state cl in
  match cs_conn s, cs_connecting s with
  | Some c, _ => go_on cl [ORegister o c]
  | None, Some w => go_on cl [OWait o w]
  | None, None =>
      go_on (set_state (fun s => s {{ cs_closed := false; cs_connecting := Some (cs_waits s);
                                      cs_waits ::= S }}) cl)
        [OPass (MkConnector o (cs_everConnected s) 0 [] (DialFailure EmptyString))]
  end.

(** The select on the channel. *)
Definition exec_wait (e : envAnswer) (o : openRequest) (w : nat) (cl : Client) : outcome :=
  match e with
  | Proceed => if bool_decide (cs_connecting (cl_state cl) = Some w) then None else go_on cl [OConnection o]
  | ContextDone _ => go_on cl []
  | _ => None
  end.

(** One round of the loop of [connectAny], or what [connectWithBackoff] does behind it. *)
Definition exec_pass (ct : connector) (cl : Client) : outcome :=
  if (length (ct_tried ct) <? cl_endpoints cl)%nat
  then go_on cl [ODial ct (Nat.modulo (cs_cursor (cl_state cl) + length (ct_tried ct)) (cl_endpoints cl))]
  else if negb (ct_retry ct) || negb (delays (cl_reconnect cl) (ct_attempt ct))
  then go_on cl [OInstall (ct_open ct) (inl (gaveUp (ct_last ct)))]
  else go_on cl [OPause (ct {{ ct_attempt ::= Z.add 1 }})].

(** [handshake]: what dialling and sending hello fail with, and the frame received
    within the timeout; the error, or [None] for a connection.  A connection it gives
    up is closed there. *)
Definition sdkProtocol : string := "meshcall/1".
Definition incompatible : connectError :=
  MeshFailure (error CodeProtocolError "Expected a compatible hello.ack" false).
Definition handshake (dialled sent : option connectError) (ack : option sframe) : option connectError :=
  match dialled, sent, ack with
  | Some err, _, _ => Some err
  | None, Some err, _ => Some err
  | None, None, Some f =>
      if String.eqb (sf_Kind f) "hello.ack" && String.eqb (sf_Protocol f) sdkProtocol then None else Some incompatible
  | None, None, None => Some incompatible
  end.

Definition exec_dial (e : envAnswer) (ct : connector) (index : nat) (cl : Client) : outcome :=
  match e with
  | Handshake dialled sent ack =>
      match handshake dialled sent ack with
      | None => go_on (cl {{ cl_conns ::= fun l => l ++ [true] }}) [OCursor ct index (length (cl_conns cl))]
      | Some err => go_on cl [OPass (ct {{ ct_tried ::= fun l => l ++ [index]; ct_last := err }})]
      end
  | _ => None
  end.
(** The section of [connectAny] behind a handshake. *)
Definition exec_found (ct : connector) (index c : nat) (cl : Client) : outcome :=
  go_on (set_state (fun s => s {{ cs_cursor := index }}) cl) [OInstall (ct_open ct) (inr c)].

Definition exec_pause (e : envAnswer) (ct : connector) (cl : Client) : outcome :=
  match e with
  | Proceed => go_on cl [OPass (ct {{ ct_tried := [] }})]
  | ContextDone deadline => go_on cl [OInstall (ct_open ct) (inl (contextError deadline))]
  | _ => None
  end.

(** [connection], the second section. *)
Definition exec_install (o : openRequest) (result : Error + nat) (cl : Client) : outcome :=
  let cl := set_state (fun s => s {{ cs_connecting := None }}) cl in
  match result with
  | inl _ => go_on cl []
  | inr c =>
      go_on (set_state (fun s => s {{ cs_conn := Some c; cs_everConnected := true }}) cl) [OStart o c]
  end.

(** [open] behind [connection]: the call enters the map. *)
Definition exec_register (o : openRequest) (c : nat) (cl : Client) : outcome :=
  go_on (cl {{ cl_calls ::= fun l => l ++ [(newClientCall (oq_id o) (oq_stream o) (oq_idle o), c)] }})
    [OSendOpen (length (cl_calls cl))].

(** A closed connection takes no frame. *)
Definition may_send (o : sendOutcome) (c : nat) (cl : Client) : bool :=
  match o with Sent => conn_open cl c | _ => true end.

(** [conn.send(call.open)] and what follows it. *)
Definition exec_send_open (e : envAnswer) (k : nat) (cl : Client) : outcome :=
  match e, cl_calls cl !! k with
  | SendAnswers Sent, Some (call, c) =>
      if may_send Sent c cl then go_on cl (OCall k <$> opened (cc_stream call)) else None
  | SendAnswers (TooLarge text), Some _ => go_on cl [OCall k (CFail (frameTooLarge "client" text))]
  | SendAnswers Lost, Some _ => go_on cl [OCall k (CFail connectionWasLost)]
  | _, _ => None
  end.

Definition exec_call (e : envAnswer) (k : nat) (a : caction) (cl : Client) : outcome :=
  match e, cl_calls cl !! k with
  | SendAnswers o, Some (call, c) =>
      if negb (may_send o c cl) then None else
      let '(call, next, _) := cexec o a call in
      go_on (cl {{ cl_calls ::= <[k := (call, c)]> }}) (OCall k <$> next)
  | _, _ => None
  end.

(** One round of [readLoop]: the frame of a call that is listed, a frame of none, an
    error on an open or a closed connection. *)
Definition exec_read (e : envAnswer) (c : nat) (cl : Client) : outcome :=
  match e with
  | FrameRead k f =>
      match cl_calls cl !! k with
      | Some (call, _) =>
          if cc_listed call && String.eqb (cc_id call) (sf_CallID f)
          then go_on cl ((OCall k <$> deliver f call) ++ [ORead c]) else None
      | None => None
      end
  | Proceed => go_on cl [ORead c]
  | ReadFailed => if conn_open cl c then go_on cl [ORead c] else go_on cl [OLost c]
  | _ => None
  end.

(** The section behind the loop. *)
Definition lose (c : nat) (cl : Client) : Client :=
  if bool_decide (cs_conn (cl_state cl) = Some c)
  then set_state (fun s => s {{ cs_conn := None;
         cs_cursor ::= fun n => if (1 <? cl_endpoints cl)%nat
                                then Nat.modulo (n + 1) (cl_endpoints cl) else n }}) cl
  else cl.

Definition exec_fail_all (e : envAnswer) (err : Error) (only : option nat) (cl : Client) : outcome :=
  match e with
  | MapOrder ks =>
      if bool_decide (ks ≡ₚ calls_of only cl) then go_on cl ((fun k => OCall k (CFail err)) <$> ks) else None
  | _ => None
  end.

(** [Close]: its section, and the calls behind it. *)
Definition exec_close (cl : Client) : outcome :=
  let s := cl_state cl in
  go_on (set_state (fun s => s {{ cs_closed := true; cs_conn := None; cs_onClose := false }}) cl)
    ((match cs_conn s with Some c => [OCloseConn c] | None => [] end)
     ++ [OFailAll clientClosed None]
     ++ (if cs_onClose s then [OOnClose] else [])).

Definition exec (e : envAnswer) (op : cop) (cl : Client) : outcome :=
  match op with
  | OConnection o => exec_connection o cl
  | OWait o w => exec_wait e o w cl
  | OPass ct => exec_pass ct cl
  | ODial ct index => exec_dial e ct index cl
  | OCursor ct index c => exec_found ct index c cl
  | OPause ct => exec_pause e ct cl
  | OInstall o result => exec_install o result cl
  | OStart o c => Some (cl, [ORegister o c], [[ORead c]])
  | ORegister o c => exec_register o c cl
  | OSendOpen k => exec_send_open e k cl
  | OCall k a => exec_call e k a cl
  | ORead c => exec_read e c cl
  | OLost c => go_on (lose c cl) [OFailAll connectionWasLost (Some c)]
  | OFailAll err only => exec_fail_all e err only cl
  | OClose => exec_close cl
  | OCloseConn c => go_on (conn_close c cl) []
  | OOnClose => go_on cl []
  end.

(** ** Runs *)

(** The client and its goroutines. *)
Record world := MkWorld { wd_client : Client; wd_gs : list (list cop) }.

(** What the program does with an open call, and its timers: [Recv], [result], [Close]
    of a stream, sending and closing the input, an expired timeout. *)
Definition user_action (a : caction) : bool :=
  match a with
  | CRecv _ | CResult | CAbort _ _ | CCheckOpen _ | CCloseInput => true
  | _ => false
  end.

Definition run_op (i : nat) (e : envAnswer) (w : world) : option world :=
  match wd_gs w !! i with
  | Some (op :: rest) =>
      match exec e op (wd_client w) with
      | Some (cl, next, spawned) => Some (MkWorld cl (<[i := next ++ rest]> (wd_gs w) ++ spawned))
      | None => None
      end
  | _ => None
  end.

Inductive world_step : world -> world -> Prop :=
  | step_run i e w w' : run_op i e w = Some w' -> world_step w w'
  | step_open o w : world_step w (MkWorld (wd_client w) (wd_gs w ++ [[OConnection o]]))
  | step_close w : world_step w (MkWorld (wd_client w) (wd_gs w ++ [[OClose]]))
  | step_use k a w : is_Some (cl_calls (wd_client w) !! k) -> user_action a = true ->
      world_step w (MkWorld (wd_client w) (wd_gs w ++ [[OCall k a]]))
  | step_break c w : world_step w (MkWorld (conn_close c (wd_client w)) (wd_gs w)).

Inductive reached : world -> Prop :=
  | reached_new endpoints reconnect onClose cl :
      NewClient endpoints reconnect onClose = Some cl -> reached (MkWorld cl [])
  | reached_step w w' : reached w -> world_step w w' -> reached w'.
