(* ===== verification/Connecting.v ===== *)
(** * What the connection manager of the Go client guarantees

    The invariant of [reached] and what follows: one goroutine connects at a time, its
    pass tries every endpoint once, nobody waits in vain, a connection in use has a
    reader, and no call is left without an end.  Statements about goroutines are about
    the operations they still have to run. *)
From S2P Require Import Prelude GoStd Json SdkRuntime SdkClient SdkConnections.
#[local] Open Scope Z_scope.

Definition pending (w : world) : list cop := concat (wd_gs w).

(** ** Operations *)

(** Between the sections of [connection]. *)
Definition connects (op : cop) : Z :=
  match op with
  | OPass _ | ODial _ _ | OCursor _ _ _ | OPause _ | OInstall _ _ => 1
  | _ => 0
  end.
(** A goroutine that has the connection and will read from it. *)
Definition tends (c : nat) (op : cop) : Prop :=
  match op with
  | OCursor _ _ c' | OInstall _ (inr c') | OStart _ c' | ORead c' => c' = c
  | _ => False
  end.
(** A goroutine that will take a lost connection from the client. *)
Definition watches (c : nat) (op : cop) : Prop :=
  match op with OStart _ c' | ORead c' | OLost c' => c' = c | _ => False end.
(** A goroutine that will fail the calls of a lost connection. *)
Definition guards (c : nat) (op : cop) : Prop :=
  match op with OLost c' | OFailAll _ (Some c') => c' = c | _ => tends c op end.
(** A goroutine that is about to end a call, to take it from the list, to send call.open. *)
Definition ends (k : nat) (op : cop) : Prop :=
  match op with OCall k' (CFail _) | OCall k' (CTerminal _) => k' = k | _ => False end.
Definition unlists (k : nat) (op : cop) : Prop :=
  match op with OCall k' CUnlist => k' = k | _ => False end.
Definition sends_open (k : nat) (op : cop) : Prop :=
  match op with OSendOpen k' => k' = k | _ => False end.

(** The first endpoints of a pass, starting at the cursor. *)
Definition pass_order (cl : Client) (tried : nat) : list nat :=
  (fun i => Nat.modulo (cs_cursor (cl_state cl) + i) (cl_endpoints cl)) <$> seq 0 tried.

Definition attempts_ok (cl : Client) (ct : connector) : Prop :=
  0 <= ct_attempt ct /\ (ct_retry ct = false -> ct_attempt ct = 0) /\
  (0 < rp_MaxAttempts (cl_reconnect cl) -> ct_attempt ct <= rp_MaxAttempts (cl_reconnect cl)).
Definition pass_ok (cl : Client) (ct : connector) : Prop :=
  attempts_ok cl ct /\ ct_tried ct = pass_order cl (length (ct_tried ct)) /\
  (length (ct_tried ct) <= cl_endpoints cl)%nat.
Definition op_ok (cl : Client) (op : cop) : Prop :=
  match op with
  | OPass ct => pass_ok cl ct
  | ODial ct index => pass_ok cl ct /\ (length (ct_tried ct) < cl_endpoints cl)%nat /\
      index = Nat.modulo (cs_cursor (cl_state cl) + length (ct_tried ct)) (cl_endpoints cl)
  | OPause ct => attempts_ok cl ct
  | OSendOpen k | OCall k _ => (k < length (cl_calls cl))%nat
  | _ => True
  end.

(** A call ends: it has ended, is about to, or is open on a connection with a reader. *)
Definition call_ok (ops : list cop) (k : nat) (call : clientCall) (c : nat) : Prop :=
  (is_Some (cc_failure call) -> cc_terminal call = true) /\
  (cc_terminal call = true \/ Exists (ends k) ops \/
   (cc_listed call = true /\ ~ Exists (unlists k) ops /\
    (Exists (sends_open k) ops \/ Exists (guards c) ops))).

Record manager_ok (cl : Client) (ops : list cop) : Prop := {
  mg_endpoints : (0 < cl_endpoints cl)%nat;
  mg_connectors : sum_with connects ops = match cs_connecting (cl_state cl) with Some _ => 1 | None => 0 end;
  mg_free : is_Some (cs_connecting (cl_state cl)) -> cs_conn (cl_state cl) = None;
  mg_ops : Forall (op_ok cl) ops;
  mg_readers : forall c, conn_open cl c = true -> Exists (tends c) ops;
  mg_conn : forall c, cs_conn (cl_state cl) = Some c -> Exists (watches c) ops;
  mg_calls : forall k call c, cl_calls cl !! k = Some (call, c) -> call_ok ops k call c }.

(** ** Steps as changes of the pending operations *)

Inductive ops_step (cl : Client) (ops : list cop) : Client -> list cop -> Prop :=
  | ops_run X op Y e cl' next spawned : ops = X ++ op :: Y -> exec e op cl = Some (cl', next, spawned) ->
      ops_step cl ops cl' (X ++ next ++ Y ++ concat spawned)
  | ops_spawn op : (match op with
                    | OConnection _ | OClose => True
                    | OCall k a => (k < length (cl_calls cl))%nat /\ user_action a = true
                    | _ => False end) -> ops_step cl ops cl (ops ++ [op])
  | ops_break c : ops_step cl ops (conn_close c cl) ops.

Lemma world_ops w w' : world_step w w' ->
  ops_step (wd_client w) (pending w) (wd_client w') (pending w').
Proof.
  unfold pending. intros [i e w0 w1 Hrun|o w0|w0|k a w0 Hk Ha|c w0]; cbn.
  - unfold run_op in Hrun. destruct (wd_gs w0 !! i) as [[|op rest]|] eqn:Hi; [done| |done].
    destruct (exec e op (wd_client w0)) as [[[cl next] spawned]|] eqn:He; [|done]. injection Hrun as <-.
    destruct (concat_at _ _ _ _ Hi) as (X & Y & HX & HY). cbn. rewrite concat_app, HY.
    rewrite <- !app_assoc. by eapply ops_run.
  - rewrite concat_app. by apply (ops_spawn _ _ (OConnection o)).
  - rewrite concat_app. by apply (ops_spawn _ _ OClose).
  - rewrite concat_app. apply (ops_spawn _ _ (OCall k a)). split; [|done].
    by apply lookup_lt_is_Some.
  - constructor.
Qed.

(** ** The sections of a call *)

Lemma cexec_terminal o a call : cc_terminal call = true -> cc_terminal (cexec o a call).1.1 = true.
Proof.
  intros Ht. destruct a; cbn; try done; unfold armIdle, consumed, fail, dequeue, closeInputCredit;
    repeat case_match; simplify_eq/=; done.
Qed.
Lemma cexec_failure o a call : (is_Some (cc_failure call) -> cc_terminal call = true) ->
  is_Some (cc_failure (cexec o a call).1.1) -> cc_terminal (cexec o a call).1.1 = true.
Proof.
  intros Ht. destruct a; cbn; try done; unfold armIdle, consumed, fail, dequeue, closeInputCredit;
    repeat case_match; simplify_eq/=; try done; intros; first [by apply Ht|by unbool].
Qed.
Lemma cexec_listed o a call : a <> CUnlist -> cc_listed (cexec o a call).1.1 = cc_listed call.
Proof.
  destruct a; cbn; try done; unfold armIdle, consumed, fail, dequeue, closeInputCredit;
    repeat case_match; simplify_eq/=; done.
Qed.
Lemma cexec_ends o a call k : ends k (OCall k a) -> (is_Some (cc_failure call) -> cc_terminal call = true) ->
  cc_terminal (cexec o a call).1.1 = true.
Proof.
  destruct a; cbn; try done. intros _ Hf. unfold fail.
  destruct (cc_failure call); [by apply Hf|]. destruct (cc_terminal call && _) eqn:E; [|done].
  by apply andb_true_iff in E as [].
Qed.
Lemma cexec_unlists o a call k : Exists (unlists k) (OCall k <$> (cexec o a call).1.2) ->
  cc_terminal (cexec o a call).1.1 = true.
Proof.
  intros Hu%Exists_exists. destruct Hu as (op & Hop & Hk).
  apply list_elem_of_fmap in Hop as (a' & -> & Ha'). destruct a'; try done. clear Hk. revert Ha'.
  destruct a; cbn; try (by intros ?%not_elem_of_nil);
    unfold armIdle, consumed, fail, dequeue, closeInputCredit, recv;
    repeat case_match; simplify_eq/=; set_solver.
Qed.
Lemma deliver_unlists f call k : Exists (unlists k) (OCall k <$> deliver f call) ->
  Exists (ends k) (OCall k <$> deliver f call).
Proof.
  rewrite !Exists_exists. intros (op & Hop & Hk).
  apply list_elem_of_fmap in Hop as (a' & -> & Ha'). destruct a'; try done. clear Hk. revert Ha'.
  unfold deliver. repeat case_match; intros Ha'; try set_solver.
  exists (OCall k (CTerminal f)). cbn. split; [left|done].
Qed.

(** ** The connector *)

Ltac exec_cases He :=
  unfold exec, exec_connection, exec_wait, exec_pass, exec_dial, exec_found, exec_register, exec_pause, exec_install, exec_send_open,
    exec_call, exec_read, exec_fail_all, exec_close, go_on in He;
  repeat case_match; simplify_eq/=.

Lemma connects_calls k l : sum_with connects (OCall k <$> l) = 0.
Proof. induction l as [|a l IH]; [done|]. exact IH. Qed.
Lemma connects_fail e ks : sum_with connects ((fun k => OCall k (CFail e)) <$> ks) = 0.
Proof. induction ks as [|a l IH]; [done|]. exact IH. Qed.
Lemma connects_nonneg ops : 0 <= sum_with connects ops.
Proof. apply sum_with_nonneg. intros [] _; cbn; lia. Qed.

Lemma lose_connecting c cl : cs_connecting (cl_state (lose c cl)) = cs_connecting (cl_state cl).
Proof. unfold lose. by case_bool_decide. Qed.
Lemma lose_calls c cl : cl_calls (lose c cl) = cl_calls cl.
Proof. unfold lose. by case_bool_decide. Qed.
Lemma lose_conns c cl : cl_conns (lose c cl) = cl_conns cl.
Proof. unfold lose. by case_bool_decide. Qed.
Lemma lose_endpoints c cl : cl_endpoints (lose c cl) = cl_endpoints cl.
Proof. unfold lose. by case_bool_decide. Qed.
Lemma lose_reconnect c cl : cl_reconnect (lose c cl) = cl_reconnect cl.
Proof. unfold lose. by case_bool_decide. Qed.
Lemma lose_conn c cl c' : cs_conn (cl_state (lose c cl)) = Some c' ->
  cs_conn (cl_state cl) = Some c' /\ c' <> c.
Proof. unfold lose. case_bool_decide; [done|]. intros Hc. split; [done|congruence]. Qed.
Create Rewrite HintDb lost.
#[local] Hint Rewrite lose_connecting lose_calls lose_conns lose_endpoints lose_reconnect : lost.

Lemma exec_connectors e X op Y cl cl' next spawned : exec e op cl = Some (cl', next, spawned) ->
  sum_with connects (X ++ op :: Y) = match cs_connecting (cl_state cl) with Some _ => 1 | None => 0 end ->
  sum_with connects (X ++ next ++ Y ++ concat spawned) =
    match cs_connecting (cl_state cl') with Some _ => 1 | None => 0 end.
Proof.
  intros He. rewrite !sum_with_app, sum_with_cons. pose proof (connects_nonneg X). pose proof (connects_nonneg Y).
  destruct op; exec_cases He; rewrite ?sum_with_app, ?connects_calls, ?connects_fail; cbn;
    autorewrite with lost in *; repeat case_match; simplify_eq/=; lia.
Qed.

Lemma exec_endpoints e op cl cl' next spawned : exec e op cl = Some (cl', next, spawned) ->
  cl_endpoints cl' = cl_endpoints cl /\ cl_reconnect cl' = cl_reconnect cl.
Proof. intros He. destruct op; exec_cases He; by autorewrite with lost. Qed.

Lemma exec_free e op cl cl' next spawned : exec e op cl = Some (cl', next, spawned) ->
  (is_Some (cs_connecting (cl_state cl)) -> cs_conn (cl_state cl) = None) ->
  is_Some (cs_connecting (cl_state cl')) -> cs_conn (cl_state cl') = None.
Proof.
  intros He Hfree Hs. destruct op; exec_cases He; try done; try (by destruct Hs); try (by specialize (Hfree Hs)).
  autorewrite with lost in Hs. destruct (cs_conn (cl_state (lose _ _))) eqn:E; [|done].
  apply lose_conn in E as [E _]. by rewrite (Hfree Hs) in E.
Qed.

(** The cursor moves only when no pass is under way, or with the connection a pass found. *)
Lemma exec_cursor e op cl cl' next spawned : exec e op cl = Some (cl', next, spawned) ->
  (is_Some (cs_connecting (cl_state cl)) -> cs_conn (cl_state cl) = None) ->
  cs_cursor (cl_state cl') = cs_cursor (cl_state cl) \/ connects op = 1 \/ cs_connecting (cl_state cl) = None.
Proof.
  intros He Hfree. destruct op; exec_cases He; try (by left); try (by right; left).
  unfold lose. case_bool_decide as Hc; [|by left]. right. right.
  destruct (cs_connecting (cl_state cl)) eqn:E; [|done]. rewrite Hfree in Hc; [done|eauto].
Qed.

Lemma no_connects l : sum_with connects l <= 0 -> Forall (fun op => connects op = 0) l.
Proof.
  induction l as [|op l IH]; [constructor|]. rewrite sum_with_cons. pose proof (connects_nonneg l).
  assert (0 <= connects op) by (destruct op; cbn; lia). constructor; [lia|apply IH; lia].
Qed.

Lemma exec_length e op cl cl' next spawned : exec e op cl = Some (cl', next, spawned) ->
  (length (cl_calls cl) <= length (cl_calls cl'))%nat.
Proof.
  intros He. destruct op; exec_cases He; autorewrite with lost;
    rewrite ?length_app, ?length_insert; lia.
Qed.

(** What operations rely on, kept by a step of another goroutine. *)
Lemma op_ok_kept e op cl cl' next spawned x : exec e op cl = Some (cl', next, spawned) ->
  cs_cursor (cl_state cl') = cs_cursor (cl_state cl) \/ connects x = 0 ->
  op_ok cl x -> op_ok cl' x.
Proof.
  intros He Hc. destruct (exec_endpoints _ _ _ _ _ _ He) as [E1 E2]. pose proof (exec_length _ _ _ _ _ _ He).
  destruct x; cbn; try done; unfold pass_ok, attempts_ok, pass_order; rewrite ?E1, ?E2; try done; try lia;
    (destruct Hc as [->|Hc]; [done|by cbn in Hc]).
Qed.

Lemma calls_of_range only cl k : k ∈ calls_of only cl -> (k < length (cl_calls cl))%nat.
Proof.
  unfold calls_of. intros Hk. apply list_elem_of_omap in Hk as ([i x] & Hi & Hk).
  case_match; simplify_eq/=.
  apply list_elem_of_lookup in Hi as [j Hj]. rewrite list_lookup_imap in Hj.
  destruct (cl_calls cl !! j) eqn:E; [|done]. simplify_eq/=. by eapply lookup_lt_Some.
Qed.

Lemma Forall_calls cl k l : (k < length (cl_calls cl))%nat -> Forall (op_ok cl) (OCall k <$> l).
Proof. intros Hk. apply Forall_fmap, Forall_true. done. Qed.

Lemma pass_start cl ct : attempts_ok cl ct -> ct_tried ct = [] -> pass_ok cl ct.
Proof. intros Ha Ht. split; [done|]. rewrite Ht. split; [done|cbn; lia]. Qed.

(** A further endpoint of a pass. *)
Lemma pass_next cl ct index e : op_ok cl (ODial ct index) ->
  pass_ok cl (ct {{ ct_tried ::= fun l => l ++ [index]; ct_last := e }}).
Proof.
  intros (([Ha Hb] & Ht & Hl) & Hlt & ->). split; [done|]. cbn. rewrite length_app. cbn.
  split; [|lia]. unfold pass_order. rewrite Nat.add_1_r, seq_S, fmap_app. cbn. f_equal. exact Ht.
Qed.

Lemma exec_op_ok e op cl cl' next spawned : exec e op cl = Some (cl', next, spawned) ->
  op_ok cl op -> Forall (op_ok cl') next /\ Forall (op_ok cl') (concat spawned).
Proof.
  intros He Hop. destruct op; exec_cases He; split; try (by repeat constructor);
    try (by apply Forall_calls; rewrite ?length_insert; eapply lookup_lt_Some).
  - repeat constructor; cbn; lia.
  - apply Forall_singleton. split; [exact Hop|]. split; [by apply Nat.ltb_lt|done].
  - rename select (_ || _ = false) into Hd. apply orb_false_iff in Hd as [Hr Hd].
    apply negb_false_iff in Hr, Hd. destruct Hop as [(H1 & H2 & H3) _].
    repeat constructor; cbn; [lia|congruence|]. intros Hm. unfold delays in Hd.
    apply negb_true_iff, orb_false_iff in Hd as [_ Hd]. apply andb_false_iff in Hd. lia.
  - apply Forall_singleton. by apply pass_next.
  - apply Forall_singleton. by apply pass_start.
  - repeat constructor. cbn. rewrite length_app. cbn. lia.
  - apply Forall_calls. cbn. rewrite length_insert. by eapply lookup_lt_Some.
  - apply Forall_app. split; [|by repeat constructor]. apply Forall_calls. by eapply lookup_lt_Some.
  - apply Forall_fmap, list.Forall_forall. intros k Hk. cbn.
    rename select (bool_decide _ = true) into Hp. apply bool_decide_eq_true_1 in Hp.
    rewrite Hp in Hk. by eapply calls_of_range.
Qed.

Lemma exec_ops e X op Y cl cl' next spawned : exec e op cl = Some (cl', next, spawned) ->
  manager_ok cl (X ++ op :: Y) -> Forall (op_ok cl') (X ++ next ++ Y ++ concat spawned).
Proof.
  intros He [_ Hsum Hfree Hops _ _ _]. rewrite Forall_app, Forall_cons in Hops.
  destruct Hops as (HX & Hop & HY).
  destruct (exec_op_ok _ _ _ _ _ _ He Hop) as [Hnext Hsp].
  rewrite sum_with_app, sum_with_cons in Hsum. pose proof (connects_nonneg X). pose proof (connects_nonneg Y).
  assert (0 <= connects op) by (destruct op; cbn; lia).
  assert (cs_cursor (cl_state cl') = cs_cursor (cl_state cl) \/
    Forall (fun op => connects op = 0) X /\ Forall (fun op => connects op = 0) Y) as Hc.
  { destruct (exec_cursor _ _ _ _ _ _ He Hfree) as [|[Hc|Hc]]; [by left|right..].
    - split; apply no_connects; case_match; lia.
    - rewrite Hc in Hsum. split; apply no_connects; lia. }
  rewrite !Forall_app. split_and!; [|done| |done]; rewrite list.Forall_forall in *; intros x Hx;
    (eapply op_ok_kept; [exact He| |by auto]);
    (destruct Hc as [Hc|[HcX HcY]]; [by left|right]; by rewrite list.Forall_forall in *; auto).
Qed.

(** ** Readers *)

Lemma close_open c cl c' : conn_open (conn_close c cl) c' = true -> conn_open cl c' = true /\ c' <> c.
Proof.
  unfold conn_open, conn_close. cbn. intros H. destruct (decide (c' = c)) as [->|Hne].
  - exfalso. destruct (decide (c < length (cl_conns cl))%nat) as [Hlt|Hge].
    + by rewrite list_lookup_insert_eq in H.
    + rewrite lookup_ge_None_2 in H; [done|]. rewrite length_insert. lia.
  - by rewrite list_lookup_insert_ne in H by congruence.
Qed.

(** An open connection was open, or a handshake just made it. *)
Lemma exec_open e op cl cl' next spawned c : exec e op cl = Some (cl', next, spawned) ->
  conn_open cl' c = true -> conn_open cl c = true \/ Exists (tends c) next.
Proof.
  intros He. destruct op; exec_cases He; unfold conn_open; cbn; autorewrite with lost; try (by left).
  - intros H. destruct (decide (c < length (cl_conns cl))%nat) as [Hlt|Hge].
    + rewrite lookup_app_l in H by done. by left.
    + right. apply Exists_cons_hd. cbn. rewrite lookup_app_r in H by lia.
      destruct (c - length (cl_conns cl))%nat as [|n] eqn:E; [lia|done].
  - intros H. left. by apply (close_open conn cl).
Qed.

(** Whoever tends an open connection hands it on. *)
Lemma exec_tends e op cl cl' next spawned c : exec e op cl = Some (cl', next, spawned) ->
  conn_open cl' c = true -> tends c op -> Exists (tends c) next \/ Exists (tends c) (concat spawned).
Proof.
  intros He. destruct op; exec_cases He; intros Hc' Hc; try done; subst;
    rewrite ?Exists_app; try (left; by apply Exists_cons_hd); try (right; by apply Exists_cons_hd).
  - left. right. by apply Exists_cons_hd.
  - rename select (conn_open _ _ = false) into Hf. congruence.
Qed.

Lemma Exists_swap (P : cop -> Prop) X op Y next rest : (P op -> Exists P next \/ Exists P rest) ->
  Exists P (X ++ op :: Y) -> Exists P (X ++ next ++ Y ++ rest).
Proof. rewrite !Exists_app, Exists_cons. tauto. Qed.

Lemma exec_readers e X op Y cl cl' next spawned : exec e op cl = Some (cl', next, spawned) ->
  (forall c, conn_open cl c = true -> Exists (tends c) (X ++ op :: Y)) ->
  forall c, conn_open cl' c = true -> Exists (tends c) (X ++ next ++ Y ++ concat spawned).
Proof.
  intros He Hr c Hc. destruct (exec_open _ _ _ _ _ _ _ He Hc) as [Ho|Hn].
  - eapply Exists_swap; [|by apply Hr]. by eapply exec_tends.
  - rewrite !Exists_app. tauto.
Qed.

(** The connection in use is watched. *)
Lemma exec_watched e X op Y cl cl' next spawned : exec e op cl = Some (cl', next, spawned) ->
  (forall c, cs_conn (cl_state cl) = Some c -> Exists (watches c) (X ++ op :: Y)) ->
  forall c, cs_conn (cl_state cl') = Some c -> Exists (watches c) (X ++ next ++ Y ++ concat spawned).
Proof.
  intros He Hw c Hc.
  assert ((cs_conn (cl_state cl) = Some c /\ (watches c op -> Exists (watches c) next \/ Exists (watches c) (concat spawned)))
    \/ Exists (watches c) next) as [[Ho Hn]|Hn].
  { destruct op; exec_cases He; rewrite ?Exists_app; try (left; split; [done|by intros []]);
      try (right; by apply Exists_cons_hd).
    all: left; split; [|intros ->].
    all: try done; try (by apply lose_conn in Hc as [? ?]).
    all: try (by left; apply Exists_cons_hd); try (by right; apply Exists_cons_hd).
    left. right. by apply Exists_cons_hd. }
  - eapply Exists_swap; [exact Hn|by apply Hw].
  - rewrite !Exists_app. tauto.
Qed.

(** ** Calls *)

Lemma exec_calls_at e op cl cl' next spawned k : exec e op cl = Some (cl', next, spawned) ->
  (forall a, op <> OCall k a) -> (k < length (cl_calls cl))%nat -> cl_calls cl' !! k = cl_calls cl !! k.
Proof.
  intros He Hop Hk. destruct op; exec_cases He; autorewrite with lost; try done.
  - by rewrite lookup_app_l.
  - rewrite list_lookup_insert_ne; [done|]. intros ->. by eapply Hop.
Qed.

Lemma not_unlists k k' l : k <> k' -> ~ Exists (unlists k) (OCall k' <$> l).
Proof.
  intros Hk [op [Hop Hu]]%Exists_exists. apply list_elem_of_fmap in Hop as (a & -> & _).
  by destruct a.
Qed.

(** A step of another goroutine that takes a call from the list ends it first. *)
Lemma exec_unlists e op cl cl' next spawned k : exec e op cl = Some (cl', next, spawned) ->
  (forall a, op <> OCall k a) -> Exists (unlists k) (next ++ concat spawned) -> Exists (ends k) next.
Proof.
  intros He Hop. rewrite Exists_app. destruct op; exec_cases He; rewrite ?Exists_app, ?Exists_cons, ?Exists_nil;
    cbn; try tauto.
  - intros [Hu|[]]. exfalso. revert Hu. unfold opened. case_match; cbn; rewrite ?Exists_cons, ?Exists_nil; cbn; tauto.
  - intros [Hu|[]]. exfalso. apply not_unlists in Hu; [done|]. intros ->. by eapply Hop.
  - intros [[Hu|[[]|[]]]|[]]. left. destruct (decide (k = k0)) as [->|Hk]; [by apply deliver_unlists|].
    by apply not_unlists in Hu.
  - intros [Hu|[]]. exfalso. apply Exists_exists in Hu as (op & Hin & Hu).
    by apply list_elem_of_fmap in Hin as (k' & -> & _).
Qed.

Lemma calls_of_spec only cl k call c : cl_calls cl !! k = Some (call, c) -> fails only (call, c) = true ->
  k ∈ calls_of only cl.
Proof.
  intros Hk Hf. apply list_elem_of_omap. exists (k, (call, c)). cbn [fst snd]. rewrite Hf. split; [|done].
  apply list_elem_of_lookup. exists k. by rewrite list_lookup_imap, Hk.
Qed.

(** Whoever guards a call's connection goes on to, or has just set out to fail the call. *)
Lemma exec_guards e op cl cl' next spawned k call c : exec e op cl = Some (cl', next, spawned) ->
  cl_calls cl !! k = Some (call, c) -> cc_listed call = true -> guards c op ->
  Exists (guards c) next \/ Exists (guards c) (concat spawned) \/ Exists (ends k) next.
Proof.
  intros He Hk Hl. destruct op; exec_cases He; intros Hg; try done; subst; rewrite ?Exists_app;
    try (left; by apply Exists_cons_hd); try (right; left; by apply Exists_cons_hd).
  - left. right. by apply Exists_cons_hd.
  - right. right. rename select (bool_decide _ = true) into Hp. apply bool_decide_eq_true_1 in Hp.
    apply Exists_exists. exists (OCall k (CFail e0)). split; [|done].
    apply list_elem_of_fmap. exists k. split; [done|]. rewrite Hp.
    destruct only as [c'|]; [|done]. cbn in Hg. subst c'. eapply calls_of_spec; [done|].
    unfold fails. cbn. by rewrite Hl, Nat.eqb_refl.
Qed.

Lemma tends_guards c op : tends c op -> guards c op.
Proof. by destruct op. Qed.

(** call.open is sent on an open connection, or the call fails. *)
Lemma exec_sends e op cl cl' next spawned k call c : exec e op cl = Some (cl', next, spawned) ->
  cl_calls cl !! k = Some (call, c) -> sends_open k op -> conn_open cl c = true \/ Exists (ends k) next.
Proof.
  intros He Hk. destruct op; exec_cases He; intros Hs; try done; subst; simplify_eq.
  all: try (by left); right; by apply Exists_cons_hd.
Qed.

#[local] Instance unlists_dec k op : Decision (unlists k op).
Proof. destruct op as [| | | | | | | | | |k' []| | | | | |]; cbn; apply _. Defined.

(** A call survives the steps of the others. *)
Lemma call_kept e X op Y cl cl' next spawned k call c : exec e op cl = Some (cl', next, spawned) ->
  (forall c, conn_open cl c = true -> Exists (tends c) (X ++ op :: Y)) ->
  cl_calls cl !! k = Some (call, c) -> (forall a, op <> OCall k a) ->
  call_ok (X ++ op :: Y) k call c -> call_ok (X ++ next ++ Y ++ concat spawned) k call c.
Proof.
  intros He Hr Hk Hop [Hf H]. split; [done|].
  assert (~ ends k op) as Hne. { intros Hen. destruct op; try done. cbn in Hen. destruct a; try done; subst; exact (Hop _ eq_refl). }
  destruct H as [H|[H|(Hl & Hu & H)]]; [by left|right; left; by eapply Exists_swap|].
  right. destruct (decide (Exists (unlists k) (next ++ concat spawned))) as [Hun|Hun].
  { left. rewrite !Exists_app. right. left. exact (exec_unlists _ _ _ _ _ _ _ He Hop Hun). }
  assert (Exists (guards c) (X ++ op :: Y) ->
    Exists (ends k) (X ++ next ++ Y ++ concat spawned) \/ Exists (guards c) (X ++ next ++ Y ++ concat spawned)) as Hg.
  { rewrite !Exists_app, Exists_cons. intros [Hg|[Hg|Hg]]; try tauto.
    pose proof (exec_guards _ _ _ _ _ _ _ _ _ He Hk Hl Hg). tauto. }
  rewrite Exists_app in Hun. rewrite !Exists_app, !Exists_cons in *.
  destruct H as [[H|[H|H]]|H]; try tauto.
  destruct (exec_sends _ _ _ _ _ _ _ _ _ He Hk H) as [Ho|He']; [|tauto].
  apply Hr in Ho. rewrite Exists_app, Exists_cons in Ho.
  assert (forall l, Exists (tends c) l -> Exists (guards c) l) as Ht.
  { intros l Hx. eapply Exists_impl; [exact Hx|]. apply tends_guards. }
  pose proof (tends_guards c op). pose proof (Ht X). pose proof (Ht Y). tauto.
Qed.

(** And its own sections. *)
Lemma call_runs o X a Y k call c : call_ok (X ++ OCall k a :: Y) k call c ->
  call_ok (X ++ (OCall k <$> (cexec o a call).1.2) ++ Y) k (cexec o a call).1.1 c.
Proof.
  intros [Hf H]. split; [by apply cexec_failure|].
  destruct (decide (cc_terminal (cexec o a call).1.1 = true)) as [|Hnt]; [by left|]. right.
  rewrite !Exists_app, !Exists_cons in *. destruct H as [H|[[H|[H|H]]|(Hl & Hu & H)]].
  - by apply (cexec_terminal o a) in H.
  - tauto.
  - contradict Hnt. by eapply cexec_ends.
  - tauto.
  - right. assert (a <> CUnlist) as Ha. { intros ->. apply Hu. right. by left. }
    rewrite cexec_listed by done. split; [done|]. split.
    + intros [Hx|[Hx|Hx]]; [tauto| |tauto]. contradict Hnt. by eapply cexec_unlists.
    + destruct H as [[H|[[]|H]]|[H|[[]|H]]]; tauto.
Qed.

Lemma op_in_range k ops cl : Forall (op_ok cl) ops -> (length (cl_calls cl) <= k)%nat ->
  ~ Exists (unlists k) ops.
Proof.
  intros Hops Hk (op & Hop & Hu)%Exists_exists. rewrite list.Forall_forall in Hops. specialize (Hops _ Hop).
  destruct op as [| | | | | | | | | |k' []| | | | | |]; try done. cbn in *. lia.
Qed.

Lemma exec_call_ok e X op Y cl cl' next spawned : exec e op cl = Some (cl', next, spawned) ->
  manager_ok cl (X ++ op :: Y) -> forall k call c, cl_calls cl' !! k = Some (call, c) ->
  call_ok (X ++ next ++ Y ++ concat spawned) k call c.
Proof.
  intros He [_ _ _ Hops Hr _ Hcalls] k call c Hk.
  destruct (decide (k < length (cl_calls cl))%nat) as [Hlt|Hge].
  - destruct op as [| | | | | | | | | |k' a| | | | | |];
      try (rewrite (exec_calls_at _ _ _ _ _ _ _ He) in Hk by done;
           eapply call_kept; [exact He|done|exact Hk|done|by apply Hcalls]).
    destruct (decide (k' = k)) as [->|Hne].
    + cbn in He. unfold exec_call in He. destruct e as [| | |o| | |]; try done.
      destruct (cl_calls cl !! k) as [[call0 c0]|] eqn:E; [|done]. destruct (may_send o c0 cl); [|done]. cbn in He.
      destruct (cexec o a call0) as [[call1 next1] out] eqn:Ec. injection He as <- <- <-.
      cbn in Hk. rewrite list_lookup_insert_eq in Hk by done. injection Hk as <- <-.
      pose proof (call_runs o X a Y k call0 c0 (Hcalls _ _ _ E)) as Hrun. rewrite Ec in Hrun. cbn.
      by rewrite app_nil_r.
    + rewrite (exec_calls_at _ _ _ _ _ _ k He) in Hk; [|congruence|done].
      eapply call_kept; [exact He|done|exact Hk|congruence|by apply Hcalls].
  - assert (~ Exists (unlists k) (X ++ op :: Y)) as Hu by (apply (op_in_range k _ cl Hops); lia).
    assert (exists o, op = ORegister o c /\ call = newClientCall (oq_id o) (oq_stream o) (oq_idle o) /\
      next = [OSendOpen k] /\ spawned = []) as (o & -> & -> & -> & ->).
    { apply lookup_lt_Some in Hk as Hlen. destruct op; exec_cases He; autorewrite with lost in *; try lia.
      - rewrite length_app in Hlen. cbn in Hlen. assert (k = length (cl_calls cl)) as -> by lia.
        rewrite lookup_app_r, Nat.sub_diag in Hk by lia. injection Hk as <- <-. eauto.
      - rewrite length_insert in Hlen. lia. }
    split; [by intros []|]. right. right. split; [done|].
    rewrite !Exists_app, !Exists_cons, !Exists_nil in *. cbn. tauto.
Qed.

(** ** The invariant *)

Lemma call_ok_spawn ops op k call c : ~ unlists k op -> call_ok ops k call c -> call_ok (ops ++ [op]) k call c.
Proof.
  intros Hu [Hf H]. split; [done|]. rewrite !Exists_app, !Exists_cons, !Exists_nil. tauto.
Qed.

Lemma manager_spawn cl ops op : connects op = 0 -> op_ok cl op -> (forall k, ~ unlists k op) ->
  manager_ok cl ops -> manager_ok cl (ops ++ [op]).
Proof.
  intros Hc Hop Hu [H1 H2 H3 H4 H5 H6 H7]. split; try done.
  - rewrite sum_with_app, sum_with_cons, Hc. cbn. lia.
  - apply Forall_app. split; [done|by apply Forall_singleton].
  - intros c Hc'. rewrite Exists_app. auto.
  - intros c Hc'. rewrite Exists_app. auto.
  - intros k call c Hk. apply call_ok_spawn; auto.
Qed.

Lemma manager_step cl ops cl' ops' : ops_step cl ops cl' ops' -> manager_ok cl ops -> manager_ok cl' ops'.
Proof.
  intros [X op Y e cl1 next spawned -> He|op Hop|c] Hok.
  - pose proof Hok as [H1 H2 H3 H4 H5 H6 H7]. split.
    + by destruct (exec_endpoints _ _ _ _ _ _ He) as [-> _].
    + by eapply exec_connectors.
    + by eapply exec_free.
    + by eapply exec_ops.
    + by eapply exec_readers.
    + by eapply exec_watched.
    + by eapply exec_call_ok.
  - apply manager_spawn; [by destruct op|by destruct op; try apply Hop| |done].
    intros k. destruct op as [| | | | | | | | | |k' a| | | | | |]; try (by intros []).
    destruct Hop as [_ Ha]. destruct a; try done; intros [].
  - destruct Hok as [H1 H2 H3 H4 H5 H6 H7]. split; try done.
    intros c' [Hc' _]%close_open. auto.
Qed.

Lemma reached_ok w : reached w -> manager_ok (wd_client w) (pending w).
Proof.
  induction 1 as [endpoints reconnect onClose cl Hnew|w w' _ IH Hs].
  - unfold NewClient in Hnew. destruct (Nat.eqb_spec endpoints 0); [done|]. injection Hnew as <-.
    split; cbn; try done; try lia; try constructor; by intros [].
  - eapply manager_step; [by apply world_ops|done].
Qed.

(** ** Guarantees *)

Lemma pass_order_all cl : (0 < cl_endpoints cl)%nat ->
  pass_order cl (cl_endpoints cl) ≡ₚ seq 0 (cl_endpoints cl).
Proof.
  intros Hn. unfold pass_order. set (n := cl_endpoints cl) in *. set (c := cs_cursor (cl_state cl)).
  apply submseteq_length_Permutation; [|by rewrite length_fmap].
  apply NoDup_submseteq.
  - apply NoDup_alt. intros i j x. rewrite !list_lookup_fmap.
    destruct (seq 0 n !! i) eqn:Ei, (seq 0 n !! j) eqn:Ej; cbn; try done.
    apply lookup_seq in Ei as [-> Hi], Ej as [-> Hj]. intros [= <-] [= E]. cbn in *.
    pose proof (Nat.div_mod_eq (c + i) n). pose proof (Nat.div_mod_eq (c + j) n).
    destruct (lt_eq_lt_dec ((c + i) / n) ((c + j) / n)) as [[Hlt|Heq]|Hlt]; nia.
  - intros x Hx. apply list_elem_of_fmap in Hx as (i & -> & _). apply elem_of_seq.
    pose proof (Nat.mod_upper_bound (c + i) n). lia.
Qed.

(** One goroutine connects at a time, and nobody waits in vain: while a goroutine
    is blocked on the channel of a connection attempt, another one is making it and
    has no connection yet. *)
Theorem one_goroutine_connects w : reached w ->
  0 <= sum_with connects (pending w) <= 1 /\
  forall o ch, OWait o ch ∈ pending w -> cs_connecting (cl_state (wd_client w)) = Some ch ->
    Exists (fun op => connects op = 1) (pending w) /\ cs_conn (cl_state (wd_client w)) = None.
Proof.
  intros [_ Hsum Hfree _ _ _ _]%reached_ok. split; [rewrite Hsum; case_match; lia|].
  intros o ch _ Hch. rewrite Hch in Hsum. split; [|by rewrite Hfree by eauto].
  apply Exists_exists. destruct (List.find (fun op => connects op =? 1) (pending w)) as [op|] eqn:E.
  - apply find_some in E as [Hin Hc]. exists op. split; [by apply list_elem_of_In|by apply Z.eqb_eq].
  - exfalso. assert (sum_with connects (pending w) = 0); [|lia].
    clear Hsum. induction (pending w) as [|op l IH]; [done|]. cbn in E.
    rewrite sum_with_cons. destruct (Z.eqb_spec (connects op) 1) as [|Hn]; [done|]. rewrite IH by done.
    destruct op; cbn in *; lia.
Qed.


(** C21: no call is left hanging.  A call that has not ended is about to end, or its
    call.open is about to be sent, or a goroutine still reads its connection or is
    about to fail its calls; an open connection always has a reader, and the connection
    the client uses is taken away by one; so when no goroutine runs any more, every
    call has ended, every connection is closed and the client has none. *)
Theorem no_call_stranded w : reached w ->
  (forall k call c, cl_calls (wd_client w) !! k = Some (call, c) ->
     cc_terminal call = true \/ Exists (ends k) (pending w) \/
     Exists (sends_open k) (pending w) \/ Exists (guards c) (pending w)) /\
  (forall c, conn_open (wd_client w) c = true -> Exists (tends c) (pending w)) /\
  (forall c, cs_conn (cl_state (wd_client w)) = Some c -> Exists (watches c) (pending w)) /\
  (pending w = [] ->
     Forall (fun x => cc_terminal x.1 = true) (cl_calls (wd_client w)) /\
     Forall (fun opened => opened = false) (cl_conns (wd_client w)) /\
     cs_conn (cl_state (wd_client w)) = None /\ cs_connecting (cl_state (wd_client w)) = None).
Proof.
  intros [_ Hsum _ _ Hr Hw Hc]%reached_ok.
  assert (forall k call c, cl_calls (wd_client w) !! k = Some (call, c) ->
     cc_terminal call = true \/ Exists (ends k) (pending w) \/
     Exists (sends_open k) (pending w) \/ Exists (guards c) (pending w)) as Hcalls.
  { intros k call c Hk. destruct (Hc _ _ _ Hk) as [_ H]. tauto. }
  split_and!; [done..|]. intros Hp. rewrite Hp in *. split_and!.
  - apply Forall_lookup. intros k [call c] Hk. apply Hcalls in Hk as [|[H|[H|H]]]; [done|by inversion H..].
  - apply Forall_lookup. intros c [] Hk; [|done]. exfalso.
    assert (conn_open (wd_client w) c = true) as H%Hr by (unfold conn_open; by rewrite Hk). inversion H.
  - destruct (cs_conn _) as [c|]; [|done]. exfalso. specialize (Hw c eq_refl). inversion Hw.
  - cbn in Hsum. by destruct (cs_connecting _).
Qed.

(** ** Runs *)

(** A script: what a goroutine does on an envAnswer, a new call of [open] or [Close], a use
    of a call, a connection that breaks. *)
Inductive command :=
  | CmdRun (i : nat) (e : envAnswer) | CmdOpen (o : openRequest) | CmdClose | CmdBreak (c : nat).
Definition play_command (cmd : command) (w : world) : option world :=
  match cmd with
  | CmdRun i e => run_op i e w
  | CmdOpen o => Some (MkWorld (wd_client w) (wd_gs w ++ [[OConnection o]]))
  | CmdClose => Some (MkWorld (wd_client w) (wd_gs w ++ [[OClose]]))
  | CmdBreak c => Some (MkWorld (conn_close c (wd_client w)) (wd_gs w))
  end.
Fixpoint play (cmds : list command) (w : world) : option world :=
  match cmds with
  | [] => Some w
  | cmd :: cmds => w ← play_command cmd w; play cmds w
  end.

Lemma play_reached cmds : forall w w', reached w -> play cmds w = Some w' -> reached w'.
Proof.
  induction cmds as [|cmd cmds IH]; intros w w' Hw; [by intros [= <-]|]. cbn.
  destruct (play_command cmd w) as [w1|] eqn:E; [|done]. cbn. apply IH.
  eapply reached_step; [exact Hw|]. destruct cmd; simplify_eq/=; by econstructor.
Qed.

Definition three_endpoints : world :=
  MkWorld (default (MkClient 0 (MkReconnectPolicy false 0) (MkClientState 0 None None 0 false false false) [] [])
    (NewClient 3 (MkReconnectPolicy false 2) false)) [].
Definition some_call : openRequest := MkOpen "c1" "unary" 0.
Definition other_call : openRequest := MkOpen "c2" "server_stream" 0.

Lemma three_reached : reached three_endpoints.
Proof. by eapply (reached_new 3 (MkReconnectPolicy false 2) false). Qed.

(** A handshake that succeeds. *)
Definition greeted : envAnswer :=
  Handshake None None (Some ((sframe0 "hello.ack") {{ sf_Protocol := sdkProtocol }})).
(** A goroutine connects to the second endpoint while another one waits, which shares the
    connection; it breaks, and both calls fail. *)
Definition connect_second : list command :=
  [CmdOpen some_call; CmdRun 0 Proceed; CmdOpen other_call; CmdRun 1 Proceed;
   CmdRun 0 Proceed; CmdRun 0 (Handshake (Some (DialFailure "refused")) None None)].
Definition share : list command :=
  [CmdRun 0 Proceed; CmdRun 0 greeted; CmdRun 0 Proceed; CmdRun 0 Proceed; CmdRun 1 Proceed;
   CmdRun 1 Proceed; CmdRun 1 Proceed; CmdRun 1 (SendAnswers Sent); CmdRun 0 Proceed; CmdRun 0 Proceed].
Definition lose_it : list command :=
  [CmdBreak 0; CmdRun 0 (SendAnswers Lost); CmdRun 2 ReadFailed; CmdRun 2 Proceed; CmdRun 2 (MapOrder [0%nat; 1%nat])].

Definition waiting : world := default three_endpoints (play connect_second three_endpoints).
Definition lost : world := default three_endpoints (play (connect_second ++ share ++ lose_it) three_endpoints).

Lemma waiting_reached : reached waiting.
Proof. eapply (play_reached connect_second); [apply three_reached|vm_compute; reflexivity]. Qed.
Lemma lost_reached : reached lost.
Proof. eapply (play_reached (connect_second ++ share ++ lose_it)); [apply three_reached|vm_compute; reflexivity]. Qed.

Lemma one_goroutine_connects_witness :
  (exists ch, OWait other_call ch ∈ pending waiting /\
     cs_connecting (cl_state (wd_client waiting)) = Some ch) /\
  Exists (fun op => connects op = 1) (pending waiting).
Proof.
  assert (OWait other_call 0 ∈ pending waiting) as Hin by (vm_compute; right; left).
  assert (cs_connecting (cl_state (wd_client waiting)) = Some 0%nat) as Hc by (vm_compute; reflexivity).
  split; [by exists 0%nat|].
  destruct (one_goroutine_connects waiting waiting_reached) as [_ H]. by destruct (H other_call 0%nat Hin Hc).
Defined.


(** The goroutines run to their ends. *)
Definition run_out (i n : nat) : list command := replicate n (CmdRun i (SendAnswers Lost)).
Definition quiet : world :=
  default three_endpoints (play (connect_second ++ share ++ lose_it ++ run_out 0 4 ++ run_out 1 3 ++ run_out 2 5) three_endpoints).
Lemma quiet_reached : reached quiet.
Proof.
  eapply (play_reached (connect_second ++ share ++ lose_it ++ run_out 0 4 ++ run_out 1 3 ++ run_out 2 5));
    [apply three_reached|vm_compute; reflexivity].
Qed.

Lemma no_call_stranded_witness :
  length (cl_calls (wd_client quiet)) = 2%nat /\
  Forall (fun x => cc_terminal x.1 = true) (cl_calls (wd_client quiet)) /\
  cs_conn (cl_state (wd_client quiet)) = None.
Proof.
  split; [vm_compute; reflexivity|].
  destruct (no_call_stranded quiet quiet_reached) as (_ & _ & _ & H).
  destruct (H ltac:(vm_compute; reflexivity)) as (Hc & _ & Hn & _). by split.
Defined.

(** Behind the lost connection the next pass starts at the third endpoint. *)
Example fails_over : cs_cursor (cl_state (wd_client lost)) = 2%nat /\
  pass_order (wd_client lost) 3 = [2; 0; 1]%nat.
Proof. vm_compute. split; reflexivity. Qed.

(** *** What goes wrong *)

(** [Close] while another goroutine connects: it finds no connection and no call, and
    nothing reads [closed] afterwards; the client ends with a connection in use, and
    the call goes on. *)
Definition close_while_connecting : list command :=
  [CmdOpen some_call; CmdRun 0 Proceed; CmdRun 0 Proceed; CmdClose; CmdRun 1 Proceed; CmdRun 1 (MapOrder []);
   CmdRun 0 greeted; CmdRun 0 Proceed; CmdRun 0 Proceed; CmdRun 0 Proceed; CmdRun 0 Proceed;
   CmdRun 0 (SendAnswers Sent)].
Theorem close_undone : exists w, reached w /\ play close_while_connecting three_endpoints = Some w /\
  cs_closed (cl_state (wd_client w)) = true /\
  cs_conn (cl_state (wd_client w)) = Some 0%nat /\ conn_open (wd_client w) 0 = true /\
  wd_gs w = [[]; []; [ORead 0]].
Proof.
  destruct (play close_while_connecting three_endpoints) as [w|] eqn:E; [|vm_compute in E; discriminate E].
  exists w. split; [exact (play_reached _ _ _ three_reached E)|]. split; [done|].
  vm_compute in E. injection E as <-. repeat split; reflexivity.
Qed.
