(* ===== verification/SdkCalls.v ===== *)
(** * Making calls: options, deadlines and typed calls (client.go, transport.go)

    The options of a call and how they are layered, the deadlines that [open] derives
    and the frame it sends, the checks of what a server sent, the typed calls around
    them, and the endpoints a client accepts.  [json.Marshal] and [json.Unmarshal] of the
    program's types are arguments; so is what the call answers. *)
From S2P Require Import Prelude GoStd Json Libs LocalSock Contract GoText Objects SdkRuntime SdkClient SdkServer.
From S2P Require Import SdkSchema SdkValidate SdkTypes SdkMarshal SdkEncoding SdkService.
#[local] Open Scope Z_scope.

(** ** Options of a call *)

(** [CallOptions]; a nil map of metadata is [None]. *)
Record callOptions := MkCallOpts {
  op_Timeout : Z;
  op_IdleTimeout : Z;
  op_Metadata : option (gmap string string);
  op_IdempotencyKey : string;
  op_Instance : string;
  op_Idempotent : bool }.
#[global] Instance callOptions_eta : Eta callOptions := fun x =>
  MkCallOpts (op_Timeout x) (op_IdleTimeout x) (op_Metadata x) (op_IdempotencyKey x) (op_Instance x)
    (op_Idempotent x).
Definition noCallOptions : callOptions := MkCallOpts 0 0 None EmptyString EmptyString false.

(** [CallOption]: one of the functions below. *)
Inductive CallOption :=
  | WithTimeout (d : Z) | WithIdleTimeout (d : Z) | WithMetadata (md : gmap string string)
  | WithIdempotencyKey (key : string) | WithInstance (id : string) | IdempotentCall.
(** [for k, v := range md { o.Metadata[k] = v }] into a map made when there is none. *)
Definition merge_metadata (md : gmap string string) (old : option (gmap string string)) : gmap string string :=
  md ∪ default ∅ old.
Definition apply_call_option (o : callOptions) (opt : CallOption) : callOptions :=
  match opt with
  | WithTimeout d => o {{ op_Timeout := d }}
  | WithIdleTimeout d => o {{ op_IdleTimeout := d }}
  | WithMetadata md => o {{ op_Metadata ::= fun old => Some (merge_metadata md old) }}
  | WithIdempotencyKey key => o {{ op_IdempotencyKey := key }}
  | WithInstance id => o {{ op_Instance := id }}
  | IdempotentCall => o {{ op_Idempotent := true }}
  end.

(** The options that [Client.WithOptions] adds. *)
Definition merged_options (o : callOptions) : list CallOption :=
  (if 0 <? op_Timeout o then [WithTimeout (op_Timeout o)] else [])
  ++ (if 0 <? op_IdleTimeout o then [WithIdleTimeout (op_IdleTimeout o)] else [])
  ++ (match op_Metadata o with
      | Some md => if (size md =? 0)%nat then [] else [WithMetadata md]
      | None => []
      end)
  ++ (if is_empty (op_IdempotencyKey o) then [] else [WithIdempotencyKey (op_IdempotencyKey o)])
  ++ (if is_empty (op_Instance o) then [] else [WithInstance (op_Instance o)])
  ++ (if op_Idempotent o then [IdempotentCall] else []).
(** The default options of the client that [WithOptions] returns. *)
Definition WithOptions (o : callOptions) (defaultOpts : list CallOption) : list CallOption :=
  defaultOpts ++ merged_options o.

(** [CallInfo] without the trailers. *)
Record CallInfo := MkCallInfo {
  ci_Service : string;
  ci_Method : string;
  ci_Stream : string;
  ci_Options : callOptions }.
Definition buildInfo (defaultOpts : list CallOption) (service method stream : string) (opts : list CallOption)
    : CallInfo :=
  MkCallInfo service method stream
    (fold_left apply_call_option opts (fold_left apply_call_option defaultOpts noCallOptions)).

(** [runChain]: the interceptors around [innermost], and around all of them, for unary
    calls, [retry]. *)
Section Chain.
Context {M : Type}.
Definition ClientCallNext : Type := CallInfo -> M.
Definition client_chain (interceptors : list (CallInfo -> ClientCallNext -> M)) (innermost : ClientCallNext)
    : ClientCallNext :=
  fold_right (fun interceptor inner info => interceptor info inner) innermost interceptors.
Definition runChain (interceptors : list (CallInfo -> ClientCallNext -> M)) (retryDisabled : bool)
    (retry : CallInfo -> ClientCallNext -> M) (info : CallInfo) (innermost : ClientCallNext) : M :=
  let next := client_chain interceptors innermost in
  if String.eqb (ci_Stream info) "unary" && negb retryDisabled then retry info next else next info.
End Chain.

(** ** Deadlines: [open] *)

(** The timeout of the call; [until]: the time to the deadline of the context. *)
Definition effective_timeout (timeout : Z) (until : option Z) : Z :=
  match until with
  | Some u => if (timeout =? 0) || (u <? timeout) then Z.max Millisecond u else timeout
  | None => timeout
  end.
Definition grace (deadlineGrace timeout : Z) : Z :=
  if 0 <? deadlineGrace then deadlineGrace else Z.max Second (Z.quot timeout 10).
(** The milliseconds of a duration in a frame. *)
Definition frame_ms (d : Z) : option Z := if 0 <? d then Some (Z.max 1 (Z.quot d Millisecond)) else None.
(** After which time the client fails the call itself; [elapsed] went by connecting. *)
Definition local_timer (deadlineGrace timeout elapsed : Z) : option Z :=
  if 0 <? timeout
  then Some (Z.max 0 (int64 (int64 (timeout + grace deadlineGrace timeout) - elapsed)))
  else None.
(** How long connecting may take. *)
Definition connect_limit (deadlineGrace timeout : Z) : option Z :=
  if 0 <? timeout then Some (int64 (timeout + grace deadlineGrace timeout)) else None.

Definition open_frame (id : string) (info : CallInfo) (payload : string) (timeout : Z) : sframe :=
  let o := ci_Options info in
  (sframe0 "call.open")
    {{ sf_CallID := id; sf_Service := ci_Service info; sf_Method := ci_Method info;
       sf_Payload := Some payload; sf_Idempotency := op_IdempotencyKey o; sf_InstanceID := op_Instance o;
       sf_Metadata := map_to_list (default ∅ (op_Metadata o));
       sf_TimeoutMS := frame_ms timeout; sf_IdleTimeout := frame_ms (op_IdleTimeout o) }}.

(** ** What the server sent *)

(** [decodeReceived]; [decode] is [json.Unmarshal] into the Go type. *)
Definition decodeReceived `{Truncation} {A} (decode : string -> option A) (schema : Object) (raw reason : string)
    : option (Error + A) :=
  let raw := if is_empty raw then "null"%string else raw in
  vs ← validate schema raw;
  Some (match vs with
        | _ :: _ =>
            let message := if String.eqb reason "invalid_output_item"
                           then "Invalid output stream item"%string else "Invalid response"%string in
            inl (with_violations (detailed CodeProtocolError message "client" reason false) (violationList vs))
        | [] => match decode raw with
                | Some v => inr v
                | None => inl (detailed CodeProtocolError "Invalid response" "client" reason false)
                end
        end).

(** An error of a typed call: of the SDK, of encoding/json, of the program's iterator. *)
Inductive typedError := CallFailed (e : Error) | NotEncodable | ProducerFailed (text : string).

(** [Unary]: [payload] is the encoded request, [call] what [unaryRaw] answers to it. *)
Definition Unary `{Truncation} {Resp} (payload : option string) (call : string -> Error + string)
    (decode : string -> option Resp) (schema : Object) : option (typedError + Resp) :=
  match payload with
  | None => Some (inl NotEncodable)
  | Some payload =>
      match call payload with
      | inl e => Some (inl (CallFailed e))
      | inr raw =>
          r ← decodeReceived decode schema raw "invalid_response";
          Some (match r with inl e => inl (CallFailed e) | inr v => inr v end)
      end
  end.

(** The answer of a unary method of a server without interceptors: [invoke], and
    [encodeOutput] of what the handler returns. *)
Definition serve_unary `{Truncation} {Req Resp W} (decode : string -> option Req) (request response : Object)
    (handler : Req -> @ServerCallNext W Resp) (encode : Resp -> option string) (raw : string) (w : W)
    : option ((Error + string) * W) :=
  match invoke_method decode request [] handler raw w with
  | None => None
  | Some (inl err, w) => Some (inl (errorOf None err), w)
  | Some (inr resp, w) => r ← encodeOutput response (encode resp) "invalid_response"; Some (r, w)
  end.

(** ** Client streams *)

(** What [ClientStream] yields of its items, each as [json.Marshal] writes it. *)
Fixpoint encoded_items (items : list (option string)) : list string :=
  match items with
  | Some raw :: items => raw :: encoded_items items
  | _ => []
  end.
(** What [ClientStreamSeq] yields, and the error of the producer it remembers. *)
Fixpoint produced_items (items : list (typedError + option string)) : list string * option typedError :=
  match items with
  | [] => ([], None)
  | inl e :: _ => ([], Some e)
  | inr None :: _ => ([], Some NotEncodable)
  | inr (Some raw) :: items => let '(l, e) := produced_items items in (raw :: l, e)
  end.

(** The goroutine of [clientStreamRaw]: the items, then the end of the input. *)
Definition pump (items : list string) : list caction := concat (sendInput <$> items) ++ closeInput.

(** [ClientStream] and [ClientStreamSeq] behind the call: [answer] is what
    [clientStreamRaw] returns. *)
Definition ClientStream `{Truncation} {Resp} (payload : option string) (items : list (option string))
    (call : string -> list caction -> Error + string) (decode : string -> option Resp) (schema : Object)
    : option (typedError + Resp) :=
  Unary payload (fun payload => call payload (pump (encoded_items items))) decode schema.
Definition ClientStreamSeq `{Truncation} {Resp} (payload : option string) (items : list (typedError + option string))
    (call : string -> list caction -> Error + string) (decode : string -> option Resp) (schema : Object)
    : option (typedError + Resp) :=
  match payload with
  | None => Some (inl NotEncodable)
  | Some payload =>
      let '(l, failed) := produced_items items in
      match call payload (pump l), failed with
      | inl e, _ => Some (inl (CallFailed e))
      | inr _, Some e => Some (inl e)
      | inr raw, None => Unary (Some payload) (fun _ => inr raw) decode schema
      end
  end.

(** ** Streams from the server *)

(** [Close]: nothing when the stream is done. *)
Definition close_stream (done : bool) : list caction :=
  if done then [] else [CAbort (error CodeCancelled "Call was cancelled" false) "client_closed"].

(** [Stream.All] over what [Recv] returns: what is yielded while [yield] answers true,
    and whether the stream is closed behind. *)
Fixpoint stream_All {Item} (yield : received Item -> bool) (recvs : list (received Item))
    : list (received Item) * bool :=
  match recvs with
  | [] | EndOfInput :: _ => ([], false)
  | Failed err :: _ => ([Failed err], false)
  | Received item :: recvs =>
      if yield (Received item)
      then let '(l, closed) := stream_All yield recvs in (Received item :: l, closed)
      else ([Received item], true)
  end.

(** ** Endpoints: transport.go *)

(** [endpoint]: the URL, what is dialled, the text. *)
Definition errPipeOffWindows : string :=
  "named pipes are Windows-only; use a Unix socket (unix:///path)".
Definition errUnixOnWindows : string :=
  "Unix sockets are not supported on Windows; use a named pipe (pipe://NAME)".
Definition pipeName (name : string) : string + string :=
  let name := TrimPrefix name PipePrefix in
  if is_empty name || (256 <? slen name) || ContainsByte name "\"
  then inl ("invalid pipe name " +:+ name +:+ ": 1-256 characters, no backslash")
  else inr name.
Definition parseEndpoint (windows : bool) (raw : string) : string + Endpoint :=
  if HasPrefix raw "pipe://" then
    if negb windows then inl errPipeOffWindows
    else match pipeName (TrimPrefix raw "pipe://") with
    | inl err => inl err
    | inr name => inr (MkEndpoint "ws://localhost/" (DialNamedPipe name) raw)
    end
  else if HasPrefix raw "unix://" then
    if windows then inl errUnixOnWindows
    else
      let path := TrimPrefix raw "unix://" in
      if is_empty path then inl "unix:// needs a socket path, e.g. unix:///run/meshcall.sock"%string
      else inr (MkEndpoint "ws://localhost/" (DialUnix path) raw)
  else if HasPrefix raw "ws://" || HasPrefix raw "wss://" then inr (MkEndpoint raw DialTCP raw)
  else inl ("endpoint must be ws://, wss://, unix:///path or pipe://NAME, got " +:+ raw).

(** The durations of [ClientOptions] that [NewClient] fills in. *)
Record clientTimes := MkClientTimes {
  ct_MaxFrameSize : Z; ct_PingInterval : Z; ct_PingTimeout : Z; ct_HandshakeTimeout : Z }.
Definition if_zero (d : Z) (x : Z) : Z := if x =? 0 then d else x.
Definition client_defaults (o : clientTimes) : clientTimes :=
  MkClientTimes (if_zero 67108864 (ct_MaxFrameSize o)) (if_zero (15 * Second) (ct_PingInterval o))
    (if_zero (10 * Second) (ct_PingTimeout o)) (if_zero (10 * Second) (ct_HandshakeTimeout o)).

(** ** Layers of options *)

(** What the options of [WithOptions] change of the options below them. *)
Definition overlay (o base : callOptions) : callOptions :=
  MkCallOpts (if 0 <? op_Timeout o then op_Timeout o else op_Timeout base)
    (if 0 <? op_IdleTimeout o then op_IdleTimeout o else op_IdleTimeout base)
    (match op_Metadata o with
     | Some md => if (size md =? 0)%nat then op_Metadata base else Some (md ∪ default ∅ (op_Metadata base))
     | None => op_Metadata base
     end)
    (if is_empty (op_IdempotencyKey o) then op_IdempotencyKey base else op_IdempotencyKey o)
    (if is_empty (op_Instance o) then op_Instance base else op_Instance o)
    (op_Idempotent o || op_Idempotent base).

Lemma merged_overlay o base : fold_left apply_call_option (merged_options o) base = overlay o base.
Proof.
  destruct o as [t i md k n b], base as [t' i' md' k' n' b']. unfold merged_options, overlay.
  rewrite !fold_left_app. cbn [op_Timeout op_IdleTimeout op_Metadata op_IdempotencyKey op_Instance op_Idempotent].
  destruct (0 <? t), (0 <? i), md as [md|]; try destruct (size md =? 0)%nat;
    destruct (is_empty k), (is_empty n), b; reflexivity.
Qed.

(** A call has the client's default options, then those of each [WithOptions] on top of
    the ones before, then its own; metadata is joined key by key. *)
Theorem options_layered o defaultOpts service method stream opts :
  ci_Options (buildInfo (WithOptions o defaultOpts) service method stream opts) =
  fold_left apply_call_option opts (overlay o (ci_Options (buildInfo defaultOpts service method stream []))).
Proof. unfold buildInfo, WithOptions. cbn. by rewrite fold_left_app, merged_overlay. Qed.

(** ** Deadlines *)

Lemma quot_ms d : 0 < d -> 1 <= Z.max 1 (Z.quot d Millisecond) /\
  Z.max 1 (Z.quot d Millisecond) * Millisecond <= Z.max d Millisecond.
Proof.
  unfold Millisecond. intros Hd. rewrite Z.quot_div_nonneg by lia.
  pose proof (Z.mul_div_le d 1000000 ltac:(lia)). lia.
Qed.



(** ** Endpoints *)

(** An endpoint that a client of the SDK accepts is one for the Router's tools, which
    dial the same (internal/localsock; they take any other text for a URL). *)
Theorem endpoints_agree pf raw e :
  parseEndpoint (pf_windows pf) raw = inr e -> Parse_endpoint pf raw = inr e.
Proof.
  unfold parseEndpoint, Parse_endpoint, pipesSupported, UnixSupported, pipeName, PipeName.
  destruct (HasPrefix raw "pipe://"), (HasPrefix raw "unix://"), (pf_windows pf); cbn; repeat case_match;
    intros; simplify_eq; done.
Qed.
Example endpoints_agree_somewhere pf : pf_windows pf = false ->
  Parse_endpoint pf "unix:///run/meshcall.sock" =
    inr (MkEndpoint "ws://localhost/" (DialUnix "/run/meshcall.sock") "unix:///run/meshcall.sock").
Proof. intros Hw. apply endpoints_agree. by rewrite Hw. Qed.

(** ** A typed call from end to end *)

Section Typed.
Context `{Types} `{AnyValues} {F : Floats} {Tr : Truncation} {Laws : TypeLaws} {Ints : IntegerLaws}.
Context {Req Resp W : Type}.
Context (enc_req : Req -> option string) (dec_req : string -> option Req).
Context (enc_resp : Resp -> option string) (dec_resp : string -> option Resp).

(** A value of a type, as encoding/json writes it and reads it again. *)
Definition carried {A} (enc : A -> option string) (dec : string -> option A) (t : nat) (x : A) (raw : string) : Prop :=
  enc x = Some raw /\ dec raw = Some x /\ exists t' value rest,
    points_to t t' /\ marshals t' value /\ decode_next raw = Some (value, rest).

Lemma carried_validates {A} (enc : A -> option string) dec fuel t schema x raw :
  schemaOf fuel t = Some schema -> carried enc dec t x raw ->
  validate schema raw = Some [] /\ dec raw = Some x /\ is_empty raw = false.
Proof.
  intros Hs (_ & Hd & t' & v & rest & Ht & Hv & Hraw). split; [by eapply marshalled_validates|].
  split; [done|]. by destruct raw.
Qed.

Definition answers (sreq sresp : Object) (handler : Req -> @ServerCallNext W Resp) (w : W) (raw : string) : Error + string :=
  match serve_unary dec_req sreq sresp handler enc_resp raw w with
  | Some (r, _) => r
  | None => inl (error CodeInternal "Internal service error" false)
  end.

End Typed.

Definition tree_handler (req : string) : @ServerCallNext nat string := fun w => (inr sample_tree, S w).


(** *** What goes wrong *)

(** A timeout without end in sight, the longest [time.Duration], overflows with its
    grace: connecting times out at once and the call's own timer fires at once. *)
Theorem endless_timeout_expires elapsed : 0 <= elapsed <= 2 ^ 59 ->
  exists limit, connect_limit 0 MaxInt64 = Some limit /\ limit < 0 /\ local_timer 0 MaxInt64 elapsed = Some 0.
Proof.
  intros He. eexists. split; [reflexivity|]. split; [done|]. unfold local_timer. cbn [Z.ltb Z.compare].
  change (0 <? MaxInt64) with true. cbn iota. f_equal.
  change (int64 (MaxInt64 + grace 0 MaxInt64)) with (-8301034833169298229).
  rewrite int64_id by (unfold MinInt64, MaxInt64; lia). lia.
Qed.

(** An item of [ClientStream] that does not encode ends the input as if it were
    complete: the server answers what it makes of the items before it, and the caller
    gets that answer and no error.  [ClientStreamSeq] returns the error, but the server
    has seen a complete stream as well. *)
Theorem unencodable_item_lost {F : Floats} {Tr : Truncation} {Resp} (payload first : string)
    (call : string -> list caction -> Error + string) (decode : string -> option Resp) schema rest :
  ClientStream (Some payload) (Some first :: None :: rest) call decode schema =
    ClientStream (Some payload) [Some first] call decode schema /\
  (forall raw, call payload (pump [first]) = inr raw ->
     ClientStreamSeq (Some payload) (inr (Some first) :: inr None :: (inr <$> rest)) call decode schema =
       Some (inl NotEncodable)).
Proof. split; [done|]. intros raw Hraw. unfold ClientStreamSeq. cbn [produced_items]. by rewrite Hraw. Qed.
