(* ===== verification/SdkReflect.v ===== *)
(** * Services from Go structs: ReflectService of di.go

    A struct that embeds [ServiceMeta] becomes a service: its tag gives the name, its
    exported methods the calls.  Package reflect is the table of SdkSchema and the
    signatures of SdkInject; what [inspectMethodSource] finds in the Go sources at run
    time is an argument (nothing, where the sources are not at hand).  Errors and the
    panics of [add] are values; the values of parameters are a type [V]. *)
From S2P Require Import Prelude GoStd Json Libs LocalSock Protocol Outbox Breaker Auth State.
From S2P Require Import Deadline Dedup Contract Objects Balance Management OpenApi Router.
From S2P Require Import GoText Printing SdkNames SdkRuntime SdkServer SdkSchema SdkInject SdkService.
#[local] Open Scope Z_scope.

(** ** Names *)

(** The tables of package unicode that GoText does not need. *)
Class LetterCases : Type := { IsLower : Z -> bool; IsDigit : Z -> bool }.

Section Names.
Context `{Unicode} `{LetterCases}.

(** Whether an underscore goes in front of an upper-case rune behind [prev]. *)
Definition word_starts (prev : Z) (rest : list Z) : bool :=
  let nextLower := match rest with n :: _ => IsLower n | [] => false end in
  negb (prev =? 95) && (IsLower prev || IsDigit prev || (IsUpper prev && nextLower)).
Fixpoint snake (prev : option Z) (l : list Z) : list Z :=
  match l with
  | [] => []
  | r :: rest =>
      (if IsUpper r
       then (match prev with Some p => if word_starts p rest then [95] else [] | None => [] end) ++ [ToLower r]
       else [r]) ++ snake (Some r) rest
  end.
Definition camelToSnake (s : string) : string := text_of (snake None (fst <$> runes s)).
Definition ToLower_ (s : string) : string := text_of (ToLower <$> (fst <$> runes s)).
End Names.

(** [inl]: an unknown policy. *)
Definition parseBalanceTag (tag : string) : string + BalancePolicy :=
  let tag := TrimSpace_ tag in
  if is_empty tag || String.eqb tag "round_robin" then inr RoundRobin
  else if String.eqb tag "least_inflight" then inr LeastInflight
  else if String.eqb tag "random" then inr Random
  else if String.eqb tag "disabled" || String.eqb tag "none" then inr NoBalancing
  else
    let field := TrimSpace_ (TrimPrefix tag "sticky:") in
    if HasPrefix tag "sticky:" && negb (is_empty field) then inr (Sticky field) else inl tag.

Section Annotations.
Context `{Unicode}.

Definition doc_option (line : string) : option MethodOption :=
  let l := ToLower_ (TrimSpace_ line) in
  if String.eqb l "@idempotent" then Some Idempotent
  else if Contains ["@readonly"; "@read_only"; "@read-only"]%string l then Some ReadOnly
  else if String.eqb l "@destructive" then Some Destructive
  else None.
Definition parseDocAnnotations (doc : string) : string * list MethodOption :=
  let lines := Split (of_byte 10) doc in
  (TrimSpace_ (GoStd.Join (chr 10) (filter (fun l => doc_option l = None) lines)), omap doc_option lines).
End Annotations.

(** ** Methods *)

(** [reflect.Method] of an exported method: its arguments behind the receiver, its
    results, and what its source tells ([paramNames] from the context on). *)
Record goMethod := MkGoMethod {
  gm_Name : string;
  gm_In : list nat;
  gm_Out : list nat;
  gm_paramNames : list string;
  gm_doc : string }.

(** The types ReflectService looks for; [duplexInOut] of a type that implements
    [duplexChannelParam]. *)
Class ReflectTypes : Type := {
  errType : nat;
  serviceMetaType : nat;
  duplexInOut : nat -> option (nat * nat) }.

Record reflectedBusinessParam := MkParam { rb_argIndex : nat; rb_name : string; rb_typ : nat }.

(** The stream argument with its index. *)
Inductive streamArg :=
  | NoStream
  | DuplexArg (index input output : nat)
  | SeqArg (index item : nat).

Inductive reflect_error :=
  | NotStruct
  | NoServiceMeta
  | InvalidName (e : name_error)
  | UnknownBalance (tag : string)
  | BadDependencies (e : registry_error)
  | StreamNotLast (method : string)
  | BadResults (method : string)
  | NoMethods
  | AddPanicked (p : add_panic).

Section Reflect.
Context `{Types} `{AnyValues} `{Signatures} `{ReflectTypes} `{Unicode} `{LetterCases}.

Definition findServiceMetaTag (st : nat) : option (list (string * string)) :=
  match List.find (fun f => (fd_Type f =? serviceMetaType)%nat) (rt_Fields (type_of st)) with
  | Some f => Some (fd_Tag f)
  | None => None
  end.

(** [iter.Seq2[Item, error]]. *)
Definition seq2ElemType (t : nat) : option nat :=
  match signature_of t with
  | Some (MkSignature [y] []) =>
      match signature_of y with
      | Some (MkSignature [item; e] [b]) => if is_kind KBool b && (e =? errType)%nat then Some item else None
      | _ => None
      end
  | _ => None
  end.

(** The arguments behind the context, with their indices: the receiver has index 0. *)
Definition arguments (ins : list nat) : list (nat * nat) := zip (seq 2 (length ins)) ins.
Definition injected_args (has_dep : nat -> bool) (ins : list nat) : list (nat * nat) :=
  filter (fun a => has_dep a.2 = true) (arguments ins).
Definition business_args (has_dep : nat -> bool) (ins : list nat) : list (nat * nat) :=
  filter (fun a => has_dep a.2 = false) (arguments ins).

(** The name of a parameter: that of the source, or [argN] for the N-th one. *)
Definition param_name (paramNames : list string) (arg position : nat) : string :=
  let name := default EmptyString (paramNames !! (arg - 1)%nat) in
  if is_empty name || String.eqb name "_" then "arg" +:+ itoa (Z.of_nat position) else name.

(** The loop over the arguments that are not injected. *)
Fixpoint classify_args (method : string) (paramNames : list string) (args : list (nat * nat))
    (params : list reflectedBusinessParam) : reflect_error + streamArg * list reflectedBusinessParam :=
  match args with
  | [] => inr (NoStream, params)
  | (arg, t) :: args =>
      let isLast := match args with [] => true | _ => false end in
      match duplexInOut t, seq2ElemType t with
      | Some (i, o), _ => if isLast then inr (DuplexArg arg i o, params) else inl (StreamNotLast method)
      | None, Some item => if isLast then inr (SeqArg arg item, params) else inl (StreamNotLast method)
      | None, None =>
          classify_args method paramNames args
            (params ++ [MkParam arg (param_name paramNames arg (length params)) t])
      end
  end.

(** The shape with the types of the response, the input and the output, and whether
    the last result is an error. *)
Record methodShape_ := MkShape {
  sh_stream : string; sh_resp : option nat; sh_in : option nat; sh_out : option nat; sh_returnsErr : bool }.

(** [(Resp, error)] or [Resp]. *)
Definition response_of (outs : list nat) : option (nat * bool) :=
  match outs with
  | [r] => if (r =? errType)%nat then None else Some (r, false)
  | [r; e] => if (e =? errType)%nat then Some (r, true) else None
  | _ => None
  end.
Definition classify_results (method : string) (stream : streamArg) (outs : list nat)
    : reflect_error + methodShape_ :=
  match stream with
  | DuplexArg _ i o =>
      match outs with
      | [] => inr (MkShape "duplex" None (Some i) (Some o) false)
      | [e] => if (e =? errType)%nat then inr (MkShape "duplex" None (Some i) (Some o) true)
               else inl (BadResults method)
      | _ => inl (BadResults method)
      end
  | SeqArg _ item =>
      match response_of outs with
      | Some (r, err) => inr (MkShape "client_stream" (Some r) (Some item) None err)
      | None => inl (BadResults method)
      end
  | NoStream =>
      match r ← head outs; seq2ElemType r with
      | Some item =>
          match outs with
          | [_] => inr (MkShape "server_stream" None None (Some item) false)
          | [_; e] => if (e =? errType)%nat then inr (MkShape "server_stream" None None (Some item) true)
                      else inl (BadResults method)
          | _ => inl (BadResults method)
          end
      | None =>
          match response_of outs with
          | Some (r, err) => inr (MkShape "unary" (Some r) None None err)
          | None => inl (BadResults method)
          end
      end
  end.

(** The schema of the synthetic request. *)
Fixpoint param_fields (fuel : nat) (params : list reflectedBusinessParam) (properties : Object)
    (required : list json) : Builds (Object * list json) := fun b =>
  match params with
  | [] => Some (properties, required, b)
  | p :: params =>
      match typeSchema fuel (rb_typ p) b with
      | None => None
      | Some (s, b) =>
          param_fields fuel params (obj_set (rb_name p) (JObject s) properties)
            (if is_kind KPointer (rb_typ p) then required else required ++ [JString (rb_name p)]) b
      end
  end.
Definition request_schema (fuel : nat) (title : string) (params : list reflectedBusinessParam) : option Object :=
  match param_fields fuel params [] [] newBuilder with
  | None => None
  | Some (properties, required, b) => Some (with_defs (sb_defs b) (struct_object title properties required))
  end.

(** Methods without a context are skipped. *)
Definition takes_context (m : goMethod) : bool :=
  match gm_In m with
  | ctx :: _ => (ctx =? rpcCtxType)%nat || (ctx =? stdCtxType)%nat
  | [] => false
  end.

(** What the closure of a method captures. *)
Record callPlan := MkPlan {
  cp_params : list reflectedBusinessParam;
  cp_injected : list (nat * nat);
  cp_stream : streamArg;
  cp_rpcCtx : bool;
  cp_totalIn : nat;
  cp_shape : methodShape_ }.

Definition reflect_plan (has_dep : nat -> bool) (m : goMethod) : reflect_error + callPlan :=
  let ins := tail (gm_In m) in
  match classify_args (gm_Name m) (gm_paramNames m) (business_args has_dep ins) [] with
  | inl e => inl e
  | inr (stream, params) =>
      match classify_results (gm_Name m) stream (gm_Out m) with
      | inl e => inl e
      | inr sh =>
          let rpc := match gm_In m with ctx :: _ => (ctx =? rpcCtxType)%nat | [] => false end in
          inr (MkPlan params (injected_args has_dep ins) stream rpc (S (length (gm_In m))) sh)
      end
  end.

Definition duplex_reason (shape : string) (doc : string) : string :=
  if String.eqb shape "duplex" then or_default doc "interactive duplex channel" else EmptyString.

(** One method: its declaration, the options of its comment and of the service, and
    its plan. *)
Definition reflect_method (fuel : nat) (structName : string) (has_dep : nat -> bool) (m : goMethod) (s : serviceDecl)
    : option (reflect_error + methodDecl * list MethodOption * callPlan) :=
  let rpcName := camelToSnake (gm_Name m) in
  match reflect_plan has_dep m with
  | inl e => Some (inl e)
  | inr plan =>
      let params := cp_params plan in
      let sh := cp_shape plan in
      let title := structName +:+ gm_Name m +:+ "Request" in
      request ← request_schema fuel title params;
      response ← schema_if fuel (sh_resp sh);
      input ← schema_if fuel (sh_in sh);
      output ← schema_if fuel (sh_out sh);
      let docs := if is_empty (gm_doc m) then [] else
                  let '(clean, opts) := parseDocAnnotations (gm_doc m) in Doc clean :: opts in
      Some (inr (MkMethodDecl rpcName (sh_stream sh) None (sh_resp sh) (sh_in sh) (sh_out sh)
                   (rb_name <$> params) title true noOptions (duplex_reason (sh_stream sh) (gm_doc m))
                   (Some request) response input output,
                 docs ++ default [] (sd_methodOpts s !! rpcName), plan))
  end.

(** The loop over the methods; reflect orders them by name. *)
Fixpoint reflect_methods (fuel : nat) (structName : string) (has_dep : nat -> bool) (ms : list goMethod)
    (s : serviceDecl) : option (reflect_error + serviceDecl) :=
  match ms with
  | [] => Some (inr s)
  | m :: ms =>
      if negb (takes_context m) then reflect_methods fuel structName has_dep ms s
      else match reflect_method fuel structName has_dep m s with
      | None => None
      | Some (inl e) => Some (inl e)
      | Some (inr (md, opts, _)) =>
          match add fuel md opts s with
          | None => None
          | Some (inl p) => Some (inl (AddPanicked p))
          | Some (inr s) => reflect_methods fuel structName has_dep ms s
          end
      end
  end.

(** The service that the tag declares, before the options. *)
Definition tag_targeted (tag : list (string * string)) : bool :=
  let t := ToLower_ (TrimSpace_ (tag_get tag "targeted")) in String.eqb t "true" || String.eqb t "1".
Definition tagged_service (st : nat) (tag : list (string * string)) : reflect_error + serviceDecl :=
  let raw := or_default (TrimSpace_ (tag_get tag "name")) (camelToSnake (rt_Name (type_of st))) in
  match normalizeServiceName raw with
  | inl e => inl (InvalidName e)
  | inr (full, version) =>
      let balance := tag_get tag "balance" in
      match (if is_empty balance then inr RoundRobin else parseBalanceTag balance) with
      | inl t => inl (UnknownBalance t)
      | inr bal =>
          inr (MkServiceDecl full version
                 (match tag_lookup tag "description" with Some d => Some d | None => tag_lookup tag "doc" end)
                 (tag_targeted tag) bal
                 (or_default (TrimSpace_ (tag_get tag "module")) (rt_PkgPath (type_of st))) [] ∅)
      end
  end.

(** [ReflectService]; the providers are those of its options, [order] that of a map. *)
Definition ReflectService {V E} (fuel : nat) (t : nat) (methods : list goMethod) (opts : list (option ServiceOption))
    (order : list nat) (providers : list (option (depSpec V E))) : option (reflect_error + serviceDecl) :=
  st ← structType fuel t;
  match st with
  | None => Some (inl NotStruct)
  | Some st =>
      match findServiceMetaTag st with
      | None => Some (inl NoServiceMeta)
      | Some tag =>
          match tagged_service st tag with
          | inl e => Some (inl e)
          | inr s =>
              let s := fold_left (fun s o => match o with Some o => applyService o s | None => s end) opts s in
              match newDependencyRegistry order providers with
              | None => None
              | Some (inl e) => Some (inl (BadDependencies e))
              | Some (inr reg) =>
                  match reflect_methods fuel (rt_Name (type_of st)) (has (Some reg)) methods s with
                  | Some (inr s) => Some (match sd_methods s with [] => inl NoMethods | _ => inr s end)
                  | other => other
                  end
              end
          end
      end
  end.
End Reflect.

(** ** Parameters of a call *)

Section Parameters.
Context `{Truncation} {V : Type} (decode : nat -> json -> option V) (zero : nat -> V).

(** The field of a parameter, or the zero value of its type. *)
Fixpoint decode_fields (params : list reflectedBusinessParam) (fields : list (string * json))
    : string + list V :=
  match params with
  | [] => inr []
  | p :: params =>
      match (match lookup_last (rb_name p) fields with
             | None => Some (zero (rb_typ p))
             | Some v => decode (rb_typ p) v
             end) with
      | None => inl (rb_name p)
      | Some v =>
          match decode_fields params fields with
          | inl name => inl name
          | inr vs => inr (v :: vs)
          end
      end
  end.
Definition not_decoded_at (path : string) : json :=
  JArray [JObject [("path"%string, JString path); ("code"%string, JString "type");
                   ("message"%string, JString "Input does not decode")]].
Definition decodeReflectedParams (schema : Object) (params : list reflectedBusinessParam) (raw : string)
    : option (Error + list V) :=
  let raw := if is_empty raw || String.eqb raw "null" then "{}"%string else raw in
  vs ← validate schema raw;
  let invalid := detailed CodeInvalidArgument "Invalid request" "server" "request" false in
  Some (match vs with
        | _ :: _ => inl (with_violations invalid (violationList vs))
        | [] =>
            match unmarshal raw with
            | Some (JObject fields) =>
                match decode_fields params fields with
                | inl name => inl (with_violations invalid (not_decoded_at name))
                | inr vals => inr vals
                end
            | Some JNull => match decode_fields params [] with
                            | inl name => inl (with_violations invalid (not_decoded_at name))
                            | inr vals => inr vals
                            end
            | _ => inl (with_violations invalid (not_decoded_at EmptyString))
            end
        end).

(** The map that interceptors see; of two parameters with one name the last counts. *)
Definition decodedMap (params : list reflectedBusinessParam) (vals : list V) : gmap string V :=
  fold_left (fun m pv => <[rb_name pv.1 := pv.2]> m) (zip params vals) ∅.
End Parameters.

(** ** The closure [mEntry.invoke] *)

Inductive callArg (V : Type) :=
  | ReceiverArg | ContextArg (rpc : bool) | ParamArg (v : V) | InjectedArg (v : value V) | StreamHandle.
Arguments ReceiverArg {V}. Arguments ContextArg {V} _. Arguments ParamArg {V} _.
Arguments InjectedArg {V} _. Arguments StreamHandle {V}.

(** [args[index] = v] for every index. *)
Definition store_args {A} (indices : list nat) (vs : list A) (args : list (option A)) : list (option A) :=
  fold_left (fun args iv => <[iv.1 := Some iv.2]> args) (zip indices vs) args.

Definition stream_index (stream : streamArg) : list nat :=
  match stream with DuplexArg i _ _ | SeqArg i _ => [i] | NoStream => [] end.

Section Calls.
Context {V E A : Type}.

Definition callArgs (plan : callPlan) (paramVals : list V) (diVals : list (value V)) : list (option (callArg V)) :=
  let args := store_args [0; 1]%nat [ReceiverArg; ContextArg (cp_rpcCtx plan)] (replicate (cp_totalIn plan) None) in
  let args := store_args (rb_argIndex <$> cp_params plan) (ParamArg <$> paramVals) args in
  let args := store_args (cp_injected plan).*1 (InjectedArg <$> diVals) args in
  store_args (stream_index (cp_stream plan)) [StreamHandle] args.

(** The results of the method; a sequence may be nil. *)
Inductive result :=
  | ErrorResult (err : option E) | ValueResult (v : V) | SeqResult (seq : option V).

(** The switch on the results, [None] for the nil result; [drain] is
    [drainServerStreamSeq], whose errors are those of the SDK or of the method. *)
Definition call_results (sh : methodShape_) (drain : V -> option (Error + E)) (results : list result)
    : outcome E (option V) :=
  let rest :=
    match results with
    | ValueResult v :: _ => Returned (inr (Some v))
    | SeqResult (Some q) :: _ =>
        match drain q with Some err => Returned (inl err) | None => Returned (inr None) end
    | SeqResult None :: _ => Returned (inr None)
    | _ => Returned (inr None)
    end in
  match last results with
  | Some (ErrorResult (Some err)) => if sh_returnsErr sh then Returned (inl (inr err)) else rest
  | _ => rest
  end.

(** A call: the parameters, the providers, then the method behind the interceptors;
    [method] is [fnVal.Call], [None] a panic. *)
Definition invoke_reflected `{Truncation} `{Signatures} `{Types} `{HeaderValues}
    (decode : nat -> json -> option V) (zero : nat -> V)
    (intercept : gmap string V -> outcome E (option V) -> outcome E (option V))
    (method : list (option (callArg V)) -> option (list result)) (drain : V -> option (Error + E))
    (reg : gmap nat (depSpec V E)) (metadata : list (string * string)) (depth : nat)
    (schema : Object) (plan : callPlan) (raw : string) : option (outcome E (option V) * list event) :=
  decoded ← decodeReflectedParams decode zero schema (cp_params plan) raw;
  match decoded with
  | inl e => Some (Returned (inl (inl e)), [])
  | inr vals =>
      invoke reg metadata depth (cp_injected plan).*2 (fun diVals =>
        intercept (decodedMap (cp_params plan) vals)
          (match method (callArgs plan vals diVals) with
           | Some results => call_results (cp_shape plan) drain results
           | None => CallPanicked
           end))
  end.
End Calls.

(** ** Streams *)

Section Sequences.
Context `{Truncation} {Item : Type} (decode : string -> option Item) (schema : Object).

(** The sequence of [makeClientStreamSeq]: what it yields of the answers of
    [nextInput], each with what [ctx.Err] says before ([contextError]). *)
Fixpoint client_stream_seq (yield : received Item -> bool) (nexts : list (option Error * received string))
    : option (list (received Item)) :=
  match nexts with
  | [] => Some []
  | (Some err, _) :: _ => Some [Failed (MeshError err)]
  | (None, EndOfInput) :: _ => Some []
  | (None, Failed err) :: _ => Some [Failed err]
  | (None, Received raw) :: nexts =>
      item ← decodeInto decode schema raw "input_item" "Invalid input stream item";
      match item with
      | inl e => Some [Failed (MeshError e)]
      | inr item =>
          if yield (Received item)
          then items ← client_stream_seq yield nexts; Some (Received item :: items)
          else Some [Received item]
      end
  end.

(** [drainServerStreamSeq] of a sequence that stops when it is told to: what the
    method yields, each with what [ctx.Err] says then; [send] is [sendOutput].  The
    items that were sent, and the error. *)
Fixpoint drain_seq {Out E} (send : Out -> option E) (contextError : E -> E)
    (yields : list (option E * (Out * option E))) : list Out * option E :=
  match yields with
  | [] => ([], None)
  | (ctx, (item, err)) :: yields =>
      match ctx, err, send item with
      | Some e, _, _ => ([], Some (contextError e))
      | None, Some e, _ => ([], Some e)
      | None, None, Some e => ([], Some e)
      | None, None, None => let '(sent, e) := drain_seq send contextError yields in (item :: sent, e)
      end
  end.
End Sequences.
