(* ===== verification/Reflecting.v ===== *)
(** * Calls of reflected methods

    The call that the closure of a reflected method makes: which argument of the Go
    method holds the context, a parameter, an injected value or the stream.  The
    sequences of reflected streams behave like those of the [Handle] functions. *)
From S2P Require Import Prelude GoStd Json Libs LocalSock Protocol Outbox Breaker Auth State.
From S2P Require Import Deadline Dedup Contract Objects Balance Management OpenApi Router.
From S2P Require Import GoText Printing Literals SdkNames SdkRuntime SdkServer SdkSchema SdkInject Injection SdkService SdkEncoding SdkReflect.
#[local] Open Scope Z_scope.

(** ** Definitions *)

Section Placed.
Context `{Types} `{AnyValues} `{Signatures} `{ReflectTypes} {V : Type}.

Definition stream_type (t : nat) : bool :=
  match duplexInOut t, seq2ElemType t with None, None => false | _, _ => true end.

(** What a parameter is decoded from: its field, or nothing. *)
Definition field_value (decode : nat -> json -> option V) (zero : nat -> V) (fields : list (string * json))
    (p : reflectedBusinessParam) : option V :=
  match lookup_last (rb_name p) fields with
  | None => Some (zero (rb_typ p))
  | Some v => decode (rb_typ p) v
  end.

(** The argument for the [i]-th type behind the context: the value [given] for that
    type in the scope of the call, the stream, which no other argument of the request follows,
    or the parameter with its own field. *)
Definition placed_at (has_dep : nat -> bool) (ins : list nat) (plan : callPlan) (given : gmap nat (value V))
    (field : reflectedBusinessParam -> option V) (i t : nat) (arg : callArg V) : Prop :=
  if has_dep t then
    exists v, given !! t = Some v /\ arg = InjectedArg v
  else if stream_type t then
    arg = StreamHandle /\ forall k t', ins !! k = Some t' -> (i < k)%nat -> has_dep t' = true
  else
    exists p v, p ∈ cp_params plan /\ rb_argIndex p = (2 + i)%nat /\ rb_typ p = t /\
      field p = Some v /\ arg = ParamArg v.

(** Every argument of the method is there and of the right kind. *)
Definition placed (has_dep : nat -> bool) (ctx : nat) (ins : list nat) (plan : callPlan)
    (given : gmap nat (value V)) (field : reflectedBusinessParam -> option V) (args : list (callArg V)) : Prop :=
  length args = (2 + length ins)%nat /\
  args !! 0%nat = Some ReceiverArg /\
  args !! 1%nat = Some (ContextArg (ctx =? rpcCtxType)%nat) /\
  forall i t, ins !! i = Some t ->
    exists arg, args !! (2 + i)%nat = Some arg /\ placed_at has_dep ins plan given field i t arg.
End Placed.

(** ** Storing arguments *)

Section Store.
Context {A : Type}.
Implicit Types (ks : list nat) (vs : list A) (args : list (option A)).

Lemma store_length ks vs args : length (store_args ks vs args) = length args.
Proof.
  unfold store_args. revert vs args. induction ks as [|k ks IH]; intros [|v vs] args; try done.
  cbn. rewrite IH. apply length_insert.
Qed.

Lemma store_other ks vs args k : k ∉ ks -> store_args ks vs args !! k = args !! k.
Proof.
  unfold store_args. revert vs args. induction ks as [|k' ks IH]; intros [|v vs] args; try done.
  intros [Hk Hks]%not_elem_of_cons. cbn. rewrite IH by done. by apply list_lookup_insert_ne.
Qed.

Lemma store_at ks vs args j k v : NoDup ks -> ks !! j = Some k -> vs !! j = Some v -> (k < length args)%nat ->
  store_args ks vs args !! k = Some (Some v).
Proof.
  unfold store_args. revert vs args j. induction ks as [|k' ks IH]; intros [|v' vs] args [|j]; try done; cbn.
  - intros [Hk _]%NoDup_cons [= ->] [= ->] Hlt. pose proof (store_other ks vs (<[k := Some v]> args) k Hk) as E.
    unfold store_args in E. rewrite E. by apply list_lookup_insert_eq.
  - intros [_ Hnd]%NoDup_cons Hj Hv Hlt. apply (IH _ _ j); [done..|]. by rewrite length_insert.
Qed.
End Store.

(** ** The plan of a method *)

Section Plans.
Context `{Types} `{AnyValues} `{Signatures} `{ReflectTypes}.

Lemma arguments_at ins i t : (i, t) ∈ arguments ins <-> exists k, i = (2 + k)%nat /\ ins !! k = Some t.
Proof.
  unfold arguments. rewrite list_elem_of_lookup. split.
  - intros [k [Hk Ht]%lookup_zip_Some]. apply lookup_seq in Hk as [-> _]. by exists k.
  - intros (k & -> & Hk). exists k. apply lookup_zip_Some. split; [|done].
    apply lookup_seq. split; [done|]. by eapply lookup_lt_Some.
Qed.

Lemma filtered_sublist (P : nat * nat -> Prop) `{!forall x, Decision (P x)} l : (filter P l).*1 `sublist_of` l.*1.
Proof.
  induction l as [|x l IH]; [done|]. rewrite filter_cons. case_decide; cbn; by constructor.
Qed.

Lemma arguments_fst ins : (arguments ins).*1 = seq 2 (length ins).
Proof. unfold arguments. apply fst_zip. by rewrite length_seq. Qed.

Lemma filtered_NoDup (P : nat * nat -> Prop) `{!forall x, Decision (P x)} ins : NoDup (filter P (arguments ins)).*1.
Proof. eapply sublist_NoDup; [|apply filtered_sublist]. rewrite arguments_fst. apply NoDup_seq. Qed.

(** The order of the arguments is that of their indices. *)
Lemma filtered_last (P : nat * nat -> Prop) `{!forall x, Decision (P x)} ins l x :
  filter P (arguments ins) = l ++ [x] -> forall y, y ∈ filter P (arguments ins) -> (y.1 <= x.1)%nat.
Proof.
  unfold arguments. generalize 2%nat. revert l. induction ins as [|t ins IH]; intros l n; [by destruct l|].
  cbn [length seq zip]. rewrite filter_cons. case_decide as HP; [|by apply IH].
  destruct l as [|y0 l]; cbn.
  - intros [= <- Hnil]. rewrite Hnil. intros y ->%list_elem_of_singleton. done.
  - intros [= <- Hl] y [->|Hy]%elem_of_cons; [|by eapply IH].
    assert (x ∈ filter P (zip (seq (S n) (length ins)) ins)) as Hx by (rewrite Hl; set_solver).
    apply list_elem_of_filter in Hx as [_ Hx]. apply (list_elem_of_fmap_2 fst) in Hx.
    rewrite fst_zip in Hx by by rewrite length_seq. apply elem_of_seq in Hx. cbn. lia.
Qed.

(** The stream argument, if there is one, as an argument. *)
Definition streams_from (stream : streamArg) (slot : list (nat * nat)) : Prop :=
  match stream with
  | NoStream => slot = []
  | DuplexArg i _ _ | SeqArg i _ => exists t, slot = [(i, t)] /\ stream_type t = true
  end.

(** The loop splits its arguments into parameters and at most a stream behind them. *)
Lemma classify_splits method names args params stream params' :
  classify_args method names args params = inr (stream, params') ->
  exists new slot, params' = params ++ new /\ args = ((fun p => (rb_argIndex p, rb_typ p)) <$> new) ++ slot /\
    streams_from stream slot /\ forall p, p ∈ new -> stream_type (rb_typ p) = false.
Proof.
  revert params. induction args as [|[arg t] args IH]; intros params; cbn.
  - intros [= <- <-]. exists [], []. rewrite app_nil_r. split_and!; try done. intros p Hp. by apply not_elem_of_nil in Hp.
  - destruct (duplexInOut t) as [[i o]|] eqn:Ed.
    { destruct args; [|done]. intros [= <- <-]. exists [], [(arg, t)]. rewrite app_nil_r.
      split_and!; try done; [|intros p Hp; by apply not_elem_of_nil in Hp].
      exists t. split; [done|]. unfold stream_type. by rewrite Ed. }
    destruct (seq2ElemType t) as [item|] eqn:Es.
    { destruct args; [|done]. intros [= <- <-]. exists [], [(arg, t)]. rewrite app_nil_r.
      split_and!; try done; [|intros p Hp; by apply not_elem_of_nil in Hp].
      exists t. split; [done|]. unfold stream_type. by rewrite Ed, Es. }
    intros (new & slot & -> & -> & Hs & Hnew)%IH. eexists (_ :: new), slot.
    rewrite <- app_assoc. split_and!; [done..|].
    intros p [->|Hp]%elem_of_cons; [|by auto]. cbn. unfold stream_type. by rewrite Ed, Es.
Qed.

Lemma plan_splits has_dep m ctx ins plan : gm_In m = ctx :: ins -> reflect_plan has_dep m = inr plan ->
  cp_injected plan = injected_args has_dep ins /\ cp_totalIn plan = (2 + length ins)%nat /\
  cp_rpcCtx plan = (ctx =? rpcCtxType)%nat /\
  exists slot, business_args has_dep ins = ((fun p => (rb_argIndex p, rb_typ p)) <$> cp_params plan) ++ slot /\
    streams_from (cp_stream plan) slot /\ forall p, p ∈ cp_params plan -> stream_type (rb_typ p) = false.
Proof.
  intros Hin. unfold reflect_plan. rewrite Hin. cbn [tail].
  destruct (classify_args _ _ _ _) as [|[stream params]] eqn:E; [done|].
  apply classify_splits in E as (new & slot & -> & Hb & Hs & Hnew).
  destruct (classify_results _ _ _); [done|]. intros [= <-]. cbn. split_and!; [done..|]. by exists slot.
Qed.
End Plans.

(** ** The arguments of a call *)

Section Arguments.
Context `{Types} `{AnyValues} `{Signatures} `{ReflectTypes} {V : Type}.
Implicit Types (vals : list V) (dis : list (value V)).

(** The indices of the three kinds of arguments behind the context do not meet. *)
Lemma business_index has_dep ins i t : ins !! i = Some t -> (2 + i)%nat ∈ (business_args has_dep ins).*1 ->
  has_dep t = false.
Proof.
  intros Ht Hi. apply list_elem_of_fmap in Hi as ([k t'] & Hk & Hb).
  apply list_elem_of_filter in Hb as [Hd Ha]. apply arguments_at in Ha as (k' & -> & Hk').
  cbn in *. assert (k' = i) as -> by lia. congruence.
Qed.
Lemma injected_index has_dep ins i t : ins !! i = Some t -> (2 + i)%nat ∈ (injected_args has_dep ins).*1 ->
  has_dep t = true.
Proof.
  intros Ht Hi. apply list_elem_of_fmap in Hi as ([k t'] & Hk & Hb).
  apply list_elem_of_filter in Hb as [Hd Ha]. apply arguments_at in Ha as (k' & -> & Hk').
  cbn in *. assert (k' = i) as -> by lia. congruence.
Qed.

Lemma all_there {A} (l : list (option A)) :
  (forall k, (k < length l)%nat -> exists a, l !! k = Some (Some a)) -> exists args, l = Some <$> args.
Proof.
  induction l as [|x l IH]; intros Hl; [by exists []|].
  destruct (Hl 0%nat) as [a [= ->]]; [cbn; lia|]. destruct IH as [args ->].
  { intros k Hk. apply (Hl (S k)). cbn. lia. }
  by exists (a :: args).
Qed.

Section Places.
Context {has_dep : nat -> bool} {ins : list nat} {plan : callPlan} {slot : list (nat * nat)}.
Context (Hinj : cp_injected plan = injected_args has_dep ins).
Context (Hbusiness : business_args has_dep ins = ((fun p => (rb_argIndex p, rb_typ p)) <$> cp_params plan) ++ slot).
Context (Hslot : streams_from (cp_stream plan) slot).

Lemma stream_indices : stream_index (cp_stream plan) = slot.*1.
Proof. destruct (cp_stream plan); cbn in *; [by subst|by destruct Hslot as (t & -> & _)..]. Qed.
Lemma business_indices :
  (business_args has_dep ins).*1 = (rb_argIndex <$> cp_params plan) ++ stream_index (cp_stream plan).
Proof. by rewrite Hbusiness, fmap_app, <- list_fmap_compose, stream_indices. Qed.
Lemma indices_NoDup : NoDup ((rb_argIndex <$> cp_params plan) ++ stream_index (cp_stream plan)).
Proof. rewrite <- business_indices. apply filtered_NoDup. Qed.

Lemma business_in i t : ins !! i = Some t -> has_dep t = false -> (2 + i, t)%nat ∈ business_args has_dep ins.
Proof.
  intros Hi Hd. unfold business_args. rewrite list_elem_of_filter, arguments_at. split; [done|]. by exists i.
Qed.

(** Nothing behind the context is stored in the first two places. *)
Lemma index_ge_2 k : k ∈ (business_args has_dep ins).*1 \/ k ∈ (cp_injected plan).*1 -> (2 <= k)%nat.
Proof.
  rewrite Hinj. intros [Hk|Hk]; apply list_elem_of_fmap in Hk as ([k' t] & -> & Hk);
    apply list_elem_of_filter in Hk as [_ (i & -> & _)%arguments_at]; cbn; lia.
Qed.

Lemma callArgs_length vals dis : length (callArgs plan vals dis) = cp_totalIn plan.
Proof. unfold callArgs. by rewrite !store_length, length_replicate. Qed.

Lemma callArgs_first vals dis k arg : cp_totalIn plan = (2 + length ins)%nat ->
  [ReceiverArg; ContextArg (cp_rpcCtx plan)] !! k = Some arg -> callArgs plan vals dis !! k = Some (Some arg).
Proof.
  intros Htot Hk. assert (k < 2)%nat by (by apply lookup_lt_Some in Hk).
  assert (k ∉ (business_args has_dep ins).*1) as Hb by (intros Hk'; pose proof (index_ge_2 k (or_introl Hk')); lia).
  rewrite business_indices, not_elem_of_app in Hb. destruct Hb as [Hb1 Hb2].
  assert (k ∉ (cp_injected plan).*1) as Hi by (intros Hk'; pose proof (index_ge_2 k (or_intror Hk')); lia).
  unfold callArgs. do 3 (rewrite store_other by done).
  apply (store_at _ _ _ k); [|destruct k as [|[|k]]; [done|done|lia]|done|rewrite length_replicate; lia].
  repeat constructor; set_solver.
Qed.

Lemma injected_placed vals dis i t : length dis = length (cp_injected plan) ->
  ins !! i = Some t -> has_dep t = true -> (2 + i < cp_totalIn plan)%nat ->
  exists j v, cp_injected plan !! j = Some (2 + i, t)%nat /\ dis !! j = Some v /\
    callArgs plan vals dis !! (2 + i)%nat = Some (Some (InjectedArg v)).
Proof.
  intros Hdis Hi Hd Hlt.
  assert ((2 + i, t)%nat ∈ cp_injected plan) as Hin.
  { rewrite Hinj. unfold injected_args. rewrite list_elem_of_filter, arguments_at. split; [done|]. by exists i. }
  apply list_elem_of_lookup in Hin as [j Hj].
  destruct (lookup_lt_is_Some_2 dis j) as [v Hv]; [rewrite Hdis; by eapply lookup_lt_Some|].
  exists j, v. split_and!; [done..|]. unfold callArgs. rewrite store_other.
  - apply (store_at _ _ _ j).
    + rewrite Hinj. apply filtered_NoDup.
    + by rewrite list_lookup_fmap, Hj.
    + by rewrite list_lookup_fmap, Hv.
    + by rewrite !store_length, length_replicate.
  - intros Hs. assert ((2 + i)%nat ∈ (business_args has_dep ins).*1) as Hb by (rewrite business_indices; set_solver).
    apply (business_index _ _ _ _ Hi) in Hb. congruence.
Qed.

Lemma stream_placed vals dis i t : (forall p, p ∈ cp_params plan -> stream_type (rb_typ p) = false) ->
  ins !! i = Some t -> has_dep t = false -> stream_type t = true -> (2 + i < cp_totalIn plan)%nat ->
  callArgs plan vals dis !! (2 + i)%nat = Some (Some StreamHandle) /\
  forall k t', ins !! k = Some t' -> (i < k)%nat -> has_dep t' = true.
Proof.
  intros Hp Hi Hd Ht Hlt. pose proof (business_in i t Hi Hd) as Hin. rewrite Hbusiness in Hin.
  assert (slot = [(2 + i, t)%nat]) as Heq.
  { apply elem_of_app in Hin as [(p & [= E1 E2] & Hin)%list_elem_of_fmap|Hin].
    - rewrite E2, (Hp p Hin) in Ht. done.
    - pose proof Hslot as Hs. destruct (cp_stream plan); cbn in Hs; [subst; by apply not_elem_of_nil in Hin|..];
        destruct Hs as (t' & -> & _); apply list_elem_of_singleton in Hin; by rewrite Hin. }
  split.
  - unfold callArgs. apply (store_at _ _ _ 0%nat); [| |done|by rewrite !store_length, length_replicate].
    + rewrite stream_indices, Heq. apply NoDup_singleton.
    + by rewrite stream_indices, Heq.
  - intros k t' Hk Hlt'. destruct (has_dep t') eqn:Hd'; [done|]. exfalso.
    pose proof (business_in k t' Hk Hd') as Hb. rewrite Heq in Hbusiness.
    pose proof (filtered_last _ _ _ _ Hbusiness _ Hb) as Hle. cbn in Hle. lia.
Qed.

Lemma param_placed vals dis field i t : Forall2 (fun p v => field p = Some v) (cp_params plan) vals ->
  ins !! i = Some t -> has_dep t = false -> stream_type t = false -> (2 + i < cp_totalIn plan)%nat ->
  exists p v, p ∈ cp_params plan /\ rb_argIndex p = (2 + i)%nat /\ rb_typ p = t /\ field p = Some v /\
    callArgs plan vals dis !! (2 + i)%nat = Some (Some (ParamArg v)).
Proof.
  intros Hvals Hi Hd Ht Hlt. pose proof (business_in i t Hi Hd) as Hin. rewrite Hbusiness in Hin.
  apply elem_of_app in Hin as [(p & [= E1 E2] & Hin)%list_elem_of_fmap|Hin].
  2: { pose proof Hslot as Hs. destruct (cp_stream plan); cbn in Hs; [subst; by apply not_elem_of_nil in Hin|..];
         destruct Hs as (t' & -> & Hs); apply list_elem_of_singleton in Hin; injection Hin; congruence. }
  apply list_elem_of_lookup in Hin as [j Hj]. destruct (Forall2_lookup_l _ _ _ _ _ Hvals Hj) as (v & Hv & Hf).
  exists p, v. split_and!; [by eapply list_elem_of_lookup_2|done..|].
  pose proof indices_NoDup as Hnd. apply NoDup_app in Hnd as (Hnd1 & Hnd2 & _).
  assert ((2 + i)%nat ∈ rb_argIndex <$> cp_params plan) as Hidx.
  { apply list_elem_of_fmap. exists p. split; [done|]. by eapply list_elem_of_lookup_2. }
  unfold callArgs. rewrite store_other by auto. rewrite store_other.
  - apply (store_at _ _ _ j); [done|by rewrite list_lookup_fmap, Hj; cbn; f_equal|by rewrite list_lookup_fmap, Hv|].
    by rewrite !store_length, length_replicate.
  - rewrite Hinj. intros Hx. apply (injected_index _ _ _ _ Hi) in Hx. congruence.
Qed.
End Places.

Lemma callArgs_complete has_dep m ctx ins plan vals dis given field :
  gm_In m = ctx :: ins -> reflect_plan has_dep m = inr plan ->
  Forall2 (fun t v => given !! t = Some v) (cp_injected plan).*2 dis ->
  Forall2 (fun p v => field p = Some v) (cp_params plan) vals ->
  exists args, callArgs plan vals dis = Some <$> args /\ placed has_dep ctx ins plan given field args.
Proof.
  intros Hin Hplan Hdis Hvals.
  pose proof (plan_splits _ _ _ _ _ Hin Hplan) as (Hinj & Htot & Hrpc & slot & Hb & Hs & Hp).
  assert (forall i t, ins !! i = Some t -> exists arg, callArgs plan vals dis !! (2 + i)%nat = Some (Some arg) /\
    placed_at has_dep ins plan given field i t arg) as Hat.
  { intros i t Hi. assert (2 + i < cp_totalIn plan)%nat as Hlt by (rewrite Htot; apply lookup_lt_Some in Hi; lia).
    unfold placed_at. destruct (has_dep t) eqn:Hd; [|destruct (stream_type t) eqn:Ht].
    - destruct (injected_placed Hinj Hb Hs vals dis i t) as (j & v & Hj & Hv & Harg); [|done..|].
      { apply Forall2_length in Hdis. by rewrite length_fmap in Hdis. }
      exists (InjectedArg v). split; [done|]. exists v. split; [|done].
      destruct (Forall2_lookup_r _ _ _ _ _ Hdis Hv) as (t' & Ht' & Hgiven).
      rewrite list_lookup_fmap, Hj in Ht'. cbn in Ht'. congruence.
    - destruct (stream_placed Hb Hs vals dis i t); eauto.
    - destruct (param_placed Hinj Hb Hs vals dis field i t) as (p & v & ?); [done..|].
      exists (ParamArg v). split; [tauto|]. exists p, v. tauto. }
  pose proof (callArgs_first Hinj Hb Hs vals dis 0 _ Htot eq_refl) as Hrecv.
  pose proof (callArgs_first Hinj Hb Hs vals dis 1 _ Htot eq_refl) as Hctx.
  destruct (all_there (callArgs plan vals dis)) as [args Hargs].
  { intros [|[|k]] Hk; [eauto..|]. rewrite callArgs_length, Htot in Hk.
    destruct (lookup_lt_is_Some_2 ins k) as [t Ht]; [lia|]. destruct (Hat k t Ht) as (arg & ? & _). eauto. }
  exists args. split; [done|]. rewrite Hargs in *.
  assert (forall k a, (Some <$> args) !! k = Some (Some a) -> args !! k = Some a) as Hsome.
  { intros k a. rewrite list_lookup_fmap. destruct (args !! k); cbn; congruence. }
  split_and!; [|by apply Hsome|apply Hsome; by rewrite <- Hrpc|].
  - rewrite <- (length_fmap Some args), <- Hargs, callArgs_length. done.
  - intros i t Hi. destruct (Hat i t Hi) as (arg & Harg & ?). exists arg. split; [by apply Hsome|done].
Qed.
End Arguments.

(** ** One call *)

Section Call.
Context {V E : Type} `{Types} `{AnyValues} `{Signatures} `{ReflectTypes} `{HeaderValues} `{Truncation}.
Context (decode : nat -> json -> option V) (zero : nat -> V).

(** The fields of a request; no request is an empty one. *)
Definition request_fields (raw : string) (fields : list (string * json)) : Prop :=
  match unmarshal (if is_empty raw || String.eqb raw "null" then "{}"%string else raw) with
  | Some (JObject fs) => fields = fs
  | Some JNull => fields = []
  | _ => False
  end.

Lemma fields_decoded params fields vals : decode_fields decode zero params fields = inr vals ->
  Forall2 (fun p v => field_value decode zero fields p = Some v) params vals.
Proof.
  revert vals. induction params as [|p params IH]; intros vals; cbn; [intros [= <-]; constructor|].
  change (match lookup_last (rb_name p) fields with
          | Some v => decode (rb_typ p) v | None => Some (zero (rb_typ p)) end) with (field_value decode zero fields p).
  destruct (field_value _ _ _ p) as [v|] eqn:E0; [|done].
  destruct (decode_fields _ _ params fields); [done|]. intros [= <-]. constructor; [done|by apply IH].
Qed.

Lemma params_decoded schema params raw vals :
  decodeReflectedParams decode zero schema params raw = Some (inr vals) ->
  exists fields, request_fields raw fields /\
    Forall2 (fun p v => field_value decode zero fields p = Some v) params vals.
Proof.
  unfold decodeReflectedParams, request_fields. set (raw' := if _ : bool then _ else _).
  destruct (validate schema raw') as [[|]|]; [|done..]. cbn [mbind option_bind].
  destruct (unmarshal raw') as [[]|]; try done.
  - destruct (decode_fields _ _ _ []) eqn:Hd; [done|]. intros [= <-]. exists []. split; [done|by apply fields_decoded].
  - destruct (decode_fields _ _ _ _) eqn:Hd; [done|]. intros [= <-]. eexists. split; [done|by apply fields_decoded].
Qed.

(** C0: a call of a reflected method ends, and the method gets every argument in its
    place: the context, for each parameter the field of its name, for each injected
    type the one value of the call's scope, and the stream, behind all parameters; the
    answer is what the interceptors make of the method's results, or a panic of a
    cleanup.  A request that does not decode calls neither a provider nor the method,
    and a provider that fails keeps the method from being called. *)
Theorem reflected_call_exact m ctx ins plan order providers (reg : gmap nat (depSpec V E)) metadata depth
    intercept method drain schema raw decoded :
  gm_In m = ctx :: ins -> reflect_plan (has (Some reg)) m = inr plan ->
  newDependencyRegistry order providers = Some (inr reg) -> order ≡ₚ (map_to_list (register_all providers)).*1 ->
  headers_end reg metadata depth ->
  decodeReflectedParams decode zero schema (cp_params plan) raw = Some decoded ->
  exists out log,
    invoke_reflected decode zero intercept method drain reg metadata depth schema plan raw = Some (out, log) /\
    match decoded with
    | inl e => out = Returned (inl (inl e)) /\ log = []
    | inr vals =>
        Handled ∉ log \/
        exists given args fields, request_fields raw fields /\
          placed (has (Some reg)) ctx ins plan given (field_value decode zero fields) args /\
          (out = CallPanicked \/
           out = intercept (decodedMap (cp_params plan) vals)
                   (match method (Some <$> args) with
                    | Some results => call_results (cp_shape plan) drain results
                    | None => CallPanicked
                    end))
    end.
Proof.
  intros Hin Hplan Hreg Horder Hend Hdec. unfold invoke_reflected. rewrite Hdec. cbn [mbind option_bind].
  destruct decoded as [e|vals]; [by eexists _, _|].
  pose proof (registry_acyclic _ _ _ Horder Hreg) as Hac. unfold invoke.
  destruct (resolveAll_total reg metadata depth (cp_injected plan).*2 newDepScope Hac Hend) as [[result sc] Hr].
  rewrite Hr. destruct (resolveAll_runs reg metadata depth _ _ Hac _ _ _ (newDepScope_ok reg) Hr)
    as ([Hev _ _ _ _] & _ & _ & Hres).
  destruct (run_cleanups (rev (dp_cleanups sc))) as [cevs panicked] eqn:Hrun.
  destruct (run_cleanups_spec _ _ _ Hrun) as (cleaned & -> & _).
  destruct result as [f|dis].
  - exists (if panicked : bool then CallPanicked else
      match f with SdkError e => Returned (inl (inl e)) | ProviderError e => Returned (inl (inr e)) | Panicked => CallPanicked end),
      (dp_events sc ++ (Cleaned <$> cleaned)). split; [by destruct f|]. left.
    rewrite elem_of_app, list_elem_of_fmap. intros [Hh|(? & ? & _)]; [|done].
    rewrite Forall_forall in Hev. exact (Hev _ Hh).
  - eexists _, _. split; [done|]. right. destruct Hres as [_ Hgiven].
    destruct (params_decoded _ _ _ _ Hdec) as (fields & Hfields & Hvals).
    destruct (callArgs_complete _ _ _ _ _ vals dis (dp_cache sc) _ Hin Hplan Hgiven Hvals) as (args & Hargs & Hplaced).
    exists (dp_cache sc), args, fields. split_and!; [done..|]. rewrite Hargs. destruct panicked; [by left|by right].
Qed.
End Call.

(** ** The streams of requests *)

(** The sequence a reflected method ranges over yields what [All] of the stream of a
    [Handle] function does, while the call's context is not done. *)
Lemma reflected_input_agrees {F : Floats} {Tr : Truncation} {Item} (decode : string -> option Item) schema yield nexts :
  client_stream_seq decode schema yield ((fun next => (None, next)) <$> nexts) = All decode schema yield nexts.
Proof.
  induction nexts as [|[|err|raw] nexts IH]; [done..|]. cbn. rewrite IH.
  destruct (decodeInto decode schema raw _ _) as [[e|item]|]; done.
Qed.

(** ** A service of trees

    The type 8 is a struct with the tag [name:trees.v1]; its method [GetItem] takes a
    name, the database of the test providers and a duplex channel.  The type 7 is a
    string, 20 ServiceMeta, 21 error, 22 the context, 30 the channel. *)
Definition trees_struct : rtype :=
  RType "Trees" "app" KStruct 0 [MkField "ServiceMeta" 20 [("name"%string, "trees.v1"%string)] true true].
#[local] Instance reflected_types : Types :=
  {| type_of := fun t => if (t =? 8)%nat then trees_struct else RType "T" "app" KString 0 [];
     type_string := fun _ => "app.T"; timeType := 50; rawType := 51 |}.
#[local] Instance no_functions : Signatures :=
  {| signature_of := fun _ => None; implements_error := Nat.eqb 21; stdCtxType := 22; rpcCtxType := 23 |}.
#[local] Instance channel_types : ReflectTypes :=
  {| errType := 21; serviceMetaType := 20; duplexInOut := fun t => if (t =? 30)%nat then Some (7, 7)%nat else None |}.
#[local] Instance ascii_cases : LetterCases :=
  {| IsLower := in_range 97 122; IsDigit := in_range 48 57 |}.
#[local] Existing Instance ascii_tables.
#[local] Existing Instance any_values.
#[local] Existing Instance unit_floats.
#[local] Existing Instance all_integral.
#[local] Existing Instance no_values.

Definition get_item : goMethod :=
  MkGoMethod "GetItem" [22; 7; 0; 30]%nat [21%nat] ["ctx"; "name"; "db"; "ch"]%string "Both ends talk.".
Definition get_item_plan : callPlan :=
  MkPlan [MkParam 2 "name" 7] [(3, 0)%nat] (DuplexArg 4 7 7) false 5
    (MkShape "duplex" None (Some 7%nat) (Some 7%nat) true).
Definition get_item_schema : Object := default [] (request_schema 5 "TreesGetItemRequest" (cp_params get_item_plan)).

(** Strings decode to 5; the method fails unless it gets what it needs. *)
Definition decode_name (t : nat) (v : json) : option nat := match v with JString _ => Some 5%nat | _ => None end.
Definition run_item (args : list (option (callArg nat))) : option (list (@result nat unit)) :=
  match args with
  | [Some ReceiverArg; Some (ContextArg false); Some (ParamArg 5%nat); Some (InjectedArg (Made _)); Some StreamHandle] =>
      Some [ErrorResult None]
  | _ => None
  end.
Definition call_item (raw : string) :=
  invoke_reflected decode_name (fun _ => 0%nat) (fun _ out => out) run_item (fun _ => None)
    (test_registry CleansUp) [] 1 get_item_schema get_item_plan raw.

Lemma test_accepted : newDependencyRegistry (test_order CleansUp) (test_providers CleansUp) =
  Some (inr (test_registry CleansUp)).
Proof. vm_compute. reflexivity. Qed.

Lemma item_headers_end : headers_end (test_registry CleansUp) [] 1.
Proof.
  apply headers_end_strip. intros t spec _ _. cbn.
  unfold is_kind, kind, type_of, reflected_types. destruct (Nat.eqb (ds_outType spec) 8); by eexists.
Qed.

Definition oak : string := Encode (JObject [("name"%string, JString "oak")]).
Lemma reflected_call_exact_witness : exists out log,
  call_item oak = Some (out, log) /\
  (Handled ∉ log \/ exists given args fields, request_fields oak fields /\
    placed (has (Some (test_registry CleansUp))) 22 [7; 0; 30]%nat get_item_plan given
      (field_value decode_name (fun _ => 0%nat) fields) args /\
    (out = CallPanicked \/
     out = match run_item (Some <$> args) with
           | Some results => call_results (cp_shape get_item_plan) (fun _ => None) results
           | None => CallPanicked
           end)).
Proof.
  apply (reflected_call_exact decode_name (fun _ => 0%nat) get_item 22 [7; 0; 30]%nat get_item_plan
    (test_order CleansUp) (test_providers CleansUp) (test_registry CleansUp) [] 1 (fun _ out => out) run_item
    (fun _ => None) get_item_schema oak (inr [5%nat])).
  - reflexivity.
  - vm_compute. reflexivity.
  - exact test_accepted.
  - reflexivity.
  - exact item_headers_end.
  - vm_compute. reflexivity.
Defined.

(** That call, and one whose request does not conform. *)
Example item_call :
  reflect_plan (has (Some (test_registry CleansUp))) get_item = inr get_item_plan /\
  call_item oak = Some (Returned (inr None), [Called 0 true; Handled; Cleaned 0]) /\
  (exists e, call_item "null" = Some (Returned (inl (inl e)), []) /\ er_Code e = CodeInvalidArgument).
Proof. split_and!; [vm_compute; reflexivity..|]. eexists. split; vm_compute; reflexivity. Qed.

(** *** What goes wrong *)

(** [ReflectService] of the struct with the database among its providers. *)
Definition reflect_trees (methods : list goMethod) (opts : list (option ServiceOption)) : reflect_error + serviceDecl :=
  default (inl NotStruct)
    (ReflectService 41 8 methods opts (test_order CleansUp) (test_providers CleansUp)).
Definition options_of (r : reflect_error + serviceDecl) : list (string * methodOptions) :=
  match r with inr s => (fun m => (md_name m, md_opts m)) <$> sd_methods s | inl _ => [] end.
(** A unary method with these names of arguments, as the source gives them. *)
Definition unary_method (name : string) (paramNames : list string) : goMethod :=
  MkGoMethod name [22; 7; 7]%nat [7; 21]%nat paramNames EmptyString.
Definition get_method (name : string) : goMethod := unary_method name ["ctx"; "name"; "kind"]%string.

(** [WithMethodOptions] takes "either the Go method name or the snake_case wire name",
    but options under the Go name are never looked at. *)
Theorem go_name_option_ignored :
  options_of (reflect_trees [get_method "GetItem"] [Some (WithMethodOptions "GetItem" [Idempotent])]) =
    [("get_item"%string, noOptions)] /\
  options_of (reflect_trees [get_method "GetItem"] [Some (WithMethodOptions "get_item" [Idempotent])]) =
    [("get_item"%string, apply_option Idempotent noOptions)].
Proof. split; vm_compute; reflexivity. Qed.

(** A parameter named [_] takes the name of another parameter: both are decoded from
    one field, and the request lists it twice among its required fields. *)
Theorem underscore_clashes :
  match reflect_plan (fun _ => false) (unary_method "Grow" ["ctx"; "_"; "arg0"]%string) with
  | inr plan =>
      rb_name <$> cp_params plan = ["arg0"; "arg0"]%string /\
      (default [] (request_schema 5 "R" (cp_params plan))) !! 1%nat =
        Some ("required"%string, JArray [JString "arg0"; JString "arg0"])
  | inl _ => False
  end.
Proof. vm_compute. split; reflexivity. Qed.

(** Two Go methods with one wire name panic in [add], although [ReflectService] returns
    its errors. *)
Theorem wire_names_clash :
  reflect_trees [get_method "GetItem"; get_method "Get_Item"] [] = inl (AddPanicked (DeclaredTwice "get_item")).
Proof. vm_compute. reflexivity. Qed.
